(* ===== verification/_CoqProject ===== *)
-Q . S2P
Prelude.v
Machine.v
Util.v
Arrays.v
Spinlock.v
Pmm.v
Frames.v
PmmFrames.v
Vmm.v
VmmCorrect.v
Kheap.v
VmmNew.v
Heap.v
KheapCorrect.v
Process.v
Scheduler.v
SchedulerCorrect.v
Formatter.v
FormatterCorrect.v
Keyboard.v
Gdt.v
Interrupts.v
InterruptsCorrect.v
Fs.v
Ustar.v
UstarCorrect.v
Listing.v
ListingCorrect.v
Vfs.v
VfsCorrect.v
Prompt.v
PromptCorrect.v
GameOfLife.v
GameOfLifeCorrect.v
Snake.v
SnakeCorrect.v
Syscall.v
SyscallCorrect.v
Ls.v
Shell.v
Games.v
GamesCorrect.v
Entry.v
EntryCorrect.v
User.v
Threads.v
Multitask.v
SyscallEntry.v
Devices.v
Demo.v
DemoCorrect.v
Startup.v
StartupCorrect.v
Boot.v
