(* ===== verification/Prelude.v ===== *)
(** * MmdOS: a verification library

    MmdOS is a small x86-64 kernel in C, started by the Limine boot loader.  This
    library models its code in [src/src/kernel] and [src/src/programs] as
    executable functions and proves what they do.  File names below are relative
    to those two directories.

    ** The program and its model

    The kernel takes page frames from a bitmap ([mm/pmm.c]), builds page tables
    out of them ([mm/vmm.c]) and cuts a heap from them ([mm/kheap.c]).  Processes
    ([scheduler/process.c]) are heap blocks with a context and an address space;
    the timer interrupt ([interrupts/timer.c]) runs the scheduler
    ([scheduler/scheduler.c]) on them.  Interrupts enter through the tables of
    [gdt.c] and [interrupts/idt.c] and the controllers of [cpu/pic.c].  Keys
    arrive in a mailbox ([interrupts/keyboard.c]) that the prompt
    ([terminal/prompt.c]) reads to edit a line and start programs.  Programs use
    system calls ([userland/sys.c]) to reach the file system switch ([fs/vfs.c]),
    which reads a tar archive in memory ([fs/ustar.c]), and to print
    ([lib/print.c], [lib/formatter.c]).  [startup.c] sets all of this up.

    A stateful function is a term of [M S A], a state monad over the component's
    state with four outcomes: [Ok], [Panic] (the kernel's own [panic]), [Fault]
    (an access outside an object, a null call, a number outside a table) and
    [Hang] (a loop that never ends).  [runs m s P] says that [m] returns and [P]
    holds of the result; [safe m s P] allows the panic of the frame allocator for
    lack of memory as well, and no other one; neither allows a fault or a hang, so
    each of them is a termination theorem.  Machine integers are [Z] with the
    wrap-around written out ([u8], [u16], [u32], [u64], [s16], [s32]).  Memory is
    a finite map of bytes.  Code and data outside the sources (the boot
    loader's answers, the bytes of devices, addresses of functions, locals and
    literals, contents of uninitialised locals) are arguments.

    ** Files

    - This file: the monad, its loop and the rules for it, hints and tactics,
      lemmas on lists, bits and ranges.
    - [Machine]: RAM, pointers through the identity map and the direct map, the
      kernel globals of memory management.  [Arrays]: local C arrays.
    - [Util]: [lib/util.c].  [Spinlock]: [lib/spinlock.c], and the interleavings
      of threads on one lock as a step relation.
    - [Pmm]: [mm/pmm.c] and [mm/bitmap.h], with the next-fit specification on sets
      of frames.  [Frames]: the interface of a frame allocator; [PmmFrames]: the
      bitmap allocator is one.
    - [Vmm], [VmmCorrect], [VmmNew]: [mm/vmm.c] over [Frames].
    - [Kheap], [KheapCorrect]: [mm/kheap.c] over [Frames].  [Heap]: the interface
      memory management offers to its users, discharged in [KheapCorrect].
    - [Process], [Scheduler], [SchedulerCorrect]: [scheduler/process.c],
      [scheduler/scheduler.c], [timer_handler], over [Heap].
    - [Formatter], [FormatterCorrect]: [lib/formatter.c], [print.c], [logger.c],
      [panic.c], [terminal/limine_term.c].
    - [Keyboard], [Gdt], [Interrupts], [InterruptsCorrect]: the drivers and tables,
      [cpu/pic.c], the set-up of the timer and of the serial port.
    - [Fs]: the interface of a file system (the function table of [fs/vfs.h]).
      [Ustar], [UstarCorrect]: [fs/ustar.c] over [Heap], an instance of [Fs].
      [Listing], [ListingCorrect]: its directory listing, whose functions cut
      copies of the names in place, against functions on lists of characters.
    - [Vfs], [VfsCorrect]: [fs/vfs.c] over any file system that keeps [Fs].
    - [Prompt], [PromptCorrect]: [terminal/prompt.c] on the console, the process
      table and the keyboard.
    - [Syscall], [SyscallCorrect]: [userland/sys.c], [cat.c] and [ls.c] on the
      switch and the prompt together.  [Ls]: a directory through the switch, over
      any file system that keeps the part of [Fs] on directories.  [Shell]: [cat]
      and [ls] as whole programs, with the loop that reads their path.
    - [GameOfLife], [GameOfLifeCorrect], [Snake], [SnakeCorrect]: the two games;
      [Games], [GamesCorrect]: their processes, with the prompt's lock, the
      keyboard, the console and the readings of the timer.
    - [Entry], [EntryCorrect]: [interrupts/interrupt_vector.asm] and
      [userland/syscall.asm], instruction by instruction, with the delivery of an
      interrupt and [iretq] by the processor.  [User]: [userland/user.asm] and
      the processor helpers of [cpu/cpu.h] in the same way.
    - [Threads]: entry point, dispatch, timer handler, scheduler and exit on one
      machine, against a table of suspended processor states.  [Multitask]: the
      runs of the machine as a step relation, which refines processes with
      processors of their own.  [SyscallEntry]: a system call from the caller's
      instruction to the next one.
    - [Devices]: [cpu/cpu.c] and [cpu/cpu.h] beyond the serial port's set-up,
      [limine_write_digit], [terminal/fb.c].
    - [Demo], [DemoCorrect]: [demo/demo.h], [demo/user_program.c], the wrapper and
      the idle process of [process.c], [vfs_execute].
    - [Startup], [StartupCorrect]: [startup.c] on all components together.
      [Boot]: the requests to the boot loader ([limine.h]) and what [_start] reads
      of its responses.

    ** What the theorems show

    - Memory: the bit-level allocator refines next-fit on a set of frames; blocks
      of clients never overlap under any interleaving of requests; initialisation
      frees exactly the usable frames; a release keeps the invariant unless it
      gives back frame 0 or the bitmap itself.  Mapping, unmapping and flag changes alter
      one translation and keep the tree well formed; the kernel's address space
      (every canonical address) and a process's translate as specified.  Heap blocks are fresh, zeroed and
      disjoint.
    - Processes: creation, deletion and round-robin choice on the list of
      processes, with the cases in which quantum, kernel stack and address space
      are loaded, the loop that never ends when every process sleeps.  A timer
      interrupt, from the interrupted instruction to the next one, switches
      threads: it continues with exactly the state saved for the chosen process and
      keeps all others; [process_create] adds a thread.  Over any sequence of steps
      and interrupts a process finds the state it was interrupted in.
    - Interrupts and devices: what the processor decodes from the tables, which
      vectors the controllers deliver, one run and one acknowledgement per
      interrupt, the keyboard as a one-character mailbox; the assembly saves and
      restores every register, and a system call is a function call; [jmp_user]
      builds a frame for user mode and stays in the kernel.
    - Start-up: from what the boot loader leaves, [_start] establishes the
      invariants of all components, the first timer interrupt starts the idle
      process and keeps the states saved for the others, and the multitasking of [Multitask] begins there.
    - Output: the text a format denotes, numerals that read back, what long,
      negative or nested formats do.
    - Files: lookup in the archive is the first record of that name; ids of open
      files stand for contents; reads through a descriptor, put together, are the
      file; and [cat], from the keys that type its path, through system calls,
      switch and archive, prints it unless no descriptor is left.  The listing of
      the root directory is the distinct first components of the names, as long as
      the array of paths, which the code does not initialise, is NULL where it
      is looked at, and [ls] shows it.  The limits of the code are theorems too: the
      descriptor that is given out twice, the write that has no function,
      descriptors that are not checked, the path of the root itself, directories
      other than the root, a path that is longer than its array.
    - Prompt: the editor is a list of characters with backspace, the line feed
      starts the right program, the standard input has one owner when requests
      come one after the other, and two when they race.
    - Games: a generation is Conway's rule away from the edges, the type invariant
      of the game of life, a step of snake on lists of positions; a game process
      shows its frames, ends when it is quit and gives the input back.

    ** Bounds

    [loop] runs its body at most [loop_bound] = 2^66 rounds and is [Hang] after
    that.  Every counter of the code has at most 64 bits, so a loop that ends
    ends before; a loop that does not end repeats a state.  The rules for [loop]
    ([runs_loop] and its variants) ask for a measure below the bound, and the
    theorems on hanging loops show that the bound is reached.  [digits] has fuel
    64, more than the decimal and hexadecimal digits of a 64-bit number;
    [string_at] has one more than the bytes of the memory, as many as a string in
    it can have.  [destroy_lvl] takes its fuel as an argument; one unit is enough
    on the tables without entries of its lemma.

    ** Not modelled

    The TLB and page faults: a mapping is what the tables in RAM say.  Interrupts
    in the middle of an operation of the kernel: operations are atomic, except for
    the interleavings of [Spinlock] and of the standard input; a process may be
    interrupted between any two of its instructions ([Threads]).  Log messages of
    the memory manager and of process creation.  The control blocks of [Process]
    and the descriptors of [Ustar] are typed objects keyed by their address, apart
    from the bytes of RAM; contexts and stacks are words of RAM.  The strings and
    buffers of the programs are a memory of their own; the copies of names that a
    listing makes lie in it, at the addresses of their heap blocks.  The requests of
    [limine.h] that the kernel does not make, and the boot loader, which is not part
    of the sources.  Code that is commented out.  What is left of the sources are
    declarations and unused constants of headers. *)

From stdpp Require Export prelude gmap strings numbers.
From Stdlib Require Export Lia ZArith.

#[global] Open Scope Z_scope.

(** ** Machine integers

    An unsigned [w]-bit C integer is a [Z] in [0, 2^w); an arithmetic
    result is brought back to its width by [wrap w].  A signed one is a
    [Z] in [-2^(w-1), 2^(w-1)), re-normalised by [swrap w]. *)

Definition wrap (w x : Z) : Z := x mod 2 ^ w.
Definition swrap (w x : Z) : Z := (x + 2 ^ (w - 1)) mod 2 ^ w - 2 ^ (w - 1).

Definition u8 (x : Z) : Z := wrap 8 x.
Definition u16 (x : Z) : Z := wrap 16 x.
Definition u32 (x : Z) : Z := wrap 32 x.
Definition u64 (x : Z) : Z := wrap 64 x.
Definition s16 (x : Z) : Z := swrap 16 x.
Definition s32 (x : Z) : Z := swrap 32 x.
Definition s64 (x : Z) : Z := swrap 64 x.

(** ** Outcomes

    What running a piece of the kernel can come to: a value, a call of
    [panic] (which prints and halts), undefined behaviour of C (an access
    outside an object, a null dereference), or a loop that does not end
    within the bound the model gives it. *)

Inductive result (A : Type) : Type :=
| Ok (a : A)
| Panic (msg : string)
| Fault
| Hang.
Arguments Ok {A} a.
Arguments Panic {A} msg.
Arguments Fault {A}.
Arguments Hang {A}.

(** ** State and outcome monad *)

Definition M (S A : Type) : Type := S → result (A * S).

Definition bind_result {A B : Type} (r : result A) (k : A → result B) : result B :=
  match r with
  | Ok a => k a
  | Panic msg => Panic msg
  | Fault => Fault
  | Hang => Hang
  end.

#[global] Instance M_ret (S : Type) : MRet (M S) := λ A a s, Ok (a, s).
#[global] Instance M_bind (S : Type) : MBind (M S) :=
  λ A B k c s, bind_result (c s) (λ p, k p.1 p.2).

Definition panic {S A : Type} (msg : string) : M S A := λ _, Panic msg.
Definition fault {S A : Type} : M S A := λ _, Fault.
Definition hang {S A : Type} : M S A := λ _, Hang.
Definition gets {S A : Type} (f : S → A) : M S A := λ s, Ok (f s, s).
Definition modify {S : Type} (f : S → S) : M S unit := λ s, Ok (tt, f s).

(** Run [c] on one component of the state. *)
Definition zoom {S T A : Type} (get : S → T) (put : T → S → S) (c : M T A) : M S A :=
  λ s, bind_result (c (get s)) (λ p, Ok (p.1, put p.2 s)).

(** A loop: [body] either continues with a new loop variable ([inl]) or
    leaves the loop with a value ([inr]).  [rounds p] runs at most [p] rounds,
    recursing on the binary digits of [p] so that an early exit costs nothing;
    a [loop] that is still running after [loop_bound] rounds is [Hang].  The
    bound exceeds the number of values of a 64-bit counter, and a claim that a
    loop returns has to show that it ends below it. *)
Fixpoint rounds {S A B : Type} (p : positive) (body : A → M S (A + B)) (a : A) :
    M S (A + B) :=
  match p with
  | xH => body a
  | xO q =>
      r ← rounds q body a;
      match r with inl a' => rounds q body a' | inr b => mret (inr b) end
  | xI q =>
      r ← body a;
      match r with
      | inl a' =>
          r' ← rounds q body a';
          match r' with inl a'' => rounds q body a'' | inr b => mret (inr b) end
      | inr b => mret (inr b)
      end
  end.

Definition loop_bound : positive := 2 ^ 66.

Definition loop {S A B : Type} (body : A → M S (A + B)) (a : A) : M S B :=
  r ← rounds loop_bound body a;
  match r with inl _ => hang | inr b => mret b end.

(** Total correctness: [c] started in [s] returns, and [Q] holds of the value
    and the final state. *)
Definition runs {S A : Type} (c : M S A) (s : S) (Q : A → S → Prop) : Prop :=
  match c s with
  | Ok (a, s') => Q a s'
  | _ => False
  end.

(** The panic of the frame allocator when no run of frames is free. *)
Definition out_of_memory : string := "PMM_ALLOC: failed to allocate memory".

(** The same up to running out of memory: [c] returns with [Q], or panics because
    no frame is left; it panics for no other reason, and it neither faults nor
    hangs. *)
Definition safe {S A : Type} (c : M S A) (s : S) (Q : A → S → Prop) : Prop :=
  match c s with
  | Ok (a, s') => Q a s'
  | Panic msg => msg = out_of_memory
  | _ => False
  end.

(** [for (i in l) body] *)
Fixpoint for_each {S A : Type} (l : list A) (body : A → M S unit) : M S unit :=
  match l with
  | [] => mret tt
  | x :: l' => body x;; for_each l' body
  end.

(** ** Tactics and hint databases *)

Create HintDb width discriminated.
Create Rewrite HintDb width.
Create HintDb monad discriminated.

Ltac bool_to_prop :=
  repeat match goal with
  | H : (_ && _) = true |- _ => apply andb_true_iff in H as [? ?]
  | H : (_ || _) = false |- _ => apply orb_false_iff in H as [? ?]
  | H : negb _ = true |- _ => apply negb_true_iff in H
  | H : negb _ = false |- _ => apply negb_false_iff in H
  | H : (_ =? _) = true |- _ => apply Z.eqb_eq in H
  | H : (_ =? _) = false |- _ => apply Z.eqb_neq in H
  | H : (_ <? _) = true |- _ => apply Z.ltb_lt in H
  | H : (_ <? _) = false |- _ => apply Z.ltb_ge in H
  | H : (_ <=? _) = true |- _ => apply Z.leb_le in H
  | H : (_ <=? _) = false |- _ => apply Z.leb_gt in H
  | H : (_ >? _) = true |- _ => rewrite Z.gtb_ltb in H
  | H : (_ >? _) = false |- _ => rewrite Z.gtb_ltb in H
  | H : (_ >=? _) = true |- _ => rewrite Z.geb_leb in H
  | H : (_ >=? _) = false |- _ => rewrite Z.geb_leb in H
  | H : bool_decide _ = true |- _ => apply bool_decide_eq_true in H
  | H : bool_decide _ = false |- _ => apply bool_decide_eq_false in H
  end.

(** Case analysis on the next test the goal branches on. *)
Ltac case_if :=
  match goal with
  | |- context [if ?b then _ else _] =>
      let E := fresh "E" in destruct b eqn:E; bool_to_prop
  end.

(** Linear arithmetic in the presence of quotients and remainders. *)
Ltac zify_div := Z.to_euclidean_division_equations; lia.

(** Symbolic execution by unfolding. *)
Ltac mstep := unfold mbind, M_bind, mret, M_ret, gets, modify in *; simpl.

(** ** Integers *)

Lemma wrap_small w x : 0 ≤ x < 2 ^ w → wrap w x = x.
Proof. apply Z.mod_small. Qed.

Lemma wrap_range w x : 0 ≤ w → 0 ≤ wrap w x < 2 ^ w.
Proof. intros. apply Z.mod_pos_bound. lia. Qed.

Lemma wrap_wrap w x : 0 ≤ w → wrap w (wrap w x) = wrap w x.
Proof. intros. apply wrap_small, wrap_range. done. Qed.

Lemma wrap_add_l w x y : wrap w (wrap w x + y) = wrap w (x + y).
Proof. apply Zplus_mod_idemp_l. Qed.

Lemma wrap_mul_l w x y : wrap w (wrap w x * y) = wrap w (x * y).
Proof. apply Zmult_mod_idemp_l. Qed.

Lemma swrap_small w x :
  0 < w → - 2 ^ (w - 1) ≤ x < 2 ^ (w - 1) → swrap w x = x.
Proof.
  intros Hw Hx. unfold swrap.
  assert (2 ^ w = 2 * 2 ^ (w - 1)) by (rewrite <- Z.pow_succ_r by lia; f_equal; lia).
  rewrite Z.mod_small; lia.
Qed.

Lemma swrap_range w x : 0 < w → - 2 ^ (w - 1) ≤ swrap w x < 2 ^ (w - 1).
Proof.
  intros Hw. unfold swrap.
  assert (2 ^ w = 2 * 2 ^ (w - 1)) by (rewrite <- Z.pow_succ_r by lia; f_equal; lia).
  pose proof (Z.mod_pos_bound (x + 2 ^ (w - 1)) (2 ^ w)). lia.
Qed.

Lemma u8_small x : 0 ≤ x < 256 → u8 x = x.
Proof. apply (wrap_small 8). Qed.
Lemma u16_small x : 0 ≤ x < 65536 → u16 x = x.
Proof. apply (wrap_small 16). Qed.
Lemma u32_small x : 0 ≤ x < 4294967296 → u32 x = x.
Proof. apply (wrap_small 32). Qed.
Lemma u64_small x : 0 ≤ x < 18446744073709551616 → u64 x = x.
Proof. apply (wrap_small 64). Qed.
Lemma s64_small x : -9223372036854775808 ≤ x < 9223372036854775808 → s64 x = x.
Proof. apply (swrap_small 64). done. Qed.

Lemma u8_range x : 0 ≤ u8 x < 256.
Proof. apply (wrap_range 8). done. Qed.
Lemma u16_range x : 0 ≤ u16 x < 65536.
Proof. apply (wrap_range 16). done. Qed.
Lemma u32_range x : 0 ≤ u32 x < 4294967296.
Proof. apply (wrap_range 32). done. Qed.
Lemma u64_range x : 0 ≤ u64 x < 18446744073709551616.
Proof. apply (wrap_range 64). done. Qed.

#[export] Hint Rewrite u8_small u16_small u32_small u64_small s64_small using lia : width.
#[export] Hint Resolve u8_range u16_range u32_range u64_range : width.

(** A number below [2^w] has no bit at or above [w]. *)
(** An element in the middle of a list. *)
Lemma sublist_same {A} (l' l : list A) : l' `sublist_of` l → (length l ≤ length l')%nat → l' = l.
Proof.
  induction 1 as [|x l1 l2 Hs IH|x l1 l2 Hs IH]; cbn [length]; intros Hl; [done| |].
  - f_equal. apply IH. lia.
  - apply sublist_length in Hs. lia.
Qed.

Lemma sublist_full {A} (l' l : list A) : NoDup l → l' `sublist_of` l → (∀ x, x ∈ l → x ∈ l') → l' = l.
Proof. intros Hnd Hs Hall. apply (sublist_same _ _ Hs), submseteq_length, NoDup_submseteq; done. Qed.

Lemma elem_mid {A} (x p : A) a b : x ∈ a ++ b → x ∈ a ++ p :: b.
Proof. intros [?|?]%elem_of_app; apply elem_of_app; [by left|right; by right]. Qed.

Lemma nodup_mid {A} (p : A) a b : NoDup (a ++ p :: b) → ¬ (p ∈ a ++ b) ∧ NoDup (a ++ b).
Proof.
  intros (H1 & H2 & [H3 H4]%list.NoDup_cons)%list.NoDup_app. split.
  - intros [Hx|Hx]%elem_of_app; [|done]. apply (H2 p Hx). by left.
  - apply list.NoDup_app. split_and!; [done| |done]. intros x Hx Hx'. apply (H2 x Hx). by right.
Qed.

Lemma testbit_high n w i : 0 ≤ n < 2 ^ w → w ≤ i → Z.testbit n i = false.
Proof.
  intros Hn Hi. destruct (Z.lt_ge_cases w 0).
  { rewrite Z.pow_neg_r in Hn; lia. }
  rewrite <- (Z.mod_small n (2 ^ w)) by done. apply Z.mod_pow2_bits_high. lia.
Qed.

Lemma testbit_1 i : Z.testbit 1 i = bool_decide (i = 0).
Proof.
  case_bool_decide as H; [by subst|]. by destruct i.
Qed.

Lemma testbit_one_bit k i : 0 ≤ k → Z.testbit (Z.shiftl 1 k) i = bool_decide (i = k).
Proof.
  intros. rewrite Z.shiftl_1_l, Z.pow2_bits_eqb by done.
  case_bool_decide; [subst; apply Z.eqb_refl | by apply Z.eqb_neq; intros ->].
Qed.

Lemma land_one_bit v k : 0 ≤ k → negb (Z.land v (Z.shiftl 1 k) =? 0) = Z.testbit v k.
Proof.
  intros Hk. destruct (Z.testbit v k) eqn:E.
  - apply negb_true_iff, Z.eqb_neq. intros H0.
    assert (Z.testbit (Z.land v (Z.shiftl 1 k)) k = false) as Ht by (rewrite H0; apply Z.bits_0).
    rewrite Z.land_spec, E, testbit_one_bit, bool_decide_eq_true_2 in Ht; done.
  - apply negb_false_iff, Z.eqb_eq, Z.bits_inj'. intros i Hi.
    rewrite Z.land_spec, testbit_one_bit, Z.bits_0 by done.
    case_bool_decide; [subst; by rewrite E|apply andb_false_r].
Qed.

(** Numbers without a common bit: [lor] is addition. *)
Lemma lor_disjoint a b : Z.land a b = 0 → Z.lor a b = a + b.
Proof. intros H. by rewrite <- Z.lxor_lor, <- Z.add_nocarry_lxor by done. Qed.

Lemma land_mul_low p w f : 0 ≤ w → 0 ≤ f < 2 ^ w → Z.land (p * 2 ^ w) f = 0.
Proof.
  intros Hw Hf. apply Z.bits_inj'. intros i Hi. rewrite Z.land_spec, Z.bits_0.
  destruct (Z.lt_ge_cases i w).
  - by rewrite Z.mul_pow2_bits_low.
  - rewrite (testbit_high f w i) by done. apply andb_false_r.
Qed.

(** ** Outcomes and loops *)

Section runs_rules.
Context {S : Type}.

Lemma runs_ok {A} (c : M S A) s a s' (Q : A → S → Prop) :
  c s = Ok (a, s') → Q a s' → runs c s Q.
Proof. unfold runs. by intros ->. Qed.

Lemma runs_inv {A} (c : M S A) s (Q : A → S → Prop) :
  runs c s Q → ∃ a s', c s = Ok (a, s') ∧ Q a s'.
Proof. unfold runs. destruct (c s) as [[a s']| | |]; naive_solver. Qed.

Lemma runs_ret {A} (a : A) s (Q : A → S → Prop) : Q a s → runs (mret a) s Q.
Proof. done. Qed.

Lemma runs_mono {A} (c : M S A) s (P Q : A → S → Prop) :
  runs c s P → (∀ a s', P a s' → Q a s') → runs c s Q.
Proof. unfold runs. destruct (c s) as [[a s']| | |]; naive_solver. Qed.

Lemma runs_bind {A B} (c : M S A) (k : A → M S B) s Q :
  runs c s (λ a s', runs (k a) s' Q) → runs (c ≫= k) s Q.
Proof. unfold runs, mbind, M_bind. by destruct (c s) as [[a s']| | |]. Qed.

Lemma runs_gets {A} (f : S → A) s (Q : A → S → Prop) : Q (f s) s → runs (gets f) s Q.
Proof. done. Qed.

Lemma runs_modify (f : S → S) s (Q : unit → S → Prop) : Q tt (f s) → runs (modify f) s Q.
Proof. done. Qed.

Lemma runs_safe {A} (c : M S A) s (Q : A → S → Prop) : runs c s Q → safe c s Q.
Proof. unfold runs, safe. by destruct (c s) as [[a s']| | |]. Qed.

Lemma safe_ok {A} (c : M S A) s a s' (Q : A → S → Prop) :
  safe c s Q → c s = Ok (a, s') → Q a s'.
Proof. unfold safe. intros H E. by rewrite E in H. Qed.

Lemma safe_mono {A} (c : M S A) s (P Q : A → S → Prop) :
  safe c s P → (∀ a s', P a s' → Q a s') → safe c s Q.
Proof. unfold safe. destruct (c s) as [[a s']| | |]; naive_solver. Qed.

Lemma safe_bind {A B} (c : M S A) (k : A → M S B) s Q :
  safe c s (λ a s', safe (k a) s' Q) → safe (c ≫= k) s Q.
Proof. unfold safe, mbind, M_bind. by destruct (c s) as [[a s']| | |]. Qed.

Lemma safe_ret {A} (a : A) s (Q : A → S → Prop) : Q a s → safe (mret a) s Q.
Proof. done. Qed.

Lemma safe_gets {A} (f : S → A) s (Q : A → S → Prop) : Q (f s) s → safe (gets f) s Q.
Proof. done. Qed.

Lemma safe_modify (f : S → S) s (Q : unit → S → Prop) : Q tt (f s) → safe (modify f) s Q.
Proof. done. Qed.

(** A pass over a list keeps an invariant indexed by what is done so far. *)
Lemma safe_for_each {A} (l : list A) (body : A → M S unit) (I : list A → S → Prop) :
  (∀ done x rest s, l = done ++ x :: rest → I done s →
     safe (body x) s (λ _ s', I (done ++ [x]) s')) →
  ∀ s, I [] s → safe (for_each l body) s (λ _ s', I l s').
Proof.
  intros Hb.
  assert (∀ rest done s, l = done ++ rest → I done s →
    safe (for_each rest body) s (λ _ s', I l s')) as H; [|intros s Hs; by apply (H l [])].
  induction rest as [|x rest IH]; intros done s Hl HI; cbn [for_each].
  - rewrite app_nil_r in Hl. by subst.
  - apply safe_bind. eapply safe_mono; [by eapply Hb|]. intros u s' HI'.
    eapply IH; [|exact HI']. by rewrite <- app_assoc.
Qed.

(** [for (i = 0; i < n; i++)]: an invariant indexed by the counter. *)
Lemma runs_for_range (n : Z) (body : Z → M S unit) (I : Z → S → Prop) :
  0 ≤ n → (∀ i s, 0 ≤ i < n → I i s → runs (body i) s (λ _ s', I (i + 1) s')) →
  ∀ s, I 0 s → runs (for_each (seqZ 0 n) body) s (λ _ s', I n s').
Proof.
  intros Hn Hb. assert (∀ k a s, a + Z.of_nat k = n → 0 ≤ a → I a s →
    runs (for_each (seqZ a (Z.of_nat k)) body) s (λ _ s', I n s')) as H.
  { induction k as [|k IH]; intros a s Ha H0 HI.
    - replace n with a by lia. done.
    - rewrite seqZ_cons by lia. cbn [for_each]. apply runs_bind.
      eapply runs_mono; [by apply Hb; [lia|]|]. cbn beta. intros u s' HI'.
      replace (Z.pred (Z.of_nat (Datatypes.S k))) with (Z.of_nat k) by lia.
      apply IH; [lia|lia|done]. }
  intros s HI. rewrite <- (Z2Nat.id n) at 1 by done. apply H; lia || done.
Qed.

(** The rule for loops: an invariant kept by every round, and a measure that
    decreases with it and starts below the bound. *)
Section loop_rule.
Context {A B : Type} (body : A → M S (A + B)) (I : A → S → Prop).
Context (m : A → S → Z) (Q : B → S → Prop).

Definition keeps : Prop :=
  ∀ a s, I a s → runs (body a) s (λ r s', match r with
      | inl a' => I a' s' ∧ 0 ≤ m a' s' < m a s
      | inr b => Q b s' end).

Lemma runs_rounds : keeps → ∀ p a s, I a s → 0 ≤ m a s →
  runs (rounds p body a) s (λ r s', match r with
      | inl a' => I a' s' ∧ 0 ≤ m a' s' ≤ m a s - Zpos p
      | inr b => Q b s' end).
Proof.
  intros Hb p. induction p as [p IH|p IH|]; intros a s HI Hm; cbn [rounds].
  - apply runs_bind. eapply runs_mono; [by apply Hb|]. intros [a1|b] s1; [|done].
    intros [HI1 Hm1]. apply runs_bind. eapply runs_mono; [apply IH; [done|lia]|].
    intros [a2|b] s2; [|done]. intros [HI2 Hm2].
    eapply runs_mono; [apply IH; [done|lia]|]. intros [a3|b] s3; [|done].
    intros [HI3 Hm3]. split; [done|lia].
  - apply runs_bind. eapply runs_mono; [apply IH; [done|lia]|].
    intros [a2|b] s2; [|done]. intros [HI2 Hm2].
    eapply runs_mono; [apply IH; [done|lia]|]. intros [a3|b] s3; [|done].
    intros [HI3 Hm3]. split; [done|lia].
  - eapply runs_mono; [by apply Hb|]. intros [a1|b] s1; [|done].
    intros [HI1 Hm1]. split; [done|lia].
Qed.

Lemma runs_loop : keeps → ∀ a s, I a s → 0 ≤ m a s < 2 ^ 66 → runs (loop body a) s Q.
Proof.
  intros Hb a s HI Hm. unfold loop. apply runs_bind.
  eapply runs_mono; [apply runs_rounds; [done..|lia]|].
  intros [a'|b] s'; [|done]. intros [_ Hm']. unfold loop_bound in Hm'. lia.
Qed.

End loop_rule.

(** The same rule with a bound that is not computed from the state. *)
Lemma runs_loop_ghost {A B} (body : A → M S (A + B)) (I : Z → A → S → Prop)
    (Q : B → S → Prop) :
  (∀ n a s, I n a s → runs (body a) s (λ r s', match r with
      | inl a' => ∃ n', 0 ≤ n' < n ∧ I n' a' s'
      | inr b => Q b s' end)) →
  ∀ n a s, I n a s → 0 ≤ n < 2 ^ 66 → runs (loop body a) s Q.
Proof.
  intros Hb.
  assert (∀ p n a s, I n a s → 0 ≤ n → runs (rounds p body a) s (λ r s', match r with
      | inl a' => ∃ n', 0 ≤ n' ≤ n - Zpos p ∧ I n' a' s'
      | inr b => Q b s' end)) as Hr.
  { intros p. induction p as [p IH|p IH|]; intros n a s HI Hn; cbn [rounds].
    - apply runs_bind. eapply runs_mono; [by apply Hb|]. intros [a1|b] s1; [|done].
      intros (n1 & Hn1 & HI1). apply runs_bind. eapply runs_mono; [apply (IH n1); [done|lia]|].
      intros [a2|b] s2; [|done]. intros (n2 & Hn2 & HI2).
      eapply runs_mono; [apply (IH n2); [done|lia]|]. intros [a3|b] s3; [|done].
      intros (n3 & Hn3 & HI3). exists n3. split; [lia|done].
    - apply runs_bind. eapply runs_mono; [apply (IH n); [done|lia]|].
      intros [a2|b] s2; [|done]. intros (n2 & Hn2 & HI2).
      eapply runs_mono; [apply (IH n2); [done|lia]|]. intros [a3|b] s3; [|done].
      intros (n3 & Hn3 & HI3). exists n3. split; [lia|done].
    - eapply runs_mono; [by apply Hb|]. intros [a1|b] s1; [|done].
      intros (n1 & Hn1 & HI1). exists n1. split; [lia|done]. }
  intros n a s HI Hn. unfold loop. apply runs_bind.
  eapply runs_mono; [apply (Hr _ n); [done|lia]|].
  intros [a'|b] s'; [|done]. intros (n' & Hn' & _). unfold loop_bound in Hn'. lia.
Qed.

(** The same rule where a round may also panic. *)
Lemma safe_loop {A B} (body : A → M S (A + B)) (I : A → S → Prop) (m : A → S → Z)
    (Q : B → S → Prop) :
  (∀ a s, I a s → safe (body a) s (λ r s', match r with
      | inl a' => I a' s' ∧ 0 ≤ m a' s' < m a s
      | inr b => Q b s' end)) →
  ∀ a s, I a s → 0 ≤ m a s < 2 ^ 66 → safe (loop body a) s Q.
Proof.
  intros Hb.
  assert (∀ p a s, I a s → 0 ≤ m a s → safe (rounds p body a) s (λ r s', match r with
      | inl a' => I a' s' ∧ 0 ≤ m a' s' ≤ m a s - Zpos p
      | inr b => Q b s' end)) as Hr.
  { intros p. induction p as [p IH|p IH|]; intros a s HI Hm; cbn [rounds].
    - apply safe_bind. eapply safe_mono; [by apply Hb|]. intros [a1|b] s1; [|done].
      intros [HI1 Hm1]. apply safe_bind. eapply safe_mono; [apply IH; [done|lia]|].
      intros [a2|b] s2; [|done]. intros [HI2 Hm2].
      eapply safe_mono; [apply IH; [done|lia]|]. intros [a3|b] s3; [|done].
      intros [HI3 Hm3]. split; [done|lia].
    - apply safe_bind. eapply safe_mono; [apply IH; [done|lia]|].
      intros [a2|b] s2; [|done]. intros [HI2 Hm2].
      eapply safe_mono; [apply IH; [done|lia]|]. intros [a3|b] s3; [|done].
      intros [HI3 Hm3]. split; [done|lia].
    - eapply safe_mono; [by apply Hb|]. intros [a1|b] s1; [|done].
      intros [HI1 Hm1]. split; [done|lia]. }
  intros a s HI Hm. unfold loop. apply safe_bind.
  eapply safe_mono; [apply Hr; [done..|lia]|].
  intros [a'|b] s'; [|done]. intros [_ Hm']. unfold loop_bound in Hm'. lia.
Qed.

(** A body that always continues inside an invariant never ends. *)
Lemma loop_hangs {A B} (body : A → M S (A + B)) (I : A → S → Prop) :
  (∀ a s, I a s → ∃ a' s', body a s = Ok (inl a', s') ∧ I a' s') →
  ∀ a s, I a s → loop body a s = Hang.
Proof.
  intros Hb.
  assert (∀ p a s, I a s → ∃ a' s', rounds p body a s = Ok (inl a', s') ∧ I a' s') as Hr.
  { intros p. induction p as [p IH|p IH|]; intros a s HI; cbn [rounds]; [| |by apply Hb].
    all: unfold mbind, M_bind.
    - destruct (Hb _ _ HI) as (a1 & s1 & -> & HI1). cbn.
      destruct (IH _ _ HI1) as (a2 & s2 & -> & HI2). cbn. by apply IH.
    - destruct (IH _ _ HI) as (a2 & s2 & -> & HI2). cbn. by apply IH. }
  intros a s HI. unfold loop, mbind, M_bind.
  destruct (Hr loop_bound a s HI) as (a' & s' & -> & _). done.
Qed.

(** A body that panics or continues inside an invariant, with a measure that
    decreases, makes the loop panic. *)
Lemma loop_panics {A B} (body : A → M S (A + B)) (I : A → S → Prop) (m : A → S → Z) msg :
  (∀ a s, I a s → body a s = Panic msg ∨
     ∃ a' s', body a s = Ok (inl a', s') ∧ I a' s' ∧ 0 ≤ m a' s' < m a s) →
  ∀ a s, I a s → 0 ≤ m a s < 2 ^ 66 → loop body a s = Panic msg.
Proof.
  intros Hb.
  assert (∀ p a s, I a s → 0 ≤ m a s → rounds p body a s = Panic msg ∨
     ∃ a' s', rounds p body a s = Ok (inl a', s') ∧ I a' s' ∧ 0 ≤ m a' s' ≤ m a s - Zpos p) as Hr.
  { intros p. induction p as [p IH|p IH|]; intros a s HI Hm; cbn [rounds].
    all: unfold mbind, M_bind.
    - destruct (Hb _ _ HI) as [->|(a1 & s1 & -> & HI1 & Hm1)]; [by left|]. cbn.
      destruct (IH a1 s1) as [->|(a2 & s2 & -> & HI2 & Hm2)]; [done|lia|by left|]. cbn.
      destruct (IH a2 s2) as [->|(a3 & s3 & -> & HI3 & Hm3)]; [done|lia|by left|].
      right. exists a3, s3. split_and!; done || lia.
    - destruct (IH a s) as [->|(a2 & s2 & -> & HI2 & Hm2)]; [done|lia|by left|]. cbn.
      destruct (IH a2 s2) as [->|(a3 & s3 & -> & HI3 & Hm3)]; [done|lia|by left|].
      right. exists a3, s3. split_and!; done || lia.
    - destruct (Hb _ _ HI) as [->|(a1 & s1 & -> & HI1 & Hm1)]; [by left|].
      right. exists a1, s1. split_and!; done || lia. }
  intros a s HI Hm. unfold loop, mbind, M_bind.
  destruct (Hr loop_bound a s HI) as [->|(a' & s' & _ & _ & Hm')]; [lia|done|].
  unfold loop_bound in Hm'. lia.
Qed.

End runs_rules.

Lemma safe_zoom {S T A} (get : S → T) (put : T → S → S) (c : M T A) s (Q : A → S → Prop) :
  safe c (get s) (λ a t, Q a (put t s)) → safe (zoom get put c) s Q.
Proof. unfold safe, zoom. by destruct (c (get s)) as [[a t]| | |]. Qed.

Lemma runs_zoom {S T A} (get : S → T) (put : T → S → S) (c : M T A) s (Q : A → S → Prop) :
  runs c (get s) (λ a t, Q a (put t s)) → runs (zoom get put c) s Q.
Proof. unfold runs, zoom. by destruct (c (get s)) as [[a t]| | |]. Qed.

(** Running a program on a concrete state. *)
Definition run_state {S A} (c : M S A) (s : S) : S :=
  match c s with Ok (_, s') => s' | _ => s end.
Definition returns {A} (r : result A) : bool := match r with Ok _ => true | _ => false end.

Lemma safe_run_state {S A} (c : M S A) s (Q : A → S → Prop) :
  safe c s Q → returns (c s) = true → ∃ a, Q a (run_state c s).
Proof. unfold safe, run_state. destruct (c s) as [[a s']| | |]; try done. by exists a. Qed.

(** Symbolic execution: reduce [safe] of the next command of a monadic term. *)
Ltac sstep :=
  match goal with
  | |- safe (_ ≫= _) _ _ => apply safe_bind
  | |- safe (mbind _ _) _ _ => apply safe_bind
  | |- safe (gets _) _ _ => apply safe_gets
  | |- safe (modify _) _ _ => apply safe_modify
  | |- safe (mret _) _ _ => apply safe_ret
  end.

#[export] Hint Resolve runs_ret : monad.
