(* ===== verification/Machine.v ===== *)
(** * The machine under the memory manager

    RAM as a byte-addressed store, little-endian multi-byte accesses, and the
    record of the kernel globals that [mm/pmm.c] and [mm/vmm.c] keep.

    RAM is keyed by physical address.  The kernel reaches it through two
    windows, the identity map of low memory and the higher-half direct map
    (HHDM) that starts at [hhdm_offset]; [cell] resolves a C pointer to the
    physical byte it designates.  A cell holds eight bits whatever number the
    finite map stores there, so no separate range invariant is needed. *)

From S2P Require Import Prelude.

(** ** RAM *)

Definition byte (m : gmap Z Z) (a : Z) : Z := u8 (default 0 (m !! a)).

(** Little-endian load and store of [n] bytes. *)
Fixpoint rd (n : nat) (m : gmap Z Z) (a : Z) : Z :=
  match n with
  | O => 0
  | S n' => byte m a + 256 * rd n' m (a + 1)
  end.

Fixpoint wr (n : nat) (m : gmap Z Z) (a v : Z) : gmap Z Z :=
  match n with
  | O => m
  | S n' => wr n' (<[a := u8 v]> m) (a + 1) (v / 256)
  end.

(** Two stores with the same bytes: the equivalence every RAM access respects. *)
Definition ram_eq (m1 m2 : gmap Z Z) : Prop := ∀ a, byte m1 a = byte m2 a.

(** [m2] agrees with [m1] outside the addresses in [P]. *)
Definition same_outside (P : Z → Prop) (m1 m2 : gmap Z Z) : Prop :=
  ∀ a, ¬ P a → byte m2 a = byte m1 a.

Definition in_range (lo n a : Z) : Prop := lo ≤ a < lo + n.

(** ** Kernel globals *)

Record kstate := KState {
  hhdm_offset : Z;         (* pmm.c: uint64_t hhdm_offset *)
  spin_lock : Z;           (* pmm.c: spinlock_t spin_lock *)
  bitmap : Z;              (* pmm.c: static uint8_t* bitmap *)
  bitmap_top_index : Z;    (* pmm.c: static uint64_t bitmap_top_index *)
  bitmap_prev_index : Z;   (* pmm.c: static uint64_t bitmap_prev_index *)
  vmm_kernel : Z;          (* vmm.c: vmm_t* vmm_kernel *)
  cr3 : Z;                 (* the page-table base register *)
  ram : gmap Z Z;
}.

Definition set_hhdm (h : Z) (s : kstate) : kstate :=
  KState h (spin_lock s) (bitmap s) (bitmap_top_index s) (bitmap_prev_index s)
    (vmm_kernel s) (cr3 s) (ram s).
Definition set_spin_lock (l : Z) (s : kstate) : kstate :=
  KState (hhdm_offset s) l (bitmap s) (bitmap_top_index s) (bitmap_prev_index s)
    (vmm_kernel s) (cr3 s) (ram s).
Definition set_bitmap (b : Z) (s : kstate) : kstate :=
  KState (hhdm_offset s) (spin_lock s) b (bitmap_top_index s) (bitmap_prev_index s)
    (vmm_kernel s) (cr3 s) (ram s).
Definition set_top (t : Z) (s : kstate) : kstate :=
  KState (hhdm_offset s) (spin_lock s) (bitmap s) t (bitmap_prev_index s)
    (vmm_kernel s) (cr3 s) (ram s).
Definition set_prev (p : Z) (s : kstate) : kstate :=
  KState (hhdm_offset s) (spin_lock s) (bitmap s) (bitmap_top_index s) p
    (vmm_kernel s) (cr3 s) (ram s).
Definition set_vmm_kernel (v : Z) (s : kstate) : kstate :=
  KState (hhdm_offset s) (spin_lock s) (bitmap s) (bitmap_top_index s)
    (bitmap_prev_index s) v (cr3 s) (ram s).
Definition set_cr3 (c : Z) (s : kstate) : kstate :=
  KState (hhdm_offset s) (spin_lock s) (bitmap s) (bitmap_top_index s)
    (bitmap_prev_index s) (vmm_kernel s) c (ram s).
Definition set_ram (m : gmap Z Z) (s : kstate) : kstate :=
  KState (hhdm_offset s) (spin_lock s) (bitmap s) (bitmap_top_index s)
    (bitmap_prev_index s) (vmm_kernel s) (cr3 s) m.

(** The physical byte a pointer designates. *)
Definition cell (h va : Z) : Z := if h <=? va then va - h else va.

Definition load (n : nat) (s : kstate) (va : Z) : Z :=
  rd n (ram s) (cell (hhdm_offset s) va).
Definition store (n : nat) (va v : Z) (s : kstate) : kstate :=
  set_ram (wr n (ram s) (cell (hhdm_offset s) va) v) s.

(** The globals that allocation and release of frames leave alone. *)
Definition same_globals (s s' : kstate) : Prop :=
  hhdm_offset s' = hhdm_offset s ∧ bitmap s' = bitmap s ∧
  bitmap_top_index s' = bitmap_top_index s ∧
  vmm_kernel s' = vmm_kernel s ∧ cr3 s' = cr3 s.

(** ** Lemmas on RAM *)

#[global] Instance ram_eq_equiv : Equivalence ram_eq.
Proof.
  split.
  - by intros m a.
  - intros m1 m2 H a. by rewrite H.
  - intros m1 m2 m3 H1 H2 a. by rewrite H1, H2.
Qed.

#[global] Instance byte_proper : Proper (ram_eq ==> eq ==> eq) byte.
Proof. intros m1 m2 H a ? <-. apply H. Qed.

Lemma byte_range m a : 0 ≤ byte m a < 256.
Proof. apply u8_range. Qed.
#[export] Hint Resolve byte_range : width.

Lemma byte_insert m a v x :
  byte (<[a := v]> m) x = if decide (a = x) then u8 v else byte m x.
Proof. unfold byte. rewrite lookup_insert. by case_decide. Qed.

Lemma byte_wr n m a v x :
  byte (wr n m a v) x =
    if decide (a ≤ x < a + Z.of_nat n) then u8 (v / 256 ^ (x - a)) else byte m x.
Proof.
  revert m a v. induction n as [|n IH]; intros m a v; cbn [wr].
  { case_decide; [lia|done]. }
  rewrite IH, byte_insert. repeat case_decide; try lia; subst; try done.
  - rewrite Z.div_div by lia. f_equal. f_equal.
    rewrite <- Z.pow_succ_r by lia. f_equal. lia.
  - replace (x - x) with 0 by lia. rewrite Z.pow_0_r, Z.div_1_r.
    unfold u8. by rewrite wrap_wrap.
Qed.

Lemma rd_ext n m1 m2 a :
  (∀ x, a ≤ x < a + Z.of_nat n → byte m1 x = byte m2 x) → rd n m1 a = rd n m2 a.
Proof.
  revert a. induction n as [|n IH]; intros a H; cbn [rd]; [done|].
  rewrite (H a), (IH (a + 1)); [done| |lia]. intros x Hx. apply H. lia.
Qed.

#[global] Instance rd_proper n : Proper (ram_eq ==> eq ==> eq) (rd n).
Proof. intros m1 m2 H a ? <-. apply rd_ext. intros. apply H. Qed.

Lemma rd_range n m a : 0 ≤ rd n m a < 256 ^ Z.of_nat n.
Proof.
  revert a. induction n as [|n IH]; intros a; cbn [rd]; [done|].
  pose proof (byte_range m a). specialize (IH (a + 1)).
  rewrite Nat2Z.inj_succ, Z.pow_succ_r by lia. lia.
Qed.

Lemma rd_wr_same n m a v : rd n (wr n m a v) a = v mod 256 ^ Z.of_nat n.
Proof.
  revert m a v. induction n as [|n IH]; intros m a v; cbn [rd wr].
  { by rewrite Z.mod_1_r. }
  rewrite IH. rewrite byte_wr. rewrite decide_False by lia.
  rewrite byte_insert, decide_True by done.
  unfold u8 at 1. unfold u8. rewrite wrap_wrap by done. unfold wrap.
  rewrite Nat2Z.inj_succ, Z.pow_succ_r by lia.
  change (2 ^ 8) with 256. rewrite Z.rem_mul_r; lia.
Qed.

Lemma rd_wr_other n k m a b v :
  b + Z.of_nat n ≤ a ∨ a + Z.of_nat k ≤ b → rd n (wr k m a v) b = rd n m b.
Proof.
  intros H. apply rd_ext. intros x Hx. rewrite byte_wr, decide_False; [done|lia].
Qed.

Lemma rd_same_outside n P m1 m2 a :
  same_outside P m1 m2 → (∀ x, a ≤ x < a + Z.of_nat n → ¬ P x) → rd n m2 a = rd n m1 a.
Proof. intros H HP. apply rd_ext. intros x Hx. by apply H, HP. Qed.

Lemma same_outside_refl P m : same_outside P m m.
Proof. by intros a. Qed.

Lemma same_outside_trans P m1 m2 m3 :
  same_outside P m1 m2 → same_outside P m2 m3 → same_outside P m1 m3.
Proof. intros H1 H2 a Ha. by rewrite H2, H1. Qed.

Lemma same_outside_mono (P Q : Z → Prop) m1 m2 :
  (∀ a, P a → Q a) → same_outside P m1 m2 → same_outside Q m1 m2.
Proof. intros HPQ H a Ha. apply H. auto. Qed.

Lemma same_outside_wr n m a v :
  same_outside (in_range a (Z.of_nat n)) m (wr n m a v).
Proof. intros x Hx. rewrite byte_wr, decide_False; [done|]. unfold in_range in Hx. lia. Qed.

Lemma cell_hhdm h p : 0 ≤ p → cell h (p + h) = p.
Proof. intros. unfold cell. rewrite (proj2 (Z.leb_le _ _)); lia. Qed.

(** Words of the direct map. *)
Lemma load_store_same a v m : load 8 (store 8 a v m) a = u64 v.
Proof. unfold load, store. cbn [ram set_ram hhdm_offset]. by rewrite rd_wr_same. Qed.

Lemma load_store_other a b v m : hhdm_offset m ≤ a → hhdm_offset m ≤ b → b + 8 ≤ a ∨ a + 8 ≤ b →
  load 8 (store 8 a v m) b = load 8 m b.
Proof.
  intros Ha Hb H. unfold load, store, cell. cbn [hhdm_offset ram set_ram].
  rewrite !(proj2 (Z.leb_le _ _)) by done. apply (rd_wr_other 8 8). lia.
Qed.

#[export] Hint Resolve same_outside_refl : core.
