(* ===== verification/Util.v ===== *)
(** * [src/kernel/lib/util.c] and [util.h]

    Alignment arithmetic, [memset], [memcpy], the string routines and the octal
    reader of the tar file system.  A pointer argument is the RAM address it
    designates. *)

From S2P Require Import Prelude Machine.

Definition PAGE_SIZE : Z := 4096.

(** The RAM bytes of [n] page frames from frame [a] on. *)
Definition page_bytes (a n : Z) : Z → Prop := in_range (a * PAGE_SIZE) (n * PAGE_SIZE).

(** ** Alignment *)

Definition MIN (a b : Z) : Z := if a <? b then a else b.
Definition MAX (a b : Z) : Z := if a >? b then a else b.
Definition DIV_ROUNDUP (value div : Z) : Z := u64 (value + (div - 1)) / div.
Definition ALIGN_UP (value align : Z) : Z := u64 (DIV_ROUNDUP value align * align).
Definition ALIGN_DOWN (value align : Z) : Z := u64 (value / align * align).

Definition div_round_up (addr align : Z) : Z := u64 (u64 (addr + align) - 1) / align.
Definition page_align_up (addr : Z) : Z := u64 (div_round_up addr PAGE_SIZE * PAGE_SIZE).
Definition page_align_down (addr : Z) : Z := u64 (addr / PAGE_SIZE * PAGE_SIZE).
Definition max_u64 (a b : Z) : Z := if a >? b then a else b.

(** ** Blocks of memory *)

(** [for (; size > 0; size--) { *tmp = value; tmp++; }] *)
Fixpoint memset_loop (size : nat) (m : gmap Z Z) (tmp value : Z) : gmap Z Z :=
  match size with
  | O => m
  | S size' => memset_loop size' (<[tmp := value]> m) (tmp + 1) value
  end.
Definition memset (m : gmap Z Z) (ptr value size : Z) : gmap Z Z :=
  memset_loop (Z.to_nat size) m ptr (u8 value).

Fixpoint memcpy_loop (size : nat) (m : gmap Z Z) (d s : Z) : gmap Z Z :=
  match size with
  | O => m
  | S size' => memcpy_loop size' (<[d := byte m s]> m) (d + 1) (s + 1)
  end.
Definition memcpy (m : gmap Z Z) (dest src size : Z) : gmap Z Z :=
  memcpy_loop (Z.to_nat size) m dest src.

(** ** Strings *)

Fixpoint kstrcpy_loop (size : nat) (m : gmap Z Z) (dest src : Z) : gmap Z Z :=
  match size with
  | O => m
  | S size' =>
      let c := byte m src in
      let m' := <[dest := c]> m in
      (* the terminator is tested after the store: [dest] may overlap [src] *)
      if byte m' src =? 0 then m' else kstrcpy_loop size' m' (dest + 1) (src + 1)
  end.
Definition kstrcpy (m : gmap Z Z) (dest src size : Z) : gmap Z Z :=
  kstrcpy_loop (Z.to_nat size) m dest src.

(** One round of the [while] loop of [kstrcmp]; [inr] is a [return]. *)
Definition kstrcmp_round (v : Z * Z * Z) : M (gmap Z Z) ((Z * Z * Z) + bool) :=
  let '(str1, str2, len) := v in
  c1 ← gets (λ m, byte m str1);
  c2 ← gets (λ m, byte m str2);
  if negb (c1 =? 0) && negb (c2 =? 0) then
    if negb (c1 =? c2) then mret (inr false)
    else if len =? 1 then mret (inr true)
    else mret (inl (str1 + 1, str2 + 1, u32 (len - 1)))
  else mret (inr ((c1 =? 0) && (c2 =? 0))).
Definition kstrcmp (str1 str2 len : Z) : M (gmap Z Z) bool :=
  loop kstrcmp_round (str1, str2, len).

(** ** Numbers *)

Fixpoint kpow_loop (y : nat) (x result : Z) : Z :=
  match y with
  | O => result
  | S y' => kpow_loop y' x (s64 (result * x))
  end.
Definition kpow (x y : Z) : Z := kpow_loop (Z.to_nat y) x 1.

(** A [char] read back as a number: plain [char] is signed on this target. *)
Definition schar (b : Z) : Z := swrap 8 b.

Definition oct_term (c size : Z) : Z := u64 (u64 (schar c - 48) * u64 (kpow 8 size)).

Definition oct_round (v : Z * Z * Z) : M (gmap Z Z) ((Z * Z * Z) + (Z * Z * Z)) :=
  let '(number, size, res) := v in
  c ← gets (λ m, byte m number);
  let v' := (number + 1, u16 (size - 1), u64 (res + oct_term c size)) in
  if u16 (size - 1) =? 0 then mret (inr v') else mret (inl v').

Definition oct_ascii_to_dec (number size : Z) : M (gmap Z Z) Z :=
  v ← loop oct_round (number + 1, u16 (size - 3), 0);
  let '(number', size', res) := v in
  c ← gets (λ m, byte m number');
  mret (u64 (res + oct_term c size')).

(** ** Specifications *)

(** The bytes [l] lie in RAM from [p] on. *)
Definition bytes_at (m : gmap Z Z) (p : Z) (l : list Z) : Prop :=
  ∀ (i : nat) c, l !! i = Some c → byte m (p + Z.of_nat i) = c.

(** [p] points to the C string [s]. *)
Definition cstr_at (m : gmap Z Z) (p : Z) (s : list Z) : Prop :=
  bytes_at m p (s ++ [0]) ∧ Forall (λ c, c ≠ 0) s.

(** The [k] octal digits of [n], most significant first, as ASCII. *)
Definition oct_digits (k : nat) (n : Z) : list Z :=
  map (λ i, 48 + (n / 8 ^ (Z.of_nat k - 1 - i)) mod 8) (seqZ 0 (Z.of_nat k)).

(** ** Alignment lemmas *)

Lemma DIV_ROUNDUP_small v d : 0 < d → 0 ≤ v → v + d ≤ 2 ^ 64 →
  DIV_ROUNDUP v d = (v + d - 1) / d.
Proof.
  intros. unfold DIV_ROUNDUP. rewrite u64_small by lia. f_equal. lia.
Qed.

(** The round-up quotient of [n] pages' worth of bytes is [n]. *)
Lemma DIV_ROUNDUP_bounds v d : 0 < d → 0 ≤ v → v + d ≤ 2 ^ 64 →
  v ≤ DIV_ROUNDUP v d * d < v + d.
Proof. intros. rewrite DIV_ROUNDUP_small by lia. zify_div. Qed.

Lemma ALIGN_UP_bounds v : 0 ≤ v → v + PAGE_SIZE ≤ 2 ^ 64 →
  ∃ k, ALIGN_UP v PAGE_SIZE = k * PAGE_SIZE ∧ v ≤ k * PAGE_SIZE < v + PAGE_SIZE.
Proof.
  intros H1 H2. exists (DIV_ROUNDUP v PAGE_SIZE). unfold ALIGN_UP.
  pose proof (DIV_ROUNDUP_bounds v PAGE_SIZE ltac:(done) H1 H2).
  rewrite u64_small; [done|lia].
Qed.

Lemma land_lnot_low a k : 0 ≤ k → Z.land a (Z.lnot (Z.ones k)) = a / 2 ^ k * 2 ^ k.
Proof.
  intros. change (Z.land a (Z.lnot (Z.ones k))) with (Z.ldiff a (Z.ones k)) ||
    rewrite <- Z.ldiff_land.
  rewrite Z.ldiff_ones_r by done.
  by rewrite Z.shiftl_mul_pow2, Z.shiftr_div_pow2 by done.
Qed.

(** ** Blocks *)

Lemma byte_memset_loop n m p v x :
  byte (memset_loop n m p v) x =
    if decide (p ≤ x < p + Z.of_nat n) then u8 v else byte m x.
Proof.
  revert m p. induction n as [|n IH]; intros m p; cbn [memset_loop].
  { rewrite decide_False by lia. done. }
  rewrite IH, byte_insert. repeat case_decide; subst; done || lia.
Qed.

Lemma byte_memset m p v n x : 0 ≤ n →
  byte (memset m p v n) x = if decide (p ≤ x < p + n) then u8 v else byte m x.
Proof.
  intros. unfold memset. rewrite byte_memset_loop, Z2Nat.id by done.
  case_decide; [|done]. unfold u8. by rewrite wrap_wrap.
Qed.

Lemma same_outside_memset m p v n :
  0 ≤ n → same_outside (in_range p n) m (memset m p v n).
Proof.
  intros ? x Hx. rewrite byte_memset, decide_False; [done| |done].
  unfold in_range in Hx. lia.
Qed.

Lemma rd_memset_zero k m p n a : 0 ≤ n →
  p ≤ a → a + Z.of_nat k ≤ p + n → rd k (memset m p 0 n) a = 0.
Proof.
  intros Hn. revert a. induction k as [|k IH]; intros a H1 H2; cbn [rd]; [done|].
  rewrite IH by lia. rewrite byte_memset, decide_True by lia. done.
Qed.

Lemma byte_memcpy_loop n m d s x :
  d + Z.of_nat n ≤ s ∨ s + Z.of_nat n ≤ d →
  byte (memcpy_loop n m d s) x =
    if decide (d ≤ x < d + Z.of_nat n) then byte m (s + (x - d)) else byte m x.
Proof.
  revert m d s. induction n as [|n IH]; intros m d s H; cbn [memcpy_loop].
  { rewrite decide_False by lia. done. }
  rewrite IH by lia. rewrite !byte_insert.
  repeat case_decide; subst; try lia; try (f_equal; lia).
  unfold byte, u8. rewrite wrap_wrap by done. do 3 f_equal. lia.
Qed.

(** ** Strings *)

Lemma bytes_at_app m p l k :
  bytes_at m p (l ++ k) ↔ bytes_at m p l ∧ bytes_at m (p + Z.of_nat (length l)) k.
Proof.
  unfold bytes_at. split.
  - intros H. split; intros i c Hi.
    + apply H. by apply lookup_app_l_Some.
    + rewrite <- Z.add_assoc, <- Nat2Z.inj_add. apply H.
      rewrite lookup_app_r by lia. by replace (length l + i - length l)%nat with i by lia.
  - intros [H1 H2] i c Hi. apply lookup_app_Some in Hi as [Hi|[Hle Hi]]; [by apply H1|].
    apply H2 in Hi. by rewrite <- Hi; f_equal; lia.
Qed.

Lemma cstr_at_char m p s (i : nat) c :
  cstr_at m p s → s !! i = Some c → byte m (p + Z.of_nat i) = c ∧ c ≠ 0.
Proof.
  intros [[H _]%bytes_at_app Hz] Hi. split; [by apply H|].
  by eapply Forall_lookup_1 in Hz.
Qed.

Lemma cstr_at_end m p s : cstr_at m p s → byte m (p + Z.of_nat (length s)) = 0.
Proof.
  intros [[_ H]%bytes_at_app _]. specialize (H 0%nat 0 eq_refl).
  by rewrite <- H; f_equal; lia.
Qed.

(** The byte a C string shows at index [i]. *)
Lemma cstr_at_byte m p s (i : nat) : cstr_at m p s → (i ≤ length s)%nat →
  byte m (p + Z.of_nat i) = default 0 (s !! i) ∧
  (byte m (p + Z.of_nat i) = 0 ↔ i = length s).
Proof.
  intros Hs Hi. destruct (s !! i) as [c|] eqn:E.
  - destruct (cstr_at_char _ _ _ _ _ Hs E) as [-> Hc]. split; [done|].
    apply lookup_lt_Some in E. lia.
  - apply lookup_ge_None in E. assert (i = length s) as -> by lia.
    by rewrite (cstr_at_end _ _ _ Hs).
Qed.

(** What [kstrcmp] decides: equality of the first [len] characters, of the
    whole strings when [len] is 0. *)
Definition strncmp_spec (s1 s2 : list Z) (len : Z) : bool :=
  if len =? 0 then bool_decide (s1 = s2)
  else bool_decide (take (Z.to_nat len) s1 = take (Z.to_nat len) s2).

(** Lists that agree up to [i] and differ there differ in any longer prefix. *)
Lemma take_differ (s1 s2 : list Z) (i n : nat) :
  (i < n)%nat → s1 !! i ≠ s2 !! i → take n s1 ≠ take n s2.
Proof.
  intros Hi Hne Heq. apply Hne. apply (f_equal (.!! i)) in Heq.
  by rewrite !lookup_take_lt in Heq by lia.
Qed.

Lemma take_S_eq (s1 s2 : list Z) (i : nat) :
  take i s1 = take i s2 → s1 !! i = s2 !! i → take (S i) s1 = take (S i) s2.
Proof.
  intros Ht Hi. destruct (s1 !! i) as [c|] eqn:E1.
  - symmetry in Hi. by rewrite (take_S_r _ _ _ E1), (take_S_r _ _ _ Hi), Ht.
  - symmetry in Hi. apply lookup_ge_None in E1. apply lookup_ge_None in Hi.
    rewrite !take_ge in * by lia. done.
Qed.

Section kstrcmp.
Context (m : gmap Z Z) (p1 p2 : Z) (s1 s2 : list Z) (n : Z).
Context (H1 : cstr_at m p1 s1) (H2 : cstr_at m p2 s2) (Hn : 0 < n ≤ 2 ^ 32).

Definition kstrcmp_inv (v : Z * Z * Z) (m' : gmap Z Z) : Prop :=
  m' = m ∧ ∃ i : nat, v = (p1 + Z.of_nat i, p2 + Z.of_nat i, u32 (n - Z.of_nat i)) ∧
    (i ≤ length s1)%nat ∧ (i ≤ length s2)%nat ∧ Z.of_nat i < n ∧ take i s1 = take i s2.

Lemma kstrcmp_keeps :
  keeps kstrcmp_round kstrcmp_inv (λ v _, p1 + n - v.1.1)
    (λ b m', m' = m ∧ b = bool_decide (take (Z.to_nat n) s1 = take (Z.to_nat n) s2)).
Proof.
  intros v m' (-> & i & -> & Hi1 & Hi2 & Hin & Heq). unfold kstrcmp_round, runs. mstep.
  destruct (cstr_at_byte m p1 s1 i H1 Hi1) as [Hb1 Hz1].
  destruct (cstr_at_byte m p2 s2 i H2 Hi2) as [Hb2 Hz2].
  destruct (byte m (p1 + Z.of_nat i) =? 0) eqn:E1;
    destruct (byte m (p2 + Z.of_nat i) =? 0) eqn:E2; simpl; bool_to_prop.
  - split; [done|]. symmetry. apply bool_decide_eq_true.
    apply Hz1 in E1. apply Hz2 in E2. rewrite E1, take_ge in Heq by lia.
    assert (s1 = s2) as ->; [|done]. rewrite Heq, take_ge; lia || done.
  - split; [done|]. symmetry. apply bool_decide_eq_false, (take_differ _ _ i); [lia|].
    apply Hz1 in E1. rewrite (lookup_ge_None_2 s1) by lia.
    destruct (s2 !! i) eqn:E; [done|]. apply lookup_ge_None in E. lia.
  - split; [done|]. symmetry. apply bool_decide_eq_false, (take_differ _ _ i); [lia|].
    apply Hz2 in E2. rewrite (lookup_ge_None_2 s2) by lia.
    destruct (s1 !! i) eqn:E; [done|]. apply lookup_ge_None in E. lia.
  - assert (is_Some (s1 !! i)) as [c1 Hc1] by (apply lookup_lt_is_Some; lia).
    assert (is_Some (s2 !! i)) as [c2 Hc2] by (apply lookup_lt_is_Some; lia).
    rewrite Hc1 in Hb1. rewrite Hc2 in Hb2. simpl in Hb1, Hb2.
    destruct (_ =? byte m (p2 + _)) eqn:E3; simpl; bool_to_prop.
    + assert (s1 !! i = s2 !! i) as Hci by congruence.
      pose proof (take_S_eq _ _ _ Heq Hci) as HS.
      destruct (u32 (n - Z.of_nat i) =? 1) eqn:E4; simpl; bool_to_prop.
      * split; [done|]. symmetry. apply bool_decide_eq_true.
        replace (Z.to_nat n) with (S i); [done|]. unfold u32, wrap in E4. zify_div.
      * split; [|lia]. split; [done|]. exists (S i).
        assert (n - Z.of_nat i ≠ 1) by (intros Hx; by rewrite Hx in E4).
        repeat split; try lia; try done.
        apply f_equal2; [apply f_equal2; lia|]. unfold u32, wrap. zify_div.
    + split; [done|]. symmetry. apply bool_decide_eq_false, (take_differ _ _ i); [lia|].
      congruence.
Qed.

Lemma kstrcmp_take : kstrcmp p1 p2 (u32 n) m =
  Ok (bool_decide (take (Z.to_nat n) s1 = take (Z.to_nat n) s2), m).
Proof.
  assert (runs (kstrcmp p1 p2 (u32 n)) m (λ b m', m' = m ∧
    b = bool_decide (take (Z.to_nat n) s1 = take (Z.to_nat n) s2))) as H.
  { eapply runs_loop; [apply kstrcmp_keeps| |simpl; lia].
    split; [done|]. exists 0%nat. rewrite !Z.add_0_r, Z.sub_0_r, !take_0.
    repeat split; lia. }
  apply runs_inv in H as (b & m' & -> & -> & ->). done.
Qed.

End kstrcmp.

(** [kstrcmp] on two C strings; [len] = 0 runs the 32-bit counter all the way
    round, so for strings shorter than 2^32 it compares them entirely. *)
Lemma kstrcmp_cstr m p1 p2 s1 s2 len :
  cstr_at m p1 s1 → cstr_at m p2 s2 → 0 ≤ len < 2 ^ 32 →
  Z.of_nat (length s1) < 2 ^ 32 → Z.of_nat (length s2) < 2 ^ 32 →
  kstrcmp p1 p2 len m = Ok (strncmp_spec s1 s2 len, m).
Proof.
  intros H1 H2 Hlen Hl1 Hl2. unfold strncmp_spec. destruct (len =? 0) eqn:E; bool_to_prop.
  - subst len. change 0 with (u32 (2 ^ 32)) at 1.
    rewrite (kstrcmp_take m p1 p2 s1 s2 (2 ^ 32)) by (done || lia).
    by rewrite !take_ge by lia.
  - rewrite <- (u32_small len) at 1 by lia.
    by rewrite (kstrcmp_take m p1 p2 s1 s2 len) by (done || lia).
Qed.

(** The effect of [kstrcpy] when source and destination do not overlap: it
    copies up to and including the terminator, but never more than [size]. *)
Lemma byte_kstrcpy_loop n m d src s x :
  cstr_at m src s →
  d + Z.of_nat n ≤ src ∨ src + Z.of_nat (length s) < d →
  byte (kstrcpy_loop n m d src) x =
    if decide (d ≤ x < d + Z.min (Z.of_nat n) (Z.of_nat (length s) + 1))
    then byte m (src + (x - d)) else byte m x.
Proof.
  revert m d src s. induction n as [|n IH]; intros m d src s Hs Hdis; cbn [kstrcpy_loop].
  { rewrite decide_False by lia. done. }
  assert (byte (<[d:=byte m src]> m) src = byte m src) as ->.
  { rewrite byte_insert. case_decide; [|done]. unfold byte, u8. by rewrite wrap_wrap. }
  assert (byte (<[d:=byte m src]> m) x = if decide (d = x) then byte m src else byte m x)
    as Hins. { rewrite byte_insert. case_decide; [|done]. unfold byte, u8. by rewrite wrap_wrap. }
  destruct s as [|c s].
  - pose proof (cstr_at_end _ _ _ Hs) as Hz. simpl in Hz. rewrite Z.add_0_r in Hz.
    rewrite Hz in Hins |- *. simpl. rewrite Hins.
    repeat case_decide; try lia; subst; try done. simpl in *.
    replace (src + (x - x)) with src by lia. done.
  - destruct (cstr_at_char _ _ _ 0 c Hs eq_refl) as [Hc Hc0].
    rewrite Z.add_0_r in Hc. rewrite Hc, (proj2 (Z.eqb_neq c 0) Hc0), <- Hc.
    assert (cstr_at (<[d:=byte m src]> m) (src + 1) s) as Hs'.
    { destruct Hs as [Hb Hz]. inversion Hz; subst. split; [|done].
      intros i c' Hi. rewrite byte_insert. rewrite decide_False.
      - replace (src + 1 + Z.of_nat i) with (src + Z.of_nat (S i)) by lia. by apply Hb.
      - apply lookup_lt_Some in Hi. rewrite length_app in Hi. simpl in *. lia. }
    rewrite (IH _ _ _ s Hs') by (simpl in *; lia). rewrite Hins, byte_insert.
    simpl in *. repeat case_decide; subst; try lia; try (f_equal; lia).
Qed.

(** ** Numbers *)

Lemma swrap_mul_l w x y : 0 < w → swrap w (swrap w x * y) = swrap w (x * y).
Proof.
  intros Hw. unfold swrap. f_equal.
  set (q := (x + 2 ^ (w - 1)) / 2 ^ w).
  assert ((x + 2 ^ (w - 1)) mod 2 ^ w = x + 2 ^ (w - 1) - q * 2 ^ w) as ->.
  { unfold q. rewrite Z.mod_eq; lia. }
  replace ((x + 2 ^ (w - 1) - q * 2 ^ w - 2 ^ (w - 1)) * y + 2 ^ (w - 1))
    with (x * y + 2 ^ (w - 1) + (- q * y) * 2 ^ w) by ring.
  apply Z.mod_add. lia.
Qed.

Lemma kpow_loop_pow n x r : kpow_loop n x (s64 r) = s64 (r * x ^ Z.of_nat n).
Proof.
  revert r. induction n as [|n IH]; intros r; cbn [kpow_loop].
  { by rewrite Z.mul_1_r. }
  unfold s64 at 1 2. rewrite swrap_mul_l by done.
  change (swrap 64 (r * x)) with (s64 (r * x)). rewrite IH. f_equal.
  rewrite Nat2Z.inj_succ, Z.pow_succ_r by lia. ring.
Qed.

(** [kpow] is exponentiation in 64-bit two's complement. *)
Lemma kpow_pow x y : 0 ≤ y → kpow x y = s64 (x ^ y).
Proof.
  intros. unfold kpow. change 1 with (s64 1). rewrite kpow_loop_pow, Z2Nat.id by done.
  by rewrite Z.mul_1_l.
Qed.

Lemma pow8_bound k : 0 ≤ k ≤ 20 → 0 < 8 ^ k ≤ 2 ^ 60.
Proof.
  intros. split; [lia|]. change (2 ^ 60) with (8 ^ 20). apply Z.pow_le_mono_r; lia.
Qed.

Lemma oct_term_digit d size : 0 ≤ d < 8 → 0 ≤ size ≤ 20 →
  oct_term (48 + d) size = d * 8 ^ size.
Proof.
  intros Hd Hs. pose proof (pow8_bound size Hs). unfold oct_term.
  assert (schar (48 + d) = 48 + d) as ->.
  { apply (swrap_small 8); [done|]. change (2 ^ (8 - 1)) with 128. lia. }
  rewrite kpow_pow, s64_small by lia. replace (48 + d - 48) with d by lia.
  rewrite (u64_small d), (u64_small (8 ^ size)), u64_small; nia.
Qed.

Lemma oct_digits_lookup k n (i : nat) : (i < k)%nat →
  oct_digits k n !! i = Some (48 + (n / 8 ^ (Z.of_nat k - 1 - Z.of_nat i)) mod 8).
Proof.
  intros. unfold oct_digits. rewrite list_lookup_fmap, lookup_seqZ_lt by lia. done.
Qed.

(** Peeling the digit of weight [8^j]. *)
Lemma oct_peel n j : 0 ≤ j →
  n / 8 ^ (j + 1) * 8 ^ (j + 1) + (n / 8 ^ j) mod 8 * 8 ^ j = n / 8 ^ j * 8 ^ j.
Proof.
  intros. rewrite Z.pow_add_r, Z.pow_1_r by lia. rewrite <- Z.div_div by lia.
  rewrite (Z.div_mod (n / 8 ^ j) 8) at 3 by lia. ring.
Qed.

Section oct.
Context (m : gmap Z Z) (p : Z) (k : nat) (n : Z).
Context (Hk : (2 ≤ k ≤ 21)%nat) (Hn : 0 ≤ n < 8 ^ Z.of_nat k).
Context (Hm : bytes_at m (p + 1) (oct_digits k n)).

Definition oct_inv (v : Z * Z * Z) (m' : gmap Z Z) : Prop :=
  let '(number, size, res) := v in
  m' = m ∧ 1 ≤ size ≤ Z.of_nat k - 1 ∧ number = p + Z.of_nat k - size ∧
  res = n / 8 ^ (size + 1) * 8 ^ (size + 1).

Lemma oct_digit size : 0 ≤ size ≤ Z.of_nat k - 1 →
  byte m (p + Z.of_nat k - size) = 48 + (n / 8 ^ size) mod 8.
Proof.
  intros Hs. pose (i := Z.to_nat (Z.of_nat k - 1 - size)).
  replace (p + Z.of_nat k - size) with (p + 1 + Z.of_nat i) by lia.
  apply Hm. rewrite oct_digits_lookup by lia.
  by replace (Z.of_nat k - 1 - Z.of_nat i) with size by lia.
Qed.

Lemma oct_prefix_bound j : 0 ≤ n / 8 ^ j * 8 ^ j ≤ n.
Proof.
  destruct (Z.lt_ge_cases j 0); [rewrite Z.pow_neg_r by done; simpl; lia|].
  assert (0 < 8 ^ j) by (apply Z.pow_pos_nonneg; lia).
  split; [apply Z.mul_nonneg_nonneg; [apply Z.div_pos|]; lia|].
  rewrite Z.mul_comm. apply Z.mul_div_le. lia.
Qed.

Lemma oct_step size : 0 ≤ size ≤ Z.of_nat k - 1 →
  u64 (n / 8 ^ (size + 1) * 8 ^ (size + 1) +
       oct_term (byte m (p + Z.of_nat k - size)) size) = n / 8 ^ size * 8 ^ size.
Proof.
  intros Hs. rewrite oct_digit by done.
  rewrite oct_term_digit by (try apply Z.mod_pos_bound; lia).
  rewrite oct_peel by lia. pose proof (oct_prefix_bound size).
  assert (8 ^ Z.of_nat k ≤ 8 ^ 21) by (apply Z.pow_le_mono_r; lia).
  apply u64_small. lia.
Qed.

Lemma oct_keeps : keeps oct_round oct_inv (λ v _, v.1.2)
  (λ v m', m' = m ∧ v = (p + Z.of_nat k, 0, n / 8 ^ 1 * 8 ^ 1)).
Proof.
  intros [[number size] res] m' (-> & Hs & -> & ->). unfold oct_round, runs. mstep.
  rewrite oct_step by lia. rewrite u16_small by lia.
  destruct (size - 1 =? 0) eqn:E; simpl; bool_to_prop.
  - assert (size = 1) as -> by lia. split; [done|]. do 2 f_equal. lia.
  - repeat split; try lia. by replace (size - 1 + 1) with size by lia.
Qed.

Lemma oct_value : oct_ascii_to_dec p (Z.of_nat k + 2) m = Ok (n, m).
Proof.
  assert (runs (oct_ascii_to_dec p (Z.of_nat k + 2)) m (λ r m', r = n ∧ m' = m)) as H.
  { apply runs_bind. replace (Z.of_nat k + 2 - 3) with (Z.of_nat k - 1) by lia.
    rewrite u16_small by lia. eapply runs_mono.
    - apply runs_loop with (1 := oct_keeps); [|simpl; lia]. unfold oct_inv.
      repeat split; try lia. rewrite Z.sub_add, Z.div_small by lia. done.
    - intros v m' [-> ->]. unfold runs. mstep.
      pose proof (oct_step 0 ltac:(lia)) as Ho. rewrite Z.sub_0_r in Ho.
      change (0 + 1) with 1 in Ho. rewrite Ho, Z.pow_0_r, Z.div_1_r, Z.mul_1_r. done. }
  apply runs_inv in H as (r & m' & -> & -> & ->). done.
Qed.

End oct.

(** ** Properties *)

(** [kstrcmp] returns, on any two C strings, exactly whether their first
    [len] characters agree (the whole strings when [len] is 0, because the
    32-bit counter then wraps), and leaves memory alone. *)
Theorem kstrcmp_spec (m : gmap Z Z) (p1 p2 : Z) (s1 s2 : list Z) (len : Z) :
  cstr_at m p1 s1 → cstr_at m p2 s2 → 0 ≤ len < 2 ^ 32 →
  Z.of_nat (length s1) < 2 ^ 32 → Z.of_nat (length s2) < 2 ^ 32 →
  kstrcmp p1 p2 len m = Ok (strncmp_spec s1 s2 len, m).
Proof. apply kstrcmp_cstr. Qed.

(** RAM holding the strings "cat x" at 100 and "cat" at 200. *)
Definition cat_ram : gmap Z Z :=
  list_to_map (zip (seqZ 100 6) [99; 97; 116; 32; 120; 0] ++ zip (seqZ 200 4) [99; 97; 116; 0]).

Lemma bytes_at_check m p l :
  forallb (λ i, bool_decide (byte m (p + Z.of_nat i) = default 0 (l !! i)))
    (seq 0 (length l)) = true → bytes_at m p l.
Proof.
  intros H i c Hi. rewrite forallb_forall in H.
  assert (In i (seq 0 (length l))) as Hin.
  { apply in_seq. apply lookup_lt_Some in Hi. lia. }
  apply H in Hin. bool_to_prop. by rewrite Hi in Hin.
Qed.

Lemma kstrcmp_spec_witness :
  kstrcmp 100 200 3 cat_ram = Ok (strncmp_spec [99; 97; 116; 32; 120] [99; 97; 116] 3, cat_ram).
Proof.
  apply kstrcmp_spec; try (vm_compute; done);
    (split; [apply bytes_at_check; vm_compute; reflexivity|repeat constructor; lia]).
Defined.

(** Round trip of the tar size fields: reading back the [k]-digit octal
    rendering of [n] behind its leading zero gives [n], for every field width
    the file system uses and every value that fits it. *)
Theorem oct_ascii_roundtrip (m : gmap Z Z) (p : Z) (k : nat) (n : Z) :
  (2 ≤ k ≤ 21)%nat → 0 ≤ n < 8 ^ Z.of_nat k →
  bytes_at m (p + 1) (oct_digits k n) →
  oct_ascii_to_dec p (Z.of_nat k + 2) m = Ok (n, m).
Proof. apply oct_value. Qed.

(** The size field "00000001750" (octal for 1000) at address 64. *)
Definition size_field_ram : gmap Z Z :=
  list_to_map (zip (seqZ 64 12) (48 :: oct_digits 10 1000 ++ [0])).

Lemma oct_ascii_roundtrip_witness : oct_ascii_to_dec 64 12 size_field_ram = Ok (1000, size_field_ram).
Proof.
  apply (oct_ascii_roundtrip size_field_ram 64 10 1000); [lia|lia|].
  apply bytes_at_check. vm_compute. reflexivity.
Defined.

(** [page_align_up] and [page_align_down] compute, on every 64-bit value
    (wrap-around included), what the masking expressions kept in comments
    beside them compute. *)
Theorem page_align_masks (addr : Z) : 0 ≤ addr < 2 ^ 64 →
  page_align_up addr = Z.land (u64 (addr + PAGE_SIZE - 1)) (Z.lnot (PAGE_SIZE - 1)) ∧
  page_align_down addr = Z.land addr (Z.lnot (PAGE_SIZE - 1)).
Proof.
  intros Ha. change (PAGE_SIZE - 1) with (Z.ones 12). rewrite !land_lnot_low by done.
  unfold page_align_up, page_align_down, div_round_up, PAGE_SIZE.
  change (2 ^ 12) with 4096. unfold u64 at 2 3 4, wrap.
  rewrite Zminus_mod_idemp_l. pose proof (Z.mod_pos_bound (addr + 4096 - 1) (2 ^ 64)).
  split; apply u64_small; zify_div.
Qed.

Lemma page_align_masks_witness :
  page_align_up 4097 = Z.land (u64 (4097 + PAGE_SIZE - 1)) (Z.lnot (PAGE_SIZE - 1)) ∧
  page_align_down 4097 = Z.land 4097 (Z.lnot (PAGE_SIZE - 1)).
Proof. apply page_align_masks. lia. Defined.
