(* ===== verification/Arrays.v ===== *)
(** * Arrays of the C programs

    An array is the list of its elements; an access outside it is a fault. *)

From S2P Require Import Prelude.

(** [a[i]] where the index is known to be in range, and the checked read and
    write of an array that is part of a state. *)
Definition at_index (a : list Z) (i : Z) : Z := nth (Z.to_nat i) a 0.
Definition put_at {S} (get : S → list Z) (put : list Z → S → S) (i v : Z) : M S unit := λ s,
  if (0 <=? i) && (i <? Z.of_nat (length (get s)))
  then Ok (tt, put (<[Z.to_nat i := v]> (get s)) s) else Fault.
Definition get_at {S} (get : S → list Z) (i : Z) : M S Z := λ s,
  if (0 <=? i) && (i <? Z.of_nat (length (get s))) then Ok (at_index (get s) i, s) else Fault.

Lemma at_index_insert l k n v : 0 ≤ k < Z.of_nat (length l) → 0 ≤ n →
  at_index (<[Z.to_nat k := v]> l) n = if decide (n = k) then v else at_index l n.
Proof.
  intros Hk Hn. unfold at_index. rewrite !nth_lookup. case_decide as E.
  - subst. by rewrite list_lookup_insert_eq by lia.
  - by rewrite list_lookup_insert_ne by lia.
Qed.

Lemma put_at_ok {S} (get : S → list Z) put i v s : 0 ≤ i < Z.of_nat (length (get s)) →
  put_at get put i v s = Ok (tt, put (<[Z.to_nat i := v]> (get s)) s).
Proof.
  intros H. unfold put_at. by rewrite (proj2 (Z.leb_le _ _)), (proj2 (Z.ltb_lt _ _)) by lia.
Qed.

Lemma get_at_ok {S} (get : S → list Z) i s : 0 ≤ i < Z.of_nat (length (get s)) →
  get_at get i s = Ok (at_index (get s) i, s).
Proof.
  intros H. unfold get_at. by rewrite (proj2 (Z.leb_le _ _)), (proj2 (Z.ltb_lt _ _)) by lia.
Qed.

Lemma list_by_index l (f : Z → Z) n : 0 ≤ n → length l = Z.to_nat n →
  (∀ k, 0 ≤ k < n → at_index l k = f k) → l = map f (seqZ 0 n).
Proof.
  intros Hn Hl H. apply list_eq. intros i. rewrite list_lookup_fmap.
  destruct (decide (i < Z.to_nat n)%nat) as [Hi|Hi].
  - rewrite lookup_seqZ_lt by lia. cbn. destruct (lookup_lt_is_Some_2 l i) as [x Hx]; [lia|].
    rewrite Hx. f_equal. specialize (H (Z.of_nat i) ltac:(lia)). unfold at_index in H.
    rewrite Nat2Z.id, nth_lookup, Hx in H. done.
  - rewrite lookup_seqZ_ge by lia. by apply lookup_ge_None_2; lia.
Qed.
