(* ===== verification/Spinlock.v ===== *)
(** * [src/kernel/lib/spinlock.c] and [spinlock.h]

    The lock word, the compare-and-swap loop of [spinlock_acquire], and the
    interleaving of any number of threads that use one lock. *)

From S2P Require Import Prelude.

(** ** The operations *)

Definition SPINLOCK_INIT : Z := 0.

(** [__sync_bool_compare_and_swap(&lock->lock, 0, 1)] *)
Definition spinlock_test_and_acq : M Z bool :=
  λ lock, if lock =? 0 then Ok (true, 1) else Ok (false, lock).

(** [for (;;) if (spinlock_test_and_acq(lock)) break;] *)
Definition spinlock_acquire_round (_ : unit) : M Z (unit + unit) :=
  acquired ← spinlock_test_and_acq;
  if (acquired : bool) then mret (inr tt) else mret (inl tt).
Definition spinlock_acquire : M Z unit := loop spinlock_acquire_round tt.

Definition spinlock_release : M Z unit := λ _, Ok (tt, 0).

(** ** Threads that share a lock

    A thread is outside, in the loop of [spinlock_acquire], or between its
    acquire and its release.  One step is one atomic access of one thread. *)

Inductive pc := Outside | Spinning | Critical.
#[global] Instance pc_eq_dec : EqDecision pc.
Proof. solve_decision. Defined.

Record config := Config { lock : Z; threads : gmap nat pc }.

Inductive step : config → config → Prop :=
| step_call i l ts :
    ts !! i = Some Outside →
    step (Config l ts) (Config l (<[i := Spinning]> ts))
| step_round i l ts acquired l' :
    ts !! i = Some Spinning →
    spinlock_test_and_acq l = Ok (acquired, l') →
    step (Config l ts) (Config l' (<[i := if acquired : bool then Critical else Spinning]> ts))
| step_release i l ts l' :
    ts !! i = Some Critical →
    spinlock_release l = Ok (tt, l') →
    step (Config l ts) (Config l' (<[i := Outside]> ts)).

Definition initial (c : config) : Prop :=
  lock c = SPINLOCK_INIT ∧ ∀ i p, threads c !! i = Some p → p = Outside.

Definition reachable (c : config) : Prop := ∃ c0, initial c0 ∧ rtc step c0 c.

(** ** Lemmas *)

Lemma spinlock_acquire_free : spinlock_acquire 0 = Ok (tt, 1).
Proof. by vm_compute. Qed.

Lemma spinlock_acquire_held l : l ≠ 0 → spinlock_acquire l = Hang.
Proof.
  intros Hl. apply (loop_hangs _ (λ _ l', l' = l)); [|done].
  intros a s ->. exists tt, l. unfold spinlock_acquire_round, spinlock_test_and_acq.
  mstep. by rewrite (proj2 (Z.eqb_neq _ _) Hl).
Qed.

(** The lock word says whether somebody is inside, and at most one thread is. *)
Record lock_inv (c : config) : Prop := {
  inv_bit : lock c = 0 ∨ lock c = 1;
  inv_free : lock c = 0 → ∀ i, threads c !! i ≠ Some Critical;
  inv_held : lock c = 1 → ∃ i, threads c !! i = Some Critical;
  inv_unique : ∀ i j, threads c !! i = Some Critical → threads c !! j = Some Critical → i = j;
}.

Lemma initial_inv c : initial c → lock_inv c.
Proof.
  intros [Hl Ht]. unfold SPINLOCK_INIT in Hl.
  split; [by left|intros _ i Hi|lia|intros i j Hi]; by apply Ht in Hi.
Qed.

Lemma step_inv c c' : step c c' → lock_inv c → lock_inv c'.
Proof.
  intros Hs [Hb Hf Hh Hu]. destruct Hs as [i l ts Hi|i l ts b l' Hi Hc|i l ts l' Hi Hc];
    simpl in *.
  - split; simpl; [done|..].
    + intros Hl j. rewrite lookup_insert. case_decide; [done|by apply Hf].
    + intros Hl. destruct (Hh Hl) as [j Hj]. exists j.
      rewrite lookup_insert_ne; [done|]. intros ->. congruence.
    + intros j k. rewrite !lookup_insert. repeat case_decide; naive_solver.
  - unfold spinlock_test_and_acq in Hc. destruct (l =? 0) eqn:E; simplify_eq; bool_to_prop.
    + split; simpl; [by right|lia| |].
      * intros _. exists i. by rewrite lookup_insert_eq.
      * intros j k. rewrite !lookup_insert. repeat case_decide; subst; try done;
          intros; exfalso; eapply Hf; eauto.
    + assert (<[i:=Spinning]> ts = ts) as -> by by apply insert_id. by split.
  - injection Hc as <-. split; simpl; [by left| |lia|].
    + intros _ j. rewrite lookup_insert. case_decide; [done|].
      intros Hj. by rewrite (Hu _ _ Hi Hj) in *.
    + intros j k. rewrite !lookup_insert. repeat case_decide; naive_solver.
Qed.

Lemma reachable_inv c : reachable c → lock_inv c.
Proof.
  intros (c0 & Hi & Hr). apply initial_inv in Hi.
  induction Hr as [|c1 c2 c3 Hs _ IH]; [done|]. eauto using step_inv.
Qed.

(** ** Properties *)

(** [C19] Mutual exclusion: in every interleaving of any number of threads, no
    two threads are between [spinlock_acquire] and [spinlock_release] at once,
    and the lock word is 1 exactly while one of them is. *)
Theorem spinlock_mutual_exclusion (c : config) :
  reachable c →
  (∀ i j, threads c !! i = Some Critical → threads c !! j = Some Critical → i = j) ∧
  (lock c = 1 ↔ ∃ i, threads c !! i = Some Critical).
Proof.
  intros [Hb Hf Hh Hu]%reachable_inv. split; [done|]. split; [done|].
  intros [i Hi]. destruct Hb as [Hb|Hb]; [|done]. by destruct (Hf Hb i).
Qed.

(** Two threads; the first has taken the lock, the second spins. *)
Lemma spinlock_mutual_exclusion_witness :
  reachable (Config 1 {[0%nat := Critical; 1%nat := Spinning]}) ∧
  (lock (Config 1 {[0%nat := Critical; 1%nat := Spinning]}) = 1 ↔
   ∃ i, ({[0%nat := Critical; 1%nat := Spinning]} : gmap nat pc) !! i = Some Critical).
Proof.
  assert (reachable (Config 1 {[0%nat := Critical; 1%nat := Spinning]})) as Hr.
  { exists (Config 0 {[0%nat := Outside; 1%nat := Outside]}). split.
    - split; [done|]. simpl. intros i p.
      destruct (decide (i = 0%nat)) as [->|]; [by intros [= <-]|].
      rewrite lookup_insert_ne by done. rewrite lookup_singleton_Some. naive_solver.
    - eapply rtc_l; [by apply (step_call 0)|].
      eapply rtc_l; [by eapply (step_round 0 _ _ true 1)|].
      eapply rtc_l; [by apply (step_call 1)|].
      eapply rtc_l; [by eapply (step_round 1 _ _ false 1)|]. vm_compute. apply rtc_refl. }
  split; [exact Hr|]. apply (proj2 (spinlock_mutual_exclusion _ Hr)).
Defined.

(** [C38] No deadlock at the lock: in every reachable state in which some thread
    spins, either its next compare-and-swap succeeds, or the thread that holds
    the lock can release it, after which the spinning thread's next
    compare-and-swap succeeds. *)
Theorem spinlock_progress (c : config) (i : nat) :
  reachable c → threads c !! i = Some Spinning →
  (∃ c', step c c' ∧ threads c' !! i = Some Critical) ∨
  (∃ c1 c2, step c c1 ∧ lock c1 = 0 ∧ step c1 c2 ∧ threads c2 !! i = Some Critical).
Proof.
  intros [Hb Hf Hh Hu]%reachable_inv Hi. destruct c as [l ts]; simpl in *.
  destruct Hb as [->| ->].
  - left. eexists. split; [by eapply (step_round i _ _ true 1)|]. simpl.
    by rewrite lookup_insert_eq.
  - right. destruct (Hh eq_refl) as [j Hj].
    assert (i ≠ j) by (intros ->; congruence).
    eexists _, _. split; [by eapply (step_release j _ _ 0)|]. split; [done|].
    split; [eapply (step_round i _ _ true 1); [by rewrite lookup_insert_ne|done]|].
    simpl. by rewrite lookup_insert_eq.
Qed.

Lemma spinlock_progress_witness :
  (∃ c', step (Config 0 {[0%nat := Spinning]}) c' ∧ threads c' !! 0%nat = Some Critical) ∨
  (∃ c1 c2, step (Config 0 {[0%nat := Spinning]}) c1 ∧ lock c1 = 0 ∧
     step c1 c2 ∧ threads c2 !! 0%nat = Some Critical).
Proof.
  apply spinlock_progress; [|done]. exists (Config 0 {[0%nat := Outside]}). split.
  - split; [done|]. simpl. intros i p. rewrite lookup_singleton_Some. naive_solver.
  - eapply rtc_l; [by apply (step_call 0)|]. vm_compute. apply rtc_refl.
Defined.

(** [spinlock_acquire] run on its own returns exactly when the lock is
    free, and then holds it; on a held lock it spins for ever. *)
Theorem spinlock_acquire_spec (l : Z) :
  spinlock_acquire l = if l =? 0 then Ok (tt, 1) else Hang.
Proof.
  destruct (l =? 0) eqn:E; bool_to_prop; [subst; apply spinlock_acquire_free|].
  by apply spinlock_acquire_held.
Qed.
