(* ===== verification/Pmm.v ===== *)
(** * Physical memory manager: [src/kernel/mm/pmm.c] and [bitmap.h]

    One bit per page frame, set while the frame is in use.  The bitmap lives in
    RAM, in the first usable region large enough for it, and the allocator is
    next-fit: it scans from where the last allocation ended and wraps around
    once.  [Module Spec] states what it promises as functions on the set of used
    pages; the theorems below show that the bit-level loops compute them. *)

From S2P Require Import Prelude Machine Util Spinlock.

(** ** [bitmap.h] *)

Definition bitmap_set (bm bit : Z) (s : kstate) : kstate :=
  let a := u64 (bm + bit / 8) in
  store 1 a (Z.lor (load 1 s a) (Z.shiftl 1 (bit mod 8))) s.

Definition bitmap_clear (bm bit : Z) (s : kstate) : kstate :=
  let a := u64 (bm + bit / 8) in
  store 1 a (Z.land (load 1 s a) (Z.lnot (Z.shiftl 1 (bit mod 8)))) s.

Definition bitmap_get (s : kstate) (bm bit : Z) : bool :=
  negb (Z.land (load 1 s (u64 (bm + bit / 8))) (Z.shiftl 1 (bit mod 8)) =? 0).

(** ** The memory map the boot loader hands over *)

Definition LIMINE_MEMMAP_USABLE : Z := 0.

Record limine_memmap_entry := Entry { e_base : Z; e_length : Z; e_type : Z }.

Definition get_hhdm : M kstate Z := gets hhdm_offset.

(** ** [pmm_init] *)

(** The loop counter is a [uint8_t], the bound a [uint64_t]. *)
Definition highest_round (entries : list limine_memmap_entry) (v : Z * Z) :
    M kstate (Z * Z + Z) :=
  let '(i, highest_addr) := v in
  if i <? Z.of_nat (length entries) then
    match entries !! Z.to_nat i with
    | None => fault
    | Some entry =>
        mret (inl (u8 (i + 1),
          if e_type entry =? LIMINE_MEMMAP_USABLE
          then MAX highest_addr (u64 (e_base entry + e_length entry))
          else highest_addr))
    end
  else mret (inr highest_addr).

(** Find a hole for the bitmap, fill it with ones and take it out of its entry. *)
Definition hole_round (bitmap_size : Z) (entries : list limine_memmap_entry) (i : Z) :
    M kstate (Z + list limine_memmap_entry) :=
  if i <? Z.of_nat (length entries) then
    match entries !! Z.to_nat i with
    | None => fault
    | Some entry =>
        if negb (e_type entry =? LIMINE_MEMMAP_USABLE) then mret (inl (u8 (i + 1)))
        else if e_length entry >=? bitmap_size then
          hhdm ← get_hhdm;
          let bm := u64 (e_base entry + hhdm) in
          modify (set_bitmap bm);;
          modify (λ s, set_ram (memset (ram s) (cell (hhdm_offset s) bm) 255 bitmap_size) s);;
          mret (inr (<[Z.to_nat i := Entry (u64 (e_base entry + bitmap_size))
                                          (u64 (e_length entry - bitmap_size))
                                          (e_type entry)]> entries))
        else mret (inl (u8 (i + 1)))
    end
  else mret (inr entries).

(** [for (j = 0; j < entry->length; j += PAGE_SIZE) bitmap_clear(...)] *)
Definition clear_round (entry : limine_memmap_entry) (j : Z) : M kstate (Z + unit) :=
  if j <? e_length entry then
    bm ← gets bitmap;
    modify (bitmap_clear bm (u64 (e_base entry + j) / PAGE_SIZE));;
    mret (inl (u64 (j + PAGE_SIZE)))
  else mret (inr tt).

Definition populate_round (entries : list limine_memmap_entry) (i : Z) :
    M kstate (Z + unit) :=
  if i <? Z.of_nat (length entries) then
    match entries !! Z.to_nat i with
    | None => fault
    | Some entry =>
        if negb (e_type entry =? LIMINE_MEMMAP_USABLE) then mret (inl (u8 (i + 1)))
        else loop (clear_round entry) 0;; mret (inl (u8 (i + 1)))
    end
  else mret (inr tt).

(** Returns the memory map as the boot loader's table holds it afterwards. *)
Definition pmm_init (hhdm : Z) (entries : list limine_memmap_entry) :
    M kstate (list limine_memmap_entry) :=
  modify (set_hhdm hhdm);;
  highest_addr ← loop (highest_round entries) (0, 0);
  let top := highest_addr / PAGE_SIZE in
  modify (set_top top);;
  let bitmap_size := ALIGN_UP (top / 8) PAGE_SIZE in
  entries' ← loop (hole_round bitmap_size entries) 0;
  bm ← gets bitmap;
  (if bm =? 0 then panic "pmm_init: no space for bitmap" else mret tt);;
  loop (populate_round entries') 0;;
  mret entries'.

(** ** Allocation *)

Definition set_range_round (stop i : Z) : M kstate (Z + unit) :=
  if i <? stop then
    bm ← gets bitmap;
    modify (bitmap_set bm i);;
    mret (inl (u64 (i + 1)))
  else mret (inr tt).

Definition physical_alloc_round (n_pages limit consecutive_pages : Z) :
    M kstate (Z + Z) :=
  prev ← gets bitmap_prev_index;
  if prev <? limit then
    bm ← gets bitmap;
    bit ← gets (λ s, bitmap_get s bm prev);
    if (bit : bool) then
      modify (set_prev (u64 (prev + 1)));;
      mret (inl 0)
    else
      let consecutive_pages := u64 (consecutive_pages + 1) in
      modify (set_prev (u64 (prev + 1)));;
      if consecutive_pages =? n_pages then
        prev' ← gets bitmap_prev_index;
        let page_index := u64 (prev' - n_pages) in
        loop (set_range_round (u64 (page_index + n_pages))) page_index;;
        mret (inr (u64 (page_index * PAGE_SIZE)))
      else mret (inl consecutive_pages)
  else mret (inr 0).

Definition physical_alloc (n_pages limit : Z) : M kstate Z :=
  loop (physical_alloc_round n_pages limit) 0.

Definition pmm_lock : M kstate unit := zoom spin_lock set_spin_lock spinlock_acquire.
Definition pmm_unlock : M kstate unit := zoom spin_lock set_spin_lock spinlock_release.

Definition pmm_alloc_nozero (n_pages : Z) : M kstate Z :=
  pmm_lock;;
  prev_index ← gets bitmap_prev_index;
  top ← gets bitmap_top_index;
  allocated ← physical_alloc n_pages top;
  allocated ←
    (if allocated =? 0 then
       modify (set_prev 0);;
       again ← physical_alloc n_pages prev_index;
       if again =? 0 then panic "PMM_ALLOC: failed to allocate memory" else mret again
     else mret allocated);
  pmm_unlock;;
  mret allocated.

Definition pmm_alloc (n_pages : Z) : M kstate Z :=
  allocated ← pmm_alloc_nozero n_pages;
  (if negb (allocated =? 0) then
     modify (λ s, set_ram (memset (ram s)
       (cell (hhdm_offset s) (u64 (allocated + hhdm_offset s))) 0
       (u64 (n_pages * PAGE_SIZE))) s)
   else mret tt);;
  mret allocated.

Definition free_round (stop i : Z) : M kstate (Z + unit) :=
  if i <? stop then
    bm ← gets bitmap;
    bit ← gets (λ s, bitmap_get s bm i);
    (if negb bit then panic "pmm_free: page already free" else mret tt);;
    modify (bitmap_clear bm i);;
    mret (inl (u64 (i + 1)))
  else mret (inr tt).

Definition pmm_free (addr n_pages : Z) : M kstate unit :=
  if n_pages =? 0 then mret tt
  else
    pmm_lock;;
    let bitmap_index := addr / PAGE_SIZE in
    loop (free_round (u64 (bitmap_index + n_pages))) bitmap_index;;
    pmm_unlock.

Definition pmm_check_alloc (addr : Z) : M kstate bool :=
  bm ← gets bitmap;
  gets (λ s, bitmap_get s bm (addr / PAGE_SIZE)).

(** ** What the allocator promises *)

Module Spec.

(** [used p]: page frame [p] is taken. *)
Definition free_run (used : Z → bool) (n a : Z) : bool :=
  forallb (λ p, negb (used p)) (seqZ a n).

(** The lowest run of [n] free pages inside [lo, hi). *)
Definition first_fit (used : Z → bool) (lo hi n : Z) : option Z :=
  List.find (free_run used n) (seqZ lo (hi - n - lo + 1)).

(** Next fit: from the cursor to the top, then from the bottom to the cursor. *)
Definition next_fit (used : Z → bool) (cursor top n : Z) : option Z :=
  match first_fit used cursor top n with
  | Some a => Some a
  | None => first_fit used 0 cursor n
  end.

End Spec.

(** The bitmap read as a predicate on page frames. *)
Definition used (s : kstate) (p : Z) : bool := bitmap_get s (bitmap s) p.

Definition bitmap_size (s : kstate) : Z := ALIGN_UP (bitmap_top_index s / 8) PAGE_SIZE.
Definition bitmap_phys (s : kstate) : Z := bitmap s - hhdm_offset s.

(** The RAM bytes of the bitmap. *)
Definition bitmap_bytes (s : kstate) : Z → Prop := in_range (bitmap_phys s) (bitmap_size s).

(** The allocator's globals are in range and the bitmap covers every frame. *)
Record pmm_geom (s : kstate) : Prop := {
  geom_hhdm : 0 ≤ hhdm_offset s ≤ bitmap s;
  geom_end : bitmap s + bitmap_size s ≤ 2 ^ 64;
  geom_top : 0 < bitmap_top_index s ≤ 8 * bitmap_size s;
  geom_addr : bitmap_top_index s * PAGE_SIZE + hhdm_offset s ≤ 2 ^ 64;
}.

(** The invariant of the allocator: the frames that hold the bitmap, and frame
    0, are marked as used, the cursor is in range and the lock is free. *)
Record pmm_inv (s : kstate) : Prop := {
  inv_geom : pmm_geom s;
  inv_lock : spin_lock s = 0;
  inv_prev : 0 ≤ bitmap_prev_index s ≤ bitmap_top_index s;
  inv_null : used s 0 = true;
  inv_self : ∀ p, bitmap_phys s < (p + 1) * PAGE_SIZE →
    p * PAGE_SIZE < bitmap_phys s + bitmap_size s →
    0 ≤ p < bitmap_top_index s → used s p = true;
}.

(** [s'] differs from [s] in the bitmap only, whose bits now read [U]. *)
Record bits_become (s s' : kstate) (U : Z → bool) : Prop := {
  become_globals : s' = set_ram (ram s') s;
  become_ram : same_outside (bitmap_bytes s) (ram s) (ram s');
  become_used : ∀ p, 0 ≤ p < 8 * bitmap_size s → used s' p = U p;
}.

(** What the boot protocol guarantees of the memory map: usable regions are
    page aligned, do not overlap, do not contain frame 0 and end below 2^64;
    and the table is short enough for an 8-bit index. *)
Definition usable (e : limine_memmap_entry) : Prop := e_type e = LIMINE_MEMMAP_USABLE.
#[global] Instance usable_dec e : Decision (usable e).
Proof. unfold usable. apply _. Defined.

Record entry_ok (e : limine_memmap_entry) : Prop := {
  entry_base : e_base e mod PAGE_SIZE = 0;
  entry_length : e_length e mod PAGE_SIZE = 0;
  entry_low : PAGE_SIZE ≤ e_base e;
  entry_pos : 0 ≤ e_length e;
  entry_high : e_base e + e_length e < 2 ^ 64;
}.

Definition apart (e f : limine_memmap_entry) : Prop :=
  e_base e + e_length e ≤ e_base f ∨ e_base f + e_length f ≤ e_base e.

Record memmap_ok (es : list limine_memmap_entry) : Prop := {
  mm_count : (length es ≤ 255)%nat;
  mm_entry : ∀ i e, es !! i = Some e → usable e → entry_ok e;
  mm_apart : ∀ i j e f, i ≠ j → es !! i = Some e → es !! j = Some f →
    usable e → usable f → apart e f;
}.

(** The end of usable memory, and the frames the map offers. *)
Definition highest (es : list limine_memmap_entry) : Z :=
  foldl (λ h e, if decide (usable e) then MAX h (u64 (e_base e + e_length e)) else h) 0 es.

Definition offers (es : list limine_memmap_entry) (p : Z) : bool :=
  existsb (λ e, bool_decide (usable e ∧
    e_base e ≤ p * PAGE_SIZE < e_base e + e_length e)) es.

(** Entry [i] gives its first [size] bytes to the bitmap. *)
Definition carve (size : Z) (e : limine_memmap_entry) : limine_memmap_entry :=
  Entry (u64 (e_base e + size)) (u64 (e_length e - size)) (e_type e).

Definition holds_bitmap (size : Z) (e : limine_memmap_entry) : Prop :=
  usable e ∧ size ≤ e_length e.
#[global] Instance holds_bitmap_dec size e : Decision (holds_bitmap size e).
Proof. unfold holds_bitmap. apply _. Defined.

(** ** Bits *)

Lemma testbit_u8 v k : 0 ≤ k < 8 → Z.testbit (u8 v) k = Z.testbit v k.
Proof. intros. unfold u8, wrap. apply Z.mod_pow2_bits_low. lia. Qed.

Lemma same_bit p q : 0 ≤ p → 0 ≤ q → p / 8 = q / 8 → p mod 8 = q mod 8 → p = q.
Proof. intros. rewrite (Z.div_mod p 8), (Z.div_mod q 8) by done. congruence. Qed.

Lemma load1 s a : load 1 s a = byte (ram s) (cell (hhdm_offset s) a).
Proof. unfold load. cbn [rd]. lia. Qed.

Section bits.
Context (s : kstate) (G : pmm_geom s).

Lemma bit_cell p : 0 ≤ p < 8 * bitmap_size s →
  cell (hhdm_offset s) (u64 (bitmap s + p / 8)) = bitmap_phys s + p / 8 ∧
  bitmap_bytes s (bitmap_phys s + p / 8).
Proof.
  intros Hp. destruct G as [Hh He _ _]. unfold bitmap_bytes, in_range, bitmap_phys.
  assert (0 ≤ p / 8 < bitmap_size s) by zify_div.
  rewrite u64_small by lia. unfold cell. rewrite (proj2 (Z.leb_le _ _)) by lia. lia.
Qed.

Lemma used_bit p : 0 ≤ p < 8 * bitmap_size s →
  used s p = Z.testbit (byte (ram s) (bitmap_phys s + p / 8)) (p mod 8).
Proof.
  intros Hp. unfold used, bitmap_get. rewrite land_one_bit by (apply Z.mod_pos_bound; lia).
  by rewrite load1, (proj1 (bit_cell p Hp)).
Qed.

(** Storing a byte [f v] over the byte [v] that holds bit [i] changes bit [i]
    only, when [f] does so on a byte. *)
Lemma bitmap_store (f : Z → Z) (b : bool) i :
  0 ≤ i < 8 * bitmap_size s →
  (∀ v k, 0 ≤ k < 8 → Z.testbit (f v) k = if decide (k = i mod 8) then b else Z.testbit v k) →
  let a := u64 (bitmap s + i / 8) in
  bits_become s (store 1 a (f (load 1 s a)) s) (λ p, if decide (p = i) then b else used s p).
Proof.
  intros Hi Hf a. destruct (bit_cell i Hi) as [Hc Hin].
  assert (0 ≤ i mod 8 < 8) by (apply Z.mod_pos_bound; lia).
  split; [done|..].
  - intros x Hx. unfold store, a. cbn [set_ram ram]. rewrite Hc, byte_wr, decide_False; [done|].
    intros Hr. apply Hx. by replace x with (bitmap_phys s + i / 8) by lia.
  - intros p Hp. rewrite (used_bit p Hp).
    assert (0 ≤ p mod 8 < 8) by (apply Z.mod_pos_bound; lia).
    unfold used, bitmap_get. rewrite land_one_bit, load1 by lia.
    unfold store, a. cbn [set_ram ram bitmap hhdm_offset wr].
    destruct (bit_cell p Hp) as [Hcp _]. rewrite Hc, Hcp, byte_insert. destruct (decide (i / 8 = p / 8)) as [Hd|Hd].
    + rewrite decide_True by lia. unfold u8 at 1. rewrite wrap_wrap by done.
      change (wrap 8) with u8. rewrite testbit_u8, load1, Hc, Hf, Hd by done.
      destruct (decide (p = i)) as [->|Hne]; [by rewrite decide_True|].
      rewrite decide_False; [done|]. intros Hm. apply Hne, same_bit; lia || congruence.
    + rewrite decide_False by lia. rewrite decide_False; [done|]. by intros ->.
Qed.

Lemma bitmap_set_become i : 0 ≤ i < 8 * bitmap_size s →
  bits_become s (bitmap_set (bitmap s) i s) (λ p, if decide (p = i) then true else used s p).
Proof.
  intros Hi. apply (bitmap_store (λ v, Z.lor v (Z.shiftl 1 (i mod 8)))); [done|].
  intros v k Hk. rewrite Z.lor_spec, testbit_one_bit by (apply Z.mod_pos_bound; lia).
  repeat case_bool_decide; case_decide; try done; [apply orb_true_r|apply orb_false_r].
Qed.

Lemma bitmap_clear_become i : 0 ≤ i < 8 * bitmap_size s →
  bits_become s (bitmap_clear (bitmap s) i s) (λ p, if decide (p = i) then false else used s p).
Proof.
  intros Hi. apply (bitmap_store (λ v, Z.land v (Z.lnot (Z.shiftl 1 (i mod 8))))); [done|].
  intros v k Hk. rewrite Z.land_spec, Z.lnot_spec, testbit_one_bit
    by (try apply Z.mod_pos_bound; lia).
  repeat case_bool_decide; case_decide; try done; [apply andb_false_r|apply andb_true_r].
Qed.

End bits.

(** ** Composing updates of the bitmap *)

Lemma geom_set_ram m s : pmm_geom (set_ram m s) ↔ pmm_geom s.
Proof. split; intros [? ? ? ?]; by split. Qed.

Lemma become_geom s s' U : bits_become s s' U → pmm_geom s → pmm_geom s'.
Proof. intros [-> _ _]. by rewrite geom_set_ram. Qed.

Lemma become_refl s : bits_become s s (used s).
Proof. by split; [destruct s| |]. Qed.

Lemma become_trans s s1 s2 U1 U2 :
  bits_become s s1 U1 → bits_become s1 s2 U2 → bits_become s s2 U2.
Proof.
  intros [E1 R1 _] [E2 R2 V2]. rewrite E1 in E2, R2, V2. split; [done|..|done].
  eapply same_outside_trans; [done|]. by rewrite E1.
Qed.

Lemma become_ext s s' U V :
  (∀ p, 0 ≤ p < 8 * bitmap_size s → U p = V p) → bits_become s s' U → bits_become s s' V.
Proof. intros H [E R HU]. split; [done..|]. intros p Hp. by rewrite HU, H. Qed.

Lemma become_size s s' U : bits_become s s' U → bitmap_size s' = bitmap_size s.
Proof. by intros [-> _ _]. Qed.

Lemma become_bitmap s s' U : bits_become s s' U → bitmap s' = bitmap s.
Proof. by intros [-> _ _]. Qed.

(** Pages [a, b) read [v], all others as [U]. *)
Definition with_range (U : Z → bool) (a b : Z) (v : bool) (p : Z) : bool :=
  if decide (a ≤ p < b) then v else U p.

Lemma size_bound s : pmm_geom s → 0 ≤ bitmap_size s ≤ 2 ^ 64.
Proof.
  intros [Hh He Ht _]. split; [|lia].
  destruct (Z.le_gt_cases 0 (bitmap_size s)); [done|lia].
Qed.

(** Both range loops: they walk [i] up to [stop], updating one bit per round. *)
Section range_loop.
Context (s : kstate) (G : pmm_geom s) (v : bool) (a stop : Z).
Context (Hr : 0 ≤ a ≤ stop) (Hstop : stop ≤ 8 * bitmap_size s) (H64 : stop < 2 ^ 64).

Definition range_inv (i : Z) (s' : kstate) : Prop :=
  a ≤ i ≤ stop ∧ bits_become s s' (with_range (used s) a i v).

Lemma range_step i s' s'' :
  range_inv i s' → i < stop →
  bits_become s' s'' (λ p, if decide (p = i) then v else used s' p) →
  range_inv (u64 (i + 1)) s'' ∧ 0 ≤ stop - u64 (i + 1) < stop - i.
Proof.
  intros [Hi Hb] Hlt Hb'. rewrite u64_small by lia. split; [|lia]. split; [lia|].
  eapply become_ext; [|by eapply become_trans].
  intros p Hp. simpl. destruct Hb as [_ _ HU]. rewrite HU by done. unfold with_range.
  repeat case_decide; done || lia.
Qed.

Lemma range_start : range_inv a s.
Proof.
  split; [lia|]. eapply become_ext; [|apply become_refl].
  intros p _. unfold with_range. rewrite decide_False; [done|lia].
Qed.

Lemma range_end s' : range_inv stop s' → bits_become s s' (with_range (used s) a stop v).
Proof. by intros []. Qed.

Lemma range_geom i s' : range_inv i s' → i < stop →
  pmm_geom s' ∧ bitmap s' = bitmap s ∧ 0 ≤ i < 8 * bitmap_size s'.
Proof.
  intros [Hi Hb] Hlt. split; [by eapply become_geom|]. split; [by eapply become_bitmap|].
  rewrite (become_size _ _ _ Hb). lia.
Qed.

End range_loop.

Lemma set_range_become s a stop :
  pmm_geom s → 0 ≤ a ≤ stop → stop ≤ 8 * bitmap_size s → stop < 2 ^ 64 →
  runs (loop (set_range_round stop) a) s
    (λ _ s', bits_become s s' (with_range (used s) a stop true)).
Proof.
  intros G Hr Hs H64.
  apply runs_loop with (I := range_inv s true a stop) (m := λ i _, stop - i);
    [|by apply range_start|lia].
  intros i s' Hinv. unfold set_range_round, runs.
  destruct (i <? stop) eqn:E; bool_to_prop; mstep.
  - destruct (range_geom s G true a stop Hr Hs i s' Hinv E) as (G' & HB & Hi).
    eapply range_step; [done..|]. by apply bitmap_set_become.
  - destruct Hinv as [Hi Hb]. by replace stop with i by lia.
Qed.

(** ** First fit *)

Lemma free_run_true U n a :
  Spec.free_run U n a = true ↔ ∀ p, a ≤ p < a + n → U p = false.
Proof.
  unfold Spec.free_run. rewrite forallb_forall. split; intros H p Hp.
  - apply negb_true_iff, H, list_elem_of_In, elem_of_seqZ. lia.
  - apply list_elem_of_In, elem_of_seqZ in Hp. apply negb_true_iff, H. lia.
Qed.

Lemma free_run_false U n a p : a ≤ p < a + n → U p = true → Spec.free_run U n a = false.
Proof.
  intros Hp Hu. apply not_true_iff_false. rewrite free_run_true. intros H.
  by rewrite H in Hu.
Qed.

Lemma find_seqZ_Some (f : Z → bool) lo (k : nat) a :
  lo ≤ a < lo + Z.of_nat k → f a = true → (∀ b, lo ≤ b < a → f b = false) →
  List.find f (seqZ lo (Z.of_nat k)) = Some a.
Proof.
  revert lo. induction k as [|k IH]; intros lo Ha Hf Hb; [lia|].
  rewrite seqZ_cons by lia. simpl. destruct (decide (lo = a)) as [->|Hne]; [by rewrite Hf|].
  rewrite Hb by lia. replace (Z.pred (Z.of_nat (S k))) with (Z.of_nat k) by lia.
  apply IH; [lia|done|]. intros b ?. apply Hb. lia.
Qed.

Lemma first_fit_Some U lo hi n a :
  lo ≤ a → a + n ≤ hi → Spec.free_run U n a = true →
  (∀ b, lo ≤ b < a → Spec.free_run U n b = false) →
  Spec.first_fit U lo hi n = Some a.
Proof.
  intros H1 H2 Hr Hb. unfold Spec.first_fit.
  replace (hi - n - lo + 1) with (Z.of_nat (Z.to_nat (hi - n - lo + 1))) by lia.
  apply find_seqZ_Some; [lia|done..].
Qed.

Lemma first_fit_None U lo hi n :
  (∀ b, lo ≤ b → b + n ≤ hi → Spec.free_run U n b = false) →
  Spec.first_fit U lo hi n = None.
Proof.
  intros Hb. unfold Spec.first_fit. destruct (List.find _ _) as [a|] eqn:E; [|done].
  apply find_some in E as [Hin Hf]. apply list_elem_of_In, elem_of_seqZ in Hin.
  rewrite Hb in Hf; done || lia.
Qed.

(** What [first_fit] gives back is a free run inside its window. *)
Lemma first_fit_sound U lo hi n a : Spec.first_fit U lo hi n = Some a →
  lo ≤ a ∧ a + n ≤ hi ∧ ∀ p, a ≤ p < a + n → U p = false.
Proof.
  intros [Hin Hf]%find_some. apply list_elem_of_In, elem_of_seqZ in Hin.
  rewrite free_run_true in Hf. split_and!; [lia..|done].
Qed.

(** ** [physical_alloc] computes [first_fit] *)

Lemma geom_set_prev i s : pmm_geom (set_prev i s) ↔ pmm_geom s.
Proof. split; intros [? ? ? ?]; by split. Qed.

Section scan.
Context (s : kstate) (G : pmm_geom s) (n limit : Z).
Context (Hn : 1 ≤ n < 2 ^ 64) (Hp : 0 ≤ bitmap_prev_index s).
Context (Hlim : limit ≤ bitmap_top_index s).

Definition scan_inv (c : Z) (s' : kstate) : Prop :=
  ∃ i, s' = set_prev i s ∧ bitmap_prev_index s ≤ i ∧
    (i ≤ limit ∨ i = bitmap_prev_index s) ∧ 0 ≤ c < n ∧ c ≤ i - bitmap_prev_index s ∧
    (∀ p, i - c ≤ p < i → used s p = false) ∧
    (i - c = bitmap_prev_index s ∨ used s (i - c - 1) = true) ∧
    (∀ b, bitmap_prev_index s ≤ b → b + n ≤ i → Spec.free_run (used s) n b = false).

Definition scan_post (r : Z) (s' : kstate) : Prop :=
  match Spec.first_fit (used s) (bitmap_prev_index s) limit n with
  | Some a => r = a * PAGE_SIZE ∧
      bits_become (set_prev (a + n) s) s' (with_range (used s) a (a + n) true)
  | None => r = 0 ∧ s' = set_prev (Z.max (bitmap_prev_index s) limit) s
  end.

Lemma scan_found i c : 0 ≤ c → c + 1 = n → bitmap_prev_index s ≤ i < limit →
  c ≤ i - bitmap_prev_index s →
  (∀ p, i - c ≤ p < i → used s p = false) → used s i = false →
  (∀ b, bitmap_prev_index s ≤ b → b + n ≤ i → Spec.free_run (used s) n b = false) →
  runs (loop (set_range_round (u64 (u64 (i + 1 - n) + n))) (u64 (i + 1 - n)))
    (set_prev (i + 1) s)
    (λ _ s', scan_post (u64 (u64 (i + 1 - n) * PAGE_SIZE)) s').
Proof.
  intros Hc Hcn Hi Hci Hfree Hui Hb. pose proof G as [Hh He Ht Ha]. unfold PAGE_SIZE in Ha.
  rewrite (u64_small (i + 1 - n)) by lia.
  replace (i + 1 - n + n) with (i + 1) by lia. rewrite (u64_small (i + 1)) by lia.
  assert (Spec.first_fit (used s) (bitmap_prev_index s) limit n = Some (i + 1 - n)) as Hff.
  { apply first_fit_Some; [lia..| |intros b ?; apply Hb; lia].
    apply free_run_true. intros p Hpr. destruct (decide (p = i)) as [->|]; [done|].
    apply Hfree. lia. }
  eapply runs_mono.
  - apply set_range_become; [by apply geom_set_prev|lia| |lia].
    change (bitmap_size (set_prev (i + 1) s)) with (bitmap_size s). lia.
  - intros u s' Hbec. unfold scan_post. rewrite Hff. split.
    + apply u64_small. unfold PAGE_SIZE. lia.
    + by replace (i + 1 - n + n) with (i + 1) by lia.
Qed.

Lemma scan_keeps : keeps (physical_alloc_round n limit) scan_inv
  (λ _ s', Z.max 0 (limit - bitmap_prev_index s')) scan_post.
Proof.
  intros c s' (i & -> & Hi & Hil & Hc & Hci & Hfree & Hmax & Hb).
  pose proof G as [Hh He Ht Ha]. unfold PAGE_SIZE in Ha.
  unfold physical_alloc_round. apply runs_bind. unfold runs at 1. cbn.
  destruct (i <? limit) eqn:E; bool_to_prop; cbn.
  - apply runs_bind. unfold runs at 1. cbn. apply runs_bind. unfold runs at 1. cbn.
    change (bitmap_get (set_prev i s) (bitmap s) i) with (used s i).
    rewrite (u64_small (i + 1)) by lia. destruct (used s i) eqn:Eu.
    + unfold runs. mstep. split; [|lia]. exists (i + 1). rewrite Z.sub_0_r.
      split_and!; try done; try lia.
      * right. by replace (i + 1 - 1) with i by lia.
      * intros b Hbl Hbn. destruct (decide (b + n ≤ i)); [by apply Hb|].
        apply (free_run_false _ _ _ i); [lia|done].
    + apply runs_bind. unfold runs at 1. cbn.
      rewrite (u64_small (c + 1)) by lia. destruct (c + 1 =? n) eqn:En; bool_to_prop; cbn.
      * apply runs_bind. unfold runs at 1. cbn. apply runs_bind.
        eapply runs_mono; [by apply (scan_found i c); try lia|]. by intros.
      * unfold runs. mstep. split; [|lia]. exists (i + 1).
        replace (i + 1 - (c + 1)) with (i - c) by lia.
        split_and!; try done; try lia.
        -- intros p Hpr. destruct (decide (p = i)) as [->|]; [done|]. apply Hfree. lia.
        -- intros b Hbl Hbn. destruct (decide (b + n ≤ i)); [by apply Hb|].
           destruct Hmax as [Hmax|Hmax]; [lia|].
           apply (free_run_false _ _ _ (i - c - 1)); [lia|done].
  - unfold runs. mstep. unfold scan_post. rewrite first_fit_None.
    + split; [done|]. f_equal. lia.
    + intros b Hbl Hbn. apply Hb; lia.
Qed.

Lemma physical_alloc_first_fit : runs (physical_alloc n limit) s scan_post.
Proof.
  pose proof G as [Hh He Ht Ha]. unfold PAGE_SIZE in Ha. unfold physical_alloc.
  apply runs_loop with (1 := scan_keeps); [|simpl; lia].
  exists (bitmap_prev_index s). split; [by destruct s|].
  rewrite Z.sub_0_r. split_and!; lia.
Qed.

End scan.

(** ** Allocation *)

(** What allocating the pages [a, a + n) does to the state: [P] bounds the RAM
    it may write. *)
Record alloc_effect (P : Z → Prop) (s s' : kstate) (a n : Z) : Prop := {
  effect_globals : same_globals s s';
  effect_lock : spin_lock s' = spin_lock s;
  effect_prev : bitmap_prev_index s' = a + n;
  effect_ram : same_outside P (ram s) (ram s');
  effect_used : ∀ p, 0 ≤ p < 8 * bitmap_size s →
    used s' p = with_range (used s) a (a + n) true p;
}.

Lemma pmm_lock_free s : spin_lock s = 0 → pmm_lock s = Ok (tt, set_spin_lock 1 s).
Proof. intros H. unfold pmm_lock, zoom. by rewrite H, spinlock_acquire_free. Qed.

Lemma pmm_unlock_ok s : pmm_unlock s = Ok (tt, set_spin_lock 0 s).
Proof. done. Qed.

Lemma geom_set_lock l s : pmm_geom (set_spin_lock l s) ↔ pmm_geom s.
Proof. split; intros [? ? ? ?]; by split. Qed.

(** The scan under the lock, from any cursor [i]. *)
Lemma scan_locked s i limit n :
  pmm_geom s → 1 ≤ n < 2 ^ 64 → 0 ≤ i → limit ≤ bitmap_top_index s →
  runs (physical_alloc n limit) (set_prev i (set_spin_lock 1 s)) (λ r s',
    match Spec.first_fit (used s) i limit n with
    | Some a => r = a * PAGE_SIZE ∧
        alloc_effect (bitmap_bytes s) s (set_spin_lock (spin_lock s) s') a n
    | None => r = 0 ∧ s' = set_prev (Z.max i limit) (set_spin_lock 1 s)
    end).
Proof.
  intros G Hn Hi Hl. set (t := set_prev i (set_spin_lock 1 s)).
  eapply runs_mono; [apply (physical_alloc_first_fit t); try done|].
  { by apply geom_set_prev, geom_set_lock. }
  intros r s' Hpost. unfold scan_post in Hpost.
  change (used t) with (used s) in Hpost. change (bitmap_prev_index t) with i in Hpost.
  destruct (Spec.first_fit (used s) i limit n) as [a|]; [|done].
  destruct Hpost as [-> [E R U]]. split; [done|]. rewrite E. split; try done.
  by rewrite E in U.
Qed.

(** Exact behaviour of [pmm_alloc_nozero]: it is next fit, and panics exactly
    when next fit finds nothing. *)
Lemma pmm_alloc_nozero_next_fit s n : pmm_inv s → 1 ≤ n < 2 ^ 64 →
  match Spec.next_fit (used s) (bitmap_prev_index s) (bitmap_top_index s) n with
  | Some a => ∃ s', pmm_alloc_nozero n s = Ok (a * PAGE_SIZE, s') ∧
                    alloc_effect (bitmap_bytes s) s s' a n
  | None => pmm_alloc_nozero n s = Panic "PMM_ALLOC: failed to allocate memory"
  end.
Proof.
  intros [G HL Hp H0 Hself] Hn. pose proof G as [_ _ Ht Ha]. unfold PAGE_SIZE in Ha.
  assert (∀ a, (∀ p, a ≤ p < a + n → used s p = false) → (a * PAGE_SIZE =? 0) = false) as Hnz.
  { intros a Hf. apply Z.eqb_neq. unfold PAGE_SIZE. intros Hz.
    rewrite (Hf 0) in H0; done || lia. }
  unfold pmm_alloc_nozero, mbind, M_bind, gets. rewrite pmm_lock_free by done. cbn.
  pose proof (scan_locked s (bitmap_prev_index s) (bitmap_top_index s) n G Hn
    ltac:(lia) ltac:(lia)) as R1.
  change (set_prev (bitmap_prev_index s) (set_spin_lock 1 s)) with (set_spin_lock 1 s) in R1.
  apply runs_inv in R1 as (r1 & s1 & -> & Q1). cbn. unfold Spec.next_fit.
  destruct (Spec.first_fit (used s) (bitmap_prev_index s) _ n) as [a|] eqn:F1.
  - destruct Q1 as [-> Q1]. apply first_fit_sound in F1 as (_ & _ & Hf).
    rewrite Hnz by done. cbn. rewrite HL in Q1. by eexists.
  - destruct Q1 as [-> ->]. cbn.
    pose proof (scan_locked s 0 (bitmap_prev_index s) n G Hn ltac:(lia) ltac:(lia)) as R2.
    change (set_prev 0 (set_prev _ (set_spin_lock 1 s))) with (set_prev 0 (set_spin_lock 1 s)).
    apply runs_inv in R2 as (r2 & s2 & -> & Q2). cbn.
    destruct (Spec.first_fit (used s) 0 _ n) as [a|] eqn:F2.
    + destruct Q2 as [-> Q2]. apply first_fit_sound in F2 as (_ & _ & Hf).
      rewrite Hnz by done. cbn. rewrite HL in Q2. by eexists.
    + by destruct Q2 as [-> ->].
Qed.

Lemma next_fit_sound U cursor top n a :
  0 ≤ cursor ≤ top → Spec.next_fit U cursor top n = Some a →
  0 ≤ a ∧ a + n ≤ top ∧ ∀ p, a ≤ p < a + n → U p = false.
Proof.
  intros Hc. unfold Spec.next_fit. destruct (Spec.first_fit U cursor top n) eqn:E.
  - intros [= <-]. apply first_fit_sound in E as (? & ? & ?). split_and!; [lia..|done].
  - intros (? & ? & ?)%first_fit_sound. split_and!; [lia..|done].
Qed.

(** Free pages do not hold the bitmap. *)
Lemma free_pages_apart s a n x : pmm_inv s → 0 ≤ a → a + n ≤ bitmap_top_index s →
  (∀ p, a ≤ p < a + n → used s p = false) → page_bytes a n x → ¬ bitmap_bytes s x.
Proof.
  intros [G _ _ _ Hself] Ha Hn Hf Hx Hb. unfold page_bytes, bitmap_bytes, in_range, PAGE_SIZE in *.
  assert (a ≤ x / 4096 < a + n) as Hp by zify_div.
  pose proof (Hf _ Hp) as H0. rewrite Hself in H0; [done|..|lia]; unfold PAGE_SIZE; zify_div.
Qed.

(** The bitmap reads the same in any RAM that agrees on its bytes. *)
Lemma used_frame s m p : pmm_geom s → 0 ≤ p < 8 * bitmap_size s →
  (∀ x, bitmap_bytes s x → byte m x = byte (ram s) x) → used (set_ram m s) p = used s p.
Proof.
  intros G Hp H. rewrite (used_bit s G p Hp).
  rewrite (used_bit (set_ram m s)) by (by rewrite ?geom_set_ram).
  change (bitmap_phys (set_ram m s)) with (bitmap_phys s). f_equal. apply H.
  by apply bit_cell.
Qed.

Lemma effect_geom P s s' a n : alloc_effect P s s' a n → pmm_geom s → pmm_geom s'.
Proof.
  intros [(Hh & Hb & Ht & _) _ _ _ _] [? ? ? ?].
  split; unfold bitmap_size in *; rewrite ?Hh, ?Hb, ?Ht; done.
Qed.

Lemma effect_bitmap_bytes P s s' a n : alloc_effect P s s' a n →
  bitmap_size s' = bitmap_size s ∧ bitmap_phys s' = bitmap_phys s.
Proof.
  intros [(Hh & Hb & Ht & _) _ _ _ _]. unfold bitmap_size, bitmap_phys.
  by rewrite Hh, Hb, Ht.
Qed.

Lemma effect_inv P s s' a n : alloc_effect P s s' a n → 0 ≤ a → 1 ≤ n →
  a + n ≤ bitmap_top_index s → pmm_inv s → pmm_inv s'.
Proof.
  intros E Ha Hn Ht I. pose proof (effect_bitmap_bytes _ _ _ _ _ E) as [Es Ep].
  pose proof E as [(Hh & Hb & HT & _) Hl Hp _ Hu].
  destruct I as [G HL Hpr H0 Hself]. pose proof G as [_ _ Htop _].
  split; [by eapply effect_geom|congruence|rewrite Hp, HT; lia|..].
  - rewrite Hu by lia. unfold with_range. by case_decide.
  - intros p H1 H2 H3. rewrite Ep, Es in *. rewrite HT in H3. rewrite Hu by lia.
    unfold with_range. case_decide; [done|]. by apply Hself.
Qed.

(** [pmm_alloc] adds to [pmm_alloc_nozero] that the pages read as zero. *)
Lemma pmm_alloc_next_fit s n : pmm_inv s → 1 ≤ n < 2 ^ 64 →
  match Spec.next_fit (used s) (bitmap_prev_index s) (bitmap_top_index s) n with
  | Some a => ∃ s', pmm_alloc n s = Ok (a * PAGE_SIZE, s') ∧
      alloc_effect (λ x, bitmap_bytes s x ∨ page_bytes a n x) s s' a n ∧
      ∀ x, page_bytes a n x → byte (ram s') x = 0
  | None => pmm_alloc n s = Panic "PMM_ALLOC: failed to allocate memory"
  end.
Proof.
  intros I Hn. pose proof (pmm_alloc_nozero_next_fit s n I ltac:(lia)) as H.
  destruct (Spec.next_fit _ _ _ n) as [a|] eqn:F.
  2:{ unfold pmm_alloc, mbind, M_bind. by rewrite H. }
  destruct H as (s1 & H & E). pose proof (inv_geom _ I) as G.
  pose proof (inv_prev _ I) as Hp. pose proof (inv_null _ I) as H0.
  apply next_fit_sound in F as (Ha & Hat & Hf); [|done].
  pose proof G as [Hh _ Ht Hadr]. unfold PAGE_SIZE in Hadr.
  pose proof (effect_bitmap_bytes _ _ _ _ _ E) as [Es Ep].
  pose proof (effect_geom _ _ _ _ _ E G) as G1.
  pose proof E as [(Eh & Eb & Etop & Ev & Ec) El Epr Er Eu].
  assert (a ≠ 0) by (intros ->; rewrite (Hf 0) in H0; done || lia).
  unfold pmm_alloc, mbind, M_bind. rewrite H. cbn. unfold PAGE_SIZE.
  rewrite (proj2 (Z.eqb_neq (a * 4096) 0)) by lia. cbn. eexists. split; [done|].
  rewrite Eh, (u64_small (a * 4096 + _)), cell_hhdm by lia.
  rewrite (u64_small (n * 4096)) by lia.
  assert (∀ x, byte (memset (ram s1) (a * 4096) 0 (n * 4096)) x =
    if decide (page_bytes a n x) then 0 else byte (ram s1) x) as Hbyte.
  { intros x. rewrite byte_memset by lia. unfold page_bytes, in_range, PAGE_SIZE.
    repeat case_decide; done || lia. }
  split; [split|].
  - done.
  - done.
  - done.
  - intros x Hx. cbn. rewrite Hbyte, decide_False by tauto. apply Er. tauto.
  - intros p Hp'. rewrite used_frame; [by apply Eu|done|by rewrite Es|].
    intros x Hx. rewrite Hbyte, decide_False; [done|]. intros Hpg.
    unfold bitmap_bytes in Hx. rewrite Es, Ep in Hx. by eapply free_pages_apart.
  - intros x Hx. cbn. by rewrite Hbyte, decide_True.
Qed.

(** ** Release *)

Lemma no_free_page U lo hi p :
  Spec.first_fit U lo hi 1 = None → lo ≤ p < hi → U p = true.
Proof.
  intros H Hp. destruct (U p) eqn:E; [done|].
  assert (Spec.free_run U 1 p = true) as Hf.
  { apply free_run_true. intros q Hq. by replace q with p by lia. }
  rewrite (find_none _ _ H p) in Hf; [done|]. apply list_elem_of_In, elem_of_seqZ. lia.
Qed.

(** [first_fit] skips no page: below its answer for one page, all are used. *)
Lemma no_earlier U lo hi i q : lo ≤ i < q → U i = false → Spec.first_fit U lo hi 1 ≠ Some q.
Proof.
  intros Hi Hu Hq. pose proof Hq as (_ & Hqh & _)%first_fit_sound.
  assert (Spec.free_run U 1 i = true) as Hf.
  { apply free_run_true. intros p Hp. by replace p with i by lia. }
  clear Hu. unfold Spec.first_fit in Hq.
  replace (hi - 1 - lo + 1) with (Z.of_nat (Z.to_nat (hi - lo))) in Hq by lia.
  generalize dependent (Z.to_nat (hi - lo)). intros k. revert lo Hi.
  induction k as [|k IH]; intros lo' Hi Hq; [done|].
  rewrite seqZ_cons in Hq by lia. simpl in Hq.
  destruct (decide (lo' = i)) as [->|]; [rewrite Hf in Hq; injection Hq; lia|].
  destruct (Spec.free_run U 1 lo'); [injection Hq; lia|].
  replace (Z.pred (Z.of_nat (S k))) with (Z.of_nat k) in Hq by lia.
  eapply (IH (Z.succ lo')); [lia|done].
Qed.

Section release.
Context (s : kstate) (G : pmm_geom s) (a stop : Z).
Context (Hr : 0 ≤ a ≤ stop) (Hstop : stop ≤ 8 * bitmap_size s) (H64 : stop < 2 ^ 64).

Lemma free_round_used i s' : range_inv s false a stop i s' → i < stop → used s i = true →
  ∃ s'', free_round stop i s' = Ok (inl (u64 (i + 1)), s'') ∧
         bits_become s' s'' (λ p, if decide (p = i) then false else used s' p).
Proof.
  intros Hinv Hlt Hu. destruct (range_geom s G false a stop Hr Hstop i s' Hinv Hlt)
    as (G' & HB & Hi). destruct Hinv as [Hai [_ _ HU]].
  exists (bitmap_clear (bitmap s') i s'). split; [|by apply bitmap_clear_become].
  unfold free_round. rewrite (proj2 (Z.ltb_lt _ _) Hlt). mstep.
  change (bitmap_get s' (bitmap s') i) with (used s' i).
  rewrite HU by lia. unfold with_range. rewrite decide_False, Hu by lia. done.
Qed.

Lemma free_range_become : Spec.first_fit (used s) a stop 1 = None →
  runs (loop (free_round stop) a) s
    (λ _ s', bits_become s s' (with_range (used s) a stop false)).
Proof.
  intros Hnone.
  apply runs_loop with (I := range_inv s false a stop) (m := λ i _, stop - i);
    [|by apply range_start|lia].
  intros i s' Hinv. destruct (decide (i < stop)) as [E|E].
  - destruct (free_round_used i s' Hinv E) as (s'' & Hs & Hb).
    { eapply no_free_page; [done|]. destruct Hinv. lia. }
    unfold runs. rewrite Hs. by eapply range_step.
  - unfold free_round, runs. rewrite (proj2 (Z.ltb_ge _ _)) by lia. mstep.
    destruct Hinv as [Hi Hb]. by replace stop with i by lia.
Qed.

Lemma free_range_panics q : Spec.first_fit (used s) a stop 1 = Some q →
  loop (free_round stop) a s = Panic "pmm_free: page already free".
Proof.
  intros Hq. pose proof Hq as (Haq & Hqs & Hfree)%first_fit_sound.
  apply loop_panics with (I := λ i s', range_inv s false a stop i s' ∧ i ≤ q)
    (m := λ i _, q - i); [|split; [by apply range_start|lia]|lia].
  intros i s' [Hinv Hiq]. destruct (decide (i = q)) as [->|Hne].
  - left. destruct (range_geom s G false a stop Hr Hstop q s' Hinv ltac:(lia))
      as (G' & HB & Hi). destruct Hinv as [Hai [_ _ HU]].
    unfold free_round. rewrite (proj2 (Z.ltb_lt _ _)) by lia. mstep.
    change (bitmap_get s' (bitmap s') q) with (used s' q).
    rewrite HU by lia. unfold with_range.
    rewrite decide_False, Hfree by lia. done.
  - right. destruct (free_round_used i s' Hinv ltac:(lia)) as (s'' & Hs & Hb).
    { destruct (used s i) eqn:E; [done|]. exfalso.
      destruct Hinv as [Hai _]. apply (no_earlier (used s) a stop i q); [lia|done..]. }
    exists (u64 (i + 1)), s''. split; [done|].
    destruct (range_step s false a stop Hr H64 i s' s'' Hinv ltac:(lia) Hb).
    rewrite u64_small in * by (destruct Hinv; lia). split_and!; done || lia.
Qed.

End release.

(** Exact behaviour of [pmm_free] on a range of frames the bitmap covers. *)
Lemma pmm_free_exact s addr n : pmm_geom s → spin_lock s = 0 → 0 ≤ addr → 1 ≤ n →
  addr / PAGE_SIZE + n ≤ bitmap_top_index s →
  match Spec.first_fit (used s) (addr / PAGE_SIZE) (addr / PAGE_SIZE + n) 1 with
  | None => ∃ s', pmm_free addr n s = Ok (tt, s') ∧
      bits_become s s' (with_range (used s) (addr / PAGE_SIZE) (addr / PAGE_SIZE + n) false)
  | Some _ => pmm_free addr n s = Panic "pmm_free: page already free"
  end.
Proof.
  intros G HL Ha Hn Ht. pose proof G as [Hh _ Htop Hadr]. unfold PAGE_SIZE in Hadr.
  assert (0 ≤ addr / PAGE_SIZE) by (apply Z.div_pos; done).
  unfold pmm_free. rewrite (proj2 (Z.eqb_neq n 0)) by lia.
  unfold mbind, M_bind. rewrite pmm_lock_free by done. cbn.
  rewrite u64_small by lia. set (t := set_spin_lock 1 s).
  assert (pmm_geom t) as Gt by by apply geom_set_lock.
  change (used s) with (used t).
  destruct (Spec.first_fit _ _ _ 1) as [q|] eqn:F.
  - by erewrite free_range_panics; try done; try lia;
      change (bitmap_size t) with (bitmap_size s); lia.
  - pose proof (free_range_become t Gt (addr / PAGE_SIZE) (addr / PAGE_SIZE + n)
      ltac:(lia) ltac:(change (bitmap_size t) with (bitmap_size s); lia) ltac:(lia) F) as R.
    apply runs_inv in R as (u & s1 & -> & [E R U]). cbn. eexists. split; [done|].
    split; [by rewrite E; destruct s; cbn in HL; subst|done|]. by rewrite E in U |- *.
Qed.

(** ** [pmm_init] *)

Lemma usable_eqb e : (e_type e =? LIMINE_MEMMAP_USABLE) = bool_decide (usable e).
Proof. unfold usable. case_bool_decide; [by apply Z.eqb_eq|by apply Z.eqb_neq]. Qed.

Lemma lookup_in_range {A} (l : list A) i : 0 ≤ i < Z.of_nat (length l) →
  ∃ x, l !! Z.to_nat i = Some x.
Proof. intros. apply lookup_lt_is_Some. lia. Qed.

Section init_scans.
Context (es : list limine_memmap_entry) (Hcount : (length es ≤ 255)%nat).

Lemma highest_loop s : runs (loop (highest_round es) (0, 0)) s (λ h s', h = highest es ∧ s' = s).
Proof.
  apply runs_loop with
    (I := λ v s', s' = s ∧ 0 ≤ v.1 ≤ Z.of_nat (length es) ∧ v.2 = highest (take (Z.to_nat v.1) es))
    (m := λ v _, Z.of_nat (length es) - v.1); [|simpl; split_and!; done || lia|simpl; lia].
  intros [i h] s' (-> & Hi & Hh). simpl in *. unfold highest_round, runs.
  destruct (i <? _) eqn:E; bool_to_prop.
  - destruct (lookup_in_range es i) as [e He]; [lia|]. rewrite He. mstep.
    rewrite u8_small by lia. split_and!; try done; try lia.
    replace (Z.to_nat (i + 1)) with (S (Z.to_nat i)) by lia.
    rewrite (take_S_r _ _ _ He). unfold highest. rewrite foldl_app. simpl.
    change (foldl _ 0 (take (Z.to_nat i) es)) with (highest (take (Z.to_nat i) es)).
    rewrite <- Hh, usable_eqb. case_bool_decide; case_decide; done.
  - mstep. split; [|done]. rewrite Hh, take_ge; [done|lia].
Qed.

Lemma hole_loop size s : runs (loop (hole_round size es) 0) s (λ es' s',
  match list_find (holds_bitmap size) es with
  | Some (i, e) => es' = <[i := carve size e]> es ∧
      s' = let bm := u64 (e_base e + hhdm_offset s) in
           set_ram (memset (ram s) (cell (hhdm_offset s) bm) 255 size) (set_bitmap bm s)
  | None => es' = es ∧ s' = s
  end).
Proof.
  apply runs_loop with
    (I := λ i s', s' = s ∧ 0 ≤ i ≤ Z.of_nat (length es) ∧
       ∀ (j : nat) y, es !! j = Some y → Z.of_nat j < i → ¬ holds_bitmap size y)
    (m := λ i _, Z.of_nat (length es) - i); [|split_and!; done || lia|lia].
  intros i s' (-> & Hi & Hno). unfold hole_round, runs.
  destruct (i <? _) eqn:E; bool_to_prop.
  - destruct (lookup_in_range es i) as [e He]; [lia|]. rewrite He, usable_eqb.
    assert (¬ holds_bitmap size e → ∀ (j : nat) y, es !! j = Some y →
      Z.of_nat j < i + 1 → ¬ holds_bitmap size y) as Hno'.
    { intros Hn j y Hj Hlt. destruct (decide (Z.of_nat j < i)); [by eapply Hno|].
      assert (j = Z.to_nat i) as -> by lia. congruence. }
    case_bool_decide as Hu; simpl; [rewrite Z.geb_leb; destruct (size <=? _) eqn:El|];
      bool_to_prop; mstep.
    + rewrite (proj2 (list_find_Some (holds_bitmap size) es (Z.to_nat i) e)); [done|].
      split_and!; [done|by split|]. intros j y Hj Hlt. apply (Hno j y); [done|lia].
    + rewrite u8_small by lia. split_and!; try lia; [done|].
      apply Hno'. intros [_ ?]. lia.
    + rewrite u8_small by lia. split_and!; try lia; [done|].
      apply Hno'. by intros [? _].
  - mstep. rewrite (proj2 (list_find_None (holds_bitmap size) es)); [done|].
    apply Forall_lookup_2. intros j y Hj. apply (Hno j y Hj). apply lookup_lt_Some in Hj. lia.
Qed.

End init_scans.

Lemma highest_ge es h :
  h ≤ foldl (λ h e, if decide (usable e) then MAX h (u64 (e_base e + e_length e)) else h) h es ∧
  ∀ e, e ∈ es → usable e → u64 (e_base e + e_length e) ≤
    foldl (λ h e, if decide (usable e) then MAX h (u64 (e_base e + e_length e)) else h) h es.
Proof.
  revert h. induction es as [|e es IH]; intros h; simpl; [by split; [|set_solver]|].
  destruct (decide (usable e)) as [Hu|Hu].
  - destruct (IH (MAX h (u64 (e_base e + e_length e)))) as [H1 H2].
    assert (h ≤ MAX h (u64 (e_base e + e_length e)) ∧
            u64 (e_base e + e_length e) ≤ MAX h (u64 (e_base e + e_length e)))
      by (unfold MAX; case_if; lia).
    split; [lia|]. intros f [->|Hf]%elem_of_cons Huf; [lia|by apply H2].
  - destruct (IH h) as [H1 H2]. split; [done|].
    intros f [->|Hf]%elem_of_cons Huf; [done|by apply H2].
Qed.

(** Clearing one entry's frames. *)
Lemma clear_loop s e : pmm_geom s → entry_ok e →
  e_base e + e_length e ≤ bitmap_top_index s * PAGE_SIZE →
  runs (loop (clear_round e) 0) s (λ _ s', bits_become s s'
    (with_range (used s) (e_base e / PAGE_SIZE) ((e_base e + e_length e) / PAGE_SIZE) false)).
Proof.
  intros G [Hb Hl Hlow Hpos Hhi] Htop. pose proof G as [Hh _ Ht Ha]. unfold PAGE_SIZE in *.
  apply runs_loop with
    (I := λ j s', 0 ≤ j ≤ e_length e ∧ j mod 4096 = 0 ∧ bits_become s s'
       (with_range (used s) (e_base e / 4096) ((e_base e + j) / 4096) false))
    (m := λ j _, e_length e - j).
  - intros j s' (Hj & Hjm & Hbec). unfold clear_round, runs.
    destruct (j <? e_length e) eqn:E; bool_to_prop; mstep; unfold PAGE_SIZE.
    + assert (j + 4096 ≤ e_length e) by zify_div.
      rewrite (u64_small (e_base e + j)), (u64_small (j + 4096)) by lia.
      split; [|lia]. split_and!; [lia..|zify_div|].
      assert (0 ≤ (e_base e + j) / 4096 < 8 * bitmap_size s) by zify_div.
      eapply become_ext; [|eapply become_trans; [exact Hbec|]].
      2:{ apply bitmap_clear_become; [by eapply become_geom|].
          by rewrite (become_size _ _ _ Hbec). }
      intros p Hp. simpl. destruct Hbec as [_ _ HU]. rewrite HU by done. unfold with_range.
      assert ((e_base e + (j + 4096)) / 4096 = (e_base e + j) / 4096 + 1) as -> by zify_div.
      assert (e_base e / 4096 ≤ (e_base e + j) / 4096) by zify_div.
      repeat case_decide; done || lia.
    + by replace (e_length e) with j by lia.
  - split_and!; [lia..|done|]. eapply become_ext; [|apply become_refl].
    intros p _. unfold with_range. rewrite decide_False; [done|]. rewrite Z.add_0_r. lia.
  - lia.
Qed.

Lemma offers_snoc es e p : offers (es ++ [e]) p =
  offers es p || bool_decide (usable e ∧ e_base e ≤ p * PAGE_SIZE < e_base e + e_length e).
Proof. unfold offers. rewrite existsb_app. simpl. by rewrite orb_false_r. Qed.

(** Marking every offered frame as free. *)
Lemma populate_loop es s : (length es ≤ 255)%nat → pmm_geom s →
  (∀ i e, es !! i = Some e → usable e →
     entry_ok e ∧ e_base e + e_length e ≤ bitmap_top_index s * PAGE_SIZE) →
  runs (loop (populate_round es) 0) s (λ _ s',
    bits_become s s' (λ p, used s p && negb (offers es p))).
Proof.
  intros Hc G Hok. apply runs_loop with
    (I := λ i s', 0 ≤ i ≤ Z.of_nat (length es) ∧
       bits_become s s' (λ p, used s p && negb (offers (take (Z.to_nat i) es) p)))
    (m := λ i _, Z.of_nat (length es) - i); [|split; [lia|]|lia].
  2:{ eapply become_ext; [|apply become_refl]. intros p _. by rewrite andb_true_r. }
  intros i s' (Hi & Hb). unfold populate_round.
  destruct (i <? _) eqn:E; bool_to_prop.
  2:{ unfold runs. mstep. by rewrite take_ge in Hb by lia. }
  destruct (lookup_in_range es i) as [e He]; [lia|]. rewrite He, usable_eqb.
  assert (∀ p, offers (take (Z.to_nat (i + 1)) es) p = offers (take (Z.to_nat i) es) p ||
    bool_decide (usable e ∧ e_base e ≤ p * PAGE_SIZE < e_base e + e_length e)) as Hoff.
  { intros p. replace (Z.to_nat (i + 1)) with (S (Z.to_nat i)) by lia.
    by rewrite (take_S_r _ _ _ He), offers_snoc. }
  case_bool_decide as Hu; simpl.
  - destruct (Hok _ _ He Hu) as [Hoke Htop]. apply runs_bind. eapply runs_mono.
    + apply clear_loop; [by eapply become_geom|done|]. by destruct Hb as [-> _ _].
    + intros u s'' Hb'. unfold runs. mstep. rewrite u8_small by lia.
      split; [|lia]. split; [lia|]. eapply become_ext; [|by eapply become_trans].
      intros p Hp. simpl. destruct Hb as [_ _ HU]. rewrite Hoff. unfold with_range.
      rewrite HU by done. destruct Hoke as [Hbm Hlm _ _ _]. unfold PAGE_SIZE in *.
      case_decide as Hd; case_bool_decide as Hd'; rewrite ?orb_true_r, ?orb_false_r, ?andb_false_r;
        try done; exfalso; [apply Hd'; split; [done|]|apply Hd; destruct Hd' as [_ Hd']]; zify_div.
  - unfold runs. mstep. rewrite u8_small by lia. split; [|lia]. split; [lia|].
    eapply become_ext; [|exact Hb]. intros p Hp. simpl. rewrite Hoff.
    rewrite bool_decide_eq_false_2 by tauto. by rewrite orb_false_r.
Qed.

(** Where the bitmap goes and how large it is. *)
Definition map_top (es : list limine_memmap_entry) : Z := highest es / PAGE_SIZE.
Definition map_bitmap_size (es : list limine_memmap_entry) : Z :=
  ALIGN_UP (map_top es / 8) PAGE_SIZE.

(** The state in which the frames are populated: globals set, bitmap all ones. *)
Definition carved_state (hhdm : Z) (es : list limine_memmap_entry) (e : limine_memmap_entry)
    (s : kstate) : kstate :=
  let bm := u64 (e_base e + hhdm) in
  set_ram (memset (ram s) (cell hhdm bm) 255 (map_bitmap_size es))
    (set_bitmap bm (set_top (map_top es) (set_hhdm hhdm s))).

Section init.
Context (hhdm : Z) (es : list limine_memmap_entry) (s : kstate).
Context (HM : memmap_ok es) (Hh : 0 ≤ hhdm) (Hend : highest es + hhdm < 2 ^ 64).
Context (Hcover : map_top es ≤ 8 * map_bitmap_size es).
Context (i : nat) (e : limine_memmap_entry).
Context (Hfind : list_find (holds_bitmap (map_bitmap_size es)) es = Some (i, e)).

Lemma highest_bounds : 0 ≤ highest es ∧
  ∀ j f, es !! j = Some f → usable f → e_base f + e_length f ≤ map_top es * PAGE_SIZE.
Proof.
  destruct (highest_ge es 0) as [H0 Hmax]. split; [done|]. intros j f Hj Hu.
  destruct (mm_entry _ HM _ _ Hj Hu) as [Hbm Hlm Hlow Hpos Hhi].
  assert (f ∈ es) as Hin by (apply list_elem_of_lookup; eauto).
  specialize (Hmax f Hin Hu). unfold map_top, highest, PAGE_SIZE in *.
  rewrite u64_small in Hmax by lia. zify_div.
Qed.

Lemma hole_facts : es !! i = Some e ∧ usable e ∧ entry_ok e ∧
  0 ≤ map_bitmap_size es ≤ e_length e ∧ (map_bitmap_size es) mod PAGE_SIZE = 0 ∧
  e_base e + e_length e ≤ map_top es * PAGE_SIZE.
Proof.
  apply list_find_Some in Hfind as (He & [Hu Hl] & _). destruct highest_bounds as [H0 Hb].
  pose proof (mm_entry _ HM _ _ He Hu) as Hok. specialize (Hb _ _ He Hu).
  assert (0 ≤ map_top es / 8) by (unfold map_top, PAGE_SIZE; zify_div).
  assert (map_top es / 8 + PAGE_SIZE ≤ 2 ^ 64) by (unfold map_top, PAGE_SIZE; zify_div).
  destruct (ALIGN_UP_bounds (map_top es / 8)) as (k & Hk & Hkb); [done..|].
  fold (map_bitmap_size es) in Hk. split_and!; try done.
  - unfold PAGE_SIZE in *. lia.
  - rewrite Hk. apply Z.mod_mul. done.
Qed.

Lemma carved_geom : pmm_geom (carved_state hhdm es e s).
Proof.
  destruct hole_facts as (He & Hu & Hok & Hsz & Hsm & Hb). destruct highest_bounds as [H0 _].
  destruct Hok as [_ _ Hlow _ Hhi]. unfold PAGE_SIZE in *.
  assert (map_top es * 4096 ≤ highest es) by (unfold map_top, PAGE_SIZE; zify_div).
  assert (0 ≤ map_top es) by (unfold map_top, PAGE_SIZE; zify_div).
  split; try change (bitmap_size (carved_state hhdm es e s)) with (map_bitmap_size es);
    cbn [carved_state set_ram set_bitmap set_top set_hhdm bitmap bitmap_top_index hhdm_offset];
    unfold PAGE_SIZE; rewrite ?u64_small by lia; lia.
Qed.

Lemma carved_phys : bitmap_phys (carved_state hhdm es e s) = e_base e.
Proof.
  destruct hole_facts as (He & Hu & Hok & Hsz & Hsm & Hb). destruct highest_bounds as [H0 _].
  destruct Hok as [_ _ Hlow _ Hhi]. unfold PAGE_SIZE in *.
  assert (map_top es * 4096 ≤ highest es) by (unfold map_top, PAGE_SIZE; zify_div).
  unfold bitmap_phys. cbn. rewrite u64_small; lia.
Qed.

Lemma carved_used p : 0 ≤ p < 8 * map_bitmap_size es → used (carved_state hhdm es e s) p = true.
Proof.
  intros Hp. pose proof carved_geom as G. rewrite (used_bit _ G) by exact Hp.
  destruct hole_facts as (_ & _ & _ & Hsz & _).
  assert (0 ≤ p / 8 < map_bitmap_size es) by zify_div.
  pose proof carved_phys as Hph. destruct G as [Hg _ _ _].
  assert (cell hhdm (bitmap (carved_state hhdm es e s)) = e_base e) as Hc.
  { unfold cell. unfold bitmap_phys in Hph. cbn in Hph, Hg |- *.
    rewrite (proj2 (Z.leb_le _ _)) by lia. lia. }
  rewrite Hph. unfold carved_state in *. cbn [ram set_ram bitmap set_bitmap] in *.
  rewrite Hc, byte_memset, decide_True by lia.
  change (u8 255) with (Z.ones 8). apply Z.ones_spec_low. apply Z.mod_pos_bound. lia.
Qed.

(** The map after carving still satisfies what populating needs, and offers no
    frame that holds the bitmap. *)
Lemma carved_entry j f : <[i := carve (map_bitmap_size es) e]> es !! j = Some f → usable f →
  entry_ok f ∧ e_base f + e_length f ≤ map_top es * PAGE_SIZE ∧
  (e_base e + map_bitmap_size es ≤ e_base f ∨ e_base f + e_length f ≤ e_base e).
Proof.
  destruct hole_facts as (He & Hu & Hok & Hsz & Hsm & Hb). destruct highest_bounds as [_ Hall].
  intros Hj Huf. apply list_lookup_insert_Some in Hj as [(<- & <- & _)|(Hne & Hj)].
  - destruct Hok as [Hbm Hlm Hlow Hpos Hhi]. unfold carve. cbn.
    unfold PAGE_SIZE in *. rewrite !u64_small by lia.
    split_and!; [split; cbn; unfold PAGE_SIZE; rewrite ?u64_small by lia; zify_div|lia|lia].
  - split_and!; [by eapply (mm_entry _ HM)|by eapply Hall|].
    destruct (mm_apart _ HM i j e f Hne He Hj Hu Huf); [left|right]; lia.
Qed.

Lemma pmm_init_runs : spin_lock s = 0 → bitmap_prev_index s = 0 →
  runs (pmm_init hhdm es) s (λ es' s',
    es' = <[i := carve (map_bitmap_size es) e]> es ∧
    bits_become (carved_state hhdm es e s) s' (λ p, negb (offers es' p))).
Proof.
  intros HL Hp0. pose proof carved_geom as G. destruct hole_facts as (He & Hu & Hok & _).
  unfold pmm_init. apply runs_bind. unfold runs at 1. cbn.
  apply runs_bind. eapply runs_mono; [apply highest_loop, (mm_count _ HM)|].
  intros h s1 [-> ->]. cbn. apply runs_bind. unfold runs at 1. cbn.
  apply runs_bind. eapply runs_mono; [apply hole_loop, (mm_count _ HM)|].
  change (ALIGN_UP (highest es / PAGE_SIZE / 8) PAGE_SIZE) with (map_bitmap_size es).
  intros es' s2. rewrite Hfind. intros [-> ->].
  change (let bm := _ in _) with (carved_state hhdm es e s).
  apply runs_bind. unfold runs at 1. cbn.
  rewrite (proj2 (Z.eqb_neq (u64 (e_base e + hhdm)) 0)).
  2:{ destruct G as [Hg _ _ _]. pose proof carved_phys as Hph. unfold bitmap_phys in Hph.
      cbn in Hg, Hph. destruct Hok. unfold PAGE_SIZE in *. lia. }
  apply runs_bind. unfold runs at 1. cbn.
  apply runs_bind. eapply runs_mono; [apply populate_loop; [|exact G|]|].
  - rewrite length_insert. apply (mm_count _ HM).
  - intros j f Hj Huf. destruct (carved_entry _ _ Hj Huf) as (? & ? & _). done.
  - intros u s' Hbec. unfold runs. mstep. split; [done|]. eapply become_ext; [|exact Hbec].
    intros p Hp. simpl. by rewrite carved_used.
Qed.

End init.

(** Initialisation establishes the allocator's invariant. *)
Lemma pmm_init_inv hhdm es s i e es' s' :
  memmap_ok es → 0 ≤ hhdm → highest es + hhdm < 2 ^ 64 →
  map_top es ≤ 8 * map_bitmap_size es →
  list_find (holds_bitmap (map_bitmap_size es)) es = Some (i, e) →
  spin_lock s = 0 → bitmap_prev_index s = 0 →
  es' = <[i := carve (map_bitmap_size es) e]> es →
  bits_become (carved_state hhdm es e s) s' (λ p, negb (offers es' p)) → pmm_inv s'.
Proof.
  intros HM Hh Hend Hcov Hf HL Hp0 -> Hb.
  pose proof (carved_geom hhdm es s HM Hh Hend Hcov i e Hf) as G.
  pose proof (become_geom _ _ _ Hb G) as G'.
  pose proof (hole_facts hhdm es HM Hh Hend i e Hf) as (He & Hu & Hok & Hsz & Hsm & Hbt).
  pose proof (carved_phys hhdm es s HM Hh Hend Hcov i e Hf) as Hph.
  assert (∀ p, (p < 1 ∨ (e_base e < (p + 1) * PAGE_SIZE ∧
      p * PAGE_SIZE < e_base e + map_bitmap_size es)) →
    offers (<[i := carve (map_bitmap_size es) e]> es) p = false) as Hoff.
  { intros p Hp. apply not_true_iff_false. intros Ho. apply existsb_exists in Ho as (f & Hin & Hf').
    bool_to_prop. destruct Hf' as [Huf Hr].
    apply list_elem_of_In, list_elem_of_lookup in Hin as [j Hj].
    destruct (carved_entry hhdm es HM Hh Hend Hcov i e Hf j f Hj Huf) as ([Hbm Hlm Hlow _ _] & _ & Hap).
    destruct Hok as [Hbe Hle _ _ _]. unfold PAGE_SIZE in *. destruct Hap; zify_div. }
  pose proof Hb as [E R U]. pose proof G as [_ _ Ht _].
  destruct Hok as [_ _ Hlow Hpos _]. unfold PAGE_SIZE in Hlow, Hbt.
  change (bitmap_size (carved_state hhdm es e s)) with (map_bitmap_size es) in *.
  change (bitmap_top_index (carved_state hhdm es e s)) with (map_top es) in *.
  split; [done|by rewrite E|rewrite E; cbn; rewrite Hp0; lia|..].
  - rewrite U by lia. by rewrite Hoff by lia.
  - intros p H1 H2 H3.
    assert (bitmap_phys s' = e_base e) as Hph' by by rewrite E.
    assert (bitmap_size s' = map_bitmap_size es) as Hsz' by by rewrite E.
    assert (bitmap_top_index s' = map_top es) as Ht' by by rewrite E.
    rewrite Hph', Hsz' in *. rewrite Ht' in H3. rewrite U by lia.
    by rewrite Hoff by (right; done).
Qed.

(** ** Properties *)

(** [C14] [pmm_init] on a memory map as the boot protocol describes it, with a
    region large enough for the bitmap and a bitmap that covers every frame,
    returns; it leaves the allocator's invariant established, marks as free
    exactly the frames the usable regions offer once the bitmap has been carved
    out of its region, and touches no RAM but the bitmap's. *)
Theorem pmm_init_correct (hhdm : Z) (es : list limine_memmap_entry) (s : kstate)
    (i : nat) (e : limine_memmap_entry) :
  memmap_ok es → 0 ≤ hhdm → highest es + hhdm < 2 ^ 64 →
  map_top es ≤ 8 * map_bitmap_size es →
  list_find (holds_bitmap (map_bitmap_size es)) es = Some (i, e) →
  spin_lock s = 0 → bitmap_prev_index s = 0 →
  ∃ s', pmm_init hhdm es s = Ok (<[i := carve (map_bitmap_size es) e]> es, s') ∧
    pmm_inv s' ∧ bitmap_top_index s' = map_top es ∧ bitmap_phys s' = e_base e ∧
    (∀ p, 0 ≤ p < map_top es →
       used s' p = negb (offers (<[i := carve (map_bitmap_size es) e]> es) p)) ∧
    same_outside (in_range (e_base e) (map_bitmap_size es)) (ram s) (ram s').
Proof.
  intros HM Hh Hend Hcov Hf HL Hp0.
  pose proof (pmm_init_runs hhdm es s HM Hh Hend Hcov i e Hf HL Hp0) as R.
  apply runs_inv in R as (es' & s' & -> & -> & Hb). exists s'. split; [done|].
  pose proof (carved_phys hhdm es s HM Hh Hend Hcov i e Hf) as Hph.
  pose proof (hole_facts hhdm es HM Hh Hend i e Hf) as (_ & _ & _ & Hsz & _).
  split; [by eapply pmm_init_inv|]. destruct Hb as [E R U].
  split; [by rewrite E|]. split; [by rewrite E|]. split.
  - intros p Hp. apply U. change (bitmap_size _) with (map_bitmap_size es). lia.
  - unfold bitmap_bytes in R. rewrite Hph in R.
    eapply same_outside_trans; [|exact R].
    change (ram (carved_state hhdm es e s)) with
      (memset (ram s) (cell hhdm (u64 (e_base e + hhdm))) 255 (map_bitmap_size es)).
    replace (cell hhdm (u64 (e_base e + hhdm))) with (e_base e).
    + apply same_outside_memset. lia.
    + unfold bitmap_phys in Hph. unfold carved_state in Hph. cbn in Hph. unfold cell.
      pose proof (carved_geom hhdm es s HM Hh Hend Hcov i e Hf) as [Hg _ _ _]. cbn in Hg.
      rewrite (proj2 (Z.leb_le _ _)); lia.
Qed.

(** A machine with one usable region, frames 1 to 32, before initialisation. *)
Definition demo_map : list limine_memmap_entry := [Entry 0 4096 1; Entry 4096 131072 0].
Definition boot_state : kstate := KState 0 0 0 0 0 0 0 ∅.
Definition demo_hhdm : Z := 18446603336221196288.
Definition demo_state : kstate := run_state (pmm_init demo_hhdm demo_map) boot_state.

Lemma demo_map_ok : memmap_ok demo_map.
Proof.
  split; [simpl; lia|..].
  - intros [|[|[|i]]] e; simpl; intros [= <-]; try done.
  - intros [|[|[|i]]] [|[|[|j]]] e f Hne; simpl; intros [= <-] [= <-]; done.
Qed.

Lemma pmm_init_correct_witness :
  ∃ s', pmm_init demo_hhdm demo_map boot_state =
      Ok (<[1%nat := carve (map_bitmap_size demo_map) (Entry 4096 131072 0)]> demo_map, s') ∧
    pmm_inv s' ∧ bitmap_top_index s' = map_top demo_map ∧
    bitmap_phys s' = e_base (Entry 4096 131072 0) ∧
    (∀ p, 0 ≤ p < map_top demo_map → used s' p = negb (offers
       (<[1%nat := carve (map_bitmap_size demo_map) (Entry 4096 131072 0)]> demo_map) p)) ∧
    same_outside (in_range (e_base (Entry 4096 131072 0)) (map_bitmap_size demo_map))
      (ram boot_state) (ram s').
Proof.
  apply pmm_init_correct; [exact demo_map_ok|vm_compute; congruence..].
Defined.

(** [C1] [pmm_alloc] refines next fit on the set of used frames: it panics
    exactly when next fit finds no run of [n] free frames; otherwise it returns
    the run's address, marks exactly these frames as used, fills them with
    zeros, writes no other RAM than theirs and the bitmap's, moves the cursor
    behind them, releases the lock and keeps the invariant. *)
Theorem pmm_alloc_refines (s : kstate) (n : Z) :
  pmm_inv s → 1 ≤ n < 2 ^ 64 →
  match Spec.next_fit (used s) (bitmap_prev_index s) (bitmap_top_index s) n with
  | Some a => ∃ s', pmm_alloc n s = Ok (a * PAGE_SIZE, s') ∧ pmm_inv s' ∧
      alloc_effect (λ x, bitmap_bytes s x ∨ page_bytes a n x) s s' a n ∧
      ∀ x, page_bytes a n x → byte (ram s') x = 0
  | None => pmm_alloc n s = Panic "PMM_ALLOC: failed to allocate memory"
  end.
Proof.
  intros I Hn. pose proof (pmm_alloc_next_fit s n I Hn) as H.
  destruct (Spec.next_fit _ _ _ n) as [a|] eqn:F; [|done].
  destruct H as (s' & H & E & Hz). exists s'. split_and!; try done.
  apply next_fit_sound in F as (Ha & Hat & _); [|apply (inv_prev _ I)].
  eapply effect_inv; [exact E|lia..|done].
Qed.

Lemma demo_inv : pmm_inv demo_state.
Proof.
  pose proof (pmm_init_runs demo_hhdm demo_map boot_state demo_map_ok ltac:(vm_compute; congruence)
    ltac:(vm_compute; congruence) ltac:(vm_compute; congruence) 1 (Entry 4096 131072 0)
    ltac:(vm_compute; congruence) eq_refl eq_refl) as R.
  apply runs_inv in R as (es' & s' & Hrun & -> & Hb). unfold demo_state, run_state.
  rewrite Hrun. eapply pmm_init_inv; [exact demo_map_ok|..|reflexivity|exact Hb];
    vm_compute; congruence.
Qed.

Lemma pmm_alloc_refines_witness :
  match Spec.next_fit (used demo_state) (bitmap_prev_index demo_state)
          (bitmap_top_index demo_state) 3 with
  | Some a => ∃ s', pmm_alloc 3 demo_state = Ok (a * PAGE_SIZE, s') ∧ pmm_inv s' ∧
      alloc_effect (λ x, bitmap_bytes demo_state x ∨ page_bytes a 3 x) demo_state s' a 3 ∧
      ∀ x, page_bytes a 3 x → byte (ram s') x = 0
  | None => pmm_alloc 3 demo_state = Panic "PMM_ALLOC: failed to allocate memory"
  end ∧
  Spec.next_fit (used demo_state) (bitmap_prev_index demo_state)
    (bitmap_top_index demo_state) 3 = Some 2.
Proof. split; [apply pmm_alloc_refines; [exact demo_inv|lia]|vm_compute; reflexivity]. Defined.

(** The frames the allocator keeps for itself: frame 0 and those of the bitmap. *)
Definition reserved (s : kstate) (p : Z) : Prop :=
  p = 0 ∨ bitmap_phys s < (p + 1) * PAGE_SIZE ∧ p * PAGE_SIZE < bitmap_phys s + bitmap_size s.

(** Clearing bits keeps the invariant exactly when none of them is reserved. *)
Lemma become_inv s s' a b : pmm_inv s → 0 ≤ a → b ≤ bitmap_top_index s →
  bits_become s s' (with_range (used s) a b false) →
  pmm_inv s' ↔ ∀ p, a ≤ p < b → ¬ reserved s p.
Proof.
  intros [G HL Hpr H0 Hself] Ha Hb Hbec. pose proof G as [_ _ Htop _]. pose proof Hbec as [E _ HU].
  assert (bitmap_phys s' = bitmap_phys s ∧ bitmap_size s' = bitmap_size s ∧
    bitmap_top_index s' = bitmap_top_index s) as (Ep & Es & Et) by (by rewrite E).
  assert (∀ p, 0 ≤ p < bitmap_top_index s → used s' p = with_range (used s) a b false p) as Hu.
  { intros p Hp. apply HU. lia. }
  split.
  - intros [_ _ _ H0' Hself'] p Hp Hres. assert (used s' p = true) as Hup.
    { destruct Hres as [->|[? ?]]; [done|]. apply Hself'; rewrite ?Ep, ?Es, ?Et; lia. }
    rewrite Hu in Hup by lia. unfold with_range in Hup. by rewrite decide_True in Hup.
  - intros Hok. split; [by eapply become_geom|by rewrite E..| |].
    + rewrite Hu by lia. unfold with_range. case_decide as Hd; [|done].
      destruct (Hok 0 Hd). by left.
    + intros p. rewrite Ep, Es, Et. intros H1 H2 H3. rewrite Hu by lia. unfold with_range.
      case_decide as Hd; [|by apply Hself]. destruct (Hok p Hd). by right.
Qed.

(** [C15] [pmm_free] of [n] frames returns exactly when all of them are in use;
    it then clears their bits and no others, writes nothing but the bitmap, and
    leaves the lock free.  It keeps the invariant of the allocator exactly when
    none of the frames is frame 0 or holds a part of the bitmap, which it does not
    check.  If one of them is free it panics. *)
Theorem pmm_free_correct (s : kstate) (addr n : Z) :
  pmm_geom s → spin_lock s = 0 → 0 ≤ addr → 1 ≤ n →
  addr / PAGE_SIZE + n ≤ bitmap_top_index s →
  let a := addr / PAGE_SIZE in
  ((∀ p, a ≤ p < a + n → used s p = true) →
     ∃ s', pmm_free addr n s = Ok (tt, s') ∧
       bits_become s s' (with_range (used s) a (a + n) false) ∧ spin_lock s' = 0 ∧
       (pmm_inv s → (pmm_inv s' ↔ ∀ p, a ≤ p < a + n → ~ reserved s p))) ∧
  ((∃ p, a ≤ p < a + n ∧ used s p = false) →
     pmm_free addr n s = Panic "pmm_free: page already free").
Proof.
  intros G HL Ha Hn Ht a. pose proof (pmm_free_exact s addr n G HL Ha Hn Ht) as H.
  assert (0 ≤ a) as Ha0 by (apply Z.div_pos; done).
  fold a in H, Ht. destruct (Spec.first_fit _ _ _ 1) as [q|] eqn:F.
  - split; [|done]. intros Hall. apply first_fit_sound in F as (H1 & H2 & H3).
    specialize (H3 q ltac:(lia)). rewrite Hall in H3; done || lia.
  - split; [|intros (p & Hp & Hu); by rewrite (no_free_page _ _ _ p F Hp) in Hu].
    intros _. destruct H as (s' & Hrun & Hb). exists s'. split_and!; [done|done|by destruct Hb as [-> _ _]|].
    intros I. by apply become_inv.
Qed.

(** Round trip: giving back what [pmm_alloc] has just returned succeeds,
    restores the set of used frames and keeps the invariant. *)
Theorem pmm_alloc_free_roundtrip (s : kstate) (n addr : Z) (s1 : kstate) :
  pmm_inv s → 1 ≤ n < 2 ^ 64 → pmm_alloc n s = Ok (addr, s1) →
  ∃ s2, pmm_free addr n s1 = Ok (tt, s2) ∧ pmm_inv s2 ∧
    ∀ p, 0 ≤ p < bitmap_top_index s → used s2 p = used s p.
Proof.
  intros I Hn Halloc. pose proof (pmm_alloc_next_fit s n I Hn) as H. rewrite Halloc in H.
  destruct (Spec.next_fit _ _ _ n) as [a|] eqn:F; [|done].
  destruct H as (s1' & [= -> <-] & E & _).
  apply next_fit_sound in F as (Ha & Hat & Hf); [|apply (inv_prev _ I)].
  pose proof (effect_inv _ _ _ _ _ E Ha ltac:(lia) Hat I) as I1.
  pose proof (effect_bitmap_bytes _ _ _ _ _ E) as [Es _].
  pose proof E as [(_ & _ & Et & _) _ _ _ Eu].
  pose proof (inv_geom _ I) as [_ _ Htop _].
  pose proof (pmm_free_exact s1 (a * PAGE_SIZE) n (inv_geom _ I1) (inv_lock _ I1)
    ltac:(unfold PAGE_SIZE; lia) ltac:(lia)) as Hfree.
  rewrite Z.div_mul in Hfree by done. specialize (Hfree ltac:(lia)).
  assert (∀ p, a ≤ p < a + n → used s1 p = true) as Hall.
  { intros p Hp. rewrite Eu by lia. unfold with_range. by rewrite decide_True. }
  destruct (Spec.first_fit (used s1) a (a + n) 1) as [q|] eqn:F.
  { apply first_fit_sound in F as (H1 & H2 & H3).
    specialize (H3 q ltac:(lia)). rewrite Hall in H3; done || lia. }
  destruct Hfree as (s2 & -> & Hb). exists s2. split; [done|].
  assert (∀ p, 0 ≤ p < bitmap_top_index s → used s2 p = used s p) as Hu.
  { intros p Hp. destruct Hb as [_ _ HU]. rewrite HU by lia. unfold with_range.
    case_decide as Hd; [by rewrite Hf|]. rewrite Eu by lia. unfold with_range.
    by rewrite decide_False. }
  split; [|done]. pose proof Hb as [E2 _ _]. pose proof I as [_ _ _ H0 Hself].
  destruct I1 as [G1 HL1 Hp1 _ _]. split; [by eapply become_geom|by rewrite E2..| |].
  - rewrite Hu by lia. done.
  - intros p. assert (bitmap_phys s2 = bitmap_phys s) as ->.
    { rewrite E2. apply (effect_bitmap_bytes _ _ _ _ _ E). }
    assert (bitmap_size s2 = bitmap_size s) as ->. { by rewrite E2. }
    assert (bitmap_top_index s2 = bitmap_top_index s) as -> by by rewrite E2.
    intros H1 H2 H3. rewrite Hu by lia. by apply Hself.
Qed.

Definition demo_alloc : kstate := run_state (pmm_alloc 3) demo_state.

Lemma demo_alloc_ok : pmm_alloc 3 demo_state = Ok (8192, demo_alloc) ∧ pmm_inv demo_alloc.
Proof.
  pose proof (pmm_alloc_next_fit demo_state 3 demo_inv ltac:(lia)) as H.
  assert (Spec.next_fit (used demo_state) (bitmap_prev_index demo_state)
    (bitmap_top_index demo_state) 3 = Some 2) as Hf by (vm_compute; reflexivity).
  rewrite Hf in H. destruct H as (s' & H & E & _).
  assert (demo_alloc = s') as -> by (unfold demo_alloc, run_state; by rewrite H). split; [exact H|].
  apply next_fit_sound in Hf as (Ha & Hat & _); [|apply (inv_prev _ demo_inv)].
  exact (effect_inv _ _ _ _ _ E Ha ltac:(lia) Hat demo_inv).
Qed.

(** Two of the three frames at 8192 are given back; frame 5 is free already. *)
Lemma pmm_free_correct_witness :
  (∃ s', pmm_free 8192 2 demo_alloc = Ok (tt, s') ∧
     bits_become demo_alloc s' (with_range (used demo_alloc) 2 (2 + 2) false) ∧ spin_lock s' = 0 ∧
     pmm_inv s') ∧
  pmm_free 20480 1 demo_alloc = Panic "pmm_free: page already free".
Proof.
  pose proof (proj2 demo_alloc_ok) as I. pose proof I as [G HL _ _ _]. split.
  - destruct (proj1 (pmm_free_correct demo_alloc 8192 2 G HL ltac:(lia) ltac:(lia)
      ltac:(vm_compute; congruence))) as (s' & Hrun & Hb & Hl & Hi).
    { intros p Hp. change (2 ≤ p < 4) in Hp. assert (p = 2 ∨ p = 3) as [-> | ->] by lia; vm_compute; reflexivity. }
    exists s'. split_and!; [exact Hrun|exact Hb|exact Hl|]. apply (Hi I).
    assert (bitmap_phys demo_alloc = 4096 ∧ bitmap_size demo_alloc = 4096) as [Ep Es]
      by (split; vm_compute; reflexivity).
    intros p Hp Hr. change (2 ≤ p < 4) in Hp. unfold reserved, PAGE_SIZE in Hr. lia.
  - apply (proj2 (pmm_free_correct demo_alloc 20480 1 G HL ltac:(lia) ltac:(lia)
      ltac:(vm_compute; congruence))).
    exists 5. vm_compute. split; [split|]; congruence.
Defined.

Lemma pmm_alloc_free_roundtrip_witness :
  ∃ s2, pmm_free 8192 3 demo_alloc = Ok (tt, s2) ∧ pmm_inv s2 ∧
    ∀ p, 0 ≤ p < bitmap_top_index demo_state → used s2 p = used demo_state p.
Proof.
  apply (pmm_alloc_free_roundtrip demo_state 3 8192 demo_alloc demo_inv); [lia|].
  exact (proj1 demo_alloc_ok).
Defined.

(** ** Sequences of allocations and releases

    The clients' view: the blocks handed out and not yet given back, as a map
    from first frame to number of frames. *)

Inductive client_step : kstate * gmap Z Z → kstate * gmap Z Z → Prop :=
| client_alloc s live n addr s' :
    1 ≤ n < 2 ^ 64 → pmm_alloc n s = Ok (addr, s') →
    client_step (s, live) (s', <[addr / PAGE_SIZE := n]> live)
| client_free s live a n s' :
    live !! a = Some n → pmm_free (a * PAGE_SIZE) n s = Ok (tt, s') →
    client_step (s, live) (s', delete a live).

(** A block lies in range, its frames are used, and it misses the bitmap. *)
Definition block_ok (s : kstate) (a n : Z) : Prop :=
  1 ≤ n ∧ 1 ≤ a ∧ a + n ≤ bitmap_top_index s ∧
  (∀ p, a ≤ p < a + n → used s p = true) ∧
  (∀ x, page_bytes a n x → ¬ bitmap_bytes s x).

Record live_inv (s : kstate) (live : gmap Z Z) : Prop := {
  live_pmm : pmm_inv s;
  live_blocks : ∀ a n, live !! a = Some n → block_ok s a n;
  live_apart : ∀ a n b k, live !! a = Some n → live !! b = Some k → a ≠ b →
    a + n ≤ b ∨ b + k ≤ a;
}.

(** Blocks survive any change of the bitmap that keeps their bits. *)
Lemma block_ok_keep s s' a n :
  bitmap_top_index s' = bitmap_top_index s → bitmap_size s' = bitmap_size s →
  bitmap_phys s' = bitmap_phys s → (∀ p, a ≤ p < a + n → used s' p = used s p) →
  block_ok s a n → block_ok s' a n.
Proof.
  intros Ht Hs Hp Hu (H1 & H2 & H3 & H4 & H5). unfold block_ok, bitmap_bytes in *.
  rewrite Ht, Hs, Hp. split_and!; try done. intros p Hpr. by rewrite Hu, H4.
Qed.

Lemma live_alloc s live n addr s' :
  live_inv s live → 1 ≤ n < 2 ^ 64 → pmm_alloc n s = Ok (addr, s') →
  live_inv s' (<[addr / PAGE_SIZE := n]> live).
Proof.
  intros [I Hbl Hap] Hn Halloc. pose proof (pmm_alloc_next_fit s n I Hn) as H.
  rewrite Halloc in H. destruct (Spec.next_fit _ _ _ n) as [a|] eqn:F; [|done].
  destruct H as (s1' & [= -> <-] & E & _). rewrite Z.div_mul by done.
  apply next_fit_sound in F as (Ha & Hat & Hf); [|apply (inv_prev _ I)].
  pose proof (effect_inv _ _ _ _ _ E Ha ltac:(lia) Hat I) as I'.
  pose proof (effect_bitmap_bytes _ _ _ _ _ E) as [Es Ep].
  pose proof E as [(_ & _ & Et & _) _ _ _ Eu]. pose proof (inv_geom _ I) as [_ _ Htop _].
  assert (∀ b k, live !! b = Some k → a + n ≤ b ∨ b + k ≤ a) as Hnew.
  { intros b k Hb. destruct (Hbl _ _ Hb) as (? & ? & ? & Hused & _).
    destruct (decide (a + n ≤ b)); [by left|]. destruct (decide (b + k ≤ a)); [by right|].
    exfalso. pose proof (Hused (Z.max a b) ltac:(lia)) as Hm.
    rewrite Hf in Hm; done || lia. }
  split; [done|..].
  - intros b k. rewrite lookup_insert_Some. intros [[<- <-]|[Hne Hb]].
    + unfold block_ok, bitmap_bytes. rewrite Et, Es, Ep. split_and!; try lia.
      * destruct (decide (a = 0)) as [->|]; [|lia]. pose proof (inv_null _ I) as H0.
        rewrite Hf in H0; done || lia.
      * intros p Hp. rewrite Eu by lia. unfold with_range. by rewrite decide_True.
      * intros x Hx. by eapply free_pages_apart.
    + eapply block_ok_keep; [done..| |by apply Hbl]. intros p Hp.
      destruct (Hbl _ _ Hb) as (? & ? & ? & _). destruct (Hnew _ _ Hb);
      rewrite Eu by lia; unfold with_range; rewrite decide_False; done || lia.
  - intros b k c j. rewrite !lookup_insert_Some.
    intros [[<- <-]|[Hne Hb]] [[<- <-]|[Hne' Hc]] Hbc; try done.
    + by apply Hnew.
    + destruct (Hnew _ _ Hb); [by right|by left].
    + by eapply Hap.
Qed.

Lemma live_free s live a n s' :
  live_inv s live → live !! a = Some n → pmm_free (a * PAGE_SIZE) n s = Ok (tt, s') →
  live_inv s' (delete a live).
Proof.
  intros [I Hbl Hap] Hla Hfree. destruct (Hbl _ _ Hla) as (Hn & Ha & Hat & Hu & Hmiss).
  pose proof (pmm_free_exact s (a * PAGE_SIZE) n (inv_geom _ I) (inv_lock _ I)
    ltac:(unfold PAGE_SIZE; lia) Hn) as H. rewrite Z.div_mul in H by done.
  specialize (H Hat). rewrite Hfree in H. destruct (Spec.first_fit _ _ _ 1); [done|].
  destruct H as (s2 & [= <-] & Hb). pose proof Hb as [E _ HU].
  pose proof (inv_geom _ I) as [_ _ Htop _].
  assert (bitmap_top_index s' = bitmap_top_index s) as Et by by rewrite E.
  assert (bitmap_size s' = bitmap_size s) as Es by by rewrite E.
  assert (bitmap_phys s' = bitmap_phys s) as Ep by by rewrite E.
  assert (∀ p, 0 ≤ p < bitmap_top_index s → ¬ (a ≤ p < a + n) → used s' p = used s p) as Hkeep.
  { intros p Hp Hout. rewrite HU by lia. unfold with_range. by rewrite decide_False. }
  split.
  - destruct I as [G HL Hp H0 Hself]. split; [by eapply become_geom|by rewrite E..| |].
    + rewrite Hkeep by lia. done.
    + intros p H1 H2 H3. rewrite Ep, Es in *. rewrite Et in H3.
      rewrite Hkeep; [by apply Hself|done|]. intros Hin.
      pose proof (Z.le_max_l (p * PAGE_SIZE) (bitmap_phys s)).
      apply (Hmiss (Z.max (p * PAGE_SIZE) (bitmap_phys s)));
        unfold page_bytes, bitmap_bytes, in_range, PAGE_SIZE in *; lia.
  - intros b k. rewrite lookup_delete_Some. intros [Hne Hb'].
    eapply block_ok_keep; [done..| |by apply Hbl]. intros p Hp.
    destruct (Hbl _ _ Hb') as (? & ? & ? & _).
    destruct (Hap _ _ _ _ Hla Hb' Hne); apply Hkeep; lia.
  - intros b k c j. rewrite !lookup_delete_Some. intros [? ?] [? ?]. by apply Hap.
Qed.

(** [C2] No overlap: after any sequence of successful allocations and releases
    of live blocks, two live blocks share no frame, every live block lies below
    the top of memory, avoids frame 0 and the bitmap, all its frames are marked
    as used, and releasing it succeeds. *)
Theorem live_blocks_disjoint (s0 s : kstate) (live : gmap Z Z) :
  pmm_inv s0 → rtc client_step (s0, ∅) (s, live) →
  (∀ a n b k, live !! a = Some n → live !! b = Some k → a ≠ b → a + n ≤ b ∨ b + k ≤ a) ∧
  (∀ a n, live !! a = Some n → block_ok s a n ∧
     ∃ s', pmm_free (a * PAGE_SIZE) n s = Ok (tt, s')).
Proof.
  intros I0 Hrtc.
  assert (live_inv s live) as [I Hbl Hap].
  { assert (live_inv s0 ∅) as H0 by (split; [done|..]; intros *; by rewrite lookup_empty).
    remember (s0, ∅) as c0 eqn:E0. remember (s, live) as c1 eqn:E1.
    assert (live_inv c0.1 c0.2) as Hc by by subst. clear H0 E0.
    assert (live_inv c1.1 c1.2); [|by subst]. clear E1.
    induction Hrtc as [|x y z Hs _ IH]; [done|]. apply IH.
    destruct Hs; simpl in *; [by eapply live_alloc|by eapply live_free]. }
  split; [done|]. intros a n Hla. split; [by apply Hbl|].
  destruct (Hbl _ _ Hla) as (Hn & Ha & Hat & Hu & _).
  pose proof (pmm_free_exact s (a * PAGE_SIZE) n (inv_geom _ I) (inv_lock _ I)
    ltac:(unfold PAGE_SIZE; lia) Hn) as H. rewrite Z.div_mul in H by done.
  specialize (H Hat). destruct (Spec.first_fit _ _ _ 1) as [q|] eqn:F.
  - apply first_fit_sound in F as (H1 & H2 & H3). specialize (H3 q ltac:(lia)).
    rewrite Hu in H3; done || lia.
  - destruct H as (s' & H & _). by exists s'.
Qed.

Lemma live_blocks_disjoint_witness :
  rtc client_step (demo_state, ∅) (demo_alloc, {[2 := 3]}) ∧
  (∀ a n, ({[2 := 3]} : gmap Z Z) !! a = Some n → block_ok demo_alloc a n ∧
     ∃ s', pmm_free (a * PAGE_SIZE) n demo_alloc = Ok (tt, s')).
Proof.
  assert (rtc client_step (demo_state, ∅) (demo_alloc, {[2 := 3]})) as Hr.
  { eapply rtc_l; [|apply rtc_refl].
    apply (client_alloc demo_state ∅ 3 8192 demo_alloc); [lia|exact (proj1 demo_alloc_ok)]. }
  split; [exact Hr|]. exact (proj2 (live_blocks_disjoint _ _ _ demo_inv Hr)).
Defined.

(** ** Limits of the code *)

(** The memory map is walked with an 8-bit index: with 256 entries or
    more [pmm_init] never returns. *)
Theorem pmm_init_hangs (hhdm : Z) (es : list limine_memmap_entry) (s : kstate) :
  (256 ≤ length es)%nat → pmm_init hhdm es s = Hang.
Proof.
  intros Hl. unfold pmm_init, mbind, M_bind. cbn.
  rewrite (loop_hangs _ (λ v _, 0 ≤ v.1 < 256)); [done| |simpl; lia].
  intros [i h] s' Hi. simpl in Hi. unfold highest_round.
  rewrite (proj2 (Z.ltb_lt _ _)) by lia.
  destruct (lookup_in_range es i) as [e ->]; [lia|]. mstep.
  eexists _, _. split; [done|]. simpl. apply u8_range.
Qed.

Lemma pmm_init_hangs_witness : pmm_init 0 (replicate 256 (Entry 0 4096 1)) boot_state = Hang.
Proof. apply pmm_init_hangs. rewrite length_replicate. lia. Defined.

(** Usable frames 1, 2 and 32768; frame 2's first byte holds 255. *)
Definition overrun_map : list limine_memmap_entry :=
  [Entry 4096 8192 0; Entry 134217728 4096 0].
Definition overrun_boot : kstate := set_ram {[8192 := 255]} boot_state.

(** The bitmap can be too short: its size is computed from
    [bitmap_top_index / 8], rounded down.  With 32769 frames it gets 4096 bytes,
    the bit of the last frame lies behind them, and clearing that bit changes
    the first byte of frame 2, which the allocator offers to its clients. *)
Theorem pmm_init_bitmap_overrun :
  match pmm_init demo_hhdm overrun_map overrun_boot with
  | Ok (_, s') =>
      bitmap_phys s' = 4096 ∧ bitmap_size s' = 4096 ∧
      8 * bitmap_size s' < bitmap_top_index s' ∧ used s' 2 = false ∧
      byte (ram overrun_boot) 8192 = 255 ∧ byte (ram s') 8192 = 254
  | _ => False
  end.
Proof. vm_compute. repeat split. Qed.

(** Next fit does not look across the cursor: after taking 20 frames and
    giving back the last 10 of them, 15 frames in a row are free, yet
    [pmm_alloc 15] panics. *)
Theorem pmm_alloc_misses_straddling_run :
  match (pmm_alloc 20;; pmm_free 49152 10) demo_state with
  | Ok (_, s) => Spec.free_run (used s) 15 12 = true ∧
      pmm_alloc 15 s = Panic "PMM_ALLOC: failed to allocate memory"
  | _ => False
  end.
Proof. vm_compute. split; reflexivity. Qed.
