(* ===== verification/Frames.v ===== *)
(** * The interface between the frame allocator and its clients

    [vmm.c] and [kheap.c] call [pmm_alloc] and [pmm_free].  [FrameOps] names the
    two operations, [FrameView] the abstract state their clients may speak
    about, and [FrameLaws] what the allocator promises.  The page-table and heap
    theorems are proved against this interface; [PmmFrames] discharges it with
    the bitmap allocator. *)

From S2P Require Import Prelude Machine Util.

Class FrameOps := {
  frame_alloc : Z → M kstate Z;            (* pmm_alloc *)
  frame_free : Z → Z → M kstate unit;      (* pmm_free *)
}.

Class FrameView := {
  fr_inv : kstate → Prop;                  (* the allocator's invariant *)
  fr_taken : kstate → Z → Prop;            (* frames in use *)
  fr_private : kstate → Z → Prop;          (* RAM bytes only the allocator writes *)
}.

(** Frames [p, p + n) are handed out fresh, zeroed, and usable through the
    direct map and as a page-table address. *)
Record frames_new `{FrameView} (s s' : kstate) (p n : Z) : Prop := {
  new_low : 1 ≤ p;
  new_addr : (p + n) * PAGE_SIZE ≤ 2 ^ 52;
  new_hhdm : 0 ≤ hhdm_offset s ∧ (p + n) * PAGE_SIZE + hhdm_offset s ≤ 2 ^ 64;
  new_globals : same_globals s s';
  new_inv : fr_inv s';
  new_fresh : ∀ q, p ≤ q < p + n → ¬ fr_taken s q;
  new_taken : ∀ q, fr_taken s' q ↔ fr_taken s q ∨ p ≤ q < p + n;
  new_private : ∀ x, fr_private s' x ↔ fr_private s x;
  new_apart : ∀ x, page_bytes p n x → ¬ fr_private s x;
  new_ram : same_outside (λ x, fr_private s x ∨ page_bytes p n x) (ram s) (ram s');
  new_zero : ∀ x, page_bytes p n x → byte (ram s') x = 0;
}.

(** Frames [p, p + n) are given back. *)
Record frames_released `{FrameView} (s s' : kstate) (p n : Z) : Prop := {
  rel_globals : same_globals s s';
  rel_inv : fr_inv s';
  rel_taken : ∀ q, fr_taken s' q ↔ fr_taken s q ∧ ¬ (p ≤ q < p + n);
  rel_private : ∀ x, fr_private s' x ↔ fr_private s x;
  rel_ram : same_outside (fr_private s) (ram s) (ram s');
}.

Class FrameLaws `{FrameOps, FrameView} := {
  (** Allocation succeeds as described, or the kernel panics for lack of memory. *)
  frame_alloc_ok : ∀ s n, fr_inv s → 1 ≤ n < 2 ^ 64 →
    safe (frame_alloc n) s (λ addr s', ∃ p, addr = p * PAGE_SIZE ∧ frames_new s s' p n);
  (** Giving back taken frames that hold nothing of the allocator's succeeds. *)
  frame_free_ok : ∀ s p n, fr_inv s → 1 ≤ p → 1 ≤ n →
    (∀ q, p ≤ q < p + n → fr_taken s q) →
    (∀ x, page_bytes p n x → ¬ fr_private s x) →
    runs (frame_free (p * PAGE_SIZE) n) s (λ _ s', frames_released s s' p n);
  (** Clients may write any RAM that is not private to the allocator. *)
  frame_write_ok : ∀ s m P, fr_inv s → same_outside P (ram s) m →
    (∀ x, P x → ¬ fr_private s x) →
    fr_inv (set_ram m s) ∧ (∀ q, fr_taken (set_ram m s) q ↔ fr_taken s q) ∧
    (∀ x, fr_private (set_ram m s) x ↔ fr_private s x);
  (** Globals of other components are of no interest to it. *)
  frame_globals_ok : ∀ s v c, fr_inv s →
    let s' := set_vmm_kernel v (set_cr3 c s) in
    fr_inv s' ∧ (∀ q, fr_taken s' q ↔ fr_taken s q) ∧ (∀ x, fr_private s' x ↔ fr_private s x);
}.
