(* ===== verification/PmmFrames.v ===== *)
(** * The bitmap allocator implements the frame interface *)

From S2P Require Import Prelude Machine Util Spinlock Pmm Frames.

#[global] Instance pmm_ops : FrameOps := {
  frame_alloc := pmm_alloc;
  frame_free := pmm_free;
}.

(** Page-table entries carry 52-bit addresses, so the top of memory is bounded. *)
#[global] Instance pmm_view : FrameView := {
  fr_inv s := pmm_inv s ∧ bitmap_top_index s * PAGE_SIZE ≤ 2 ^ 52;
  fr_taken s q := 0 ≤ q < bitmap_top_index s ∧ used s q = true;
  fr_private := bitmap_bytes;
}.

Lemma pmm_inv_write s m P : pmm_inv s → same_outside P (ram s) m →
  (∀ x, P x → ¬ bitmap_bytes s x) →
  pmm_inv (set_ram m s) ∧ ∀ q, 0 ≤ q < bitmap_top_index s → used (set_ram m s) q = used s q.
Proof.
  intros [G HL Hp H0 Hself] Hm HP.
  assert (∀ q, 0 ≤ q < 8 * bitmap_size s → used (set_ram m s) q = used s q) as Hu.
  { intros q Hq. apply used_frame; [done..|]. intros x Hx. apply Hm. intros HPx.
    by apply (HP x). }
  pose proof G as [_ _ Ht _].
  split; [|intros q Hq; apply Hu; lia].
  split; [by apply geom_set_ram|done|done|..].
  - by rewrite Hu by lia.
  - intros p H1 H2 H3. rewrite Hu; [by apply Hself|]. cbn in H3. lia.
Qed.

(** [pmm_alloc] finds the next run of free pages, [pmm_free] clears their bits. *)
Lemma pmm_alloc_law : ∀ s n, fr_inv s → 1 ≤ n < 2 ^ 64 →
  safe (frame_alloc n) s (λ addr s', ∃ p, addr = p * PAGE_SIZE ∧ frames_new s s' p n).
Proof.
  cbn.
  intros s n [I H52] Hn. pose proof (pmm_alloc_next_fit s n I Hn) as H. unfold safe.
  destruct (Spec.next_fit _ _ _ n) as [a|] eqn:F; [|by rewrite H].
  destruct H as (s' & -> & E & Hz). exists a. split; [done|].
  apply next_fit_sound in F as (Ha & Hat & Hf); [|apply (inv_prev _ I)].
  pose proof (effect_inv _ _ _ _ _ E Ha ltac:(lia) Hat I) as I'.
  pose proof (effect_bitmap_bytes _ _ _ _ _ E) as [Es Ep].
  pose proof E as [Eg _ _ Er Eu]. pose proof Eg as (_ & _ & Et & _).
  pose proof (inv_geom _ I) as [Hh _ Htop Hadr]. unfold PAGE_SIZE in *.
  assert (1 ≤ a).
  { destruct (decide (a = 0)) as [->|]; [|lia]. pose proof (inv_null _ I) as H0.
    rewrite Hf in H0; done || lia. }
  split; cbn; try done; unfold PAGE_SIZE; try lia.
  + split; [done|]. by rewrite Et.
  + intros q Hq [_ Hu]. by rewrite Hf in Hu.
  + intros q. rewrite Et. split.
    * intros [Hq Hu]. rewrite Eu in Hu by lia. unfold with_range in Hu.
      case_decide; [by right|by left].
    * intros Hq. assert (0 ≤ q < bitmap_top_index s) as Hr by (destruct Hq as [[? _]|?]; lia).
      split; [done|]. rewrite Eu by lia. unfold with_range. case_decide; [done|].
      by destruct Hq as [[_ Hu]|Hq].
  + intros x. unfold bitmap_bytes. by rewrite Es, Ep.
  + intros x Hx. by eapply free_pages_apart.
Qed.

Lemma pmm_free_law : ∀ s p n, fr_inv s → 1 ≤ p → 1 ≤ n →
  (∀ q, p ≤ q < p + n → fr_taken s q) → (∀ x, page_bytes p n x → ¬ fr_private s x) →
  runs (frame_free (p * PAGE_SIZE) n) s (λ _ s', frames_released s s' p n).
Proof.
  cbn.
  intros s p n [I H52] Hp Hn Htk Hmiss.
  assert (p + n ≤ bitmap_top_index s) as Hat by (destruct (Htk (p + n - 1)); lia).
  assert (live_inv s {[p := n]}) as L.
  { split; [done|..].
    - intros a k [-> <-]%lookup_singleton_Some. split_and!; try done.
      intros q Hq. by apply Htk.
    - intros a k b j [-> <-]%lookup_singleton_Some [-> <-]%lookup_singleton_Some. done. }
  pose proof (pmm_free_exact s (p * PAGE_SIZE) n (inv_geom _ I) (inv_lock _ I)
    ltac:(unfold PAGE_SIZE; lia) Hn) as H. rewrite Z.div_mul in H by done.
  specialize (H Hat). destruct (Spec.first_fit _ _ _ 1) as [q|] eqn:F.
  { apply first_fit_sound in F as (H1 & H2 & H3). specialize (H3 q ltac:(lia)).
    destruct (Htk q ltac:(lia)) as [_ Hu]. by rewrite H3 in Hu. }
  destruct H as (s' & Hrun & Hb). eapply runs_ok; [exact Hrun|].
  pose proof (live_free s {[p := n]} p n s' L ltac:(by rewrite lookup_singleton_eq) Hrun)
    as [I' _ _].
  pose proof (inv_geom _ I) as [_ _ Htop _]. pose proof Hb as [E R U].
  assert (bitmap_top_index s' = bitmap_top_index s) as Et by by rewrite E.
  split; cbn; [by rewrite E|by rewrite Et| |intros x; by rewrite E|done].
  intros q. rewrite Et. split.
  + intros [Hq Hu]. rewrite U in Hu by lia. unfold with_range in Hu. by case_decide.
  + intros [[Hq Hu] Hout]. split; [done|]. rewrite U by lia. unfold with_range.
    by rewrite decide_False.
Qed.

#[global] Instance pmm_laws : FrameLaws.
Proof.
  split; [exact pmm_alloc_law|exact pmm_free_law|..]; cbn.
  - intros s m P [I H52] Hm HP. destruct (pmm_inv_write s m P I Hm HP) as [I' Hu].
    split_and!; [done..| |done]. intros q. split; intros [Hq Hq']; (split; [done|]).
    + by rewrite <- Hu.
    + by rewrite Hu.
  - intros s v c [[G ? ? ? ?] H52]. split_and!; try done. split; try done.
    by destruct G.
Qed.
