(* ===== verification/Vmm.v ===== *)
(** * Virtual memory manager: [src/kernel/mm/vmm.c] and [vmm.h]

    Four-level page tables in RAM, one 4 KiB frame per table.  A [vmm_t] is a
    structure in RAM as well: its lock at offset 0, the pointer to the top table
    at 8, the arena list of the heap at 16.  The code is modelled over the frame
    interface of [Frames]; table frames come from [frame_alloc]. *)

From S2P Require Import Prelude Machine Util Spinlock Frames.

(** ** [vmm.h] *)

Definition NINE_BITS : Z := 511.
Definition PTE_PRESENT : Z := Z.shiftl 1 0.
Definition PTE_WRITABLE : Z := Z.shiftl 1 1.
Definition PTE_USER : Z := Z.shiftl 1 2.
Definition PTE_NO_EXECUTE : Z := Z.shiftl 1 63.
Definition PTE_ADDR : Z := 4503599627366400.  (* 0x000ffffffffff000 *)

Definition PTE_GET_ADDR (pte : Z) : Z := Z.land pte PTE_ADDR.
Definition PTE_GET_FLAGS (pte : Z) : Z := Z.land pte (Z.lnot PTE_ADDR).

(** [(virt & (NINE_BITS << k)) >> k] *)
Definition lvl_offset (k virt : Z) : Z :=
  Z.shiftr (Z.land virt (Z.shiftl NINE_BITS k)) k.

Definition vmm_lock_addr (vmm : Z) : Z := vmm.
Definition vmm_pml_addr (vmm : Z) : Z := vmm + 8.
Definition vmm_arena_addr (vmm : Z) : Z := vmm + 16.

Definition present (pte : Z) : bool := negb (Z.land pte PTE_PRESENT =? 0).

Section vmm.
Context `{FO : FrameOps}.

Definition get_hhdm : M kstate Z := gets hhdm_offset.

Definition lock_word (vmm : Z) {A} (c : M Z A) : M kstate A :=
  zoom (λ s, load 4 s (vmm_lock_addr vmm)) (λ l s, store 4 (vmm_lock_addr vmm) l s) c.
Definition vmm_lock (vmm : Z) : M kstate unit := lock_word vmm spinlock_acquire.
Definition vmm_unlock (vmm : Z) : M kstate unit := lock_word vmm spinlock_release.

Definition walk_pte (pte offset : Z) (alloc : bool) : M kstate Z :=
  let slot := u64 (pte + 8 * offset) in
  e ← gets (λ s, load 8 s slot);
  if present e then
    hhdm ← get_hhdm;
    mret (u64 (PTE_GET_ADDR e + hhdm))
  else if negb alloc then mret 0
  else
    next_lvl ← frame_alloc 1;
    modify (store 8 slot (Z.lor (Z.lor next_lvl PTE_PRESENT) PTE_WRITABLE));;
    hhdm ← get_hhdm;
    mret (u64 (next_lvl + hhdm)).

(** The descent every operation starts with: the level-1 table, or NULL. *)
Definition walk_levels (lvl4 virt : Z) (alloc : bool) : M kstate Z :=
  lvl3 ← walk_pte lvl4 (lvl_offset 39 virt) alloc;
  if lvl3 =? 0 then mret 0
  else
    lvl2 ← walk_pte lvl3 (lvl_offset 30 virt) alloc;
    if lvl2 =? 0 then mret 0
    else walk_pte lvl2 (lvl_offset 21 virt) alloc.

Definition vmm_map_page (vmm virt physical flags : Z) : M kstate bool :=
  vmm_lock vmm;;
  ok ← (lvl4 ← gets (λ s, load 8 s (vmm_pml_addr vmm));
        lvl1 ← walk_levels lvl4 virt true;
        if lvl1 =? 0 then mret false
        else
          let slot := u64 (lvl1 + 8 * lvl_offset 12 virt) in
          e ← gets (λ s, load 8 s slot);
          if present e then mret true
          else
            modify (store 8 slot (Z.lor physical flags));;
            mret true);
  vmm_unlock vmm;;
  mret ok.

Definition vmm_unmap_page (vmm virt : Z) (lock : bool) : M kstate bool :=
  (if lock then vmm_lock vmm else mret tt);;
  ok ← (lvl4 ← gets (λ s, load 8 s (vmm_pml_addr vmm));
        lvl1 ← walk_levels lvl4 virt false;
        if lvl1 =? 0 then mret false
        else
          let slot := u64 (lvl1 + 8 * lvl_offset 12 virt) in
          e ← gets (λ s, load 8 s slot);
          if negb (present e) then mret false
          else
            modify (store 8 slot 0);;
            mret true);
  (if lock then vmm_unlock vmm else mret tt);;
  mret ok.

Definition vmm_change_flag (vmm virt flags : Z) (lock : bool) : M kstate bool :=
  (if lock then vmm_lock vmm else mret tt);;
  ok ← (lvl4 ← gets (λ s, load 8 s (vmm_pml_addr vmm));
        lvl1 ← walk_levels lvl4 virt true;
        if lvl1 =? 0 then mret false
        else
          let slot := u64 (lvl1 + 8 * lvl_offset 12 virt) in
          e ← gets (λ s, load 8 s slot);
          if negb (present e) then mret false
          else
            modify (store 8 slot (Z.lor (PTE_GET_ADDR e) flags));;
            mret true);
  (if lock then vmm_unlock vmm else mret tt);;
  mret ok.

(** The [alloc] parameter is not used: the code passes [true] to [walk_pte]. *)
Definition vmm_virt2pte (vmm virt : Z) (alloc : bool) : M kstate Z :=
  lvl4 ← gets (λ s, load 8 s (vmm_pml_addr vmm));
  lvl1 ← walk_levels lvl4 virt true;
  if lvl1 =? 0 then mret 0
  else mret (u64 (lvl1 + 8 * lvl_offset 12 virt)).

Definition vmm_virt2phys (vmm virt : Z) (alloc : bool) : M kstate Z :=
  pte ← vmm_virt2pte vmm virt alloc;
  if pte =? 0 then mret 0
  else
    e ← gets (λ s, load 8 s pte);
    mret (PTE_GET_ADDR e).

Definition vmm_switch_pml (vmm : Z) : M kstate unit :=
  pml ← gets (λ s, load 8 s (vmm_pml_addr vmm));
  hhdm ← get_hhdm;
  modify (set_cr3 (u64 (pml - hhdm))).

(** The fields of a new [vmm_t], shared by [vmm_new] and [vmm_init]. *)
Definition vmm_fields (vmm : Z) : M kstate unit :=
  modify (store 8 (vmm_arena_addr vmm) 0);;
  modify (store 4 (vmm_lock_addr vmm) SPINLOCK_INIT);;
  pml ← frame_alloc 1;
  modify (store 8 (vmm_pml_addr vmm) pml);;
  hhdm ← get_hhdm;
  pml' ← gets (λ s, load 8 s (vmm_pml_addr vmm));
  modify (store 8 (vmm_pml_addr vmm) (u64 (pml' + hhdm))).

Definition vmm_new : M kstate Z :=
  frame ← frame_alloc 1;
  hhdm ← get_hhdm;
  let new_vmm := u64 (frame + hhdm) in
  vmm_fields new_vmm;;
  kernel ← gets vmm_kernel;
  vmm_map_page kernel (u64 (new_vmm + hhdm)) new_vmm (Z.lor PTE_PRESENT PTE_WRITABLE);;
  pml ← gets (λ s, load 8 s (vmm_pml_addr new_vmm));
  vmm_map_page kernel (u64 (pml + hhdm)) pml (Z.lor PTE_PRESENT PTE_WRITABLE);;
  for_each (seqZ 0 512) (λ i,
    dst ← gets (λ s, load 8 s (vmm_pml_addr new_vmm));
    src ← gets (λ s, load 8 s (vmm_pml_addr kernel));
    e ← gets (λ s, load 8 s (u64 (src + 8 * i)));
    modify (store 8 (u64 (dst + 8 * i)) e));;
  mret new_vmm.

(** [lvl_offset] counts levels but nothing tests it; the recursion ends at a
    null pointer or at a table without present entries. *)
Fixpoint destroy_lvl (fuel : nat) (lvl lvl_offset : Z) : M kstate unit :=
  match fuel with
  | O => hang
  | S fuel' =>
      if lvl =? 0 then mret tt
      else
        for_each (seqZ 0 512) (λ i,
          e ← gets (λ s, load 8 s (u64 (lvl + 8 * i)));
          if present e then
            let next_lvl := PTE_GET_ADDR e in
            destroy_lvl fuel' next_lvl (u64 (lvl_offset - 1));;
            hhdm ← get_hhdm;
            frame_free (u64 (next_lvl - hhdm)) 1
          else mret tt);;
        hhdm ← get_hhdm;
        frame_free (u64 (lvl - hhdm)) 1
  end.

Definition vmm_destroy (fuel : nat) (vmm : Z) : M kstate unit :=
  pml ← gets (λ s, load 8 s (vmm_pml_addr vmm));
  destroy_lvl fuel pml 4;;
  arena ← gets (λ s, load 8 s (vmm_arena_addr vmm));
  hhdm ← get_hhdm;
  frame_free (u64 (arena - hhdm)) 1;;
  frame_free (u64 (vmm - hhdm)) 1.

(** ** [vmm_init]

    The linker provides the section bounds, the boot loader the kernel's
    virtual and physical base. *)
Record kernel_image := KernelImage {
  text_start_addr : Z; text_end_addr : Z;
  rodata_start_addr : Z; rodata_end_addr : Z;
  data_start_addr : Z; data_end_addr : Z;
  virtual_base : Z; physical_base : Z;
}.

(** [for (i = start; i < end; i += PAGE_SIZE) if (!vmm_map_page(...)) panic(msg)] *)
Definition map_section_round (img : kernel_image) (stop flags : Z) (msg : string) (i : Z) :
    M kstate (Z + unit) :=
  if i <? stop then
    let physical := u64 (i - virtual_base img + physical_base img) in
    kernel ← gets vmm_kernel;
    res ← vmm_map_page kernel i physical flags;
    if negb res then panic msg
    else mret (inl (u64 (i + PAGE_SIZE)))
  else mret (inr tt).
Definition map_section (img : kernel_image) (first last flags : Z) (msg : string) :
    M kstate unit :=
  loop (map_section_round img (ALIGN_UP last PAGE_SIZE) flags msg) (ALIGN_DOWN first PAGE_SIZE).

Definition map_low_round (i : Z) : M kstate (Z + unit) :=
  if i <? 4294967296 then
    kernel ← gets vmm_kernel;
    res1 ← vmm_map_page kernel i i (Z.lor PTE_PRESENT PTE_WRITABLE);
    if negb res1 then panic "Failed to identity map the start of physical memory"
    else
      hhdm ← get_hhdm;
      res2 ← vmm_map_page kernel (u64 (i + hhdm)) i
               (Z.lor (Z.lor PTE_PRESENT PTE_WRITABLE) PTE_NO_EXECUTE);
      if negb res2 then panic "Failed to map 0x1000 + get_hhdm() to 0x1000"
      else mret (inl (u64 (i + PAGE_SIZE)))
  else mret (inr tt).

(** The first part: the structure and an empty top-level table. *)
Definition vmm_init_struct : M kstate Z :=
  frame ← frame_alloc 1;
  modify (set_vmm_kernel frame);;
  hhdm ← get_hhdm;
  modify (set_vmm_kernel (u64 (frame + hhdm)));;
  kernel ← gets vmm_kernel;
  vmm_fields kernel;;
  mret kernel.

Definition vmm_init (img : kernel_image) : M kstate unit :=
  kernel ← vmm_init_struct;
  for_each (seqZ 256 256) (λ i,
    pml ← gets (λ s, load 8 s (vmm_pml_addr kernel));
    lvl3 ← walk_pte pml i true;
    if lvl3 =? 0 then panic "Failed to allocate kernel page table" else mret tt);;
  map_section img (text_start_addr img) (text_end_addr img) PTE_PRESENT
    "Failed to map kernel text";;
  map_section img (rodata_start_addr img) (rodata_end_addr img)
    (Z.lor PTE_PRESENT PTE_NO_EXECUTE) "Failed to map kernel rodata";;
  map_section img (data_start_addr img) (data_end_addr img)
    (Z.lor (Z.lor PTE_PRESENT PTE_WRITABLE) PTE_NO_EXECUTE) "Failed to map kernel data";;
  loop map_low_round 4096;;
  vmm_switch_pml kernel.

End vmm.

(** ** What the tables mean

    [entry m t i]: entry [i] of the table at physical address [t].  [descend]
    follows a list of indices from a table; [mapping] is what the MMU finds for a
    virtual address: the level-1 entry, when every level is present. *)

Definition entry (m : gmap Z Z) (t i : Z) : Z := rd 8 m (t + 8 * i).

Fixpoint descend (m : gmap Z Z) (t : Z) (π : list Z) : option Z :=
  match π with
  | [] => Some t
  | i :: π' =>
      if present (entry m t i) then descend m (PTE_GET_ADDR (entry m t i)) π' else None
  end.

Definition path (va : Z) : list Z := [lvl_offset 39 va; lvl_offset 30 va; lvl_offset 21 va].

Definition mapping (m : gmap Z Z) (root va : Z) : option Z :=
  t ← descend m root (path va);
  if present (entry m t (lvl_offset 12 va)) then Some (entry m t (lvl_offset 12 va)) else None.

(** The virtual page of an address: bits 12 to 47. *)
Definition vpage (va : Z) : Z := (va / 4096) mod 2 ^ 36.

Definition path_ok (π : list Z) : Prop := Forall (λ i, 0 ≤ i < 512) π ∧ (length π ≤ 3)%nat.

#[local] Arguments rd : simpl never.
#[local] Arguments wr : simpl never.
#[local] Arguments entry : simpl never.
#[local] Arguments present : simpl never.

(** ** Bits of addresses and entries *)

Lemma present_bit e : present e = Z.testbit e 0.
Proof. unfold present, PTE_PRESENT. by apply land_one_bit. Qed.

Lemma lvl_offset_div k va : 0 ≤ k → lvl_offset k va = (va / 2 ^ k) mod 512.
Proof.
  intros Hk. unfold lvl_offset. rewrite Z.shiftr_land, Z.shiftr_shiftl_l by done.
  rewrite Z.sub_diag, Z.shiftl_0_r. change NINE_BITS with (Z.ones 9).
  by rewrite Z.land_ones, Z.shiftr_div_pow2 by done.
Qed.

Lemma lvl_offset_range k va : 0 ≤ k → 0 ≤ lvl_offset k va < 512.
Proof. intros. rewrite lvl_offset_div by done. by apply Z.mod_pos_bound. Qed.

Ltac solve_path :=
  split; [simpl app; repeat (apply Forall_cons_2; [by apply lvl_offset_range|]); by apply Forall_nil
         |simpl; lia].

Lemma path_ok_va va : path_ok (path va).
Proof. unfold path. solve_path. Qed.

(** The four offsets are the base-512 digits of the virtual page. *)
Lemma vpage_offsets va :
  vpage va = ((lvl_offset 39 va * 512 + lvl_offset 30 va) * 512 + lvl_offset 21 va) * 512
             + lvl_offset 12 va.
Proof.
  unfold vpage. rewrite !lvl_offset_div by done.
  change (2 ^ 39) with (4096 * 512 * 512 * 512). change (2 ^ 30) with (4096 * 512 * 512).
  change (2 ^ 21) with (4096 * 512). change (2 ^ 12) with 4096.
  rewrite <- !Z.div_div by lia. generalize (va / 4096). intros x.
  change (2 ^ 36) with (512 * (512 * (512 * 512))). rewrite !Z.rem_mul_r by lia. ring.
Qed.

Lemma vpage_eq va va' : vpage va = vpage va' ↔
  path va = path va' ∧ lvl_offset 12 va = lvl_offset 12 va'.
Proof.
  split.
  - rewrite !vpage_offsets. unfold path.
    pose proof (lvl_offset_range 39 va); pose proof (lvl_offset_range 39 va').
    pose proof (lvl_offset_range 30 va); pose proof (lvl_offset_range 30 va').
    pose proof (lvl_offset_range 21 va); pose proof (lvl_offset_range 21 va').
    pose proof (lvl_offset_range 12 va); pose proof (lvl_offset_range 12 va').
    intros Heq. assert (lvl_offset 39 va = lvl_offset 39 va') as -> by lia.
    assert (lvl_offset 30 va = lvl_offset 30 va') as -> by lia.
    assert (lvl_offset 21 va = lvl_offset 21 va') as -> by lia. split; [done|lia].
  - intros [[= H1 H2 H3] H4]. rewrite !vpage_offsets. congruence.
Qed.

Lemma PTE_GET_ADDR_div e : PTE_GET_ADDR e = (e / 4096) mod 2 ^ 40 * 4096.
Proof.
  unfold PTE_GET_ADDR. change PTE_ADDR with (Z.shiftl (Z.ones 40) 12).
  change 4096 with (2 ^ 12). rewrite <- Z.shiftl_mul_pow2, <- Z.shiftr_div_pow2 by done.
  rewrite <- Z.land_ones by done. apply Z.bits_inj'. intros i Hi.
  rewrite Z.land_spec, !Z.shiftl_spec, Z.land_spec by done.
  destruct (Z.lt_ge_cases i 12).
  - rewrite !(Z.testbit_neg_r _ (i - 12)) by lia. by rewrite andb_false_r.
  - rewrite Z.shiftr_spec by lia. by replace (i - 12 + 12) with i by lia.
Qed.

(** A table pointer as [walk_pte] writes it. *)
Lemma table_entry p : 0 ≤ p → p * 4096 < 2 ^ 52 →
  let e := Z.lor (Z.lor (p * 4096) PTE_PRESENT) PTE_WRITABLE in
  0 ≤ e < 2 ^ 64 ∧ present e = true ∧ PTE_GET_ADDR e = p * 4096.
Proof.
  intros Hp Hb e. assert (e = p * 4096 + 3) as ->.
  { unfold e. rewrite <- Z.lor_assoc. change 4096 with (2 ^ 12).
    apply lor_disjoint. apply land_mul_low; [done|]. vm_compute. done. }
  rewrite PTE_GET_ADDR_div, present_bit. split_and!; [lia..| |].
  - rewrite Z.bit0_odd, Z.odd_add, Z.odd_mul, andb_false_r. done.
  - assert ((p * 4096 + 3) / 4096 = p) as -> by zify_div. rewrite Z.mod_small; lia.
Qed.

(** ** Descent *)

Lemma descend_app m t π σ :
  descend m t (π ++ σ) = (u ← descend m t π; descend m u σ).
Proof.
  revert t. induction π as [|i π IH]; intros t; simpl; [done|].
  destruct (present _); [apply IH|done].
Qed.

Lemma descend_snoc m t π i :
  descend m t (π ++ [i]) =
    (u ← descend m t π;
     if present (entry m u i) then Some (PTE_GET_ADDR (entry m u i)) else None).
Proof. rewrite descend_app. by destruct (descend m t π). Qed.

Lemma path_ok_snoc π i : path_ok (π ++ [i]) → path_ok π ∧ 0 ≤ i < 512 ∧ (length π ≤ 2)%nat.
Proof.
  intros [[Hf Hi]%Forall_app Hl]. rewrite length_app in Hl. simpl in Hl.
  rewrite Forall_singleton in Hi. split_and!; [split; [done|lia]|lia..].
Qed.

Section tree.
Context `{FV : FrameView}.

(** A frame that belongs to the page tables (or to the [vmm_t]): in use, not
    the allocator's, and addressable. *)
Record frame_ok (s : kstate) (t : Z) : Prop := {
  fo_frame : ∃ p, t = p * PAGE_SIZE ∧ 1 ≤ p ∧ fr_taken s p;
  fo_addr : t + PAGE_SIZE ≤ 2 ^ 52;
  fo_hhdm : t + PAGE_SIZE + hhdm_offset s ≤ 2 ^ 64;
  fo_public : ∀ x, in_range t PAGE_SIZE x → ¬ fr_private s x;
}.

(** The tables below [root] form a tree of distinct, owned frames. *)
Record tree (s : kstate) (root : Z) : Prop := {
  tree_frame : ∀ π t, path_ok π → descend (ram s) root π = Some t → frame_ok s t;
  tree_inj : ∀ π1 π2 t, path_ok π1 → path_ok π2 →
    descend (ram s) root π1 = Some t → descend (ram s) root π2 = Some t → π1 = π2;
}.

(** The invariant of an address space: [vmm] points to the structure in frame
    [v], whose top-level table is [root]. *)
Record vm_inv (s : kstate) (vmm v root : Z) : Prop := {
  vm_alloc : fr_inv s;
  vm_hhdm : 0 ≤ hhdm_offset s;
  vm_ptr : vmm = v + hhdm_offset s;
  vm_struct : frame_ok s v;
  vm_pml : rd 8 (ram s) (v + 8) = root + hhdm_offset s;
  vm_tree : tree s root;
  vm_apart : ∀ π t, path_ok π → descend (ram s) root π = Some t → t ≠ v;
}.

(** Frames of distinct addresses share no byte. *)
Lemma frames_apart s t u x : frame_ok s t → frame_ok s u → t ≠ u →
  in_range t PAGE_SIZE x → ¬ in_range u PAGE_SIZE x.
Proof.
  intros [(p & -> & _) _ _ _] [(q & -> & _) _ _ _] Hne. unfold in_range, PAGE_SIZE in *. lia.
Qed.

Lemma slot_range t i x : 0 ≤ i < 512 → in_range (t + 8 * i) 8 x → in_range t PAGE_SIZE x.
Proof. unfold in_range, PAGE_SIZE. lia. Qed.

(** Updating one slot of the tree: [m'] reads as [m] in every table, except
    for entry [i0] of the table reached by [π0]. *)
Section update.
Context (s : kstate) (root : Z) (T : tree s root) (m' : gmap Z Z).
Context (π0 : list Z) (t0 i0 : Z).
Context (Hπ0 : path_ok π0) (Ht0 : descend (ram s) root π0 = Some t0).
Context (Hsame : ∀ π t i, path_ok π → 0 ≤ i < 512 → descend (ram s) root π = Some t →
  ¬ (t = t0 ∧ i = i0) → entry m' t i = entry (ram s) t i).

Lemma descend_update π : path_ok π → ¬ (π0 ++ [i0]) `prefix_of` π →
  descend m' root π = descend (ram s) root π.
Proof.
  induction π as [|i π IH] using rev_ind; intros Hok Hnp; [done|].
  destruct (path_ok_snoc _ _ Hok) as (Hok' & Hi & _). rewrite !descend_snoc.
  rewrite IH; [|done|intros Hp; apply Hnp; by apply prefix_app_r].
  destruct (descend (ram s) root π) as [t|] eqn:E; simpl; [|done].
  rewrite (Hsame π t i); [done..|]. intros [-> ->]. apply Hnp.
  by rewrite (tree_inj _ _ T π0 π t0).
Qed.

Lemma descend_at : descend m' root π0 = Some t0.
Proof.
  rewrite descend_update; [done..|]. intros Hp%prefix_length.
  rewrite length_app in Hp. simpl in Hp. lia.
Qed.

End update.
End tree.

(** ** Growing the tree *)

Section growth.
Context `{FO : FrameOps, FV : FrameView, FL : !FrameLaws}.

(** [s'] is [s] with possibly more tables: old tables stay where they were, new
    ones sit in frames that were free, and other frames keep their contents,
    except for the bytes in [W]. *)
Record grows (W : Z → Prop) (s s' : kstate) (vmm v root : Z) : Prop := {
  gr_inv : vm_inv s' vmm v root;
  gr_globals : same_globals s s';
  gr_taken : ∀ q, fr_taken s q → fr_taken s' q;
  gr_private : ∀ x, fr_private s' x ↔ fr_private s x;
  gr_desc : ∀ π t, path_ok π → descend (ram s) root π = Some t →
    descend (ram s') root π = Some t;
  gr_new : ∀ π t, path_ok π → descend (ram s') root π = Some t →
    descend (ram s) root π = Some t ∨ ∃ p, t = p * PAGE_SIZE ∧ ¬ fr_taken s p;
  gr_keep : ∀ q x, fr_taken s q → page_bytes q 1 x → ¬ fr_private s x →
    ¬ W x →
    (∀ π, path_ok π → descend (ram s) root π ≠ Some (q * PAGE_SIZE)) →
    byte (ram s') x = byte (ram s) x;
}.

Lemma grows_refl W s vmm v root : vm_inv s vmm v root → grows W s s vmm v root.
Proof. intros. split; try done; eauto. Qed.

Lemma same_globals_trans s1 s2 s3 :
  same_globals s1 s2 → same_globals s2 s3 → same_globals s1 s3.
Proof.
  intros (A1 & B1 & C1 & D1 & E1) (A2 & B2 & C2 & D2 & E2). unfold same_globals.
  by rewrite A2, B2, C2, D2, E2.
Qed.

Lemma grows_mono (W W' : Z → Prop) s s' vmm v root : (∀ x, W x → W' x) →
  grows W s s' vmm v root → grows W' s s' vmm v root.
Proof. intros HW [I G T P D N K]. split; try done. intros q x ? ? ? ? ?. apply (K q); auto. Qed.

Lemma grows_trans W s1 s2 s3 vmm v root :
  grows W s1 s2 vmm v root → grows W s2 s3 vmm v root → grows W s1 s3 vmm v root.
Proof.
  intros [_ G1 T1 P1 D1 N1 K1] [I G2 T2 P2 D2 N2 K2].
  split; [done|by eapply same_globals_trans|by eauto|intros x; by rewrite P2, P1|by eauto|..].
  - intros π t Hok Ht. destruct (N2 π t Hok Ht) as [Ht'|(p & -> & Hp)]; [by apply N1|].
    right. exists p. split; [done|]. intros Hq. by apply Hp, T1.
  - intros q x Hq Hx Hp HW Hnot.
    rewrite (K2 q x); [by apply (K1 q)|by apply T1|done|by rewrite P1|done|].
    intros π Hok Ht. destruct (N1 π _ Hok Ht) as [Ht'|(p & Hpq & Hfree)]; [by eapply Hnot|].
    apply Hfree. assert (p = q) as -> by (unfold PAGE_SIZE in Hpq; lia). done.
Qed.

Lemma frame_ok_mono s s' t : same_globals s s' → (∀ q, fr_taken s q → fr_taken s' q) →
  (∀ x, fr_private s' x ↔ fr_private s x) → frame_ok s t → frame_ok s' t.
Proof.
  intros (Hh & _) Ht Hp [(p & -> & Hp1 & Hp2) Ha Hb Hc]. split; [eauto|done|by rewrite Hh|].
  intros x Hx. rewrite Hp. by apply Hc.
Qed.

Lemma frame_bytes p x : in_range (p * PAGE_SIZE) PAGE_SIZE x ↔ page_bytes p 1 x.
Proof. unfold page_bytes, in_range, PAGE_SIZE. lia. Qed.

(** A new frame, an old one beside it, and a frame after a write. *)
Lemma new_frame_ok s s1 p : frames_new s s1 p 1 → frame_ok s1 (p * PAGE_SIZE).
Proof.
  intros [Hlow Ha [Hh0 Hh1] (Hh & _) _ _ Htk Hpr Hap _ _]. unfold PAGE_SIZE in Ha, Hh1.
  split; [|unfold PAGE_SIZE; lia|rewrite Hh; unfold PAGE_SIZE; lia|].
  - exists p. split_and!; [done..|]. apply Htk. right. lia.
  - intros x Hx. rewrite Hpr. by apply Hap, frame_bytes.
Qed.

Lemma old_frame_ok s s1 p n t : frames_new s s1 p n → frame_ok s t → frame_ok s1 t.
Proof.
  intros N. apply frame_ok_mono; [apply (new_globals _ _ _ _ N)| |apply (new_private _ _ _ _ N)].
  intros q Hq. apply (new_taken _ _ _ _ N). by left.
Qed.

Lemma written_frame_ok s m P t : fr_inv s → same_outside P (ram s) m → (∀ x, P x → ¬ fr_private s x) →
  frame_ok s t → frame_ok (set_ram m s) t.
Proof.
  intros HI Hm HP. destruct (frame_write_ok s m P HI Hm HP) as (_ & Ht & Hp).
  apply frame_ok_mono; [done|intros q; by rewrite Ht|done].
Qed.

(** Allocating a frame leaves every owned frame's contents alone. *)
Lemma owned_bytes s s1 p n t x : frames_new s s1 p n → frame_ok s t →
  in_range t PAGE_SIZE x → byte (ram s1) x = byte (ram s) x.
Proof.
  intros N F Hx. apply (new_ram _ _ _ _ N). pose proof (fo_public _ _ F x Hx) as Hpub.
  destruct F as [(q & -> & Hq & Htk) _ _ _].
  intros [Hpr|Hpg]; [done|]. unfold page_bytes, in_range, PAGE_SIZE in *.
  apply (new_fresh _ _ _ _ N q); [lia|done].
Qed.

Lemma entry_frame m m' t i : 0 ≤ i < 512 →
  (∀ x, in_range t PAGE_SIZE x → byte m' x = byte m x) → entry m' t i = entry m t i.
Proof.
  intros Hi Hb. unfold entry. apply rd_ext. intros x Hx. apply Hb.
  unfold in_range, PAGE_SIZE. lia.
Qed.

Lemma entry_wr_other s m t i u j v : frame_ok s t → frame_ok s u →
  0 ≤ i < 512 → 0 ≤ j < 512 → ¬ (u = t ∧ j = i) →
  entry (wr 8 m (t + 8 * i) v) u j = entry m u j.
Proof.
  intros [(p & -> & _) _ _ _] [(q & -> & _) _ _ _] Hi Hj Hne. unfold entry, PAGE_SIZE in *.
  apply rd_wr_other. lia.
Qed.

Lemma entry_wr_same m t i v : entry (wr 8 m (t + 8 * i) v) t i = u64 v.
Proof. unfold entry. by rewrite rd_wr_same. Qed.

(** The address a table pointer and an index designate. *)
Lemma slot_cell s t i : frame_ok s t → 0 ≤ hhdm_offset s → 0 ≤ i < 512 →
  cell (hhdm_offset s) (u64 (t + hhdm_offset s + 8 * i)) = t + 8 * i.
Proof.
  intros [(p & -> & Hp & _) _ Hh _] Hh0 Hi. unfold PAGE_SIZE in *.
  rewrite u64_small by lia. unfold cell. rewrite (proj2 (Z.leb_le _ _)); lia.
Qed.

Lemma frame_cell s t k : frame_ok s t → 0 ≤ k < PAGE_SIZE →
  cell (hhdm_offset s) (t + hhdm_offset s + k) = t + k.
Proof.
  intros [(p & -> & Hp & _) _ _ _] Hk. replace (p * PAGE_SIZE + hhdm_offset s + k) with
    (p * PAGE_SIZE + k + hhdm_offset s) by lia. apply cell_hhdm. unfold PAGE_SIZE. lia.
Qed.

Lemma load_entry s t i : frame_ok s t → 0 ≤ hhdm_offset s → 0 ≤ i < 512 →
  load 8 s (u64 (t + hhdm_offset s + 8 * i)) = entry (ram s) t i.
Proof. intros. unfold load. by rewrite slot_cell. Qed.

Lemma store_entry s t i e : frame_ok s t → 0 ≤ hhdm_offset s → 0 ≤ i < 512 →
  store 8 (u64 (t + hhdm_offset s + 8 * i)) e s = set_ram (wr 8 (ram s) (t + 8 * i) e) s.
Proof. intros. unfold store. by rewrite slot_cell. Qed.

Lemma table_ptr s t : frame_ok s t → 0 ≤ hhdm_offset s →
  u64 (t + hhdm_offset s) = t + hhdm_offset s ∧ (t + hhdm_offset s =? 0) = false.
Proof.
  intros [(p & -> & Hp & _) _ Hh _] Hh0. unfold PAGE_SIZE in *.
  rewrite u64_small by lia. split; [done|]. apply Z.eqb_neq. lia.
Qed.

(** *** Hanging a fresh, empty table into slot [i0] of the table at [π0] *)

Section hang_table.
Context (s s1 : kstate) (vmm v root : Z) (I : vm_inv s vmm v root).
Context (π0 : list Z) (i0 t0 p : Z).
Context (Hok : path_ok (π0 ++ [i0])) (Ht0 : descend (ram s) root π0 = Some t0).
Context (Habs : present (entry (ram s) t0 i0) = false).
Context (N : frames_new s s1 p 1).

Definition hung : kstate :=
  set_ram (wr 8 (ram s1) (t0 + 8 * i0)
    (Z.lor (Z.lor (p * PAGE_SIZE) PTE_PRESENT) PTE_WRITABLE)) s1.

#[local] Abbreviation T := (vm_tree _ _ _ _ I).

Lemma t0_ok : frame_ok s t0.
Proof. apply path_ok_snoc in Hok as (H1 & _). by eapply (tree_frame _ _ T). Qed.

Lemma fresh_not_owned t : frame_ok s t → t ≠ p * PAGE_SIZE.
Proof.
  intros [(q & -> & _ & Hq) _ _ _] Heq. assert (q = p) as -> by (unfold PAGE_SIZE in *; lia).
  apply (new_fresh _ _ _ _ N p); [lia|done].
Qed.

Lemma hung_alloc : fr_inv hung ∧ (∀ q, fr_taken hung q ↔ fr_taken s q ∨ q = p) ∧
  (∀ x, fr_private hung x ↔ fr_private s x).
Proof.
  pose proof t0_ok as F0. apply path_ok_snoc in Hok as (_ & Hi & _).
  destruct (frame_write_ok s1 (ram hung) (in_range (t0 + 8 * i0) 8) (new_inv _ _ _ _ N))
    as (H1 & H2 & H3).
  - apply (same_outside_wr 8).
  - intros x Hx. rewrite (new_private _ _ _ _ N). apply (fo_public _ _ F0). by eapply slot_range.
  - split_and!; [done|..].
    + intros q. unfold hung. rewrite H2, (new_taken _ _ _ _ N). split; intros [?|?]; auto; right; lia.
    + intros x. unfold hung. by rewrite H3, (new_private _ _ _ _ N).
Qed.

Lemma hung_globals : same_globals s hung.
Proof. by destruct (new_globals _ _ _ _ N) as (? & ? & ? & ? & ?). Qed.

Lemma hung_frame t : frame_ok s t → frame_ok hung t.
Proof.
  destruct hung_alloc as (_ & Ht & Hp). apply frame_ok_mono; [apply hung_globals| |done].
  intros q Hq. apply Ht. by left.
Qed.

Lemma hung_new_frame : frame_ok hung (p * PAGE_SIZE).
Proof.
  destruct hung_alloc as (_ & Ht & Hp). destruct hung_globals as (Hh & _).
  destruct N as [Hlow Ha [Hh0 Hh1] _ _ _ _ _ Hap _ _]. unfold PAGE_SIZE in *.
  split; unfold PAGE_SIZE; [|lia|rewrite Hh; lia|].
  - exists p. split_and!; [done|lia|]. apply Ht. by right.
  - intros x Hx. rewrite Hp. apply Hap. unfold page_bytes, in_range, PAGE_SIZE in *. lia.
Qed.

Lemma hung_entry_same π t i : path_ok π → 0 ≤ i < 512 → descend (ram s) root π = Some t →
  ¬ (t = t0 ∧ i = i0) → entry (ram hung) t i = entry (ram s) t i.
Proof.
  intros Hπ Hi Ht Hne. pose proof t0_ok as F0. apply path_ok_snoc in Hok as (_ & Hi0 & _).
  pose proof (tree_frame _ _ T _ _ Hπ Ht) as F. unfold hung. cbn [ram set_ram].
  rewrite (entry_wr_other s) by done. apply entry_frame; [done|].
  intros x Hx. by eapply owned_bytes.
Qed.

Lemma hung_entry_new : entry (ram hung) t0 i0 =
  Z.lor (Z.lor (p * PAGE_SIZE) PTE_PRESENT) PTE_WRITABLE ∧
  present (entry (ram hung) t0 i0) = true ∧
  PTE_GET_ADDR (entry (ram hung) t0 i0) = p * PAGE_SIZE.
Proof.
  destruct N as [Hlow Ha _ _ _ _ _ _ _ _ _]. unfold PAGE_SIZE in *.
  destruct (table_entry p) as (Hr & Hpr & Hga); [lia..|].
  assert (entry (ram hung) t0 i0 = Z.lor (Z.lor (p * 4096) PTE_PRESENT) PTE_WRITABLE) as ->.
  { unfold hung. cbn [ram set_ram]. rewrite entry_wr_same, u64_small; [done|]. change (2 ^ 64) with 18446744073709551616 in Hr. exact Hr. }
  done.
Qed.

Lemma hung_entry_fresh j : 0 ≤ j < 512 → entry (ram hung) (p * PAGE_SIZE) j = 0.
Proof.
  intros Hj. pose proof t0_ok as F0. pose proof (path_ok_snoc _ _ Hok) as (_ & Hi0 & _).
  pose proof (fresh_not_owned t0 F0) as Hne. unfold hung. cbn [ram set_ram].
  rewrite (entry_wr_other hung); [|by apply hung_frame|apply hung_new_frame|done|done|naive_solver].
  unfold entry. rewrite (rd_ext 8 _ ∅); [done|].
  intros x Hx. rewrite (new_zero _ _ _ _ N); [done|].
  unfold page_bytes, in_range, PAGE_SIZE in *. lia.
Qed.

(** Every path either misses the new slot, or ends in the new table, or fails. *)
Lemma hung_descend π : path_ok π →
  descend (ram hung) root π =
    if decide (π = π0 ++ [i0]) then Some (p * PAGE_SIZE)
    else if decide ((π0 ++ [i0]) `prefix_of` π) then None else descend (ram s) root π.
Proof.
  intros Hπ. pose proof (path_ok_snoc _ _ Hok) as (Hπ0 & Hi0 & _).
  pose proof (descend_at s root T (ram hung) π0 t0 i0 Hπ0 Ht0 hung_entry_same) as Hat.
  destruct hung_entry_new as (_ & Hpr & Hga).
  assert (descend (ram hung) root (π0 ++ [i0]) = Some (p * PAGE_SIZE)) as Hnew.
  { rewrite descend_snoc, Hat. cbn [mbind option_bind]. by rewrite Hpr, Hga. }
  case_decide as H1; [by subst|]. case_decide as H2.
  - destruct H2 as [[|j σ] ->]; [by rewrite app_nil_r in H1|].
    rewrite descend_app, Hnew. cbn [mbind option_bind descend].
    rewrite hung_entry_fresh; [done|].
    destruct Hπ as [[_ Hσ]%Forall_app _]. by inversion Hσ.
  - apply (descend_update s root T (ram hung) π0 t0 i0 Hπ0 Ht0 hung_entry_same); done.
Qed.


(** Any path that passes through the slot found nothing there before. *)
Lemma hung_absent π : (π0 ++ [i0]) `prefix_of` π → descend (ram s) root π = None.
Proof.
  intros [σ ->]. rewrite descend_app, descend_snoc, Ht0. cbn [mbind option_bind].
  by rewrite Habs.
Qed.

Lemma hung_cases π t : path_ok π → descend (ram hung) root π = Some t →
  (π = π0 ++ [i0] ∧ t = p * PAGE_SIZE) ∨ (descend (ram s) root π = Some t ∧ frame_ok s t).
Proof.
  intros Hπ. rewrite hung_descend by done. repeat case_decide; intros Ht; simplify_eq; [by left|].
  right. split; [done|]. by eapply (tree_frame _ _ T).
Qed.

Lemma hung_tree : tree hung root.
Proof.
  split.
  - intros π t Hπ [(-> & ->)|(Hd & F)]%hung_cases; [apply hung_new_frame|by apply hung_frame|done].
  - intros π1 π2 t Hπ1 Hπ2 H1 H2.
    apply hung_cases in H1 as [(-> & ->)|(H1 & F1)]; [| |done];
      apply hung_cases in H2 as [(-> & Heq)|(H2 & F2)]; try done.
    + by apply fresh_not_owned in F2.
    + subst. by apply fresh_not_owned in F1.
    + by eapply (tree_inj _ _ T).
Qed.

Lemma hung_keep q x : fr_taken s q → page_bytes q 1 x → ¬ fr_private s x →
  t0 ≠ q * PAGE_SIZE → byte (ram hung) x = byte (ram s) x.
Proof.
  intros Hq Hx Hnp Hne. pose proof t0_ok as F0. apply path_ok_snoc in Hok as (_ & Hi0 & _).
  destruct F0 as [(q0 & -> & _) _ _ _]. unfold hung. cbn [ram set_ram].
  rewrite byte_wr, decide_False.
  - apply (new_ram _ _ _ _ N). intros [Hp|Hp]; [done|].
    apply (new_fresh _ _ _ _ N q); [|done]. unfold page_bytes, in_range, PAGE_SIZE in *. lia.
  - unfold page_bytes, in_range, PAGE_SIZE in *. lia.
Qed.

Lemma hung_grows W : grows W s hung vmm v root.
Proof.
  destruct hung_alloc as (HI & Ht & Hp). pose proof hung_globals as HG.
  pose proof HG as (Hh & _). pose proof I as [_ Hh0 Hptr Hv Hpml _ Hap].
  pose proof (path_ok_snoc _ _ Hok) as (Hπ0 & _).
  split; [split|..]; try done.
  - by rewrite Hh.
  - by rewrite Hh.
  - by apply hung_frame.
  - rewrite Hh, <- Hpml. apply rd_ext. intros x Hx.
    pose proof (fo_public _ _ Hv) as Hpub. destruct (fo_frame _ _ Hv) as (q & Hvq & _ & Hq).
    apply (hung_keep q); [done| | |rewrite <- Hvq; by eapply Hap].
    + rewrite <- frame_bytes, <- Hvq. unfold in_range, PAGE_SIZE. lia.
    + apply Hpub. unfold in_range, PAGE_SIZE. lia.
  - apply hung_tree.
  - intros π t Hπ [(-> & ->)|(Hd & F)]%hung_cases; [|by eapply Hap|done].
    intros <-. by apply (fresh_not_owned _ Hv).
  - intros q Hq. apply Ht. by left.
  - intros π t Hπ Hd. rewrite hung_descend by done.
    case_decide; [|case_decide]; [..|done]; rewrite hung_absent in Hd; try done.
    by subst.
  - intros π t Hπ [(-> & ->)|(Hd & F)]%hung_cases; [right|by left|done].
    exists p. split; [done|]. apply (new_fresh _ _ _ _ N). lia.
  - intros q x Hq Hx Hnp HW Hno. apply (hung_keep q); try done.
    intros Heq. rewrite Heq in Ht0. by eapply Hno.
Qed.

Lemma hung_mapping va : mapping (ram hung) root va = mapping (ram s) root va.
Proof.
  pose proof (path_ok_va va) as Hπ. pose proof (path_ok_snoc _ _ Hok) as (Hπ0 & _ & Hlen).
  unfold mapping. rewrite hung_descend by done. case_decide as H1; [|case_decide as H2].
  - rewrite hung_absent by (by rewrite H1). cbn [mbind option_bind].
    by rewrite hung_entry_fresh by (by apply lvl_offset_range).
  - by rewrite hung_absent.
  - destruct (descend (ram s) root (path va)) as [t|] eqn:Ht; [|done].
    cbn [mbind option_bind]. rewrite (hung_entry_same (path va)); [done|done| |done|].
    + by apply lvl_offset_range.
    + intros [-> _]. assert (path va = π0) as <- by (by eapply (tree_inj _ _ T)).
      simpl in Hlen. lia.
Qed.

End hang_table.

(** *** [walk_pte] *)

Lemma walk_pte_ok s vmm v root π i t : vm_inv s vmm v root →
  path_ok (π ++ [i]) → descend (ram s) root π = Some t →
  safe (walk_pte (t + hhdm_offset s) i true) s (λ r s',
    ∃ t', r = t' + hhdm_offset s ∧ descend (ram s') root (π ++ [i]) = Some t' ∧
      frame_ok s' t' ∧ grows (λ _, False) s s' vmm v root ∧
      ∀ va, mapping (ram s') root va = mapping (ram s) root va).
Proof.
  intros I Hok Ht. pose proof (path_ok_snoc _ _ Hok) as (Hπ & Hi & _).
  pose proof (vm_tree _ _ _ _ I) as T. pose proof (tree_frame _ _ T _ _ Hπ Ht) as F.
  pose proof (vm_hhdm _ _ _ _ I) as Hh. unfold walk_pte.
  do 2 sstep. rewrite load_entry by done.
  destruct (present (entry (ram s) t i)) eqn:Hp.
  - assert (descend (ram s) root (π ++ [i]) = Some (PTE_GET_ADDR (entry (ram s) t i))) as Hd.
    { rewrite descend_snoc, Ht. cbn [mbind option_bind]. by rewrite Hp. }
    pose proof (tree_frame _ _ T _ _ Hok Hd) as F'.
    unfold get_hhdm. repeat sstep. destruct (table_ptr _ _ F' Hh) as [-> _].
    eexists. split; [done|].
    split_and!; [done..|by apply grows_refl|done].
  - cbn [negb]. sstep. eapply safe_mono; [by apply (frame_alloc_ok s 1 (vm_alloc _ _ _ _ I))|].
    intros r s1 (p & -> & N). unfold get_hhdm. repeat sstep.
    assert (hhdm_offset s1 = hhdm_offset s) as Hh1 by apply (new_globals _ _ _ _ N).
    assert (store 8 (u64 (t + hhdm_offset s + 8 * i))
      (Z.lor (Z.lor (p * PAGE_SIZE) PTE_PRESENT) PTE_WRITABLE) s1 = hung s1 i t p) as ->.
    { unfold store, hung. by rewrite Hh1, slot_cell. }
    exists (p * PAGE_SIZE). cbn [hhdm_offset hung set_ram]. rewrite Hh1.
    pose proof (hung_new_frame s s1 vmm v root I π i t p Hok Ht N) as Fn.
    split_and!; [| |done|by eapply hung_grows|by eapply hung_mapping].
    + pose proof (table_ptr _ _ Fn) as Hptr. cbn [hhdm_offset hung set_ram] in Hptr.
      rewrite Hh1 in Hptr. by destruct (Hptr Hh) as [-> _].
    + rewrite (hung_descend s s1 vmm v root I π i t p) by done. by rewrite decide_True.
Qed.

Lemma grows_hhdm W s s' vmm v root :
  grows W s s' vmm v root → hhdm_offset s' = hhdm_offset s.
Proof. intros G. apply (gr_globals _ _ _ _ _ _ G). Qed.

(** The descent of the mapping operations finds or builds the level-1 table. *)
Lemma walk_levels_ok s vmm v root va : vm_inv s vmm v root →
  safe (walk_levels (root + hhdm_offset s) va true) s (λ r s',
    ∃ t, r = t + hhdm_offset s ∧ descend (ram s') root (path va) = Some t ∧
      frame_ok s' t ∧ grows (λ _, False) s s' vmm v root ∧
      ∀ va', mapping (ram s') root va' = mapping (ram s) root va').
Proof.
  intros I. pose proof (vm_hhdm _ _ _ _ I) as Hh.
  unfold walk_levels. sstep. eapply safe_mono.
  { apply (walk_pte_ok s vmm v root [] _ root); [done|solve_path|done]. }
  intros r3 s3 (t3 & -> & D3 & F3 & G3 & M3). simpl in D3.
  pose proof (gr_inv _ _ _ _ _ _ G3) as I3. pose proof (grows_hhdm _ _ _ _ _ _ G3) as E3.
  rewrite <- E3. destruct (table_ptr s3 t3 F3 (vm_hhdm _ _ _ _ I3)) as [_ ->].
  sstep. eapply safe_mono.
  { apply (walk_pte_ok s3 vmm v root [lvl_offset 39 va] _ t3); [done|solve_path|done]. }
  intros r2 s2 (t2 & -> & D2 & F2 & G2 & M2).
  pose proof (gr_inv _ _ _ _ _ _ G2) as I2. pose proof (grows_hhdm _ _ _ _ _ _ G2) as E2.
  rewrite <- E2. destruct (table_ptr s2 t2 F2 (vm_hhdm _ _ _ _ I2)) as [_ ->].
  eapply safe_mono.
  { apply (walk_pte_ok s2 vmm v root [lvl_offset 39 va; lvl_offset 30 va] _ t2); [done|solve_path|done]. }
  intros r1 s1 (t1 & -> & D1 & F1 & G1 & M1). exists t1. split_and!; try done.
  - eapply grows_trans; [done|]. by eapply grows_trans.
  - intros va'. by rewrite M1, M2, M3.
Qed.

(** Without allocation the descent only looks. *)
Lemma walk_pte_find s vmm v root π i t : vm_inv s vmm v root →
  path_ok (π ++ [i]) → descend (ram s) root π = Some t →
  walk_pte (t + hhdm_offset s) i false s =
    Ok (match descend (ram s) root (π ++ [i]) with
        | Some t' => t' + hhdm_offset s | None => 0 end, s).
Proof.
  intros I Hok Ht. pose proof (path_ok_snoc _ _ Hok) as (Hπ & Hi & _).
  pose proof (vm_tree _ _ _ _ I) as T. pose proof (tree_frame _ _ T _ _ Hπ Ht) as F.
  pose proof (vm_hhdm _ _ _ _ I) as Hh.
  destruct (descend (ram s) root (π ++ [i])) as [t'|] eqn:D;
    rewrite descend_snoc, Ht in D; cbn [mbind option_bind] in D;
    unfold walk_pte, mbind, M_bind, gets; cbn [bind_result fst snd]; rewrite load_entry by done;
    destruct (present (entry (ram s) t i)) eqn:Hp; simplify_eq; [|done].
  assert (descend (ram s) root (π ++ [i]) = Some (PTE_GET_ADDR (entry (ram s) t i))) as D.
  { rewrite descend_snoc, Ht. cbn [mbind option_bind]. by rewrite Hp. }
  pose proof (tree_frame _ _ T _ _ Hok D) as F'.
  unfold get_hhdm, gets, mret, M_ret. cbn [bind_result fst snd].
  by destruct (table_ptr _ _ F' Hh) as [-> _].
Qed.

Lemma walk_levels_find s vmm v root va : vm_inv s vmm v root →
  walk_levels (root + hhdm_offset s) va false s =
    Ok (match descend (ram s) root (path va) with
        | Some t => t + hhdm_offset s | None => 0 end, s).
Proof.
  intros I. pose proof (vm_hhdm _ _ _ _ I) as Hh. pose proof (vm_tree _ _ _ _ I) as T.
  assert (descend (ram s) root [] = Some root) as D4 by done.
  unfold walk_levels, mbind, M_bind.
  rewrite (walk_pte_find s vmm v root [] _ root I) by (done || solve_path).
  cbn [app bind_result fst snd path descend]. destruct (present _) eqn:P3; [|done].
  assert (descend (ram s) root [lvl_offset 39 va] = Some (PTE_GET_ADDR (entry (ram s) root
    (lvl_offset 39 va)))) as D3 by (cbn; by rewrite P3).
  set (t3 := PTE_GET_ADDR _) in *.
  destruct (table_ptr s t3) as [_ ->]; [eapply (tree_frame _ _ T); [|done]; solve_path|done|].
  rewrite (walk_pte_find s vmm v root [lvl_offset 39 va] _ t3 I) by (done || solve_path).
  cbn [bind_result fst snd]. rewrite descend_snoc, D3.
  cbn [mbind option_bind]. destruct (present (entry (ram s) t3 _)) eqn:P2; [|done].
  assert (descend (ram s) root ([lvl_offset 39 va] ++ [lvl_offset 30 va]) =
    Some (PTE_GET_ADDR (entry (ram s) t3 (lvl_offset 30 va)))) as D2.
  { rewrite descend_snoc, D3. cbn. by rewrite P2. }
  set (t2 := PTE_GET_ADDR (entry (ram s) t3 (lvl_offset 30 va))) in *.
  destruct (table_ptr s t2) as [_ ->]; [eapply (tree_frame _ _ T); [|done]; solve_path|done|].
  rewrite (walk_pte_find s vmm v root ([lvl_offset 39 va] ++ [lvl_offset 30 va]) _ t2 I)
    by (done || solve_path).
  by rewrite descend_snoc, D2.
Qed.

(** *** Writes that leave the shape of the tree alone *)

Section write.
Context (s : kstate) (vmm v root : Z) (I : vm_inv s vmm v root).

(** A write to owned bytes after which every path leads where it did. *)
Lemma write_grows W m' f P : frame_ok s f → same_outside P (ram s) m' →
  (∀ x, P x → in_range f PAGE_SIZE x ∧ ¬ in_range (v + 8) 8 x) →
  ((∀ x, P x → W x) ∨ ∃ π, path_ok π ∧ descend (ram s) root π = Some f) →
  (∀ π, path_ok π → descend m' root π = descend (ram s) root π) →
  grows W s (set_ram m' s) vmm v root.
Proof.
  intros F Hm HP HW Hd. destruct I as [Ha Hh Hptr Hv Hpml [TF TI] Hap].
  destruct (frame_write_ok s m' P Ha Hm) as (Ha' & Ht & Hpr).
  { intros x Hx. apply (fo_public _ _ F). by apply HP. }
  assert (∀ t, frame_ok s t → frame_ok (set_ram m' s) t) as Hf.
  { intros t. apply frame_ok_mono; [done| |done]. intros q. by rewrite Ht. }
  split; [split|..]; try done; [by apply Hf| |split|..].
  - etrans; [|exact Hpml]. apply (rd_same_outside 8 P); [done|]. intros x Hx Hp.
    destruct (HP x Hp) as [_ Hn]. apply Hn. unfold in_range. lia.
  - intros π t Hπ. cbn [ram set_ram]. rewrite Hd by done. intros. by eapply Hf, TF.
  - intros π1 π2 t H1 H2. cbn [ram set_ram]. rewrite !Hd by done. by apply TI.
  - intros π t Hπ. cbn [ram set_ram]. rewrite Hd by done. by apply Hap.
  - intros q Hq. by apply Ht.
  - intros π t Hπ. cbn [ram set_ram]. by rewrite Hd.
  - intros π t Hπ. cbn [ram set_ram]. rewrite Hd by done. by left.
  - intros q x Hq Hx _ HnW Hno. apply Hm. intros HPx. pose proof HPx as [Hp _]%HP.
    assert (f = q * PAGE_SIZE) as ->.
    { destruct (fo_frame _ _ F) as (p & -> & _). unfold page_bytes, in_range, PAGE_SIZE in *. lia. }
    destruct HW as [HW|(π & Hπ & Hπd)]; [by apply HnW, HW|]. by eapply Hno.
Qed.

(** The lock word of the structure. *)
Lemma write_lock l : let s' := set_ram (wr 4 (ram s) v l) s in
  grows (in_range v 4) s s' vmm v root ∧ rd 4 (ram s') v = u32 l ∧
  (∀ π, path_ok π → descend (ram s') root π = descend (ram s) root π) ∧
  ∀ va, mapping (ram s') root va = mapping (ram s) root va.
Proof.
  set (m' := wr 4 (ram s) v l). pose proof (vm_tree _ _ _ _ I) as T.
  assert (∀ π t i, path_ok π → 0 ≤ i < 512 → descend (ram s) root π = Some t →
    entry m' t i = entry (ram s) t i) as He.
  { intros π t i Hπ Hi Ht. pose proof (vm_apart _ _ _ _ I π t Hπ Ht) as Hne.
    apply entry_frame; [done|]. intros x Hx. apply (same_outside_wr 4). intros Hx'.
    apply (frames_apart s t v x); [by eapply (tree_frame _ _ T)|apply (vm_struct _ _ _ _ I)|done..|].
    unfold in_range, PAGE_SIZE in *. lia. }
  assert (∀ π, path_ok π → descend m' root π = descend (ram s) root π) as Hd.
  { intros π Hπ. apply (descend_update s root T m' [] root (-1)); [solve_path|done| |done|].
    - intros π' t i Hπ' Hi Ht _. by eapply He.
    - intros [σ ->]. destruct Hπ as [Hπ _]. inversion Hπ. lia. }
  split_and!.
  - apply (write_grows _ m' v (in_range v 4)); [apply (vm_struct _ _ _ _ I)| | | |done].
    + apply (same_outside_wr 4).
    + intros x Hx. unfold in_range, PAGE_SIZE in *. lia.
    + by left.
  - apply (rd_wr_same 4).
  - done.
  - intros va. unfold mapping. cbn [ram set_ram]. rewrite Hd by apply path_ok_va.
    destruct (descend (ram s) root (path va)) as [t|] eqn:Ht; [|done]. cbn [mbind option_bind].
    rewrite (He (path va)); [done|apply path_ok_va|by apply lvl_offset_range|done].
Qed.

(** A level-1 entry. *)
Lemma write_leaf va t e : descend (ram s) root (path va) = Some t →
  let s' := set_ram (wr 8 (ram s) (t + 8 * lvl_offset 12 va) e) s in
  grows (λ _, False) s s' vmm v root ∧
  ∀ va', mapping (ram s') root va' =
    if decide (vpage va' = vpage va) then (if present (u64 e) then Some (u64 e) else None)
    else mapping (ram s) root va'.
Proof.
  intros Ht. set (i0 := lvl_offset 12 va). set (m' := wr 8 (ram s) (t + 8 * i0) e).
  pose proof (vm_tree _ _ _ _ I) as T. pose proof (path_ok_va va) as Hπ0.
  pose proof (tree_frame _ _ T _ _ Hπ0 Ht) as F.
  assert (0 ≤ i0 < 512) as Hi0 by by apply lvl_offset_range.
  assert (∀ π u i, path_ok π → 0 ≤ i < 512 → descend (ram s) root π = Some u →
    ¬ (u = t ∧ i = i0) → entry m' u i = entry (ram s) u i) as He.
  { intros π u i Hπ Hi Hu Hne. apply (entry_wr_other s); try done. by eapply (tree_frame _ _ T). }
  assert (∀ π, path_ok π → descend m' root π = descend (ram s) root π) as Hd.
  { intros π Hπ. apply (descend_update s root T m' (path va) t i0); try done.
    intros Hp%prefix_length. rewrite length_app in Hp. simpl in Hp.
    destruct Hπ as [_ Hπ]. lia. }
  split.
  - apply (write_grows _ m' t (in_range (t + 8 * i0) 8)); [done| | | |done].
    + apply (same_outside_wr 8).
    + intros x Hx. split; [by eapply slot_range|]. intros Hx'.
      apply (frames_apart s t v x); [done|apply (vm_struct _ _ _ _ I)| |by eapply slot_range|].
      * by eapply (vm_apart _ _ _ _ I).
      * unfold in_range, PAGE_SIZE in *. lia.
    + right. eauto.
  - intros va'. unfold mapping. cbn [ram set_ram]. rewrite Hd by apply path_ok_va.
    case_decide as Hv.
    + apply vpage_eq in Hv as [-> ->]. rewrite Ht. cbn [mbind option_bind].
      fold i0. unfold m'. by rewrite entry_wr_same.
    + destruct (descend (ram s) root (path va')) as [u|] eqn:Hu; [|done].
      cbn [mbind option_bind].
      rewrite (He (path va')); [done|apply path_ok_va|by apply lvl_offset_range|done|].
      intros [-> Hoff]. apply Hv, vpage_eq. split; [|done].
      eapply (tree_inj _ _ T); [apply path_ok_va..|done|done].
Qed.

End write.

(** *** The operations on one page *)

Section operations.
Context (s : kstate) (vmm v root : Z) (I : vm_inv s vmm v root).

Lemma field_cell k : 0 ≤ k < PAGE_SIZE → cell (hhdm_offset s) (vmm + k) = v + k.
Proof.
  intros Hk. rewrite (vm_ptr _ _ _ _ I). apply frame_cell; [apply I|done].
Qed.

Lemma load_pml : load 8 s (vmm_pml_addr vmm) = root + hhdm_offset s.
Proof.
  unfold load, vmm_pml_addr. rewrite field_cell by (unfold PAGE_SIZE; lia).
  apply (vm_pml _ _ _ _ I).
Qed.

Lemma lock_cell : cell (hhdm_offset s) (vmm_lock_addr vmm) = v.
Proof.
  unfold vmm_lock_addr. rewrite <- (Z.add_0_r vmm), field_cell; [lia|]. unfold PAGE_SIZE; lia.
Qed.

Lemma vmm_lock_free : rd 4 (ram s) v = 0 →
  vmm_lock vmm s = Ok (tt, set_ram (wr 4 (ram s) v 1) s).
Proof.
  intros Hl. unfold vmm_lock, lock_word, zoom, load, store. rewrite lock_cell, Hl.
  by rewrite spinlock_acquire_free.
Qed.

Lemma vmm_unlock_ok : vmm_unlock vmm s = Ok (tt, set_ram (wr 4 (ram s) v 0) s).
Proof. unfold vmm_unlock, lock_word, zoom, store. cbn. by rewrite lock_cell. Qed.

End operations.

(** Running an operation's body between acquire and release. *)
Definition unlocked (s : kstate) (v : Z) : Prop := rd 4 (ram s) v = 0.

(** What only grows the tree leaves the structure alone. *)
Lemma grows_struct s s' vmm v root : vm_inv s vmm v root → grows (λ _, False) s s' vmm v root →
  ∀ x, in_range v PAGE_SIZE x → byte (ram s') x = byte (ram s) x.
Proof.
  intros I G x Hx. pose proof (vm_struct _ _ _ _ I) as F. pose proof (fo_public _ _ F x Hx) as Hp.
  destruct (fo_frame _ _ F) as (q & Hv & _ & Hq).
  apply (gr_keep _ _ _ _ _ _ G q); [done| |done|by intros []|].
  - by rewrite <- frame_bytes, <- Hv.
  - intros π Hπ Ht. rewrite <- Hv in Ht. by apply (vm_apart _ _ _ _ I π v).
Qed.

Lemma grows_unlocked s s' vmm v root : vm_inv s vmm v root →
  grows (λ _, False) s s' vmm v root → unlocked s v → unlocked s' v.
Proof.
  unfold unlocked. intros I G <-. apply rd_ext. intros x Hx.
  eapply grows_struct; [done..|]. unfold in_range, PAGE_SIZE. lia.
Qed.

Lemma bracket_ok s vmm v root (lock : bool) (c : M kstate bool)
    (Q : bool → (Z → option Z) → (Z → option Z) → Prop) :
  vm_inv s vmm v root → unlocked s v →
  (∀ s1, vm_inv s1 vmm v root → safe c s1 (λ b s2,
     grows (λ _, False) s1 s2 vmm v root ∧
     Q b (mapping (ram s1) root) (mapping (ram s2) root))) →
  (∀ b f f' g g', (∀ va, f va = g va) → (∀ va, f' va = g' va) → Q b f f' → Q b g g') →
  safe ((if lock then vmm_lock vmm else mret tt);; ok ← c;
        (if lock then vmm_unlock vmm else mret tt);; mret ok) s (λ b s',
    grows (in_range v 4) s s' vmm v root ∧ unlocked s' v ∧
    Q b (mapping (ram s) root) (mapping (ram s') root)).
Proof.
  intros I Hl Hc HQ. destruct lock.
  - destruct (write_lock s vmm v root I 1) as (G1 & _ & _ & M1).
    set (s1 := set_ram (wr 4 (ram s) v 1) s) in *. sstep. unfold safe at 1.
    rewrite (vmm_lock_free s vmm v root I Hl). fold s1. sstep.
    eapply safe_mono; [apply Hc, (gr_inv _ _ _ _ _ _ G1)|].
    intros b s2 (G2 & HQ2). pose proof (gr_inv _ _ _ _ _ _ G2) as I2.
    destruct (write_lock s2 vmm v root I2 0) as (G3 & L3 & _ & M3).
    sstep. unfold safe at 1. rewrite (vmm_unlock_ok s2 vmm v root I2). sstep.
    split_and!; [|exact L3|eapply HQ; [exact M1|intros va; symmetry; apply M3|done]].
    eapply grows_trans; [done|]. eapply grows_trans; [|done].
    by eapply grows_mono; [|done].
  - do 3 sstep. eapply safe_mono; [by apply Hc|]. intros b s2 (G2 & HQ2). repeat sstep.
    split_and!; [by eapply grows_mono; [|done]|by eapply (grows_unlocked s)|done].
Qed.

(** [leaf e]: what the MMU makes of a level-1 entry [e].  [remap f va r]: the
    translations [f], with [r] for the page of [va]. *)
Definition leaf (e : Z) : option Z := if present (u64 e) then Some (u64 e) else None.
Definition found (r : option Z) : bool := match r with Some _ => true | None => false end.
Definition remap (f : Z → option Z) (va : Z) (r : option Z) : Z → option Z :=
  λ va', if decide (vpage va' = vpage va) then r else f va'.

Lemma mapping_vpage m root va va' : vpage va = vpage va' → mapping m root va = mapping m root va'.
Proof. intros [Hp Ho]%vpage_eq. unfold mapping. by rewrite Hp, Ho. Qed.

Lemma mapping_at m root va t : descend m root (path va) = Some t →
  mapping m root va = leaf (entry m t (lvl_offset 12 va)).
Proof.
  intros Ht. unfold mapping, leaf. rewrite Ht. cbn [mbind option_bind].
  rewrite u64_small; [done|]. apply (rd_range 8).
Qed.

Lemma vmm_map_page_ok s vmm v root va ph fl : vm_inv s vmm v root → unlocked s v →
  safe (vmm_map_page vmm va ph fl) s (λ ok s',
    grows (in_range v 4) s s' vmm v root ∧ unlocked s' v ∧ ok = true ∧
    ∀ va', mapping (ram s') root va' =
      remap (mapping (ram s) root) va
        (match mapping (ram s) root va with Some e => Some e | None => leaf (Z.lor ph fl) end) va').
Proof.
  intros I Hl. apply (bracket_ok s vmm v root true _ (λ ok f f', ok = true ∧ ∀ va', f' va' =
      remap f va (match f va with Some e => Some e | None => leaf (Z.lor ph fl) end) va'));
    [done..| |].
  - clear s I Hl. intros s I. do 2 sstep. rewrite (load_pml s vmm v root I). sstep.
    eapply safe_mono; [by apply (walk_levels_ok s vmm v root)|].
    intros r s1 (t & -> & D & F & G & Hm). pose proof (gr_inv _ _ _ _ _ _ G) as I1.
    rewrite <- (grows_hhdm _ _ _ _ _ _ G).
    destruct (table_ptr s1 t F (vm_hhdm _ _ _ _ I1)) as [_ ->].
    cbv beta iota zeta. do 2 sstep.
    assert (0 ≤ lvl_offset 12 va < 512) as Hi by by apply lvl_offset_range.
    pose proof (vm_hhdm _ _ _ _ I1) as Hh. rewrite load_entry by done.
    pose proof (mapping_at _ _ _ _ D) as Hat. unfold leaf in Hat.
    rewrite u64_small in Hat by apply (rd_range 8). rewrite Hm in Hat.
    destruct (present _); repeat sstep.
    + split; [done|]. split; [done|]. intros va'. rewrite Hm, Hat. unfold remap.
      case_decide as Hv; [|done]. by rewrite (mapping_vpage _ _ _ va).
    + rewrite store_entry by done.
      destruct (write_leaf s1 vmm v root I1 va t (Z.lor ph fl) D) as [G' Hm'].
      split; [by eapply grows_trans|]. split; [done|]. intros va'. rewrite Hm', Hat, Hm. done.
  - intros b f f' g g' Hf Hf' [-> HQ]. split; [done|]. intros va'.
    rewrite <- Hf', HQ, <- (Hf va). unfold remap. case_decide; [done|apply Hf].
Qed.

Lemma vmm_unmap_page_ok s vmm v root va lock : vm_inv s vmm v root → unlocked s v →
  safe (vmm_unmap_page vmm va lock) s (λ ok s',
    grows (in_range v 4) s s' vmm v root ∧ unlocked s' v ∧
    ok = found (mapping (ram s) root va) ∧
    ∀ va', mapping (ram s') root va' = remap (mapping (ram s) root) va None va').
Proof.
  intros I Hl. apply (bracket_ok s vmm v root lock _ (λ ok f f',
      ok = found (f va) ∧ ∀ va', f' va' = remap f va None va')); [done..| |].
  - clear s I Hl. intros s I. do 2 sstep. rewrite (load_pml s vmm v root I). sstep.
    unfold safe at 1. rewrite (walk_levels_find s vmm v root va I).
    pose proof (vm_hhdm _ _ _ _ I) as Hh. pose proof (path_ok_va va) as Hπ.
    destruct (descend (ram s) root (path va)) as [t|] eqn:D.
    + pose proof (tree_frame _ _ (vm_tree _ _ _ _ I) _ _ Hπ D) as F.
      destruct (table_ptr s t F Hh) as [_ ->]. cbv beta iota zeta. do 2 sstep.
      assert (0 ≤ lvl_offset 12 va < 512) as Hi by by apply lvl_offset_range.
      rewrite load_entry by done. pose proof (mapping_at _ _ _ _ D) as Hat. unfold leaf in Hat.
      rewrite u64_small in Hat by apply (rd_range 8).
      destruct (present _); cbn [negb]; repeat sstep; rewrite Hat.
      * rewrite store_entry by done.
        by destruct (write_leaf s vmm v root I va t 0 D).
      * split; [by apply grows_refl|]. split; [done|]. intros va'. unfold remap.
        case_decide as Hv; [|done]. by rewrite (mapping_vpage _ _ _ _ Hv).
    + assert (mapping (ram s) root va = None) as Hn by (unfold mapping; by rewrite D).
      rewrite Z.eqb_refl. repeat sstep. split; [by apply grows_refl|]. rewrite Hn.
      split; [done|]. intros va'. unfold remap.
      case_decide as Hv; [|done]. by rewrite (mapping_vpage _ _ _ _ Hv).
  - intros b f f' g g' Hf Hf' [-> HQ]. rewrite Hf. split; [done|]. intros va'.
    rewrite <- Hf', HQ. unfold remap. case_decide; [done|apply Hf].
Qed.

Lemma vmm_change_flag_ok s vmm v root va fl lock : vm_inv s vmm v root → unlocked s v →
  safe (vmm_change_flag vmm va fl lock) s (λ ok s',
    grows (in_range v 4) s s' vmm v root ∧ unlocked s' v ∧
    ok = found (mapping (ram s) root va) ∧
    ∀ va', mapping (ram s') root va' =
      remap (mapping (ram s) root) va
        (e ← mapping (ram s) root va; leaf (Z.lor (PTE_GET_ADDR e) fl)) va').
Proof.
  intros I Hl. apply (bracket_ok s vmm v root lock _ (λ ok f f',
      ok = found (f va) ∧ ∀ va', f' va' =
        remap f va (e ← f va; leaf (Z.lor (PTE_GET_ADDR e) fl)) va')); [done..| |].
  - clear s I Hl. intros s I. do 2 sstep. rewrite (load_pml s vmm v root I). sstep.
    eapply safe_mono; [by apply (walk_levels_ok s vmm v root)|].
    intros r s1 (t & -> & D & F & G & Hm). pose proof (gr_inv _ _ _ _ _ _ G) as I1.
    rewrite <- (grows_hhdm _ _ _ _ _ _ G).
    destruct (table_ptr s1 t F (vm_hhdm _ _ _ _ I1)) as [_ ->].
    cbv beta iota zeta. do 2 sstep.
    assert (0 ≤ lvl_offset 12 va < 512) as Hi by by apply lvl_offset_range.
    pose proof (vm_hhdm _ _ _ _ I1) as Hh. rewrite load_entry by done.
    pose proof (mapping_at _ _ _ _ D) as Hat. unfold leaf in Hat.
    rewrite u64_small in Hat by apply (rd_range 8). rewrite Hm in Hat.
    destruct (present _); cbn [negb]; repeat sstep; rewrite Hat.
    + rewrite store_entry by done.
      destruct (write_leaf s1 vmm v root I1 va t
        (Z.lor (PTE_GET_ADDR (entry (ram s1) t (lvl_offset 12 va))) fl) D) as [G' Hm'].
      split; [by eapply grows_trans|]. split; [done|]. intros va'. rewrite Hm', Hm. done.
    + split; [done|]. split; [done|]. intros va'. rewrite Hm. unfold remap.
      case_decide as Hv; [|done]. by rewrite (mapping_vpage _ _ _ _ Hv).
  - intros b f f' g g' Hf Hf' [-> HQ]. rewrite Hf. split; [done|]. intros va'.
    rewrite <- Hf', HQ, <- (Hf va). unfold remap. case_decide; [done|apply Hf].
Qed.

(** The entry slot of an address, and the frame it names. *)
Lemma vmm_virt2pte_ok s vmm v root va alloc : vm_inv s vmm v root →
  safe (vmm_virt2pte vmm va alloc) s (λ r s',
    grows (λ _, False) s s' vmm v root ∧
    (∀ va', mapping (ram s') root va' = mapping (ram s) root va') ∧
    ∃ t, descend (ram s') root (path va) = Some t ∧ frame_ok s' t ∧ r ≠ 0 ∧
      r = u64 (t + hhdm_offset s' + 8 * lvl_offset 12 va)).
Proof.
  intros I. unfold vmm_virt2pte. do 2 sstep. rewrite (load_pml s vmm v root I). sstep.
  eapply safe_mono; [by apply (walk_levels_ok s vmm v root)|].
  intros r s1 (t & -> & D & F & G & Hm). pose proof (gr_inv _ _ _ _ _ _ G) as I1.
  rewrite <- (grows_hhdm _ _ _ _ _ _ G). pose proof (vm_hhdm _ _ _ _ I1) as Hh.
  destruct (table_ptr s1 t F Hh) as [_ ->]. sstep.
  split; [done|]. split; [done|]. exists t. split_and!; try done.
  pose proof (lvl_offset_range 12 va). destruct F as [(p & -> & Hp & _) _ Hb _].
  unfold PAGE_SIZE in *. rewrite u64_small; lia.
Qed.

Lemma vmm_virt2phys_ok s vmm v root va alloc : vm_inv s vmm v root →
  safe (vmm_virt2phys vmm va alloc) s (λ r s',
    grows (λ _, False) s s' vmm v root ∧
    (∀ va', mapping (ram s') root va' = mapping (ram s) root va') ∧
    ∀ e, mapping (ram s) root va = Some e → r = PTE_GET_ADDR e).
Proof.
  intros I. unfold vmm_virt2phys. sstep. eapply safe_mono; [by eapply vmm_virt2pte_ok|].
  intros r s1 (G & Hm & t & D & F & Hr & ->). apply Z.eqb_neq in Hr. rewrite Hr.
  repeat sstep. split; [done|]. split; [done|]. intros e He. rewrite <- Hm in He.
  rewrite load_entry; [|done|apply (vm_hhdm _ _ _ _ (gr_inv _ _ _ _ _ _ G))|by apply lvl_offset_range].
  unfold mapping in He. rewrite D in He. cbn [mbind option_bind] in He. by case_match; simplify_eq.
Qed.

(** *** A new address space *)

(** A table without entries has no path but the empty one. *)
Lemma descend_empty m root π t : (∀ i, 0 ≤ i < 512 → entry m root i = 0) →
  path_ok π → descend m root π = Some t → π = [] ∧ t = root.
Proof.
  intros Hz [Hf _]. destruct π as [|i π]; simpl; [by intros [= ->]|].
  inversion Hf. by rewrite Hz.
Qed.

Lemma mapping_empty m root va : (∀ i, 0 ≤ i < 512 → entry m root i = 0) → mapping m root va = None.
Proof.
  intros Hz. unfold mapping, path. cbn [descend]. rewrite Hz; [done|by apply lvl_offset_range].
Qed.

(** A table of zeros is an address space in which nothing is mapped. *)
Lemma empty_space s vmm v root : fr_inv s → 0 ≤ hhdm_offset s → vmm = v + hhdm_offset s →
  frame_ok s v → frame_ok s root → v ≠ root → rd 8 (ram s) (v + 8) = root + hhdm_offset s →
  (∀ i, 0 ≤ i < 512 → entry (ram s) root i = 0) →
  vm_inv s vmm v root ∧ ∀ va, mapping (ram s) root va = None.
Proof.
  intros HI Hh Hptr Fv Fr Hne Hpml Hempty. split; [split; try done|intros va; by apply mapping_empty].
  - split.
    + intros π t Hπ Ht. by destruct (descend_empty _ _ _ _ Hempty Hπ Ht) as [_ ->].
    + intros π1 π2 t H1 H2 D1 D2. destruct (descend_empty _ _ _ _ Hempty H1 D1) as [-> _].
      by destruct (descend_empty _ _ _ _ Hempty H2 D2) as [-> _].
  - intros π t Hπ Ht. by destruct (descend_empty _ _ _ _ Hempty Hπ Ht) as [_ ->].
Qed.

Lemma vmm_fields_ok s vmm v : fr_inv s → frame_ok s v → 0 ≤ hhdm_offset s →
  vmm = v + hhdm_offset s →
  safe (vmm_fields vmm) s (λ _ s', ∃ root, vm_inv s' vmm v root ∧ unlocked s' v ∧
    same_globals s s' ∧ (∀ va, mapping (ram s') root va = None) ∧ rd 8 (ram s') (v + 16) = 0).
Proof.
  intros HI F Hh Hptr. pose proof F as [(p0 & Hv & Hp0 & Hq0) Hv52 _ Hpub].
  assert (∀ k, 0 ≤ k < PAGE_SIZE → cell (hhdm_offset s) (vmm + k) = v + k) as Hc.
  { intros k Hk. rewrite Hptr. by apply frame_cell. }
  assert (cell (hhdm_offset s) vmm = v) as Hc0.
  { rewrite <- (Z.add_0_r vmm), Hc; [lia|]. unfold PAGE_SIZE; lia. }
  unfold vmm_fields, vmm_arena_addr, vmm_lock_addr, vmm_pml_addr, store, load, get_hhdm.
  do 4 sstep. cbn [hhdm_offset ram set_ram]. rewrite Hc, Hc0 by (unfold PAGE_SIZE; lia).
  set (m1 := wr 4 _ _ _). set (s1 := set_ram m1 (set_ram _ s)). change s1 with (set_ram m1 s) in *. clear s1.
  assert (same_outside (in_range v PAGE_SIZE) (ram s) m1) as Hm1.
  { eapply same_outside_trans; eapply same_outside_mono; [|apply (same_outside_wr 8)|
      |apply (same_outside_wr 4)]; unfold in_range, PAGE_SIZE; lia. }
  destruct (frame_write_ok s m1 _ HI Hm1 Hpub) as (HI1 & Ht1 & _).
  pose proof (written_frame_ok s m1 _ v HI Hm1 Hpub F) as F1.
  sstep. eapply safe_mono; [by apply (frame_alloc_ok _ 1 HI1)|].
  intros r s2 (p & -> & N). pose proof (new_globals _ _ _ _ N) as HG.
  assert (hhdm_offset s2 = hhdm_offset s) as Hh2 by apply HG.
  pose proof (old_frame_ok _ _ _ _ _ N F1) as F2. pose proof (new_frame_ok _ _ _ N) as Fr.
  repeat sstep. cbn [hhdm_offset ram set_ram]. rewrite Hh2, Hc by (unfold PAGE_SIZE; lia).
  rewrite rd_wr_same. pose proof N as [Hlow Ha [_ Hhp] _ HI2 Hfresh _ _ _ _ Hz]. unfold PAGE_SIZE in Ha, Hhp, Hv52.
  change (256 ^ Z.of_nat 8) with (2 ^ 64). rewrite Z.mod_small by (unfold PAGE_SIZE; lia).
  cbn [hhdm_offset set_ram] in Hhp. rewrite u64_small by (unfold PAGE_SIZE; lia).
  set (m3 := wr 8 _ (v + 8) (_ + _)). set (root := p * PAGE_SIZE) in *.
  change (set_ram m3 (set_ram _ s2)) with (set_ram m3 s2).
  assert (v ≠ root) as Hne.
  { unfold root. rewrite Hv. intros Heq. apply (Hfresh p); [lia|]. rewrite Ht1.
    by assert (p0 = p) as <- by (unfold PAGE_SIZE in Heq; lia). }
  assert (same_outside (in_range (v + 8) 8) (ram s2) m3) as Hm3.
  { eapply same_outside_trans; apply (same_outside_wr 8). }
  assert (∀ x, in_range (v + 8) 8 x → ¬ fr_private s2 x) as Hpub2.
  { intros x Hx. apply (fo_public _ _ F2). unfold in_range, PAGE_SIZE in *. lia. }
  destruct (frame_write_ok s2 m3 _ HI2 Hm3 Hpub2) as (HI3 & _ & _).
  destruct (empty_space (set_ram m3 s2) vmm v root) as [I Hnone]; try done.
  1, 2: cbn [hhdm_offset set_ram]; rewrite Hh2; done.
  1, 2: by eapply written_frame_ok.
  { cbn [hhdm_offset ram set_ram]. unfold m3. rewrite rd_wr_same.
    change (256 ^ Z.of_nat 8) with (2 ^ 64). rewrite Hh2. apply Z.mod_small. unfold root, PAGE_SIZE. lia. }
  { intros i Hi. cbn [ram set_ram]. unfold entry. rewrite (rd_ext 8 _ ∅); [done|]. intros x Hx.
    rewrite Hm3, Hz; [done| |]; unfold page_bytes, in_range, root, PAGE_SIZE in *; lia. }
  assert (∀ k a, v ≤ a → a + Z.of_nat k ≤ v + 8 ∨ v + 16 ≤ a ∧ a + Z.of_nat k ≤ v + PAGE_SIZE →
    rd k m3 a = rd k m1 a) as Hsame.
  { intros k a Ha0 Ha1. apply rd_ext. intros x Hx.
    rewrite Hm3, (owned_bytes _ _ _ _ v x N F1); unfold in_range, PAGE_SIZE in *; done || lia. }
  exists root. split_and!; [done| |done|done|].
  - unfold unlocked. cbn [ram set_ram]. rewrite Hsame by (unfold PAGE_SIZE; lia). unfold m1. by rewrite rd_wr_same.
  - cbn [ram set_ram]. rewrite Hsame by (unfold PAGE_SIZE; lia). unfold m1. rewrite rd_wr_other by lia.
    by rewrite rd_wr_same.
Qed.

(** [vmm_destroy] on tables without entries gives back the root table alone. *)
Lemma for_each_nothing {S A} (l : list A) (body : A → M S unit) (s : S) :
  Forall (λ x, body x s = Ok (tt, s)) l → for_each l body s = Ok (tt, s).
Proof.
  induction 1 as [|x l Hx _ IH]; [done|]. cbn [for_each]. unfold mbind, M_bind. rewrite Hx. exact IH.
Qed.

Lemma destroy_lvl_empty s lvl n k : lvl ≠ 0 →
  (∀ i, 0 ≤ i < 512 → present (load 8 s (u64 (lvl + 8 * i))) = false) →
  destroy_lvl (S n) lvl k s = frame_free (u64 (lvl - hhdm_offset s)) 1 s.
Proof.
  intros Hne H. cbn [destroy_lvl]. rewrite (proj2 (Z.eqb_neq lvl 0) Hne). unfold mbind at 1, M_bind at 1.
  rewrite for_each_nothing; [done|]. apply list.Forall_forall. intros i Hi%elem_of_seqZ.
  unfold mbind, M_bind, gets. cbn [bind_result fst snd]. by rewrite H by lia.
Qed.

(** *** Sequences of requests

    [vmm_init] is one long sequence of [vmm_map_page] calls.  What a sequence of
    requests amounts to: the first one that makes a page present wins. *)

Fixpoint translate (rs : list (Z * Z * Z)) (va : Z) : option Z :=
  match rs with
  | [] => None
  | (virt, physical, flags) :: rs' =>
      if decide (vpage va = vpage virt) then
        match leaf (Z.lor physical flags) with
        | Some e => Some e
        | None => translate rs' va
        end
      else translate rs' va
  end.

Lemma translate_snoc rs virt physical flags va :
  translate (rs ++ [(virt, physical, flags)]) va =
    remap (translate rs) virt
      (match translate rs virt with Some e => Some e | None => leaf (Z.lor physical flags) end) va.
Proof.
  induction rs as [|[[a p] f] rs IH]; cbn [translate app].
  - unfold remap. case_decide; [|done]. by destruct (leaf _).
  - rewrite IH. unfold remap. destruct (decide (vpage va = vpage virt)) as [E|E]; [|done].
    rewrite E. case_decide; [|done]. by destruct (leaf (Z.lor p f)).
Qed.

Definition section_requests (img : kernel_image) (first last flags : Z) : list (Z * Z * Z) :=
  (λ k, let i := ALIGN_DOWN first PAGE_SIZE + k * PAGE_SIZE in
        (i, u64 (i - virtual_base img + physical_base img), flags))
    <$> seqZ 0 ((ALIGN_UP last PAGE_SIZE - ALIGN_DOWN first PAGE_SIZE) / PAGE_SIZE).

Definition low_requests (hhdm n : Z) : list (Z * Z * Z) :=
  k ← seqZ 0 n;
  let i := 4096 + k * PAGE_SIZE in
  [(i, i, Z.lor PTE_PRESENT PTE_WRITABLE);
   (u64 (i + hhdm), i, Z.lor (Z.lor PTE_PRESENT PTE_WRITABLE) PTE_NO_EXECUTE)].

Definition init_requests (img : kernel_image) (hhdm : Z) : list (Z * Z * Z) :=
  section_requests img (text_start_addr img) (text_end_addr img) PTE_PRESENT ++
  section_requests img (rodata_start_addr img) (rodata_end_addr img)
    (Z.lor PTE_PRESENT PTE_NO_EXECUTE) ++
  section_requests img (data_start_addr img) (data_end_addr img)
    (Z.lor (Z.lor PTE_PRESENT PTE_WRITABLE) PTE_NO_EXECUTE) ++
  low_requests hhdm 1048575.

(** The kernel's address space holds exactly the translations [rs] asks for. *)
Record space (s0 s : kstate) (v root : Z) (rs : list (Z * Z * Z)) : Prop := {
  sp_inv : vm_inv s (vmm_kernel s) v root;
  sp_unlocked : unlocked s v;
  sp_hhdm : hhdm_offset s = hhdm_offset s0;
  sp_maps : ∀ va, mapping (ram s) root va = translate rs va;
  sp_list : rd 8 (ram s) (v + 16) = 0;          (* no arenas yet *)
}.

(** Growing tables leaves the arena list of the structure alone. *)
Lemma grows_list W s s' vmm v root : vm_inv s vmm v root → grows W s s' vmm v root →
  (∀ x, W x → in_range v 4 x) → rd 8 (ram s') (v + 16) = rd 8 (ram s) (v + 16).
Proof.
  intros I G HW. apply rd_ext. intros x Hx. pose proof (vm_struct _ _ _ _ I) as F.
  assert (in_range v PAGE_SIZE x) as Hv by (unfold in_range, PAGE_SIZE; lia).
  pose proof (fo_public _ _ F x Hv) as Hp. destruct (fo_frame _ _ F) as (p & Hvp & _ & Hq).
  apply (gr_keep _ _ _ _ _ _ G p); [done|unfold page_bytes, in_range, PAGE_SIZE in *; lia|done| |].
  - intros Hx'%HW. unfold in_range in Hx'. lia.
  - intros π Hπ E. rewrite <- Hvp in E. by apply (vm_apart _ _ _ _ I π v).
Qed.

Lemma space_map s0 s v root rs virt physical flags : space s0 s v root rs →
  safe (vmm_map_page (vmm_kernel s) virt physical flags) s (λ ok s',
    ok = true ∧ vmm_kernel s' = vmm_kernel s ∧
    space s0 s' v root (rs ++ [(virt, physical, flags)])).
Proof.
  intros [I Hl Hh Hm Ha]. eapply safe_mono; [by apply vmm_map_page_ok|].
  intros ok s' (G & Hl' & -> & Hm'). pose proof (gr_globals _ _ _ _ _ _ G) as (Eh & _ & _ & Ek & _).
  split_and!; [done..|]. split; [|done|congruence| |].
  - rewrite Ek. apply (gr_inv _ _ _ _ _ _ G).
  - intros va. rewrite Hm', translate_snoc. unfold remap. by rewrite !Hm.
  - by rewrite (grows_list _ s s' _ v root I G).
Qed.

Lemma seqZ_snoc n : 0 ≤ n → seqZ 0 (n + 1) = seqZ 0 n ++ [n].
Proof. intros. by rewrite seqZ_app by lia. Qed.

Lemma ALIGN_DOWN_mul x : 0 ≤ x < 2 ^ 64 → ALIGN_DOWN x PAGE_SIZE = x / PAGE_SIZE * PAGE_SIZE.
Proof. intros. unfold ALIGN_DOWN, PAGE_SIZE. apply u64_small. zify_div. Qed.

Lemma map_section_ok img first last flags msg s0 s v root rs :
  0 ≤ first < 2 ^ 64 → 0 ≤ last → last + PAGE_SIZE ≤ 2 ^ 64 → space s0 s v root rs →
  safe (map_section img first last flags msg) s (λ _ s',
    vmm_kernel s' = vmm_kernel s ∧
    space s0 s' v root (rs ++ section_requests img first last flags)).
Proof.
  intros Hf Hl0 Hl Sp. destruct (ALIGN_UP_bounds last Hl0 Hl) as (b & Hb & Hlast).
  pose proof (ALIGN_DOWN_mul first Hf) as Ha. set (a := first / PAGE_SIZE) in *.
  assert (0 ≤ a * PAGE_SIZE < 2 ^ 64) as Ha0 by (unfold a, PAGE_SIZE; zify_div).
  unfold map_section, section_requests. rewrite Ha, Hb.
  set (req k := (a * PAGE_SIZE + k * PAGE_SIZE, u64 (a * PAGE_SIZE + k * PAGE_SIZE -
    virtual_base img + physical_base img), flags)).
  change (λ k, let i := a * PAGE_SIZE + k * PAGE_SIZE in _) with req.
  eapply (safe_loop _ (λ i t, ∃ k, 0 ≤ k ∧ i = a * PAGE_SIZE + k * PAGE_SIZE ∧
    (k = 0 ∨ a + k ≤ b) ∧ vmm_kernel t = vmm_kernel s ∧
    space s0 t v root (rs ++ (req <$> seqZ 0 k))) (λ i _, Z.max 0 (b * PAGE_SIZE - i))).
  - intros i t (k & Hk & -> & Hkb & Hker & Spt). unfold map_section_round. case_if; cycle 1.
    + sstep. split; [done|].
      replace ((b * PAGE_SIZE - a * PAGE_SIZE) / PAGE_SIZE) with (b - a) by (unfold PAGE_SIZE; zify_div).
      assert (k = b - a ∨ k = 0 ∧ b - a ≤ 0) as [->|[-> Hneg]] by (unfold PAGE_SIZE in *; lia); [done|].
      by rewrite (seqZ_nil 0 (b - a)).
    + cbv zeta. do 3 sstep. eapply safe_mono; [by apply (space_map s0)|].
      intros ok t' (-> & Hk' & Sp'). cbn [negb]. sstep. rewrite u64_small by (unfold PAGE_SIZE in *; lia).
      split; [|unfold PAGE_SIZE in *; lia]. exists (k + 1). unfold PAGE_SIZE in *.
      split_and!; [lia..|congruence|].
      rewrite seqZ_snoc, fmap_app, app_assoc by done. exact Sp'.
  - exists 0. split_and!; [done|lia|by left|done|]. by rewrite app_nil_r.
  - unfold PAGE_SIZE in *. lia.
Qed.

Lemma low_requests_snoc h n : 0 ≤ n → low_requests h (n + 1) = low_requests h n ++
  [(4096 + n * PAGE_SIZE, 4096 + n * PAGE_SIZE, Z.lor PTE_PRESENT PTE_WRITABLE);
   (u64 (4096 + n * PAGE_SIZE + h), 4096 + n * PAGE_SIZE,
     Z.lor (Z.lor PTE_PRESENT PTE_WRITABLE) PTE_NO_EXECUTE)].
Proof.
  intros. unfold low_requests. rewrite seqZ_snoc, bind_app by done. f_equal.
Qed.

Lemma map_low_ok s0 s v root rs : space s0 s v root rs →
  safe (loop map_low_round 4096) s (λ _ s', vmm_kernel s' = vmm_kernel s ∧
    space s0 s' v root (rs ++ low_requests (hhdm_offset s0) 1048575)).
Proof.
  intros Sp. eapply (safe_loop _ (λ i t, ∃ k, 0 ≤ k ≤ 1048575 ∧ i = 4096 + k * PAGE_SIZE ∧
    vmm_kernel t = vmm_kernel s ∧ space s0 t v root (rs ++ low_requests (hhdm_offset s0) k))
    (λ i _, 4294967296 - i)).
  - intros i t (k & Hk & -> & Hker & Spt). unfold map_low_round. case_if; cycle 1.
    + sstep. split; [done|]. by assert (k = 1048575) as <- by (unfold PAGE_SIZE in *; lia).
    + do 3 sstep. eapply safe_mono; [by apply (space_map s0)|].
      intros ok t1 (-> & Hk1 & Sp1). cbn [negb]. unfold get_hhdm. do 3 sstep.
      rewrite <- Hk1. eapply safe_mono; [by apply (space_map s0)|].
      intros ok t2 (-> & Hk2 & Sp2). cbn [negb]. sstep.
      rewrite u64_small by (unfold PAGE_SIZE in *; lia).
      split; [|unfold PAGE_SIZE in *; lia]. exists (k + 1). unfold PAGE_SIZE in *.
      split_and!; [lia..|congruence|].
      rewrite low_requests_snoc, app_assoc by lia.
      rewrite (sp_hhdm _ _ _ _ _ Sp1) in Sp2. rewrite <- !app_assoc in *. exact Sp2.
  - exists 0. split_and!; [lia..|done|]. by rewrite app_nil_r.
  - lia.
Qed.

(** *** [vmm_init] *)

(** Globals of other components do not matter to an address space. *)
Lemma globals_inv s k c : fr_inv s →
  let s' := set_vmm_kernel k (set_cr3 c s) in
  fr_inv s' ∧ (∀ t, frame_ok s t → frame_ok s' t) ∧
  ∀ vmm v root, vm_inv s vmm v root → vm_inv s' vmm v root.
Proof.
  intros HI s'. destruct (frame_globals_ok s k c HI) as (HI' & Ht & Hp). fold s' in HI', Ht, Hp.
  assert (∀ t, frame_ok s t → frame_ok s' t) as HF.
  { intros t [(q & -> & Hq & Htk) ? ? Hpub]. split; try done.
    - exists q. split_and!; [done..|]. by apply Ht.
    - intros x Hx. rewrite Hp. by apply Hpub. }
  split_and!; [done..|]. intros vmm v root [_ ? ? ? ? [TF TI] ?].
  split; try done; [by apply HF|]. split; [|done]. intros π t Hπ Hd. eapply HF, TF; done.
Qed.

Lemma set_vmm_kernel_eta k s : set_vmm_kernel k s = set_vmm_kernel k (set_cr3 (cr3 s) s).
Proof. done. Qed.
Lemma set_cr3_eta c s : set_cr3 c s = set_vmm_kernel (vmm_kernel s) (set_cr3 c s).
Proof. done. Qed.

Lemma new_space s : fr_inv s →
  safe vmm_init_struct s (λ k s', k = vmm_kernel s' ∧ ∃ v root, space s s' v root []).
Proof.
  intros HI. unfold vmm_init_struct. sstep. eapply safe_mono; [by apply (frame_alloc_ok s 1 HI)|].
  intros r s1 (p & -> & N). unfold get_hhdm. do 9 sstep. cbn [hhdm_offset vmm_kernel set_vmm_kernel].
  pose proof N as [Hlow Ha [Hh Hhp] (Eh & _) HI1 _ Htk Hpr Hap _ _].
  rewrite Eh. unfold PAGE_SIZE in Ha, Hhp. rewrite u64_small by (unfold PAGE_SIZE; lia).
  set (k := p * PAGE_SIZE + hhdm_offset s).
  change (set_vmm_kernel k (set_vmm_kernel _ s1)) with (set_vmm_kernel k (set_cr3 (cr3 s1) s1)).
  destruct (globals_inv s1 k (cr3 s1) HI1) as (HI2 & HF & _).
  eapply safe_mono; [apply (vmm_fields_ok _ k (p * PAGE_SIZE)); [done| |cbn; lia|cbn; by rewrite Eh]|].
  - by apply HF, (new_frame_ok s).
  - intros u s2 (root & I & Hl & (Eh2 & _ & _ & Ek & _) & Hm & Ha0).
    cbn in Ek, Eh2. sstep. split; [done|]. exists (p * PAGE_SIZE), root.
    split; [by rewrite Ek|done|congruence|done|done].
Qed.

(** A level-3 table under every entry of the higher half. *)
Lemma upper_tables s0 s v root : space s0 s v root [] →
  safe (for_each (seqZ 256 256) (λ i,
    pml ← gets (λ t, load 8 t (vmm_pml_addr (vmm_kernel s)));
    lvl3 ← walk_pte pml i true;
    if lvl3 =? 0 then panic "Failed to allocate kernel page table" else mret tt)) s
    (λ _ s', vmm_kernel s' = vmm_kernel s ∧ space s0 s' v root [] ∧
      Forall (λ i, present (entry (ram s') root i) = true) (seqZ 256 256)).
Proof.
  intros Sp. apply (safe_for_each _ _ (λ l t, vmm_kernel t = vmm_kernel s ∧ space s0 t v root [] ∧
    Forall (λ i, present (entry (ram t) root i) = true) l)); [|by split_and!].
  intros l i rest t Hseq (Hk & [I Hl Hh Hm Ha] & Hall). do 2 sstep. rewrite <- Hk.
  rewrite (load_pml t _ v root I). sstep.
  assert (∀ j, j ∈ l ++ [i] → 0 ≤ j < 512) as Hin.
  { intros j Hj. assert (j ∈ seqZ 256 256) as ?%elem_of_seqZ; [|lia].
    rewrite Hseq. apply elem_of_app in Hj as [Hj|Hj]; rewrite elem_of_app; [by left|right].
    apply list_elem_of_singleton in Hj as ->. by left. }
  assert (∀ j, 0 ≤ j < 512 → path_ok ([] ++ [j])) as Hok.
  { intros j Hj. split; [by repeat apply Forall_cons_2|simpl; lia]. }
  eapply safe_mono; [apply (walk_pte_ok t _ v root [] i root I); [|done]|].
  { apply Hok, Hin. rewrite elem_of_app. right. by left. }
  intros r t' (u & -> & D & F & G & Hm'). rewrite <- (grows_hhdm _ _ _ _ _ _ G).
  pose proof (gr_inv _ _ _ _ _ _ G) as I'.
  destruct (table_ptr t' u F (vm_hhdm _ _ _ _ I')) as [_ ->]. sstep.
  pose proof (gr_globals _ _ _ _ _ _ G) as (Eh & _ & _ & Ek & _).
  assert (∀ j, 0 ≤ j < 512 → present (entry (ram t) root j) = true →
    present (entry (ram t') root j) = true) as Hkeep.
  { intros j Hj Hp. assert (descend (ram t') root ([] ++ [j]) =
      Some (PTE_GET_ADDR (entry (ram t) root j))) as Dj.
    { apply (gr_desc _ _ _ _ _ _ G); [by apply Hok|]. cbn. by rewrite Hp. }
    cbn in Dj. by destruct (present (entry (ram t') root j)). }
  split_and!; [congruence|split|].
  - by rewrite Ek.
  - by eapply (grows_unlocked t).
  - congruence.
  - intros va. by rewrite Hm', Hm.
  - by rewrite (grows_list _ t t' _ v root I G).
  - apply Forall_app. split.
    + rewrite Forall_lookup in Hall |- *. intros k j Hj. apply Hkeep; [|by eapply Hall].
      apply Hin. rewrite elem_of_app. left. by eapply list_elem_of_lookup_2.
    + apply Forall_singleton. cbn in D. by destruct (present (entry (ram t') root i)).
Qed.

Record image_ok (img : kernel_image) : Prop := {
  img_text : 0 ≤ text_start_addr img < 2 ^ 64 ∧ 0 ≤ text_end_addr img ≤ 2 ^ 64 - PAGE_SIZE;
  img_rodata : 0 ≤ rodata_start_addr img < 2 ^ 64 ∧ 0 ≤ rodata_end_addr img ≤ 2 ^ 64 - PAGE_SIZE;
  img_data : 0 ≤ data_start_addr img < 2 ^ 64 ∧ 0 ≤ data_end_addr img ≤ 2 ^ 64 - PAGE_SIZE;
}.

Lemma vmm_init_ok img s : fr_inv s → image_ok img →
  safe (vmm_init img) s (λ _ s', ∃ v root,
    space s s' v root (init_requests img (hhdm_offset s)) ∧ cr3 s' = root).
Proof.
  intros HI [[T0 T1] [R0 R1] [D0 D1]]. unfold vmm_init. sstep.
  eapply safe_mono; [by apply new_space|]. intros k s1 (-> & v & root & Sp1). sstep.
  eapply safe_mono; [by apply (upper_tables s)|]. intros u2 s2 (E2 & Sp2 & _). sstep.
  eapply safe_mono; [apply (map_section_ok _ _ _ _ _ s); [..|exact Sp2]; lia|].
  intros u3 s3 (E3 & Sp3). sstep.
  eapply safe_mono; [apply (map_section_ok _ _ _ _ _ s); [..|exact Sp3]; lia|].
  intros u4 s4 (E4 & Sp4). sstep.
  eapply safe_mono; [apply (map_section_ok _ _ _ _ _ s); [..|exact Sp4]; lia|].
  intros u5 s5 (E5 & Sp5). sstep.
  eapply safe_mono; [apply (map_low_ok s); exact Sp5|]. intros u6 s6 (E6 & Sp6).
  replace (_ ++ low_requests _ _) with (init_requests img (hhdm_offset s)) in Sp6
    by (unfold init_requests; rewrite app_nil_l, <- !app_assoc; reflexivity).
  pose proof Sp6 as [I Hl Hh Hm Ha6].
  unfold vmm_switch_pml, get_hhdm. repeat sstep.
  assert (vmm_kernel s1 = vmm_kernel s6) as -> by congruence.
  rewrite (load_pml s6 _ v root I). exists v, root.
  pose proof (tree_frame _ _ (vm_tree _ _ _ _ I) [] root ltac:(solve_path) eq_refl) as
    [(p & Hp & Hp1 & _) Ha _ _].
  split; [|cbn; rewrite Z.add_simpl_r; apply u64_small; unfold PAGE_SIZE in *; lia].
  split; [|exact Hl|exact Hh|exact Hm|exact Ha6].
  rewrite (set_cr3_eta _ s6). apply globals_inv; [apply (vm_alloc _ _ _ _ I)|exact I].
Qed.

(** *** What clients of frames and tables need *)

(** Taking frames leaves an address space alone. *)
Lemma alloc_grows s s1 vmm v root p n : vm_inv s vmm v root → frames_new s s1 p n →
  grows (λ _, False) s s1 vmm v root ∧
  (∀ π, path_ok π → descend (ram s1) root π = descend (ram s) root π) ∧
  ∀ va, mapping (ram s1) root va = mapping (ram s) root va.
Proof.
  intros I N. pose proof I as [_ Hh Hptr Hv Hpml [TF TI] Hap].
  pose proof N as [_ _ _ HG HI1 Hfr Htk Hpr _ Hram _]. pose proof HG as (Eh & _).
  assert (∀ t i, frame_ok s t → 0 ≤ i < 512 → entry (ram s1) t i = entry (ram s) t i) as He.
  { intros t i F Hi. apply entry_frame; [done|]. intros x Hx. by eapply owned_bytes. }
  assert (∀ π, path_ok π → descend (ram s1) root π = descend (ram s) root π) as Hd.
  { intros π. induction π as [|i π IH] using rev_ind; intros Hπ; [done|].
    destruct (path_ok_snoc _ _ Hπ) as (Hπ' & Hi & _). rewrite !descend_snoc, IH by done.
    destruct (descend (ram s) root π) as [t|] eqn:Ht; [|done]. cbn.
    rewrite He; [done| |done]. by eapply TF. }
  assert (∀ t, frame_ok s t → frame_ok s1 t) as Hf.
  { intros t. apply frame_ok_mono; [done| |done]. intros q Hq. apply Htk. by left. }
  split; [split; [split|..]; try done|split; [done|]].
  - by rewrite Eh.
  - by rewrite Eh.
  - by apply Hf.
  - rewrite Eh, <- Hpml. apply rd_ext. intros x Hx. eapply owned_bytes; [done|exact Hv|].
    unfold in_range, PAGE_SIZE. lia.
  - split; intros *; intros; rewrite ?Hd in * by done; [eapply Hf, TF; done|by eapply TI].
  - intros π t Hπ. rewrite Hd by done. by apply Hap.
  - intros q Hq. apply Htk. by left.
  - intros π t Hπ. by rewrite Hd.
  - intros π t Hπ. rewrite Hd by done. by left.
  - intros q x Hq Hx Hnp _ _. apply Hram. intros [?|Hpg]; [done|].
    apply (Hfr q); [|done]. unfold page_bytes, in_range, PAGE_SIZE in *. lia.
  - intros va. unfold mapping. rewrite Hd by apply path_ok_va.
    destruct (descend (ram s) root (path va)) as [t|] eqn:Ht; [|done]. cbn [mbind option_bind].
    rewrite He; [done| |by apply lvl_offset_range]. eapply TF; [apply path_ok_va|done].
Qed.

(** An address space reads the same when nothing of its own is written. *)
Lemma outside_space s s1 vmm v root (P : Z → Prop) : vm_inv s vmm v root →
  same_globals s s1 → fr_inv s1 → same_outside P (ram s) (ram s1) →
  (∀ x, P x → ¬ in_range v PAGE_SIZE x ∧
     ∀ π t, path_ok π → descend (ram s) root π = Some t → ¬ in_range t PAGE_SIZE x) →
  (∀ t, frame_ok s t → (t = v ∨ ∃ π, path_ok π ∧ descend (ram s) root π = Some t) → frame_ok s1 t) →
  vm_inv s1 vmm v root ∧ (unlocked s v → unlocked s1 v) ∧
  (∀ π, path_ok π → descend (ram s1) root π = descend (ram s) root π) ∧
  ∀ va, mapping (ram s1) root va = mapping (ram s) root va.
Proof.
  intros [_ Hh Hptr Hv Hpml [TF TI] Hap] (Eh & _) HI1 Hm HP Hf.
  assert (∀ π t i, path_ok π → descend (ram s) root π = Some t → 0 ≤ i < 512 →
    entry (ram s1) t i = entry (ram s) t i) as He.
  { intros π t i Hπ Ht Hi. apply entry_frame; [done|]. intros x Hx. apply Hm. intros Hp.
    by eapply (proj2 (HP x Hp)). }
  assert (∀ π, path_ok π → descend (ram s1) root π = descend (ram s) root π) as Hd.
  { intros π. induction π as [|i π IH] using rev_ind; intros Hπ; [done|].
    destruct (path_ok_snoc _ _ Hπ) as (Hπ' & Hi & _). rewrite !descend_snoc, IH by done.
    destruct (descend (ram s) root π) as [t|] eqn:Ht; [|done]. cbn. by rewrite (He π). }
  assert (∀ k n, 0 ≤ k → k + Z.of_nat n ≤ PAGE_SIZE → rd n (ram s1) (v + k) = rd n (ram s) (v + k)) as Hr.
  { intros k n Hk Hn. apply (rd_same_outside n P); [done|]. intros x Hx Hp.
    apply (proj1 (HP x Hp)). unfold in_range. lia. }
  split_and!; [split; try done|..|done|].
  - by rewrite Eh.
  - by rewrite Eh.
  - apply Hf; [done|by left].
  - rewrite Eh, <- Hpml. apply Hr; unfold PAGE_SIZE; lia.
  - split; intros *; intros; rewrite ?Hd in * by done; [|by eapply TI].
    apply Hf; [by eapply TF|right; eauto].
  - intros π t Hπ. rewrite Hd by done. by apply Hap.
  - unfold unlocked. intros <-. rewrite <- (Z.add_0_r v). apply Hr; unfold PAGE_SIZE; lia.
  - intros va. unfold mapping. rewrite Hd by apply path_ok_va.
    destruct (descend (ram s) root (path va)) as [t|] eqn:Ht; [|done]. cbn [mbind option_bind].
    rewrite (He (path va)); [done|apply path_ok_va|done|by apply lvl_offset_range].
Qed.

(** Unmapping writes the lock word and one level-1 table, nothing else. *)
Section unmap_ram.
Context (s : kstate) (vmm v root va : Z) (I : vm_inv s vmm v root) (Hl : unlocked s v).

Definition unmap_bytes (x : Z) : Prop :=
  in_range v 4 x ∨ ∃ t, descend (ram s) root (path va) = Some t ∧ in_range t PAGE_SIZE x.

Lemma unmap_lock_bytes m l : same_outside unmap_bytes m (wr 4 m v l).
Proof. eapply same_outside_mono; [|apply (same_outside_wr 4)]. intros x Hx. by left. Qed.

Lemma unmap_enter (lock : bool) : ∃ m1,
  (if lock then vmm_lock vmm else mret tt) s = Ok (tt, set_ram m1 s) ∧
  vm_inv (set_ram m1 s) vmm v root ∧ same_outside unmap_bytes (ram s) m1 ∧
  descend m1 root (path va) = descend (ram s) root (path va).
Proof.
  destruct lock; [|exists (ram s); by destruct s].
  destruct (write_lock s vmm v root I 1) as (G & _ & Hd & _).
  eexists. split; [by eapply vmm_lock_free|]. split_and!; [apply (gr_inv _ _ _ _ _ _ G)| |].
  - apply unmap_lock_bytes.
  - apply Hd, path_ok_va.
Qed.

Lemma unmap_leave (lock : bool) s2 : hhdm_offset s2 = hhdm_offset s → ∃ m2,
  (if lock then vmm_unlock vmm else mret tt) s2 = Ok (tt, set_ram m2 s2) ∧
  same_outside unmap_bytes (ram s2) m2.
Proof.
  intros Hh2. destruct lock; [|exists (ram s2); by destruct s2].
  eexists. split; [unfold vmm_unlock, lock_word, zoom, store; cbn|apply unmap_lock_bytes].
  rewrite Hh2, (lock_cell s vmm v root I). done.
Qed.

Lemma vmm_unmap_page_ram lock : ∃ ok m,
  vmm_unmap_page vmm va lock s = Ok (ok, set_ram m s) ∧ same_outside unmap_bytes (ram s) m.
Proof.
  unfold vmm_unmap_page, mbind, M_bind. destruct (unmap_enter lock) as (m1 & -> & I1 & H1 & D1).
  cbn [bind_result fst snd]. unfold gets at 1. cbn [bind_result fst snd].
  rewrite (load_pml _ vmm v root I1), (walk_levels_find _ vmm v root va I1).
  cbn [bind_result fst snd ram set_ram]. rewrite D1.
  assert (∀ b m3, same_outside unmap_bytes m1 m3 → ∃ ok m,
    bind_result (Ok (b, set_ram m3 s)) (λ p,
      bind_result ((if lock then vmm_unlock vmm else mret tt) p.2) (λ q, (mret p.1 : M kstate bool) q.2)) =
      Ok (ok, set_ram m s) ∧ same_outside unmap_bytes (ram s) m) as Hend.
  { intros b m3 H3. cbn [bind_result fst snd].
    destruct (unmap_leave lock (set_ram m3 s) eq_refl) as (m2 & E2 & H2). rewrite E2.
    exists b, m2. split; [done|]. eapply same_outside_trans; [done|]. by eapply same_outside_trans. }
  destruct (_ =? 0) eqn:E0; [by apply (Hend false m1)|].
  destruct (descend (ram s) root (path va)) as [t|] eqn:D; [|done].
  assert (frame_ok (set_ram m1 s) t) as F.
  { by apply (tree_frame _ _ (vm_tree _ _ _ _ I1) (path va)); [apply path_ok_va|]. }
  cbv zeta. cbn [gets bind_result fst snd].
  destruct (present _); cbn [negb bind_result fst snd modify]; [|by apply (Hend false m1)].
  rewrite store_entry; [|done|apply (vm_hhdm _ _ _ _ I1)|by apply lvl_offset_range].
  apply (Hend true). eapply same_outside_mono; [|apply (same_outside_wr 8)].
  intros x Hx. right. exists t. split; [done|]. eapply slot_range; [|exact Hx].
  by apply lvl_offset_range.
Qed.

End unmap_ram.

End growth.
