(* ===== verification/VmmCorrect.v ===== *)
(** * Correctness of the virtual memory manager

    The theorems about [vmm.c], stated on what the MMU finds in the tables
    ([mapping]), for any frame allocator that keeps the laws of [Frames]; their
    instances use the bitmap allocator of [pmm.c]. *)

From S2P Require Import Prelude Machine Util Spinlock Pmm Frames PmmFrames Vmm.

(** ** Entries *)

Lemma leaf_present p f : 0 ≤ p < 2 ^ 64 → 0 ≤ f < 2 ^ 64 → present f = true →
  leaf (Z.lor p f) = Some (Z.lor p f).
Proof.
  intros Hp Hf Hpr. unfold leaf.
  assert (0 ≤ Z.lor p f < 2 ^ 64) as Hr.
  { split; [apply Z.lor_nonneg; lia|]. destruct (Z.eq_dec (Z.lor p f) 0) as [->|]; [done|].
    apply Z.log2_lt_pow2; [pose proof (proj2 (Z.lor_nonneg p f)); lia|].
    rewrite Z.log2_lor by lia.
    assert (∀ x, 0 ≤ x < 2 ^ 64 → Z.log2 x < 64) as Hlog.
    { intros x Hx. destruct (Z.eq_dec x 0) as [->|]; [done|]. apply Z.log2_lt_pow2; lia. }
    pose proof (Hlog p Hp). pose proof (Hlog f Hf). lia. }
  rewrite u64_small by exact Hr. rewrite present_bit in *. by rewrite Z.lor_spec, Hpr, orb_true_r.
Qed.

(** An entry made of a frame address and flags outside the address field. *)
Lemma PTE_GET_ADDR_lor p f : 0 ≤ p → p * PAGE_SIZE < 2 ^ 52 → Z.land f PTE_ADDR = 0 →
  PTE_GET_ADDR (Z.lor (p * PAGE_SIZE) f) = p * PAGE_SIZE.
Proof.
  intros Hp Hb Hf. unfold PTE_GET_ADDR. rewrite Z.land_lor_distr_l, Hf, Z.lor_0_r.
  change (Z.land (p * PAGE_SIZE) PTE_ADDR) with (PTE_GET_ADDR (p * PAGE_SIZE)).
  rewrite PTE_GET_ADDR_div. unfold PAGE_SIZE in *. rewrite Z.div_mul by done.
  rewrite Z.mod_small; lia.
Qed.

(** ** What a sequence of requests finds *)

Lemma translate_miss rs rs' va : Forall (λ r, vpage va ≠ vpage r.1.1) rs →
  translate (rs ++ rs') va = translate rs' va.
Proof.
  induction 1 as [|[[a p] f] rs Hne Hall IH]; cbn [translate app]; [done|].
  by rewrite decide_False.
Qed.

Lemma translate_hit rs rs' virt p f va : Forall (λ r, vpage va ≠ vpage r.1.1) rs →
  vpage va = vpage virt → 0 ≤ p < 2 ^ 64 → 0 ≤ f < 2 ^ 64 → present f = true →
  translate (rs ++ (virt, p, f) :: rs') va = Some (Z.lor p f).
Proof.
  intros Hm Hv Hp Hf Hpr. rewrite translate_miss by done. cbn [translate].
  by rewrite decide_True, leaf_present.
Qed.

(** Pages of the upper half, where bit 47 is set and the bits above repeat it. *)
Lemma vpage_high va : 2 ^ 64 - 2 ^ 47 ≤ va < 2 ^ 64 →
  vpage va = va / PAGE_SIZE - (2 ^ 52 - 2 ^ 36).
Proof. intros. unfold vpage, PAGE_SIZE. zify_div. Qed.

Lemma vpage_low va : 0 ≤ va < 2 ^ 47 → vpage va = va / PAGE_SIZE.
Proof. intros. unfold vpage, PAGE_SIZE. zify_div. Qed.

(** The layout the linker script and the boot loader produce: the kernel in the
    last 2 GiB, the direct map of the first 4 GiB below it in the upper half. *)
Definition kernel_start : Z := 18446744071562067968.  (* 0xffffffff80000000 *)
Definition in_kernel (first last : Z) : Prop :=
  kernel_start ≤ first < 2 ^ 64 ∧ kernel_start ≤ last ≤ 2 ^ 64 - PAGE_SIZE.
Record layout_ok (img : kernel_image) (hhdm : Z) : Prop := {
  lay_text : in_kernel (text_start_addr img) (text_end_addr img);
  lay_rodata : in_kernel (rodata_start_addr img) (rodata_end_addr img);
  lay_data : in_kernel (data_start_addr img) (data_end_addr img);
  lay_hhdm : 2 ^ 64 - 2 ^ 47 ≤ hhdm ≤ kernel_start - 2 ^ 32;
  lay_align : hhdm mod PAGE_SIZE = 0;
}.

Lemma layout_image img hhdm : layout_ok img hhdm → image_ok img.
Proof.
  intros [[T1 T2] [R1 R2] [D1 D2] _ _]. unfold kernel_start, PAGE_SIZE in *.
  split; unfold PAGE_SIZE; lia.
Qed.

(** ** The kernel's address space

    Every canonical address: the pages of the sections at where the boot loader
    put them, with the permissions of each section; physical memory from 4 KiB to
    4 GiB at itself and at the direct-map offset; nothing else. *)
Definition canonical (va : Z) : Prop := 0 ≤ va < 2 ^ 47 ∨ 2 ^ 64 - 2 ^ 47 ≤ va < 2 ^ 64.
Definition covers (first last va : Z) : Prop :=
  ALIGN_DOWN first PAGE_SIZE ≤ va < ALIGN_UP last PAGE_SIZE.

Definition kernel_map (img : kernel_image) (hhdm va : Z) : option Z :=
  let page := va / PAGE_SIZE * PAGE_SIZE in
  let image := u64 (page - virtual_base img + physical_base img) in
  let writable := Z.lor PTE_PRESENT PTE_WRITABLE in
  if decide (covers (text_start_addr img) (text_end_addr img) va)
  then Some (Z.lor image PTE_PRESENT)
  else if decide (covers (rodata_start_addr img) (rodata_end_addr img) va)
  then Some (Z.lor image (Z.lor PTE_PRESENT PTE_NO_EXECUTE))
  else if decide (covers (data_start_addr img) (data_end_addr img) va)
  then Some (Z.lor image (Z.lor writable PTE_NO_EXECUTE))
  else if decide (4096 ≤ va < 2 ^ 32) then Some (Z.lor page writable)
  else if decide (hhdm + 4096 ≤ va < hhdm + 2 ^ 32)
  then Some (Z.lor (page - hhdm) (Z.lor writable PTE_NO_EXECUTE))
  else None.

(** Canonical addresses with the same page number lie in the same page. *)
Lemma vpage_canonical va va' : canonical va → canonical va' →
  vpage va = vpage va' ↔ va / PAGE_SIZE = va' / PAGE_SIZE.
Proof.
  unfold canonical. intros H H'. split; [|unfold vpage, PAGE_SIZE; by intros ->].
  destruct H as [H|H]; [rewrite (vpage_low va H)|rewrite (vpage_high va H)];
    (destruct H' as [H'|H']; [rewrite (vpage_low va' H')|rewrite (vpage_high va' H')]);
    unfold PAGE_SIZE; zify_div.
Qed.

(** The pages of a section. *)
Lemma section_pages first last : in_kernel first last → ∃ b,
  ALIGN_DOWN first PAGE_SIZE = first / PAGE_SIZE * PAGE_SIZE ∧ ALIGN_UP last PAGE_SIZE = b * PAGE_SIZE ∧
  2 ^ 64 - 2 ^ 47 ≤ first / PAGE_SIZE * PAGE_SIZE ∧ b * PAGE_SIZE ≤ 2 ^ 64 ∧
  (ALIGN_UP last PAGE_SIZE - ALIGN_DOWN first PAGE_SIZE) / PAGE_SIZE = b - first / PAGE_SIZE.
Proof.
  intros [Hf Hl]. unfold kernel_start in *.
  destruct (ALIGN_UP_bounds last) as (b & E & Hb); [lia|unfold PAGE_SIZE in *; lia|]. exists b.
  rewrite E, ALIGN_DOWN_mul by lia. unfold PAGE_SIZE in *. split_and!; try done; try lia; zify_div.
Qed.

Lemma translate_section img first last flags rs va : in_kernel first last → canonical va →
  0 ≤ flags < 2 ^ 64 → present flags = true →
  translate (section_requests img first last flags ++ rs) va =
    if decide (covers first last va)
    then Some (Z.lor (u64 (va / PAGE_SIZE * PAGE_SIZE - virtual_base img + physical_base img)) flags)
    else translate rs va.
Proof.
  intros Hk Hva Hfl Hpr. destruct (section_pages first last Hk) as (b & Ed & Eu & Ha & Hb & En).
  unfold section_requests, covers. rewrite En, Ed, Eu. set (a := first / PAGE_SIZE) in *. unfold PAGE_SIZE in *.
  assert (∀ j, 0 ≤ j < b - a → vpage va = vpage (a * 4096 + j * 4096) ↔ va / 4096 = a + j) as Hv.
  { intros j Hj. rewrite vpage_canonical; [|done|right; lia]. unfold PAGE_SIZE.
    replace ((a * 4096 + j * 4096) / 4096) with (a + j) by zify_div. done. }
  case_decide as Hc.
  - set (k := va / 4096 - a). assert (0 ≤ k ∧ a + k + 1 ≤ b) as [Hk0 Hkb] by (unfold k; zify_div).
    replace (b - a) with (k + (1 + (b - a - k - 1))) by lia.
    rewrite seqZ_app, fmap_app by lia. rewrite (seqZ_app (0 + k)), fmap_app by lia.
    rewrite <- !app_assoc. cbn [seqZ seq Z.to_nat Pos.to_nat Pos.iter_op fmap list_fmap app Z.of_nat].
    replace (va / 4096 * 4096) with (a * 4096 + k * 4096) by lia. replace (k + 0) with k by lia.
    apply translate_hit; [|apply Hv; lia|apply u64_range|done..].
    apply Forall_fmap, Forall_forall. intros j Hj%list_elem_of_In%elem_of_seqZ. cbn. rewrite Hv by lia. lia.
  - apply translate_miss. apply Forall_fmap, Forall_forall. intros j Hj%list_elem_of_In%elem_of_seqZ.
    cbn. rewrite Hv by lia. zify_div.
Qed.

Lemma low_virts h k : Forall (λ r : Z * Z * Z, ∃ j, 0 ≤ j < k ∧
    (r.1.1 = 4096 + j * PAGE_SIZE ∨ r.1.1 = u64 (4096 + j * PAGE_SIZE + h))) (low_requests h k).
Proof.
  unfold low_requests. apply Forall_bind, Forall_forall. intros j Hj.
  apply list_elem_of_In, elem_of_seqZ in Hj. repeat apply Forall_cons_2; [..|apply Forall_nil_2];
    exists j; (split; [lia|cbn; auto]).
Qed.

Lemma low_split h n k : 0 ≤ k < n → ∃ rs, low_requests h n = low_requests h k ++
  (4096 + k * PAGE_SIZE, 4096 + k * PAGE_SIZE, Z.lor PTE_PRESENT PTE_WRITABLE) ::
  (u64 (4096 + k * PAGE_SIZE + h), 4096 + k * PAGE_SIZE,
    Z.lor (Z.lor PTE_PRESENT PTE_WRITABLE) PTE_NO_EXECUTE) :: rs.
Proof.
  intros Hk. unfold low_requests. replace n with (k + (1 + (n - k - 1))) by lia.
  rewrite seqZ_app, bind_app by lia. rewrite (seqZ_app (0 + k)), bind_app by lia.
  eexists. f_equal.
Qed.

(** The virtual pages of the identity map and of the direct map. *)
Definition hhdm_vpage (hhdm : Z) : Z := hhdm / PAGE_SIZE - (2 ^ 52 - 2 ^ 36).

Lemma vpage_identity pa : 4096 ≤ pa < 2 ^ 32 → vpage pa = pa / PAGE_SIZE.
Proof. intros. apply vpage_low. lia. Qed.

Lemma vpage_direct pa hhdm : 4096 ≤ pa < 2 ^ 32 →
  2 ^ 64 - 2 ^ 47 ≤ hhdm ≤ kernel_start - 2 ^ 32 → hhdm mod PAGE_SIZE = 0 →
  u64 (pa + hhdm) = pa + hhdm ∧ vpage (pa + hhdm) = pa / PAGE_SIZE + hhdm_vpage hhdm ∧
  2 ^ 35 ≤ hhdm_vpage hhdm.
Proof.
  unfold kernel_start, hhdm_vpage, PAGE_SIZE. intros Hpa Hh Ha. split_and!.
  - apply u64_small. lia.
  - rewrite vpage_high by lia. unfold PAGE_SIZE. zify_div.
  - zify_div.
Qed.

(** The direct map and the identity map. *)
Lemma translate_low hhdm pa : 2 ^ 64 - 2 ^ 47 ≤ hhdm ≤ kernel_start - 2 ^ 32 → hhdm mod PAGE_SIZE = 0 →
  4096 ≤ pa < 2 ^ 32 →
  translate (low_requests hhdm 1048575) pa =
    Some (Z.lor (pa / PAGE_SIZE * PAGE_SIZE) (Z.lor PTE_PRESENT PTE_WRITABLE)) ∧
  translate (low_requests hhdm 1048575) (pa + hhdm) =
    Some (Z.lor (pa / PAGE_SIZE * PAGE_SIZE) (Z.lor (Z.lor PTE_PRESENT PTE_WRITABLE) PTE_NO_EXECUTE)).
Proof.
  intros Hh Ha Hpa. set (k := pa / PAGE_SIZE - 1).
  assert (0 ≤ k < 1048575) as Hk by (unfold k, PAGE_SIZE; zify_div).
  destruct (low_split hhdm 1048575 k Hk) as [rs ->].
  assert (∀ j, 0 ≤ j ≤ k → 4096 ≤ 4096 + j * PAGE_SIZE < 2 ^ 32 ∧
    (4096 + j * PAGE_SIZE) / PAGE_SIZE = j + 1) as Hj by (unfold PAGE_SIZE; intros; zify_div).
  destruct (Hj k ltac:(lia)) as [Hkr Hkd].
  pose proof (vpage_identity pa Hpa) as V1. pose proof (vpage_identity _ Hkr) as V1k.
  destruct (vpage_direct pa hhdm Hpa Hh Ha) as (_ & V2 & Hbig).
  destruct (vpage_direct _ hhdm Hkr Hh Ha) as (-> & V2k & _).
  assert (pa / PAGE_SIZE = k + 1) as Hpk by lia.
  assert (pa / PAGE_SIZE * PAGE_SIZE = 4096 + k * PAGE_SIZE) as -> by (rewrite Hpk; unfold PAGE_SIZE; lia).
  assert (∀ va, vpage va = k + 1 ∨ vpage va = k + 1 + hhdm_vpage hhdm →
    Forall (λ r, vpage va ≠ vpage r.1.1) (low_requests hhdm k)) as Hmiss.
  { intros va Hva. eapply Forall_impl; [|apply low_virts].
    intros r (j & Hjk & Hr). destruct (Hj j ltac:(lia)) as [Hjr Hjd].
    pose proof (vpage_identity _ Hjr). destruct (vpage_direct _ hhdm Hjr Hh Ha) as (Hu & V & _).
    destruct Hr as [-> | ->]; [|rewrite Hu]; lia. }
  split.
  - apply translate_hit; [apply Hmiss; lia|lia|lia|done..].
  - rewrite cons_middle, app_assoc. apply translate_hit; [|lia|lia|done..].
    apply Forall_app. split; [apply Hmiss; lia|]. rewrite Forall_singleton. cbn. lia.
Qed.

Lemma translate_outside hhdm va : 2 ^ 64 - 2 ^ 47 ≤ hhdm ≤ kernel_start - 2 ^ 32 →
  hhdm mod PAGE_SIZE = 0 → canonical va → ¬ 4096 ≤ va < 2 ^ 32 → ¬ hhdm + 4096 ≤ va < hhdm + 2 ^ 32 →
  translate (low_requests hhdm 1048575) va = None.
Proof.
  intros Hh Ha Hva H1 H2. rewrite <- (app_nil_r (low_requests _ _)), translate_miss; [done|].
  eapply Forall_impl; [|apply low_virts]. intros r (j & Hj & Hr). unfold kernel_start, PAGE_SIZE in *.
  assert (canonical r.1.1) as Hc.
  { destruct Hr as [-> | ->]; [left|right; rewrite u64_small]; lia. }
  rewrite vpage_canonical by done. unfold PAGE_SIZE.
  destruct Hr as [-> | ->]; [|rewrite u64_small by lia]; zify_div.
Qed.

(** The requests of [vmm_init] amount to [kernel_map]. *)
Lemma translate_init img hhdm va : layout_ok img hhdm → canonical va →
  translate (init_requests img hhdm) va = kernel_map img hhdm va.
Proof.
  intros [T R D Hh Ha] Hva. unfold init_requests, kernel_map. cbv zeta.
  rewrite !translate_section by done. do 3 (case_decide; [done|]).
  case_decide as Hlow; [by apply translate_low|]. case_decide as Hdir; [|by apply translate_outside].
  destruct (translate_low hhdm (va - hhdm) Hh Ha ltac:(lia)) as [_ E].
  rewrite Z.sub_add in E. rewrite E. do 2 f_equal. unfold PAGE_SIZE in *. zify_div.
Qed.

(** ** The theorems *)

Section correct.
Context `{FO : FrameOps, FV : FrameView, FL : !FrameLaws}.

(** [C17] [vmm_init] builds the kernel's address space or panics for lack of
    frames.  When it returns, the tables form a tree of distinct frames, the lock
    is free, and CR3 holds the top-level table.  The translation of every canonical
    address is the one of [kernel_map]: the pages of the text section are present
    and read-only, those of the read-only data also not executable, those of the
    data writable and not executable, all at where the boot loader put the image;
    the physical addresses from 4 KiB to 4 GiB are mapped at themselves (writable)
    and at the direct-map offset (writable, not executable); nothing else is
    mapped. *)
Theorem vmm_init_correct (img : kernel_image) (s : kstate) :
  fr_inv s → layout_ok img (hhdm_offset s) →
  safe (vmm_init img) s (λ _ s', ∃ v root,
    vm_inv s' (vmm_kernel s') v root ∧ unlocked s' v ∧ cr3 s' = root ∧
    ∀ va, canonical va → mapping (ram s') root va = kernel_map img (hhdm_offset s) va).
Proof.
  intros HI L. eapply safe_mono; [apply vmm_init_ok; [done|by eapply layout_image]|].
  intros u s' (v & root & [I Hl Hh Hm] & Hc). exists v, root. split_and!; [done..|].
  intros va Hva. rewrite Hm. by apply translate_init.
Qed.

(** [C5] [vmm_map_page] returns true and enters [physical | flags] for the page
    of [virt], unless the page is mapped already, in which case its translation
    stays as it was; no other page's translation changes, no RAM but the
    tables and the lock word is written, the lock is released and the
    invariant of the tables is kept.  The only way it can fail is a panic when
    no frame is left for a table. *)
Theorem vmm_map_page_correct (s : kstate) (vmm v root virt physical flags : Z) :
  vm_inv s vmm v root → unlocked s v →
  safe (vmm_map_page vmm virt physical flags) s (λ ok s',
    ok = true ∧ unlocked s' v ∧ grows (in_range v 4) s s' vmm v root ∧
    ∀ va, mapping (ram s') root va =
      if decide (vpage va = vpage virt) then
        match mapping (ram s) root virt with
        | Some e => Some e
        | None => leaf (Z.lor physical flags)
        end
      else mapping (ram s) root va).
Proof.
  intros I Hl. eapply safe_mono; [by eapply vmm_map_page_ok|].
  intros ok s' (G & Hl' & -> & Hm). by split_and!.
Qed.

(** [C18] [vmm_unmap_page] always returns: true when the page was mapped, false
    when not; afterwards the page is unmapped and every other page is as before,
    the lock is free and the tables are well formed. *)
Theorem vmm_unmap_page_correct (s : kstate) (vmm v root virt : Z) (lock : bool) :
  vm_inv s vmm v root → unlocked s v →
  runs (vmm_unmap_page vmm virt lock) s (λ ok s',
    (ok = true ↔ is_Some (mapping (ram s) root virt)) ∧ unlocked s' v ∧
    grows (in_range v 4) s s' vmm v root ∧
    ∀ va, mapping (ram s') root va =
      if decide (vpage va = vpage virt) then None else mapping (ram s) root va).
Proof.
  intros I Hl. destruct (vmm_unmap_page_ram s vmm v root virt I Hl lock) as (ok & m & E & _).
  eapply runs_ok; [exact E|].
  destruct (safe_ok _ _ _ _ _ (vmm_unmap_page_ok s vmm v root virt lock I Hl) E)
    as (G & Hl' & -> & Hm).
  split; [|by split_and!].
  destruct (mapping (ram s) root virt); cbn; split; try done; by intros [? [=]].
Qed.

(** Mapping a page that was free and unmapping it again brings back every
    translation. *)
Theorem vmm_map_unmap_roundtrip (s : kstate) (vmm v root virt physical flags : Z) :
  vm_inv s vmm v root → unlocked s v → mapping (ram s) root virt = None →
  present (u64 (Z.lor physical flags)) = true →
  safe (mapped ← vmm_map_page vmm virt physical flags;
        unmapped ← vmm_unmap_page vmm virt true;
        mret (mapped, unmapped)) s (λ r s',
    r = (true, true) ∧ vm_inv s' vmm v root ∧
    ∀ va, mapping (ram s') root va = mapping (ram s) root va).
Proof.
  intros I Hl Hn Hp. sstep. eapply safe_mono; [by eapply vmm_map_page_ok|].
  intros ok s1 (G1 & Hl1 & -> & Hm1). pose proof (gr_inv _ _ _ _ _ _ G1) as I1. sstep.
  eapply safe_mono; [by eapply vmm_unmap_page_ok|].
  intros ok s2 (G2 & Hl2 & -> & Hm2). sstep.
  rewrite !Hm1, Hn. unfold remap, leaf. rewrite decide_True, Hp by done.
  split_and!; [done|apply (gr_inv _ _ _ _ _ _ G2)|].
  intros va. rewrite Hm2. unfold remap. case_decide as Hv.
  - by rewrite (mapping_vpage _ _ _ virt Hv).
  - rewrite Hm1. unfold remap. by rewrite decide_False.
Qed.

(** After mapping a page that was free to a frame, [vmm_virt2phys] answers
    that frame for every address of the page. *)
Theorem vmm_map_virt2phys (s : kstate) (vmm v root virt frame flags va : Z) (alloc : bool) :
  vm_inv s vmm v root → unlocked s v → mapping (ram s) root virt = None →
  0 ≤ frame → frame * PAGE_SIZE < 2 ^ 52 →
  0 ≤ flags < 2 ^ 64 → Z.land flags PTE_ADDR = 0 → present flags = true →
  vpage va = vpage virt →
  safe (vmm_map_page vmm virt (frame * PAGE_SIZE) flags;; vmm_virt2phys vmm va alloc) s
    (λ r s', r = frame * PAGE_SIZE ∧ vm_inv s' vmm v root).
Proof.
  intros I Hl Hn Hf Hfb Hfl Hfl0 Hp Hva. sstep. eapply safe_mono; [by eapply vmm_map_page_ok|].
  intros ok s1 (G1 & Hl1 & _ & Hm1). pose proof (gr_inv _ _ _ _ _ _ G1) as I1.
  eapply safe_mono; [by eapply vmm_virt2phys_ok|]. intros r s2 (G2 & Hm2 & Hr).
  split; [|apply (gr_inv _ _ _ _ _ _ G2)].
  rewrite (Hr (Z.lor (frame * PAGE_SIZE) flags)); [by apply PTE_GET_ADDR_lor|].
  rewrite Hm1. unfold remap. rewrite decide_True, Hn by done.
  apply leaf_present; [|done..]. unfold PAGE_SIZE in *. lia.
Qed.

(** [vmm_change_flag] on a mapped page keeps the page's frame and replaces
    its flags; on an unmapped page it returns false and changes no translation. *)
Theorem vmm_change_flag_correct (s : kstate) (vmm v root virt flags : Z) (lock : bool) :
  vm_inv s vmm v root → unlocked s v →
  0 ≤ flags < 2 ^ 64 → Z.land flags PTE_ADDR = 0 → present flags = true →
  safe (vmm_change_flag vmm virt flags lock) s (λ ok s',
    unlocked s' v ∧ grows (in_range v 4) s s' vmm v root ∧
    (∀ va, vpage va ≠ vpage virt → mapping (ram s') root va = mapping (ram s) root va) ∧
    match mapping (ram s) root virt with
    | Some e => ok = true ∧ ∃ e', mapping (ram s') root virt = Some e' ∧
        PTE_GET_ADDR e' = PTE_GET_ADDR e ∧ PTE_GET_FLAGS e' = flags
    | None => ok = false ∧ mapping (ram s') root virt = None
    end).
Proof.
  intros I Hl Hfl Hfl0 Hp. eapply safe_mono; [by eapply vmm_change_flag_ok|].
  intros ok s' (G & Hl' & -> & Hm). split_and!; [done..| |].
  - intros va Hva. rewrite Hm. unfold remap. by rewrite decide_False.
  - rewrite Hm. unfold remap. rewrite decide_True by done.
    destruct (mapping (ram s) root virt) as [e|]; [|done]. split; [done|].
    pose proof (PTE_GET_ADDR_div e) as Ha.
    assert (0 ≤ (e / 4096) mod 2 ^ 40 < 2 ^ 40) as Hr by by apply Z.mod_pos_bound.
    exists (Z.lor (PTE_GET_ADDR e) flags). cbn [mbind option_bind]. rewrite Ha. split_and!.
    + apply leaf_present; [lia|done..].
    + apply PTE_GET_ADDR_lor; unfold PAGE_SIZE; try done; lia.
    + unfold PTE_GET_FLAGS. rewrite Z.land_lor_distr_l, <- !Z.ldiff_land, <- Ha.
      unfold PTE_GET_ADDR. rewrite Z.ldiff_land, <- Z.land_assoc, Z.land_lnot_diag, Z.land_0_r.
      rewrite Z.lor_0_l. rewrite <- (Z.lor_0_l (Z.ldiff flags PTE_ADDR)), <- Hfl0.
      by rewrite Z.lor_comm, Z.lor_ldiff_and.
Qed.

End correct.

(** ** Instances with the bitmap allocator *)

Lemma demo_fr_inv : fr_inv demo_state.
Proof. split; [exact demo_inv|]. vm_compute. congruence. Qed.

Definition demo_space : kstate := run_state vmm_init_struct demo_state.

Lemma demo_space_returns : returns (vmm_init_struct demo_state) = true.
Proof. vm_compute. reflexivity. Qed.

Lemma demo_space_ok : ∃ v root, vm_inv demo_space (vmm_kernel demo_space) v root ∧
  unlocked demo_space v ∧ ∀ va, mapping (ram demo_space) root va = None.
Proof.
  destruct (safe_run_state _ _ _ (new_space demo_state demo_fr_inv) demo_space_returns)
    as (k & _ & v & root & [I Hl _ Hm]). exact (ex_intro _ v (ex_intro _ root (conj I (conj Hl Hm)))).
Qed.

Definition demo_image : kernel_image :=
  KernelImage 18446744071562067968 18446744071562080256 18446744071562080256 18446744071562084352
    18446744071562084352 18446744071562096640 18446744071562067968 1048576.

Lemma demo_layout : layout_ok demo_image (hhdm_offset demo_state).
Proof.
  assert (hhdm_offset demo_state = demo_hhdm) as -> by (vm_compute; reflexivity).
  split; vm_compute; intuition congruence.
Qed.

(** A machine with 64 MiB: 16384 frames, where the address space takes about 4400
    tables. *)
Definition large_map : list limine_memmap_entry := [Entry 0 4096 1; Entry 4096 67108864 0].
Definition large_state : kstate := run_state (pmm_init demo_hhdm large_map) boot_state.

Lemma large_map_ok : memmap_ok large_map.
Proof.
  split; [simpl; lia|..].
  - intros [|[|[|i]]] e; simpl; intros [= <-]; try done.
  - intros [|[|[|i]]] [|[|[|j]]] e f Hne; simpl; intros [= <-] [= <-]; done.
Qed.

Lemma large_fr_inv : fr_inv large_state ∧ hhdm_offset large_state = demo_hhdm.
Proof.
  pose proof (pmm_init_runs demo_hhdm large_map boot_state large_map_ok ltac:(vm_compute; congruence)
    ltac:(vm_compute; congruence) ltac:(vm_compute; congruence) 1 (Entry 4096 67108864 0)
    ltac:(vm_compute; congruence) eq_refl eq_refl) as R.
  apply runs_inv in R as (es' & s' & Hrun & -> & Hb). unfold large_state, run_state. rewrite Hrun.
  split; [split|by destruct Hb as [-> _ _]].
  - eapply pmm_init_inv; [exact large_map_ok|..|reflexivity|exact Hb]; vm_compute; congruence.
  - destruct Hb as [-> _ _]. vm_compute. congruence.
Qed.

Lemma vmm_init_correct_witness :
  safe (vmm_init demo_image) large_state (λ _ s', ∃ v root,
    vm_inv s' (vmm_kernel s') v root ∧ unlocked s' v ∧ cr3 s' = root ∧
    ∀ va, canonical va → mapping (ram s') root va = kernel_map demo_image (hhdm_offset large_state) va).
Proof.
  apply (vmm_init_correct demo_image large_state); [exact (proj1 large_fr_inv)|].
  rewrite (proj2 large_fr_inv). split; vm_compute; intuition congruence.
Defined.

(** The first page of each section, a physical page and a hole. *)
Example demo_kernel_map :
  (kernel_map demo_image demo_hhdm <$> [18446744071562067968; 18446744071562080256;
     18446744071562084352; 20480; demo_hhdm + 20485; 18446744071562096640])
  = [Some 1048577; Some (1060864 + 2 ^ 63 + 1); Some (1064960 + 2 ^ 63 + 3); Some 20483;
     Some (20480 + 2 ^ 63 + 3); None].
Proof. vm_compute. reflexivity. Qed.

Lemma vmm_map_page_correct_witness : ∃ v root,
  safe (vmm_map_page (vmm_kernel demo_space) 8388608 12288 3) demo_space (λ ok s',
    ok = true ∧ unlocked s' v ∧ grows (in_range v 4) demo_space s' (vmm_kernel demo_space) v root ∧
    ∀ va, mapping (ram s') root va =
      if decide (vpage va = vpage 8388608) then
        match mapping (ram demo_space) root 8388608 with
        | Some e => Some e
        | None => leaf (Z.lor 12288 3)
        end
      else mapping (ram demo_space) root va).
Proof.
  destruct demo_space_ok as (v & root & I & Hl & _). exists v, root.
  exact (vmm_map_page_correct demo_space _ v root 8388608 12288 3 I Hl).
Defined.

(** The page at 8 MiB mapped to frame 3. *)
Definition demo_mapped : kstate :=
  run_state (vmm_map_page (vmm_kernel demo_space) 8388608 12288 3) demo_space.

Lemma demo_mapped_returns :
  returns (vmm_map_page (vmm_kernel demo_space) 8388608 12288 3 demo_space) = true.
Proof. vm_compute. reflexivity. Qed.

Lemma demo_mapped_ok : ∃ v root, vm_inv demo_mapped (vmm_kernel demo_space) v root ∧
  unlocked demo_mapped v ∧ mapping (ram demo_mapped) root 8388608 = Some 12291.
Proof.
  destruct demo_space_ok as (v & root & I & Hl & Hm). exists v, root.
  destruct (safe_run_state _ _ _ (vmm_map_page_ok demo_space _ v root 8388608 12288 3 I Hl)
    demo_mapped_returns) as (ok & G & Hl' & _ & Hm').
  split_and!; [exact (gr_inv _ _ _ _ _ _ G)|exact Hl'|].
  unfold demo_mapped. rewrite Hm'. unfold remap. rewrite decide_True, Hm by done. reflexivity.
Qed.

Lemma vmm_unmap_page_correct_witness : ∃ v root,
  mapping (ram demo_mapped) root 8388608 = Some 12291 ∧
  runs (vmm_unmap_page (vmm_kernel demo_space) 8388608 true) demo_mapped (λ ok s',
    (ok = true ↔ is_Some (mapping (ram demo_mapped) root 8388608)) ∧ unlocked s' v ∧
    grows (in_range v 4) demo_mapped s' (vmm_kernel demo_space) v root ∧
    ∀ va, mapping (ram s') root va =
      if decide (vpage va = vpage 8388608) then None else mapping (ram demo_mapped) root va).
Proof.
  destruct demo_mapped_ok as (v & root & I & Hl & Hm). exists v, root. split; [exact Hm|].
  exact (vmm_unmap_page_correct demo_mapped _ v root 8388608 true I Hl).
Defined.

Lemma vmm_map_unmap_roundtrip_witness : ∃ v root,
  safe (mapped ← vmm_map_page (vmm_kernel demo_space) 8388608 12288 3;
        unmapped ← vmm_unmap_page (vmm_kernel demo_space) 8388608 true;
        mret (mapped, unmapped)) demo_space (λ r s',
    r = (true, true) ∧ vm_inv s' (vmm_kernel demo_space) v root ∧
    ∀ va, mapping (ram s') root va = mapping (ram demo_space) root va).
Proof.
  destruct demo_space_ok as (v & root & I & Hl & Hm). exists v, root.
  exact (vmm_map_unmap_roundtrip demo_space _ v root 8388608 12288 3 I Hl (Hm _) eq_refl).
Defined.

Lemma vmm_map_virt2phys_witness : ∃ v root,
  safe (vmm_map_page (vmm_kernel demo_space) 8388608 (3 * PAGE_SIZE) 3;;
        vmm_virt2phys (vmm_kernel demo_space) 8388708 false) demo_space
    (λ r s', r = 3 * PAGE_SIZE ∧ vm_inv s' (vmm_kernel demo_space) v root).
Proof.
  destruct demo_space_ok as (v & root & I & Hl & Hm). exists v, root.
  apply (vmm_map_virt2phys demo_space _ v root 8388608 3 3 8388708 false I Hl (Hm _));
    vm_compute; intuition congruence.
Defined.

Lemma vmm_change_flag_correct_witness : ∃ v root,
  safe (vmm_change_flag (vmm_kernel demo_space) 8388608 1 true) demo_space (λ ok s',
    unlocked s' v ∧ grows (in_range v 4) demo_space s' (vmm_kernel demo_space) v root ∧
    (∀ va, vpage va ≠ vpage 8388608 →
      mapping (ram s') root va = mapping (ram demo_space) root va) ∧
    match mapping (ram demo_space) root 8388608 with
    | Some e => ok = true ∧ ∃ e', mapping (ram s') root 8388608 = Some e' ∧
        PTE_GET_ADDR e' = PTE_GET_ADDR e ∧ PTE_GET_FLAGS e' = 1
    | None => ok = false ∧ mapping (ram s') root 8388608 = None
    end).
Proof.
  destruct demo_space_ok as (v & root & I & Hl & _). exists v, root.
  apply (vmm_change_flag_correct demo_space _ v root 8388608 1 true I Hl); try reflexivity. lia.
Defined.
