(* ===== verification/Kheap.v ===== *)
(** * Kernel heap: [src/kernel/mm/kheap.c], [kheap.h] and [lib/alloc.h]

    Arenas are whole frames from the frame allocator, reached through the
    direct map; an arena's header is a structure at its start, and every block is
    preceded by the address of its arena. *)

From S2P Require Import Prelude Machine Util Spinlock Frames Vmm.

Definition sizeof_arena_t : Z := 40.
Definition sizeof_arena_metadata : Z := 8.
Definition arena_next (a : Z) : Z := a.
Definition arena_base (a : Z) : Z := a + 8.
Definition arena_size (a : Z) : Z := a + 16.
Definition arena_offset (a : Z) : Z := a + 24.
Definition arena_allocated (a : Z) : Z := a + 32.

Section kheap.
Context `{FO : FrameOps}.

(** One round of the search for room: [inr (Some ret)] is the [return]. *)
Definition arena_round (size arena : Z) : M kstate (Z + option Z) :=
  if arena =? 0 then mret (inr None)
  else
    a_size ← gets (λ s, load 8 s (arena_size arena));
    offset ← gets (λ s, load 8 s (arena_offset arena));
    if u64 (a_size - offset) >=? u64 (size + sizeof_arena_metadata) then
      base ← gets (λ s, load 8 s (arena_base arena));
      modify (store 8 (u64 (base + offset)) base);;
      let ret := u64 (base + offset + sizeof_arena_metadata) in
      modify (store 8 (arena_offset arena) (u64 (offset + size + sizeof_arena_metadata)));;
      allocated ← gets (λ s, load 8 s (arena_allocated arena));
      modify (store 8 (arena_allocated arena) (u64 (allocated + 1)));;
      mret (inr (Some ret))
    else
      next ← gets (λ s, load 8 s (arena_next arena));
      mret (inl next).

Definition map_arena_round (curr_vmm new_alloc n i : Z) : M kstate (Z + unit) :=
  if i <? n then
    hhdm ← get_hhdm;
    ok ← vmm_map_page curr_vmm (u64 (new_alloc + i * PAGE_SIZE + hhdm))
           (u64 (new_alloc + i * PAGE_SIZE)) (Z.lor PTE_PRESENT PTE_WRITABLE);
    if negb ok then panic "k_alloc: failed to map new allocated page"
    else mret (inl (u64 (i + 1)))
  else mret (inr tt).

(** [while (current != NULL) current = current->next;] *)
Definition last_round (current : Z) : M kstate (Z + unit) :=
  if current =? 0 then mret (inr tt)
  else
    next ← gets (λ s, load 8 s (arena_next current));
    mret (inl next).

(** Setting up a new arena and taking its first block. *)
Definition arena_fill (new_arena size : Z) : M kstate Z :=
  modify (store 8 (arena_next new_arena) 0);;
  modify (store 8 (arena_base new_arena) new_arena);;
  modify (store 8 (arena_size new_arena)
    (ALIGN_UP (u64 (size + sizeof_arena_t + sizeof_arena_metadata)) PAGE_SIZE));;
  modify (store 8 (arena_offset new_arena) sizeof_arena_t);;
  modify (store 8 (arena_allocated new_arena) 0);;
  curr_vmm ← gets vmm_kernel;
  current ← gets (λ s, load 8 s (vmm_arena_addr curr_vmm));
  loop last_round current;;
  (* [current = new_arena]: the new arena is stored in the local variable only *)
  base ← gets (λ s, load 8 s (arena_base new_arena));
  offset ← gets (λ s, load 8 s (arena_offset new_arena));
  modify (store 8 (u64 (base + offset)) base);;
  let ret := u64 (base + offset + sizeof_arena_metadata) in
  modify (store 8 (arena_offset new_arena) (u64 (offset + size + sizeof_arena_metadata)));;
  allocated ← gets (λ s, load 8 s (arena_allocated new_arena));
  modify (store 8 (arena_allocated new_arena) (u64 (allocated + 1)));;
  mret ret.

Definition k_alloc (size : Z) : M kstate Z :=
  curr_vmm ← gets vmm_kernel;
  current ← gets (λ s, load 8 s (vmm_arena_addr curr_vmm));
  found ← (if current =? 0 then mret None else loop (arena_round size) current);
  match found with
  | Some ret => mret ret
  | None =>
      let n := DIV_ROUNDUP (u64 (size + sizeof_arena_t + sizeof_arena_metadata)) PAGE_SIZE in
      new_alloc ← frame_alloc n;
      loop (map_arena_round curr_vmm new_alloc n) 0;;
      hhdm ← get_hhdm;
      arena_fill (u64 (new_alloc + hhdm)) size
  end.

(** The bound of the loop is read from the arena in every round. *)
Definition unmap_arena_round (arena i : Z) : M kstate (Z + unit) :=
  size ← gets (λ s, load 8 s (arena_size arena));
  if i <? size / PAGE_SIZE then
    kernel ← gets vmm_kernel;
    vmm_unmap_page kernel (u64 (arena + i * PAGE_SIZE)) true;;
    mret (inl (u64 (i + 1)))
  else mret (inr tt).

Definition k_free (addr : Z) : M kstate unit :=
  arena ← gets (λ s, load 8 s (u64 (addr - sizeof_arena_metadata)));
  allocated ← gets (λ s, load 8 s (arena_allocated arena));
  modify (store 8 (arena_allocated arena) (u64 (allocated - 1)));;
  allocated' ← gets (λ s, load 8 s (arena_allocated arena));
  if allocated' <=? 0 then
    base ← gets (λ s, load 8 s (arena_base arena));
    size ← gets (λ s, load 8 s (arena_size arena));
    hhdm ← get_hhdm;
    frame_free (u64 (base - hhdm)) (DIV_ROUNDUP size PAGE_SIZE);;
    loop (unmap_arena_round arena) 0
  else mret tt.

Definition kalloc (size : Z) : M kstate Z := k_alloc size.
Definition kfree (ptr : Z) : M kstate unit := k_free ptr.

End kheap.

(** ** The heap's invariant

    [live] holds the arenas in use, one per block: the first frame and the
    number of frames. *)

Section heap.
Context `{FO : FrameOps, FV : FrameView, FL : !FrameLaws}.

(** Frames that belong to an arena: in use, and nobody else's. *)
Record arena_frames (s : kstate) (v root q n : Z) : Prop := {
  af_range : 1 ≤ q ∧ 1 ≤ n ∧ (q + n) * PAGE_SIZE ≤ 2 ^ 52 ∧
    (q + n) * PAGE_SIZE + hhdm_offset s ≤ 2 ^ 64;
  af_taken : ∀ f, q ≤ f < q + n → fr_taken s f;
  af_public : ∀ x, page_bytes q n x → ¬ fr_private s x;
  af_struct : ∀ f, q ≤ f < q + n → f * PAGE_SIZE ≠ v;
  af_tables : ∀ f π, q ≤ f < q + n → path_ok π → descend (ram s) root π ≠ Some (f * PAGE_SIZE);
}.

(** The header of an arena that holds one block, and the block's back pointer. *)
Record arena_header (s : kstate) (q n : Z) : Prop := {
  ah_base : rd 8 (ram s) (q * PAGE_SIZE + 8) = q * PAGE_SIZE + hhdm_offset s;
  ah_size : rd 8 (ram s) (q * PAGE_SIZE + 16) = n * PAGE_SIZE;
  ah_allocated : rd 8 (ram s) (q * PAGE_SIZE + 32) = 1;
  ah_metadata : rd 8 (ram s) (q * PAGE_SIZE + 40) = q * PAGE_SIZE + hhdm_offset s;
}.

Record heap_inv (s : kstate) (v root : Z) (live : gmap Z Z) : Prop := {
  h_space : vm_inv s (vmm_kernel s) v root;
  h_unlocked : unlocked s v;
  h_arena : rd 8 (ram s) (v + 16) = 0;
  h_frames : ∀ q n, live !! q = Some n → arena_frames s v root q n;
  h_header : ∀ q n, live !! q = Some n → arena_header s q n;
  h_apart : ∀ q n q' n', live !! q = Some n → live !! q' = Some n' → q ≠ q' →
    q + n ≤ q' ∨ q' + n' ≤ q;
}.

(** The address [kalloc] returns for the arena at frame [q]. *)
Definition block (s : kstate) (q : Z) : Z := q * PAGE_SIZE + hhdm_offset s + 48.

Lemma arena_frames_keep s s' v root q n : arena_frames s v root q n →
  hhdm_offset s' = hhdm_offset s →
  (∀ f, q ≤ f < q + n → fr_taken s f → fr_taken s' f) →
  (∀ x, fr_private s' x ↔ fr_private s x) →
  (∀ f π, q ≤ f < q + n → path_ok π → descend (ram s') root π = Some (f * PAGE_SIZE) →
     descend (ram s) root π = Some (f * PAGE_SIZE)) →
  arena_frames s' v root q n.
Proof.
  intros [Hr Ht Hp Hs Hd] Eh Ht' Hp' Hd'. split; [by rewrite Eh|auto|by setoid_rewrite Hp'|done|].
  intros f π Hf Hπ E. by eapply Hd, Hd'.
Qed.

Lemma arena_header_keep s s' q n : arena_header s q n → hhdm_offset s' = hhdm_offset s →
  (∀ x, in_range (q * PAGE_SIZE) 48 x → byte (ram s') x = byte (ram s) x) →
  arena_header s' q n.
Proof.
  intros [H1 H2 H3 H4] Eh Hb. split; rewrite ?Eh;
    (etrans; [apply rd_ext|eassumption]; intros x Hx; apply Hb; unfold in_range; lia).
Qed.

Lemma grows_frames W s s' vmm v root q n : grows W s s' vmm v root →
  arena_frames s v root q n → arena_frames s' v root q n ∧
  ∀ x, page_bytes q n x → ¬ W x → byte (ram s') x = byte (ram s) x.
Proof.
  intros [I (Eh & _) Ht Hp _ Hn Hk] A. pose proof A as [Hr Htk Hpub Hst Htab]. split.
  - eapply arena_frames_keep; [done|done| |done|]; [by auto|].
    intros f π Hf Hπ E. destruct (Hn π _ Hπ E) as [?|(p & Heq & Hfree)]; [done|].
    assert (p = f) as -> by (unfold PAGE_SIZE in Heq; lia). by destruct Hfree; apply Htk.
  - intros x Hx HW. assert (q ≤ x / PAGE_SIZE < q + n) as Hf
      by (unfold page_bytes, in_range, PAGE_SIZE in *; zify_div).
    apply (Hk (x / PAGE_SIZE)); [by apply Htk| |by apply Hpub|done|by intros; apply Htab].
    unfold page_bytes, in_range, PAGE_SIZE. zify_div.
Qed.

(** ** Allocation *)

(** Mapping the pages of a new arena at their direct-map addresses. *)
(** The pages of an arena, at the direct-map addresses of its frames. *)
Definition arena_requests (hhdm q n : Z) : list (Z * Z * Z) :=
  (λ i, ((q + i) * PAGE_SIZE + hhdm, (q + i) * PAGE_SIZE, Z.lor PTE_PRESENT PTE_WRITABLE)) <$> seqZ 0 n.

(** A page that is mapped keeps its translation. *)
Definition or_else (f f' : Z → option Z) (va : Z) : option Z :=
  match f va with Some e => Some e | None => f' va end.

Lemma arena_requests_snoc hhdm q n : 0 ≤ n → arena_requests hhdm q (n + 1) = arena_requests hhdm q n ++
  [((q + n) * PAGE_SIZE + hhdm, (q + n) * PAGE_SIZE, Z.lor PTE_PRESENT PTE_WRITABLE)].
Proof. intros. unfold arena_requests. by rewrite seqZ_snoc, fmap_app by done. Qed.

(** The entry of a frame. *)
Lemma arena_leaf p : 0 ≤ p → p * PAGE_SIZE < 2 ^ 52 →
  leaf (Z.lor (p * PAGE_SIZE) (Z.lor PTE_PRESENT PTE_WRITABLE)) = Some (p * PAGE_SIZE + 3).
Proof.
  intros Hp H52. unfold PAGE_SIZE in *. change (Z.lor PTE_PRESENT PTE_WRITABLE) with 3.
  rewrite lor_disjoint by (by apply (land_mul_low _ 12)).
  unfold leaf. rewrite u64_small by lia. rewrite present_bit, Z.bit0_odd, Z.odd_add, Z.odd_mul.
  by rewrite andb_false_r.
Qed.

Lemma arena_translated hhdm q n i : 0 ≤ q → (q + n) * PAGE_SIZE ≤ 2 ^ 52 → 0 ≤ i < n →
  is_Some (translate (arena_requests hhdm q n) ((q + i) * PAGE_SIZE + hhdm)).
Proof.
  intros Hq H52 Hi. replace n with (i + (1 + (n - i - 1))) by lia. unfold arena_requests.
  rewrite seqZ_app, fmap_app by lia. rewrite (seqZ_cons (0 + i)), fmap_cons by lia.
  match goal with |- is_Some (translate (?l ++ _) _) => induction l as [|[[a p] f] rs IH] end; cbn [translate app].
  - rewrite decide_True, arena_leaf by (done || unfold PAGE_SIZE in *; lia). by eexists.
  - case_decide; [|done]. by destruct (leaf _).
Qed.

Lemma map_arena_ok s vmm v root q n : vm_inv s vmm v root → unlocked s v →
  1 ≤ q → (q + n) * PAGE_SIZE ≤ 2 ^ 52 → (q + n) * PAGE_SIZE + hhdm_offset s ≤ 2 ^ 64 → 1 ≤ n →
  safe (loop (map_arena_round vmm (q * PAGE_SIZE) n) 0) s (λ _ s',
    grows (in_range v 4) s s' vmm v root ∧ unlocked s' v ∧
    ∀ va, mapping (ram s') root va =
      or_else (mapping (ram s) root) (translate (arena_requests (hhdm_offset s) q n)) va).
Proof.
  intros I Hl Hq H52 H64 Hn. pose proof (vm_hhdm _ _ _ _ I) as Hh.
  eapply (safe_loop _ (λ i t, 0 ≤ i ≤ n ∧ grows (in_range v 4) s t vmm v root ∧ unlocked t v ∧
    ∀ va, mapping (ram t) root va =
      or_else (mapping (ram s) root) (translate (arena_requests (hhdm_offset s) q i)) va)
    (λ i _, n - i)).
  - intros i t (Hi & G & Hlt & Hm). unfold map_arena_round. case_if; cycle 1.
    { sstep. split_and!; [done..|]. by replace n with i by lia. }
    unfold get_hhdm. do 3 sstep. pose proof (gr_inv _ _ _ _ _ _ G) as It.
    rewrite (grows_hhdm _ _ _ _ _ _ G).
    replace (q * PAGE_SIZE + i * PAGE_SIZE) with ((q + i) * PAGE_SIZE) by lia. unfold PAGE_SIZE in *.
    rewrite !u64_small by lia.
    eapply safe_mono; [by eapply vmm_map_page_ok|]. intros ok t' (G' & Hl' & -> & Hm').
    cbn [negb]. sstep. split; [|lia]. split_and!; [lia|lia|by eapply grows_trans|done|].
    intros va. rewrite Hm', arena_requests_snoc by lia. unfold or_else. rewrite translate_snoc.
    unfold remap, PAGE_SIZE. case_decide as Hv; rewrite !Hm; unfold or_else; [|done].
    rewrite (mapping_vpage (ram s) root va _ Hv). by destruct (mapping (ram s) root _).
  - split_and!; [lia..|by apply grows_refl|done|]. intros va. unfold or_else. by destruct (mapping _ _ va).
  - unfold PAGE_SIZE in *. lia.
Qed.

(** Reading back from a chain of stores. *)
Ltac rd_wr :=
  repeat first
    [ rewrite (rd_wr_same 8); change (256 ^ Z.of_nat 8) with (2 ^ 64)
    | rewrite (rd_wr_other 8 8) by lia ].

Section fill.
Context (s : kstate) (v root q n size : Z).
Context (I : vm_inv s (vmm_kernel s) v root) (A : arena_frames s v root q n).
Context (Harena : rd 8 (ram s) (v + 16) = 0).
Context (Hsize : 0 ≤ size) (Hn : n * PAGE_SIZE = ALIGN_UP (size + 48) PAGE_SIZE).
Context (Hfits : size + 48 ≤ n * PAGE_SIZE).

#[local] Abbreviation B := (q * PAGE_SIZE).
#[local] Abbreviation a := (q * PAGE_SIZE + hhdm_offset s).

Lemma arena_cell k : 0 ≤ k → cell (hhdm_offset s) (a + k) = B + k.
Proof.
  intros Hk. destruct (af_range _ _ _ _ _ A) as (Hq & _). replace (a + k) with (B + k + hhdm_offset s) by lia.
  apply cell_hhdm. unfold PAGE_SIZE. lia.
Qed.

Lemma fill_store k x m : 0 ≤ k →
  store 8 (a + k) x (set_ram m s) = set_ram (wr 8 m (B + k) x) s.
Proof. intros. unfold store. cbn [hhdm_offset ram set_ram]. by rewrite arena_cell. Qed.

Lemma fill_load k m : 0 ≤ k → load 8 (set_ram m s) (a + k) = rd 8 m (B + k).
Proof. intros. unfold load. cbn [hhdm_offset ram set_ram]. by rewrite arena_cell. Qed.

(** The arena list is read before the block is cut, and is empty. *)
Lemma fill_list m : same_outside (in_range B 48) (ram s) m →
  load 8 (set_ram m s) (vmm_arena_addr (vmm_kernel s)) = 0.
Proof.
  intros Hm. unfold load. cbn [hhdm_offset ram set_ram]. unfold vmm_arena_addr.
  rewrite (field_cell s _ v root I) by (unfold PAGE_SIZE; lia). rewrite <- Harena.
  apply (rd_same_outside 8 _ _ _ _ Hm). intros x Hx Hb.
  destruct (af_range _ _ _ _ _ A) as (Hq & Hn1 & _).
  destruct (fo_frame _ _ (vm_struct _ _ _ _ I)) as (p & -> & _).
  apply (af_struct _ _ _ _ _ A q ltac:(lia)). unfold in_range, PAGE_SIZE in *. lia.
Qed.

Lemma last_null t : loop last_round 0 t = Ok (tt, t).
Proof. by vm_compute. Qed.

Lemma arena_fill_ok : ∃ m, arena_fill a size s = Ok (a + 48, set_ram m s) ∧
  same_outside (in_range B 48) (ram s) m ∧ arena_header (set_ram m s) q n.
Proof.
  destruct (af_range _ _ _ _ _ A) as (Hq & Hn1 & H52 & H64).
  pose proof (vm_hhdm _ _ _ _ I) as Hh.
  assert (4096 ≤ B ∧ a + n * PAGE_SIZE ≤ 2 ^ 64 ∧ 4096 ≤ n * PAGE_SIZE) as (HB & Ha & HnP) by (unfold PAGE_SIZE in *; lia).
  assert (∀ m k x, 0 ≤ k ≤ 40 → same_outside (in_range B 48) m (wr 8 m (B + k) x)) as Hw.
  { intros m k x Hk. eapply same_outside_mono; [|apply (same_outside_wr 8)].
    unfold in_range. lia. }
  assert (s = set_ram (ram s) s) as Es by by destruct s.
  unfold arena_fill, sizeof_arena_t, sizeof_arena_metadata.
  replace (size + 40 + 8) with (size + 48) by lia.
  rewrite (u64_small (size + 48)) by lia. rewrite <- Hn.
  unfold arena_next, arena_base, arena_size, arena_offset, arena_allocated.
  unfold mbind, M_bind, modify, gets. cbn [bind_result fst snd].
  replace (store 8 a 0 s) with (set_ram (wr 8 (ram s) (B + 0) 0) s); cycle 1.
  { rewrite <- (fill_store 0 0 (ram s)), <- Es, Z.add_0_r by lia. done. }
  rewrite !fill_store by lia. cbn [vmm_kernel set_ram].
  rewrite fill_list; cycle 1.
  { repeat (eapply same_outside_trans; [|apply Hw; lia]). apply same_outside_refl. }
  rewrite last_null. cbn [bind_result fst snd]. set (m1 := wr 8 _ (B + 32) 0).
  assert (same_outside (in_range B 48) (ram s) m1) as H1.
  { repeat (eapply same_outside_trans; [|apply Hw; lia]). apply same_outside_refl. }
  rewrite !fill_load by lia.
  assert (rd 8 m1 (B + 8) = a) as ->.
  { unfold m1. rd_wr. rewrite Z.mod_small; lia. }
  assert (rd 8 m1 (B + 24) = 40) as -> by (unfold m1; by rd_wr).
  rewrite (u64_small (a + 40)), (u64_small (a + 40 + 8)), (u64_small (40 + size + 8)) by lia.
  rewrite !fill_store by lia. rewrite fill_load by lia.
  assert (rd 8 (wr 8 (wr 8 m1 (B + 40) a) (B + 24) (40 + size + 8)) (B + 32) = 0) as ->.
  { unfold m1. by rd_wr. }
  replace (a + 40 + 8) with (a + 48) by lia.
  eexists. split; [done|]. split.
  - repeat (eapply same_outside_trans; [|apply Hw; lia]). done.
  - split; cbn [ram set_ram hhdm_offset]; unfold m1; rd_wr; try done; rewrite Z.mod_small; lia.
Qed.

End fill.

(** A write inside an arena leaves the address space alone. *)
Lemma arena_write s v root q n m : vm_inv s (vmm_kernel s) v root → arena_frames s v root q n →
  same_outside (page_bytes q n) (ram s) m →
  vm_inv (set_ram m s) (vmm_kernel s) v root ∧ (unlocked s v → unlocked (set_ram m s) v) ∧
  (∀ π, path_ok π → descend m root π = descend (ram s) root π) ∧
  (∀ va, mapping m root va = mapping (ram s) root va) ∧
  (∀ f, fr_taken (set_ram m s) f ↔ fr_taken s f) ∧
  (∀ x, fr_private (set_ram m s) x ↔ fr_private s x).
Proof.
  intros I A Hm. destruct (frame_write_ok s m _ (vm_alloc _ _ _ _ I) Hm (af_public _ _ _ _ _ A))
    as (HI & Ht & Hp).
  assert (∀ t, frame_ok s t → frame_ok (set_ram m s) t) as Hf.
  { intros t. apply frame_ok_mono; [done|intros f; by rewrite Ht|done]. }
  assert (∀ t x, frame_ok s t → (∀ f, q ≤ f < q + n → f * PAGE_SIZE ≠ t) →
    page_bytes q n x → ¬ in_range t PAGE_SIZE x) as Hout.
  { intros t x [(p & -> & _) _ _ _] Hne Hx Hx'. apply (Hne p); [|done].
    unfold page_bytes, in_range, PAGE_SIZE in *. lia. }
  destruct (outside_space s (set_ram m s) _ v root (page_bytes q n) I) as (I' & Hu & Hd & Hmap);
    [done..| |by auto|by split_and!].
  intros x Hx. split.
  - apply Hout; [apply (vm_struct _ _ _ _ I)|apply (af_struct _ _ _ _ _ A)|done].
  - intros π t Hπ Ht'. apply Hout; [by eapply (tree_frame _ _ (vm_tree _ _ _ _ I))| |done].
    intros f Hf' <-. by eapply (af_tables _ _ _ _ _ A f π).
Qed.

Lemma frames_apart_live s v root live q n s1 : heap_inv s v root live → 1 ≤ n →
  frames_new s s1 q n → ∀ q' n', live !! q' = Some n' → q + n ≤ q' ∨ q' + n' ≤ q.
Proof.
  intros HI Hn N q' n' Hq'. pose proof (h_frames _ _ _ _ HI q' n' Hq') as [(Hq1 & Hn1 & _) Ht _ _ _].
  destruct (decide (q + n ≤ q' ∨ q' + n' ≤ q)) as [?|Hno]; [done|].
  destruct (new_fresh _ _ _ _ N (Z.max q q')); [lia|]. apply Ht. lia.
Qed.

Lemma new_arena_frames s s1 v root q n vmm : vm_inv s vmm v root → 1 ≤ n →
  frames_new s s1 q n → arena_frames s1 v root q n.
Proof.
  intros I Hn N. destruct (alloc_grows s s1 vmm v root q n I N) as (_ & Hd & _).
  pose proof N as [Hq H52 [Hh H64] (Eh & _) _ Hfr Htk Hpr Hap _ _].
  assert (∀ f t, q ≤ f < q + n → frame_ok s t → f * PAGE_SIZE ≠ t) as Hne.
  { intros f t Hf [(p & Ht & _ & Hp) _ _ _] Heq. apply (Hfr f Hf).
    by assert (p = f) as <- by (unfold PAGE_SIZE in *; lia). }
  split.
  - rewrite Eh. split_and!; done.
  - intros f Hf. apply Htk. by right.
  - intros x Hx. rewrite Hpr. by apply Hap.
  - intros f Hf. apply Hne; [done|apply (vm_struct _ _ _ _ I)].
  - intros f π Hf Hπ. rewrite Hd by done. intros E.
    by apply (Hne f (f * PAGE_SIZE) Hf); [eapply (tree_frame _ _ (vm_tree _ _ _ _ I))|].
Qed.

(** What allocating a block of [size] bytes promises: an arena of fresh frames
    around a block of zeros, and nothing else changed. *)
Record block_new (s s' : kstate) (v root : Z) (live : gmap Z Z) (size q n : Z) : Prop := {
  bn_inv : heap_inv s' v root (<[q := n]> live);
  bn_fresh : live !! q = None ∧ ∀ f, q ≤ f < q + n → ¬ fr_taken s f;
  bn_room : size + 48 ≤ n * PAGE_SIZE < size + 48 + PAGE_SIZE;
  bn_zero : ∀ x, in_range (q * PAGE_SIZE + 48) size x → byte (ram s') x = 0;
  bn_keep : ∀ q' n' x, live !! q' = Some n' → page_bytes q' n' x → byte (ram s') x = byte (ram s) x;
  bn_globals : same_globals s s';
  bn_mapped : ∀ i, 0 ≤ i < n → is_Some (mapping (ram s') root ((q + i) * PAGE_SIZE + hhdm_offset s'));
  bn_translate : ∀ va, mapping (ram s') root va =
    or_else (mapping (ram s) root) (translate (arena_requests (hhdm_offset s) q n)) va;
}.

Lemma arena_not_struct s v root q n vmm x : vm_inv s vmm v root → arena_frames s v root q n →
  page_bytes q n x → ¬ in_range v PAGE_SIZE x.
Proof.
  intros I A Hx Hv. destruct (fo_frame _ _ (vm_struct _ _ _ _ I)) as (p & -> & _).
  apply (af_struct _ _ _ _ _ A p); [|done]. unfold page_bytes, in_range, PAGE_SIZE in *. lia.
Qed.

(** Operations on the address space leave arenas alone. *)
Lemma grows_arena s s' vmm v root q n : vm_inv s vmm v root →
  grows (in_range v 4) s s' vmm v root → arena_frames s v root q n →
  arena_frames s' v root q n ∧ ∀ x, page_bytes q n x → byte (ram s') x = byte (ram s) x.
Proof.
  intros I G A. destruct (grows_frames _ _ _ _ _ _ _ _ G A) as [A' Hb]. split; [done|].
  intros x Hx. apply Hb; [done|]. intros Hv. eapply (arena_not_struct s v root q n); [done..|].
  unfold in_range, PAGE_SIZE in *. lia.
Qed.

Lemma heap_grows s s' v root live : heap_inv s v root live →
  grows (in_range v 4) s s' (vmm_kernel s) v root → unlocked s' v →
  heap_inv s' v root live ∧
  ∀ q n x, live !! q = Some n → page_bytes q n x → byte (ram s') x = byte (ram s) x.
Proof.
  intros [I Hl Ha Hf Hh Hd] G Hl'. pose proof (gr_globals _ _ _ _ _ _ G) as (Eh & _ & _ & Ek & _).
  assert (∀ q n, live !! q = Some n → arena_frames s' v root q n ∧
    ∀ x, page_bytes q n x → byte (ram s') x = byte (ram s) x) as HA.
  { intros q n Hq. eapply grows_arena; [done..|]. by apply Hf. }
  split; [|intros q n x Hq; by apply HA].
  split; [rewrite Ek; apply (gr_inv _ _ _ _ _ _ G)|done| | | |done].
  - rewrite <- Ha. by eapply grows_list.
  - intros q n Hq. by apply HA.
  - intros q n Hq. eapply arena_header_keep; [by apply Hh|done|].
    destruct (af_range _ _ _ _ _ (Hf q n Hq)) as (_ & Hn & _). intros x Hx. apply (HA q n Hq).
    unfold page_bytes, in_range, PAGE_SIZE in *. lia.
Qed.

(** A write inside one arena, seen by the heap without it. *)
Lemma heap_write s v root live q n m : heap_inv s v root live → arena_frames s v root q n →
  (∀ q' n', live !! q' = Some n' → q + n ≤ q' ∨ q' + n' ≤ q) →
  same_outside (page_bytes q n) (ram s) m →
  heap_inv (set_ram m s) v root live ∧ arena_frames (set_ram m s) v root q n ∧
  (∀ va, mapping m root va = mapping (ram s) root va) ∧
  ∀ q' n' x, live !! q' = Some n' → page_bytes q' n' x → byte m x = byte (ram s) x.
Proof.
  intros [I Hl Ha Hf Hh Hd] A Hap Hm.
  destruct (arena_write s v root q n m I A Hm) as (I' & Hu & Hdesc & Hmap & Ht & Hp).
  assert (∀ q' n', arena_frames s v root q' n' → arena_frames (set_ram m s) v root q' n') as HA.
  { intros q' n' A'. eapply arena_frames_keep; [done|done|by intros f _; rewrite Ht|done|].
    intros f π _ Hπ. cbn [ram set_ram]. by rewrite Hdesc. }
  assert (∀ q' n' x, live !! q' = Some n' → page_bytes q' n' x → byte m x = byte (ram s) x) as Hb.
  { intros q' n' x Hq' Hx. apply Hm. intros Hx'. destruct (Hap q' n' Hq');
      unfold page_bytes, in_range, PAGE_SIZE in *; lia. }
  split_and!; [split; try done|by apply HA|done|done].
  - by apply Hu.
  - rewrite <- Ha. apply (rd_same_outside 8 _ _ _ _ Hm). intros x Hx Hx'.
    eapply (arena_not_struct s v root q n); [done..|]. unfold in_range, PAGE_SIZE. lia.
  - intros q' n' Hq'. by apply HA, Hf.
  - intros q' n' Hq'. eapply arena_header_keep; [by apply Hh|done|].
    destruct (af_range _ _ _ _ _ (Hf q' n' Hq')) as (_ & Hn & _). intros x Hx. apply (Hb q' n' x Hq').
    unfold page_bytes, in_range, PAGE_SIZE in *. lia.
Qed.

Lemma heap_insert s v root live q n : heap_inv s v root live → arena_frames s v root q n →
  arena_header s q n → (∀ q' n', live !! q' = Some n' → q + n ≤ q' ∨ q' + n' ≤ q) →
  heap_inv s v root (<[q := n]> live).
Proof.
  intros [I Hl Ha Hf Hh Hd] A Hdr Hap. split; [done..| | |].
  - intros q' n' [[<- <-]|[_ Hq]]%lookup_insert_Some; auto.
  - intros q' n' [[<- <-]|[_ Hq]]%lookup_insert_Some; auto.
  - intros q1 n1 q2 n2 [[<- <-]|[_ H1]]%lookup_insert_Some [[<- <-]|[_ H2]]%lookup_insert_Some Hne;
      [done|by apply Hap|destruct (Hap _ _ H1); auto|by eapply Hd].
Qed.

Lemma k_alloc_ok s v root live size : heap_inv s v root live → 0 ≤ size →
  size + 48 + PAGE_SIZE ≤ 2 ^ 64 →
  safe (k_alloc size) s (λ p s', ∃ q n, p = block s' q ∧ block_new s s' v root live size q n).
Proof.
  intros HI Hs0 Hs. pose proof (h_space _ _ _ _ HI) as I. pose proof (vm_hhdm _ _ _ _ I) as Hh.
  unfold k_alloc, sizeof_arena_t, sizeof_arena_metadata. do 4 sstep.
  assert (load 8 s (vmm_arena_addr (vmm_kernel s)) = 0) as ->.
  { unfold load, vmm_arena_addr. rewrite (field_cell s _ v root I) by (unfold PAGE_SIZE; lia).
    apply (h_arena _ _ _ _ HI). }
  rewrite Z.eqb_refl. do 2 sstep. replace (size + 40 + 8) with (size + 48) by lia.
  rewrite (u64_small (size + 48)) by (unfold PAGE_SIZE in Hs; lia).
  pose proof (DIV_ROUNDUP_bounds (size + 48) PAGE_SIZE ltac:(done) ltac:(lia) Hs) as Hn.
  cbv zeta. set (n := DIV_ROUNDUP (size + 48) PAGE_SIZE) in *.
  assert (1 ≤ n < 2 ^ 64) as Hn1 by (unfold PAGE_SIZE in *; lia). sstep.
  eapply safe_mono; [by apply frame_alloc_ok, Hn1; apply (vm_alloc _ _ _ _ I)|].
  intros r s1 (q & -> & N). sstep.
  destruct (alloc_grows s s1 _ v root q n I N) as (G0 & _ & Hm1).
  assert (grows (in_range v 4) s s1 (vmm_kernel s) v root) as G1 by by eapply grows_mono; [|exact G0].
  destruct (heap_grows s s1 v root live HI G1) as [H1 B1]; [by eapply (grows_unlocked s), HI|].
  pose proof (new_arena_frames s s1 v root q n _ I ltac:(lia) N) as A1.
  pose proof (frames_apart_live s v root live q n s1 HI ltac:(lia) N) as Hap.
  assert (vmm_kernel s1 = vmm_kernel s) as Ek1 by apply (new_globals _ _ _ _ N). rewrite <- Ek1.
  pose proof (h_space _ _ _ _ H1) as I1. destruct (af_range _ _ _ _ _ A1) as (Hq & _ & H52 & H64).
  eapply safe_mono; [apply (map_arena_ok s1 _ v root q n); [done|apply H1|done..|lia]|].
  intros u2 s2 (G2 & Hl2 & Hm2). destruct (heap_grows s1 s2 v root live H1 G2 Hl2) as [H2 B2].
  destruct (grows_arena s1 s2 _ v root q n I1 G2 A1) as [A2 Z2].
  pose proof (h_space _ _ _ _ H2) as I2. unfold get_hhdm. do 2 sstep.
  assert (0 ≤ hhdm_offset s2) as Hh2 by apply (vm_hhdm _ _ _ _ I2).
  destruct (af_range _ _ _ _ _ A2) as (_ & _ & _ & H64').
  rewrite u64_small by (unfold PAGE_SIZE in *; lia).
  destruct (arena_fill_ok s2 v root q n size I2 A2 (h_arena _ _ _ _ H2) Hs0) as (m & E & Hm & Hd);
    [unfold ALIGN_UP; rewrite u64_small; [done|lia]|lia|].
  unfold safe. rewrite E. exists q, n. split; [unfold block; cbn; lia|].
  assert (same_outside (page_bytes q n) (ram s2) m) as Hm'.
  { eapply same_outside_mono; [|exact Hm]. unfold page_bytes, in_range, PAGE_SIZE. lia. }
  destruct (heap_write s2 v root live q n m H2 A2 Hap Hm') as (H3 & A3 & Hmap & B3).
  assert (live !! q = None) as Hnone.
  { destruct (live !! q) as [n'|] eqn:Eq; [|done].
    destruct (af_range _ _ _ _ _ (h_frames _ _ _ _ HI q n' Eq)). destruct (Hap q n' Eq); lia. }
  split; [by apply heap_insert|by split; [|apply (new_fresh _ _ _ _ N)]|lia|..].
  - intros x Hx. cbn [ram set_ram].
    assert (page_bytes q n x) as Hx' by (unfold page_bytes, in_range, PAGE_SIZE in *; lia).
    rewrite Hm, Z2; [by apply (new_zero _ _ _ _ N)|done|unfold in_range in *; lia].
  - intros q' n' x Hq' Hx. cbn [ram set_ram]. by rewrite (B3 q' n'), (B2 q' n'), (B1 q' n').
  - pose proof (same_globals_trans _ _ _ (new_globals _ _ _ _ N) (gr_globals _ _ _ _ _ _ G2)) as HG.
    by destruct HG as (? & ? & ? & ? & ?).
  - intros i Hi. cbn [ram set_ram hhdm_offset]. rewrite Hmap, (grows_hhdm _ _ _ _ _ _ G2), Hm2.
    unfold or_else. destruct (mapping (ram s1) root _); [by eexists|]. by apply arena_translated; [lia|..].
  - intros va. cbn [ram set_ram]. rewrite Hmap, Hm2. unfold or_else. rewrite Hm1.
    assert (hhdm_offset s1 = hhdm_offset s) as -> by apply (new_globals _ _ _ _ N). done.
Qed.

(** ** Release *)

(** Unmapping one page changes no frame's owner and no byte of an arena. *)
Lemma unmap_step s v root va : vm_inv s (vmm_kernel s) v root → unlocked s v →
  ∃ ok m, vmm_unmap_page (vmm_kernel s) va true s = Ok (ok, set_ram m s) ∧
    grows (in_range v 4) s (set_ram m s) (vmm_kernel s) v root ∧ unlocked (set_ram m s) v ∧
    (∀ f, fr_taken (set_ram m s) f ↔ fr_taken s f) ∧
    same_outside (unmap_bytes s v root va) (ram s) m ∧
    ∀ va', mapping m root va' = remap (mapping (ram s) root) va None va'.
Proof.
  intros I Hl. destruct (vmm_unmap_page_ram s _ v root va I Hl true) as (ok & m & E & Hm).
  destruct (safe_ok _ _ _ _ _ (vmm_unmap_page_ok s _ v root va true I Hl) E) as (G & Hl' & _ & Hmap).
  destruct (frame_write_ok s m _ (vm_alloc _ _ _ _ I) Hm) as (_ & Ht & _).
  - intros x [Hx|(t & Ht & Hx)].
    + apply (fo_public _ _ (vm_struct _ _ _ _ I)). unfold in_range, PAGE_SIZE in *. lia.
    + eapply fo_public; [|exact Hx]. eapply (tree_frame _ _ (vm_tree _ _ _ _ I)); [apply path_ok_va|done].
  - by exists ok, m.
Qed.

(** The loop that unmaps an arena's pages, for frames [q, q + n) that hold no
    table, such as those of an arena just given back; the size field in the
    arena bounds the loop. *)
Section unmap_arena.
Context (s : kstate) (v root : Z) (live : gmap Z Z) (q n : Z).
Context (Hq : 1 ≤ q) (Hn : 1 ≤ n) (H52 : (q + n) * PAGE_SIZE ≤ 2 ^ 52).
Context (H64 : (q + n) * PAGE_SIZE + hhdm_offset s ≤ 2 ^ 64).
Context (Hst : ∀ f, q ≤ f < q + n → f * PAGE_SIZE ≠ v).

Definition window (i : Z) : Z := (q + i) * PAGE_SIZE + hhdm_offset s.

Record unmapping (i : Z) (t : kstate) : Prop := {
  um_i : 0 ≤ i ≤ n;
  um_heap : heap_inv t v root live;
  um_globals : same_globals s t;
  um_taken : ∀ f, fr_taken t f ↔ fr_taken s f;
  um_tables : ∀ f π, q ≤ f < q + n → path_ok π → descend (ram t) root π ≠ Some (f * PAGE_SIZE);
  um_size : rd 8 (ram t) (q * PAGE_SIZE + 16) = n * PAGE_SIZE;
  um_blocks : ∀ q' n' x, live !! q' = Some n' → page_bytes q' n' x → byte (ram t) x = byte (ram s) x;
  um_gone : ∀ j va, 0 ≤ j < i → vpage va = vpage (window j) → mapping (ram t) root va = None;
  um_kept : ∀ va, (∀ j, 0 ≤ j < i → vpage va ≠ vpage (window j)) →
    mapping (ram t) root va = mapping (ram s) root va;
}.

Lemma unmapping_step i t : unmapping i t → i < n →
  ∃ ok t', vmm_unmap_page (vmm_kernel t) (window i) true t = Ok (ok, t') ∧ unmapping (i + 1) t'.
Proof.
  intros [Hi HI HG Ht Htab Hsz Hblk Hgone Hkept] Hin. pose proof (h_space _ _ _ _ HI) as I.
  destruct (unmap_step t v root (window i) I (h_unlocked _ _ _ _ HI))
    as (ok & m & E & G & Hl & Ht' & Hm & Hmap).
  exists ok, (set_ram m t). split; [done|]. destruct (heap_grows t _ v root live HI G Hl) as [HI' HB'].
  split; [lia|done|by eapply same_globals_trans; [|apply G]|by intros f; rewrite Ht'|..].
  - intros f π Hf Hπ D. destruct (gr_new _ _ _ _ _ _ G π _ Hπ D) as [D'|(p & Heq & Hp)];
      [by eapply Htab|]. pose proof (gr_inv _ _ _ _ _ _ G) as I'. apply Hp, Ht'.
    destruct (fo_frame _ _ (tree_frame _ _ (vm_tree _ _ _ _ I') _ _ Hπ D)) as (p' & Hp' & _ & Htk).
    by assert (p = p') as -> by (unfold PAGE_SIZE in *; lia).
  - rewrite <- Hsz. apply (rd_same_outside 8 _ _ _ _ Hm). intros x Hx [Hx'|(u & Hu & Hx')].
    + destruct (fo_frame _ _ (vm_struct _ _ _ _ I)) as (p & Hv & _). apply (Hst q ltac:(lia)).
      unfold in_range, PAGE_SIZE in *. lia.
    + destruct (fo_frame _ _ (tree_frame _ _ (vm_tree _ _ _ _ I) _ _ (path_ok_va _) Hu))
        as (p & Hp & _). apply (Htab q (path (window i)) ltac:(lia) (path_ok_va _)). rewrite Hu.
      f_equal. unfold in_range, PAGE_SIZE in *. lia.
  - intros q' n' x Hq' Hx. rewrite (HB' q' n') by done. by apply (Hblk q' n').
  - intros j va Hj Hv. cbn [ram set_ram]. rewrite Hmap. unfold remap. case_decide as Hd; [done|].
    apply (Hgone j); [|done]. destruct (decide (j = i)) as [->|]; [done|lia].
  - intros va Hv. cbn [ram set_ram]. rewrite Hmap. unfold remap.
    rewrite decide_False by (apply Hv; lia). apply Hkept. intros j Hj. apply Hv. lia.
Qed.

Lemma unmap_arena_ok : unmapping 0 s →
  runs (loop (unmap_arena_round (q * PAGE_SIZE + hhdm_offset s)) 0) s (λ _ s', unmapping n s').
Proof.
  intros U0. pose proof (vm_hhdm _ _ _ _ (h_space _ _ _ _ (um_heap _ _ U0))) as Hh.
  eapply (runs_loop _ unmapping (λ i _, n - i));
    [|exact U0|unfold PAGE_SIZE in *; lia].
  intros i t U. pose proof U as [Hi _ (Eh & _) _ _ Hsz _ _ _].
  unfold unmap_arena_round, runs, mbind, M_bind, gets. cbn [bind_result fst snd].
  assert (load 8 t (arena_size (q * PAGE_SIZE + hhdm_offset s)) = n * PAGE_SIZE) as ->.
  { unfold load, arena_size. rewrite Eh, <- Hsz. f_equal.
    replace (q * PAGE_SIZE + hhdm_offset s + 16) with (q * PAGE_SIZE + 16 + hhdm_offset s) by lia.
    apply cell_hhdm. unfold PAGE_SIZE. lia. }
  rewrite Z.div_mul by done. case_if; cycle 1.
  { cbn. by replace n with i by lia. }
  assert (u64 (q * PAGE_SIZE + hhdm_offset s + i * PAGE_SIZE) = window i) as ->.
  { unfold window, PAGE_SIZE in *. rewrite u64_small; lia. }
  destruct (unmapping_step i t U E) as (ok & t' & E' & U'). cbn [bind_result fst snd].
  rewrite E'. cbn. rewrite u64_small by (unfold PAGE_SIZE in *; lia). split; [done|lia].
Qed.

End unmap_arena.

Lemma heap_delete s v root live q : heap_inv s v root live → heap_inv s v root (delete q live).
Proof.
  intros [I Hl Ha Hf Hh Hd]. split; [done..| | |].
  - intros q' n' [_ Hq]%lookup_delete_Some. auto.
  - intros q' n' [_ Hq]%lookup_delete_Some. auto.
  - intros q1 n1 q2 n2 [_ H1]%lookup_delete_Some [_ H2]%lookup_delete_Some. by eapply Hd.
Qed.

(** The bytes of the block in the arena at frame [q]. *)
Definition block_bytes (q n x : Z) : Prop := in_range (q * PAGE_SIZE + 48) (n * PAGE_SIZE - 48) x.

(** A write inside a block. *)
Lemma block_write s v root live q n m : heap_inv s v root live → live !! q = Some n →
  same_outside (block_bytes q n) (ram s) m → heap_inv (set_ram m s) v root live.
Proof.
  intros HI Hq Hm. pose proof HI as [I Hl Ha Hf Hh Hd].
  destruct (af_range _ _ _ _ _ (Hf q n Hq)) as (_ & Hn & _).
  assert (∀ q' n', delete q live !! q' = Some n' → q + n ≤ q' ∨ q' + n' ≤ q) as Hap.
  { intros q' n' [Hne Hq']%lookup_delete_Some. by eapply Hd. }
  destruct (heap_write s v root (delete q live) q n m) as (HI' & A' & _); [by apply heap_delete|by apply Hf|done| |].
  { eapply same_outside_mono; [|exact Hm]. unfold block_bytes, page_bytes, in_range, PAGE_SIZE in *. lia. }
  rewrite <- (insert_delete_id live q n) by done. apply heap_insert; try done.
  eapply arena_header_keep; [by apply Hh|done|]. intros x Hx. apply Hm.
  unfold block_bytes, in_range, PAGE_SIZE in *. lia.
Qed.

(** Giving back an arena's frames, seen by the heap without it. *)
Lemma heap_release s s2 v root live q n : heap_inv s v root live → arena_frames s v root q n →
  (∀ q' n', live !! q' = Some n' → q + n ≤ q' ∨ q' + n' ≤ q) → frames_released s s2 q n →
  heap_inv s2 v root live ∧
  (∀ π, path_ok π → descend (ram s2) root π = descend (ram s) root π) ∧
  (∀ va, mapping (ram s2) root va = mapping (ram s) root va) ∧
  ∀ q' n' x, live !! q' = Some n' → page_bytes q' n' x → byte (ram s2) x = byte (ram s) x.
Proof.
  intros [I Hl Ha Hf Hh Hd] A Hap [HG HI2 Ht Hp Hm]. pose proof HG as (Eh & _ & _ & Ek & _).
  destruct (outside_space s s2 _ v root (fr_private s) I HG HI2 Hm) as (I2 & Hu & Hdesc & Hmap).
  - intros x Hx. split; [intros Hv; by apply (fo_public _ _ (vm_struct _ _ _ _ I) x Hv)|].
    intros π t Hπ E Hv. eapply fo_public; [|exact Hv|exact Hx].
    by eapply (tree_frame _ _ (vm_tree _ _ _ _ I)).
  - intros t [(p & -> & Hp1 & Hpt) ? ? Hpub] Hown. split; [|done|by rewrite Eh|by setoid_rewrite Hp].
    exists p. split_and!; [done..|]. apply Ht. split; [done|]. intros Hin.
    destruct Hown as [Hv|(π & Hπ & E)]; [by eapply (af_struct _ _ _ _ _ A p)|].
    by eapply (af_tables _ _ _ _ _ A p π).
  - assert (∀ q' n' x, live !! q' = Some n' → page_bytes q' n' x → byte (ram s2) x = byte (ram s) x) as Hb.
    { intros q' n' x Hq' Hx. apply Hm. by apply (af_public _ _ _ _ _ (Hf q' n' Hq')). }
    split_and!; [|done..]. split; [by rewrite Ek|by apply Hu| | | |done].
    + rewrite <- Ha. apply (rd_same_outside 8 _ _ _ _ Hm). intros x Hx.
      apply (fo_public _ _ (vm_struct _ _ _ _ I)). unfold in_range, PAGE_SIZE. lia.
    + intros q' n' Hq'. eapply arena_frames_keep; [by apply Hf|done| |done|].
      * intros f Hf' Hft. apply Ht. split; [done|]. destruct (Hap q' n' Hq'); lia.
      * intros f π _ Hπ. by rewrite Hdesc.
    + intros q' n' Hq'. eapply arena_header_keep; [by apply Hh|done|].
      destruct (af_range _ _ _ _ _ (Hf q' n' Hq')) as (_ & Hn & _). intros x Hx.
      apply (Hb q' n' x Hq'). unfold page_bytes, in_range, PAGE_SIZE in *. lia.
Qed.

(** What giving back the block of the arena at [q] does: its frames are free,
    and its pages are no longer mapped at their direct-map addresses. *)
Record block_freed (s s' : kstate) (v root : Z) (live : gmap Z Z) (q n : Z) : Prop := {
  bf_inv : heap_inv s' v root (delete q live);
  bf_taken : ∀ f, fr_taken s' f ↔ fr_taken s f ∧ ¬ (q ≤ f < q + n);
  bf_globals : same_globals s s';
  bf_unmapped : ∀ i va, 0 ≤ i < n → vpage va = vpage ((q + i) * PAGE_SIZE + hhdm_offset s) →
    mapping (ram s') root va = None;
  bf_mapped : ∀ va, (∀ i, 0 ≤ i < n → vpage va ≠ vpage ((q + i) * PAGE_SIZE + hhdm_offset s)) →
    mapping (ram s') root va = mapping (ram s) root va;
  bf_keep : ∀ q' n' x, delete q live !! q' = Some n' → page_bytes q' n' x →
    byte (ram s') x = byte (ram s) x;
}.

(** [k_free] on the only block of an arena: the count drops to 0. *)
Lemma k_free_head s v root q n : vm_inv s (vmm_kernel s) v root → arena_frames s v root q n →
  arena_header s q n →
  k_free (block s q) s =
    (frame_free (q * PAGE_SIZE) n;; loop (unmap_arena_round (q * PAGE_SIZE + hhdm_offset s)) 0)
      (set_ram (wr 8 (ram s) (q * PAGE_SIZE + 32) 0) s).
Proof.
  intros I A [Hb Hsz Hal Hmt]. pose proof (vm_hhdm _ _ _ _ I) as Hh.
  destruct (af_range _ _ _ _ _ A) as (Hq1 & Hn1 & H52 & H64).
  pose proof (fill_load s v root q n A) as HL. pose proof (fill_store s v root q n A) as HS.
  assert (set_ram (ram s) s = s) as Es by by destruct s.
  assert (4096 ≤ q * PAGE_SIZE ∧ q * PAGE_SIZE + hhdm_offset s + 4096 ≤ 2 ^ 64 ∧
    n * PAGE_SIZE + PAGE_SIZE ≤ 2 ^ 64) as (HB & HB64 & Hn64) by (unfold PAGE_SIZE in *; lia).
  unfold k_free, sizeof_arena_metadata, block, arena_base, arena_size, arena_allocated.
  set (a := q * PAGE_SIZE + hhdm_offset s) in *. replace (a + 48 - 8) with (a + 40) by lia.
  rewrite u64_small by lia. unfold mbind, M_bind, gets, modify, get_hhdm. cbn [bind_result fst snd].
  pose proof (HL 40 (ram s) ltac:(lia)) as L40. rewrite Es, Hmt in L40. fold a in L40. rewrite L40.
  pose proof (HL 32 (ram s) ltac:(lia)) as L32. rewrite Es, Hal in L32. rewrite L32.
  replace (u64 (1 - 1)) with 0 by done.
  pose proof (HS 32 0 (ram s) ltac:(lia)) as S32. rewrite Es in S32. rewrite S32.
  set (m1 := wr 8 (ram s) (q * PAGE_SIZE + 32) 0). rewrite !HL by lia.
  assert (rd 8 m1 (q * PAGE_SIZE + 32) = 0) as -> by (unfold m1; by rd_wr).
  cbn [Z.leb Z.compare gets bind_result fst snd hhdm_offset set_ram]. rewrite !HL by lia.
  assert (rd 8 m1 (q * PAGE_SIZE + 8) = a) as -> by (unfold m1; by rd_wr).
  assert (rd 8 m1 (q * PAGE_SIZE + 16) = n * PAGE_SIZE) as -> by (unfold m1; by rd_wr).
  cbn [Z.leb Z.compare gets bind_result fst snd hhdm_offset set_ram].
  assert (u64 (a - hhdm_offset s) = q * PAGE_SIZE) as -> by (unfold a; rewrite u64_small; lia).
  assert (DIV_ROUNDUP (n * PAGE_SIZE) PAGE_SIZE = n) as ->; [|done].
  rewrite DIV_ROUNDUP_small by (unfold PAGE_SIZE in *; lia). unfold PAGE_SIZE. zify_div.
Qed.

Lemma k_free_ok s v root live q n : heap_inv s v root live → live !! q = Some n →
  runs (k_free (block s q)) s (λ _ s', block_freed s s' v root live q n).
Proof.
  intros HI Hq. pose proof (h_frames _ _ _ _ HI q n Hq) as A.
  pose proof (h_header _ _ _ _ HI q n Hq) as Hhd. pose proof (ah_size _ _ _ Hhd) as Hsz.
  pose proof (heap_delete s v root live q HI) as HD. pose proof (h_space _ _ _ _ HI) as I.
  destruct (af_range _ _ _ _ _ A) as (Hq1 & Hn1 & H52 & H64).
  assert (∀ q' n', delete q live !! q' = Some n' → q + n ≤ q' ∨ q' + n' ≤ q) as Hap.
  { intros q' n' [Hne Hq']%lookup_delete_Some. by eapply (h_apart _ _ _ _ HI). }
  unfold runs. rewrite (k_free_head s v root q n I A Hhd).
  set (m1 := wr 8 (ram s) _ 0). fold (runs (A := unit) (S := kstate)).
  assert (same_outside (page_bytes q n) (ram s) m1) as Hm1.
  { eapply same_outside_mono; [|apply (same_outside_wr 8)].
    unfold page_bytes, in_range, PAGE_SIZE in *. lia. }
  destruct (heap_write s v root _ q n m1 HD A Hap Hm1) as (H1 & A1 & Hmap1 & Hb1).
  destruct (arena_write s v root q n m1 I A Hm1) as (_ & _ & _ & _ & Ht1 & _).
  destruct (runs_inv _ _ _ (frame_free_ok (set_ram m1 s) q n (vm_alloc _ _ _ _ (h_space _ _ _ _ H1))
    Hq1 Hn1 (af_taken _ _ _ _ _ A1) (af_public _ _ _ _ _ A1))) as ([] & s2 & E2 & R).
  destruct (heap_release _ s2 v root _ q n H1 A1 Hap R) as (H2 & Hd2 & Hmap2 & Hb2).
  pose proof (rel_globals _ _ _ _ R) as HG. pose proof HG as (Eh2 & _).
  assert (rd 8 (ram s2) (q * PAGE_SIZE + 16) = n * PAGE_SIZE) as Hsz2.
  { rewrite <- Hsz. etrans; [apply (rd_same_outside 8 _ _ _ _ (rel_ram _ _ _ _ R))|].
    - intros x Hx. apply (af_public _ _ _ _ _ A1). unfold page_bytes, in_range, PAGE_SIZE in *. lia.
    - unfold m1. cbn [ram set_ram]. apply (rd_wr_other 8 8). lia. }
  pose proof (unmap_arena_ok s2 v root (delete q live) q n Hq1 Hn1 H52) as HU.
  rewrite Eh2 in HU. cbn [hhdm_offset set_ram] in HU.
  apply runs_inv in HU as ([] & s3 & E3 & U).
  - unfold mbind, M_bind. rewrite E2. cbn [bind_result fst snd]. rewrite E3.
    destruct U as [_ H3 HG3 Ht3 _ _ Hb3 Hgone Hkept]. unfold window in Hgone, Hkept. rewrite Eh2 in Hgone, Hkept.
    split; [done| |by eapply same_globals_trans|done| |].
    + intros f. rewrite Ht3, (rel_taken _ _ _ _ R), Ht1. done.
    + intros va Hva. rewrite Hkept by done. rewrite Hmap2. apply Hmap1.
    + intros q' n' x Hq' Hx. rewrite (Hb3 q' n'), (Hb2 q' n') by done. by apply (Hb1 q' n').
  - done.
  - apply (af_struct _ _ _ _ _ A).
  - split; [lia|exact H2|by repeat split|by intros f| |exact Hsz2|done|intros j va Hj; lia|by intros va _].
    intros f π Hf Hπ. rewrite Hd2 by exact Hπ. by apply (af_tables _ _ _ _ _ A1).
Qed.

End heap.
