(* ===== verification/VmmNew.v ===== *)
(** * A process's address space: [vmm_new] of [src/kernel/mm/vmm.c]

    [vmm_new] takes a frame for the structure and one for the top-level table,
    and copies the kernel's top-level entries, so that the new space sees the
    kernel's translations through the same lower tables. *)

From S2P Require Import Prelude Machine Util Spinlock Frames Vmm Kheap.

Section vmm_new.
Context `{FO : FrameOps, FV : FrameView, FL : !FrameLaws}.

(** Two top-level tables with the same entries translate alike. *)
Lemma mapping_same_entries m r root : (∀ i, 0 ≤ i < 512 → entry m r i = entry m root i) →
  ∀ va, mapping m r va = mapping m root va.
Proof.
  intros He va. unfold mapping, path. cbn [descend]. by rewrite He by (by apply lvl_offset_range).
Qed.

(** A frame taken for oneself: [new_arena_frames] with one frame. *)
Lemma take_frame s v root live : heap_inv s v root live →
  safe (frame_alloc 1) s (λ addr s1, ∃ f, addr = f * PAGE_SIZE ∧ frames_new s s1 f 1 ∧
    heap_inv s1 v root live ∧ arena_frames s1 v root f 1 ∧
    (∀ q n, live !! q = Some n → f + 1 ≤ q ∨ q + n ≤ f) ∧ same_globals s s1 ∧
    ∀ q n, arena_frames s v root q n → (q + n ≤ f ∨ f + 1 ≤ q) ∧ arena_frames s1 v root q n ∧
      ∀ x, page_bytes q n x → byte (ram s1) x = byte (ram s) x).
Proof.
  intros HI. pose proof (h_space _ _ _ _ HI) as I.
  eapply safe_mono; [by apply (frame_alloc_ok s 1 (vm_alloc _ _ _ _ I))|].
  intros r s1 (f & -> & N). destruct (alloc_grows s s1 _ v root f 1 I N) as (G0 & _ & _).
  assert (grows (in_range v 4) s s1 (vmm_kernel s) v root) as G by by eapply grows_mono; [|exact G0].
  destruct (heap_grows s s1 v root live HI G) as [H1 B1]; [by eapply (grows_unlocked s), HI|].
  exists f. split_and!; try done.
  - eapply new_arena_frames; [exact I|lia|exact N].
  - eapply frames_apart_live; [exact HI|lia|exact N].
  - apply (new_globals _ _ _ _ N).
  - intros q n A. split; [|by eapply grows_arena].
    destruct (af_range _ _ _ _ _ A) as (_ & Hn & _). pose proof (af_taken _ _ _ _ _ A f) as Ht.
    destruct (decide (q ≤ f < q + n)) as [Hin|]; [|lia].
    destruct (new_fresh _ _ _ _ N f); [lia|]. by apply Ht.
Qed.

Section fields.
Context (v root : Z) (live : gmap Z Z).

(** What [vmm_new] has built before it copies: the structure in frame [f], the
    empty table in frame [r]. *)
Record new_parts (s : kstate) (f r : Z) : Prop := {
  np_heap : heap_inv s v root live;
  np_f : arena_frames s v root f 1;
  np_r : arena_frames s v root r 1;
  np_apart : f ≠ r ∧ ∀ q n, live !! q = Some n →
    (f + 1 ≤ q ∨ q + n ≤ f) ∧ (r + 1 ≤ q ∨ q + n ≤ r);
  np_pml : rd 8 (ram s) (f * PAGE_SIZE + 8) = r * PAGE_SIZE + hhdm_offset s;
}.

Lemma arena_field s f k : arena_frames s v root f 1 → 0 ≤ k →
  cell (hhdm_offset s) (f * PAGE_SIZE + hhdm_offset s + k) = f * PAGE_SIZE + k.
Proof. intros A Hk. by eapply arena_cell. Qed.

Lemma vmm_fields_new s f : heap_inv s v root live → arena_frames s v root f 1 →
  (∀ q n, live !! q = Some n → f + 1 ≤ q ∨ q + n ≤ f) →
  safe (vmm_fields (f * PAGE_SIZE + hhdm_offset s)) s (λ _ s', ∃ r, new_parts s' f r ∧
    same_globals s s' ∧ ¬ fr_taken s r ∧ (∀ q n x, live !! q = Some n → page_bytes q n x →
      byte (ram s') x = byte (ram s) x)).
Proof.
  intros HI A Hap. pose proof (vm_hhdm _ _ _ _ (h_space _ _ _ _ HI)) as Hh.
  unfold vmm_fields, vmm_arena_addr, vmm_lock_addr, vmm_pml_addr. do 4 sstep.
  set (m1 := wr 4 (wr 8 (ram s) (f * PAGE_SIZE + 16) 0) (f * PAGE_SIZE) SPINLOCK_INIT).
  assert (store 4 (f * PAGE_SIZE + hhdm_offset s) SPINLOCK_INIT
    (store 8 (f * PAGE_SIZE + hhdm_offset s + 16) 0 s) = set_ram m1 s) as ->.
  { unfold store. cbn [hhdm_offset ram set_ram]. rewrite (arena_field s f 16) by (done || lia).
    rewrite <- (Z.add_0_r (f * PAGE_SIZE + hhdm_offset s)), (arena_field s f 0) by (done || lia).
    by rewrite Z.add_0_r. }
  assert (same_outside (page_bytes f 1) (ram s) m1) as Hm1.
  { eapply same_outside_trans; eapply same_outside_mono; [|apply (same_outside_wr 8)|
      |apply (same_outside_wr 4)]; unfold page_bytes, in_range, PAGE_SIZE; lia. }
  destruct (heap_write s v root live f 1 m1 HI A Hap Hm1) as (H1 & A1 & _ & B1). sstep.
  eapply safe_mono; [by apply (take_frame (set_ram m1 s) v root live)|].
  intros x s2 (r & -> & N & H2 & Ar & Hapr & HG & Hkeep).
  destruct (Hkeep f 1 A1) as (Hne & A2 & B2). pose proof HG as (Eh & _ & _ & _ & _).
  unfold get_hhdm, load, store. do 7 sstep. cbn [hhdm_offset ram set_ram]. cbn in Eh. rewrite <- Eh.
  rewrite !arena_field by (done || lia). rewrite (rd_wr_same 8).
  destruct (af_range _ _ _ _ _ Ar) as (Hr1 & _ & Hr52 & Hr64). cbn [hhdm_offset set_ram] in Hr64.
  change (256 ^ Z.of_nat 8) with (2 ^ 64). unfold PAGE_SIZE in Hr52, Hr64.
  rewrite Z.mod_small by (unfold PAGE_SIZE; lia). rewrite u64_small by (unfold PAGE_SIZE; lia).
  set (m2 := wr 8 _ _ (_ + _)). change (set_ram m2 (set_ram _ s2)) with (set_ram m2 s2).
  assert (same_outside (page_bytes f 1) (ram s2) m2) as Hm2.
  { eapply same_outside_trans; (eapply same_outside_mono; [|apply (same_outside_wr 8)]);
      unfold page_bytes, in_range, PAGE_SIZE; lia. }
  destruct (heap_write s2 v root live f 1 m2 H2 A2 Hap Hm2) as (H3 & A3 & _ & B3).
  exists r. split_and!; [split|..].
  - done.
  - done.
  - destruct (arena_write s2 v root f 1 m2 (h_space _ _ _ _ H2) A2 Hm2) as (_ & _ & Hd & _ & Ht & Hp).
    eapply arena_frames_keep; [exact Ar|done|by intros g _; rewrite Ht|done|].
    intros g π _ Hπ. cbn [ram set_ram]. by rewrite Hd.
  - split; [lia|]. intros q n Hq. split; [by apply Hap|by apply Hapr].
  - cbn [ram set_ram hhdm_offset]. unfold m2. rewrite (rd_wr_same 8).
    change (256 ^ Z.of_nat 8) with (2 ^ 64). apply Z.mod_small. unfold PAGE_SIZE. lia.
  - by destruct HG as (? & ? & ? & ? & ?).
  - destruct (arena_write s v root f 1 m1 (h_space _ _ _ _ HI) A Hm1) as (_ & _ & _ & _ & Ht & _).
    rewrite <- Ht. apply (new_fresh _ _ _ _ N). lia.
  - intros q n x Hq Hx. cbn [ram set_ram]. rewrite (B3 q n) by done.
    destruct (Hkeep q n) as (_ & _ & B2'); [by apply (h_frames _ _ _ _ H1)|].
    rewrite B2' by done. by apply (B1 q n).
Qed.

Lemma parts_grow s s' f r : new_parts s f r → grows (in_range v 4) s s' (vmm_kernel s) v root →
  unlocked s' v → new_parts s' f r.
Proof.
  intros [HI Af Ar Hap Hp] G Hl. pose proof (h_space _ _ _ _ HI) as I.
  destruct (heap_grows s s' v root live HI G Hl) as [HI' _].
  destruct (grows_arena s s' _ v root f 1 I G Af) as [Af' Bf].
  destruct (grows_arena s s' _ v root r 1 I G Ar) as [Ar' _].
  split; try done. rewrite (grows_hhdm _ _ _ _ _ _ G), <- Hp. apply rd_ext. intros x Hx.
  apply Bf. unfold page_bytes, in_range, PAGE_SIZE in *. lia.
Qed.

(** One entry copied. *)
Lemma parts_copy s f r i e : new_parts s f r → 0 ≤ i < 512 →
  let s' := set_ram (wr 8 (ram s) (r * PAGE_SIZE + 8 * i) e) s in
  new_parts s' f r ∧ (∀ va, mapping (ram s') root va = mapping (ram s) root va) ∧
  ∀ q n x, live !! q = Some n → page_bytes q n x → byte (ram s') x = byte (ram s) x.
Proof.
  intros [HI Af Ar [Hne Hap] Hp] Hi s'. set (m := wr 8 _ _ _) in s'.
  assert (same_outside (page_bytes r 1) (ram s) m) as Hm.
  { eapply same_outside_mono; [|apply (same_outside_wr 8)].
    unfold page_bytes, in_range, PAGE_SIZE. lia. }
  destruct (heap_write s v root live r 1 m HI Ar ltac:(intros q n Hq; by apply Hap) Hm)
    as (HI' & Ar' & Hmap & B).
  destruct (arena_write s v root r 1 m (h_space _ _ _ _ HI) Ar Hm) as (_ & _ & Hd & _ & Ht & Hpr).
  split_and!; [split; try done|done|done].
  - unfold s'. eapply arena_frames_keep; [exact Af|done|by intros g _; rewrite Ht|done|].
    intros g π _ Hπ. cbn [ram set_ram]. by rewrite Hd.
  - unfold s'. cbn [ram set_ram hhdm_offset]. rewrite <- Hp. apply (rd_wr_other 8 8).
    unfold PAGE_SIZE. lia.
Qed.

Definition copy_entry (new_vmm kernel i : Z) : M kstate unit :=
  dst ← gets (λ s, load 8 s (vmm_pml_addr new_vmm));
  src ← gets (λ s, load 8 s (vmm_pml_addr kernel));
  e ← gets (λ s, load 8 s (u64 (src + 8 * i)));
  modify (store 8 (u64 (dst + 8 * i)) e).

Lemma copy_entry_ok s f r i : new_parts s f r → 0 ≤ i < 512 →
  copy_entry (f * PAGE_SIZE + hhdm_offset s) (vmm_kernel s) i s =
    Ok (tt, set_ram (wr 8 (ram s) (r * PAGE_SIZE + 8 * i) (entry (ram s) root i)) s).
Proof.
  intros [HI Af Ar _ Hp] Hi. pose proof (h_space _ _ _ _ HI) as I.
  pose proof (vm_hhdm _ _ _ _ I) as Hh.
  unfold copy_entry, mbind, M_bind, gets, modify. cbn [bind_result fst snd].
  rewrite (load_pml s _ v root I).
  assert (load 8 s (vmm_pml_addr (f * PAGE_SIZE + hhdm_offset s)) = r * PAGE_SIZE + hhdm_offset s) as ->.
  { unfold load, vmm_pml_addr. by rewrite (arena_field s f 8) by (done || lia). }
  rewrite load_entry; [|by apply (tree_frame _ _ (vm_tree _ _ _ _ I) []); [solve_path|]|done..].
  unfold store. destruct (af_range _ _ _ _ _ Ar) as (Hr1 & _ & _ & H64).
  rewrite u64_small by (unfold PAGE_SIZE in *; lia).
  by rewrite (arena_field s r (8 * i)) by (done || lia).
Qed.

(** The copy loop. *)
Lemma copy_loop s f r : new_parts s f r →
  safe (for_each (seqZ 0 512) (copy_entry (f * PAGE_SIZE + hhdm_offset s) (vmm_kernel s))) s (λ _ s',
    new_parts s' f r ∧ same_globals s s' ∧ cr3 s' = cr3 s ∧
    (∀ i, 0 ≤ i < 512 → entry (ram s') (r * PAGE_SIZE) i = entry (ram s') root i) ∧
    (∀ va, mapping (ram s') root va = mapping (ram s) root va) ∧
    ∀ q n x, live !! q = Some n → page_bytes q n x → byte (ram s') x = byte (ram s) x).
Proof.
  intros P. eapply safe_mono; [apply (safe_for_each _ _ (λ l t, new_parts t f r ∧ same_globals s t ∧
    (∀ i, i ∈ l → entry (ram t) (r * PAGE_SIZE) i = entry (ram t) root i) ∧
    (∀ va, mapping (ram t) root va = mapping (ram s) root va) ∧
    ∀ q n x, live !! q = Some n → page_bytes q n x → byte (ram t) x = byte (ram s) x))|].
  - intros l i rest t Hseq (Pt & HG & He & Hm & Hb). pose proof HG as (Eh & _ & _ & Ek & _).
    assert (∀ j, j ∈ seqZ 0 512 → 0 ≤ j < 512) as Hin by (intros j ?%elem_of_seqZ; lia).
    assert (0 ≤ i < 512) as Hi. { apply Hin. rewrite Hseq, elem_of_app. right. by left. }
    destruct (parts_copy t f r i (entry (ram t) root i) Pt Hi) as (Pt' & Hm' & Hb').
    unfold safe. rewrite <- Eh, <- Ek, (copy_entry_ok t f r i Pt Hi).
    split_and!; [done|by destruct HG as (? & ? & ? & ? & ?)| |by intros va; rewrite Hm', Hm|].
    + pose proof Pt as [HI _ Ar _ _]. pose proof (h_space _ _ _ _ HI) as I.
      assert (frame_ok t root) as Fr by by apply (tree_frame _ _ (vm_tree _ _ _ _ I) []); [solve_path|].
      destruct (fo_frame _ _ Fr) as (p & Hp & _).
      assert (p ≠ r) as Hpr.
      { intros ->. apply (af_tables _ _ _ _ _ Ar r [] ltac:(lia)); [solve_path|]. cbn. by rewrite Hp. }
      assert (∀ e j, 0 ≤ j < 512 → entry (wr 8 (ram t) (r * PAGE_SIZE + 8 * i) e) root j =
        entry (ram t) root j) as Hroot.
      { intros e j Hj. unfold entry. apply (rd_wr_other 8 8). rewrite Hp. unfold PAGE_SIZE. lia. }
      cbn [ram set_ram]. intros j Hj.
      destruct (decide (j = i)) as [->|Hji].
      * rewrite Hroot by done. rewrite entry_wr_same. apply u64_small, (rd_range 8).
      * apply elem_of_app in Hj as [Hj|Hj%list_elem_of_singleton]; [|done].
        assert (0 ≤ j < 512) as Hj' by (apply Hin; rewrite Hseq, elem_of_app; by left).
        rewrite Hroot by done. rewrite <- (He j Hj). unfold entry. apply (rd_wr_other 8 8). lia.
    + intros q n x Hq Hx. rewrite (Hb' q n) by done. by apply (Hb q n).
  - split_and!; try done. intros i Hi. by apply elem_of_nil in Hi.
  - intros u t (Pt & HG & He & Hm & Hb). split_and!; try done; [by apply HG|].
    intros i Hi. apply He, elem_of_seqZ. lia.
Qed.

End fields.

(** [vmm_new] keeps the kernel's space and the heap, and returns a structure
    whose table translates every address as the kernel's does. *)
Record space_created (s s' : kstate) (v root : Z) (live : gmap Z Z) (p : Z) : Prop := {
  sc_heap : heap_inv s' v root live;
  sc_kernel : vmm_kernel s' = vmm_kernel s;
  sc_globals : same_globals s s';
  sc_keep : ∀ q n x, live !! q = Some n → page_bytes q n x → byte (ram s') x = byte (ram s) x;
  sc_frames : ∃ f r, p = f * PAGE_SIZE + hhdm_offset s' ∧ 1 ≤ f ∧ f ≠ r ∧
    ¬ fr_taken s f ∧ ¬ fr_taken s r ∧ fr_taken s' f ∧ fr_taken s' r ∧
    rd 8 (ram s') (f * PAGE_SIZE + 8) = r * PAGE_SIZE + hhdm_offset s' ∧
    ∀ va, mapping (ram s') (r * PAGE_SIZE) va = mapping (ram s') root va;
}.

Lemma vmm_new_ok s v root live : heap_inv s v root live →
  safe vmm_new s (λ p s', space_created s s' v root live p).
Proof.
  intros HI. unfold vmm_new. sstep. eapply safe_mono; [by apply (take_frame s v root live)|].
  intros x s1 (f & -> & N & H1 & A1 & Hap & HG1 & Hkeep). unfold get_hhdm. do 2 sstep.
  destruct (af_range _ _ _ _ _ A1) as (Hf1 & _ & _ & H64).
  pose proof (vm_hhdm _ _ _ _ (h_space _ _ _ _ H1)) as Hh1.
  rewrite u64_small by (unfold PAGE_SIZE in *; lia). cbv zeta. sstep.
  eapply safe_mono; [by apply (vmm_fields_new v root live)|].
  intros u2 s2 (r & P2 & HG2 & Hr & B2). do 2 sstep. pose proof HG2 as (Eh2 & _).
  rewrite <- Eh2. sstep.
  eapply safe_mono; [apply (vmm_map_page_ok s2 _ v root); [apply (h_space _ _ _ _ (np_heap _ _ _ _ _ _ P2))|
    apply (h_unlocked _ _ _ _ (np_heap _ _ _ _ _ _ P2))]|].
  intros ok3 s3 (G3 & Hl3 & _ & _). pose proof (parts_grow v root live s2 s3 f r P2 G3 Hl3) as P3.
  pose proof (gr_globals _ _ _ _ _ _ G3) as HG3. pose proof HG3 as (Eh3 & _ & _ & Ek3 & _).
  destruct (heap_grows s2 s3 v root live (np_heap _ _ _ _ _ _ P2) G3 Hl3) as [_ B3].
  do 2 sstep. rewrite <- Ek3. sstep.
  eapply safe_mono; [apply (vmm_map_page_ok s3 _ v root); [apply (h_space _ _ _ _ (np_heap _ _ _ _ _ _ P3))|done]|].
  intros ok4 s4 (G4 & Hl4 & _ & _). pose proof (parts_grow v root live s3 s4 f r P3 G4 Hl4) as P4.
  pose proof (gr_globals _ _ _ _ _ _ G4) as HG4. pose proof HG4 as (Eh4 & _ & _ & Ek4 & _).
  destruct (heap_grows s3 s4 v root live (np_heap _ _ _ _ _ _ P3) G4 Hl4) as [_ B4].
  rewrite <- Eh3, <- Eh4, <- Ek4. sstep.
  eapply safe_mono; [by apply (copy_loop v root live s4 f r)|].
  intros u5 s5 (P5 & HG5 & _ & He & _ & B5). sstep. pose proof HG5 as (Eh5 & _ & _ & Ek5 & _).
  rewrite <- Eh5.
  pose proof (same_globals_trans _ _ _ HG1 (same_globals_trans _ _ _ HG2 (same_globals_trans _ _ _
    HG3 (same_globals_trans _ _ _ HG4 HG5)))) as HG.
  split; [apply P5|apply HG|done| |].
  - intros q n x Hq Hx. rewrite (B5 q n), (B4 q n), (B3 q n), (B2 q n) by done.
    apply (Hkeep q n); [by apply (h_frames _ _ _ _ HI)|done].
  - exists f, r. pose proof P5 as [_ Af Ar [Hne _] Hp]. split_and!; try done.
    + apply (new_fresh _ _ _ _ N). lia.
    + intros Htk. apply Hr, (new_taken _ _ _ _ N). by left.
    + apply (af_taken _ _ _ _ _ Af). lia.
    + apply (af_taken _ _ _ _ _ Ar). lia.
    + by apply mapping_same_entries.
Qed.

End vmm_new.
