(* ===== verification/Heap.v ===== *)
(** * The interface between memory management and processes

    [process.c] and [scheduler.c] use [kalloc], [kfree], [vmm_new] and
    [vmm_switch_pml].  [HeapOps] names them, [HeapView] is the abstract state (the
    set of blocks handed out, and which bytes they consist of), [HeapLaws] what memory management promises.  The
    theorems on processes are proved against this interface; [KheapCorrect]
    discharges it with the heap and the page tables. *)

From S2P Require Import Prelude Machine.

Class HeapOps := {
  heap_alloc : Z → M kstate Z;             (* kalloc *)
  heap_free : Z → M kstate unit;           (* kfree *)
  space_new : M kstate Z;                  (* vmm_new *)
  space_switch : Z → M kstate unit;        (* vmm_switch_pml *)
}.

Class HeapView := {
  heap_ok : kstate → gset Z → Prop;        (* the blocks in use *)
  heap_data : kstate → Z → Z → Prop;       (* the RAM bytes that are a block's to write *)
  space_loaded : kstate → Z → Prop;        (* the processor translates with this space *)
}.

(** The bytes of the blocks [X] stay theirs and are unchanged. *)
Definition blocks_kept `{HeapView} (s s' : kstate) (X : gset Z) : Prop :=
  hhdm_offset s' = hhdm_offset s ∧
  ∀ p x, p ∈ X → heap_data s p x → heap_data s' p x ∧ byte (ram s') x = byte (ram s) x.

Class HeapLaws `{HeapOps, HeapView} := {
  (** A new block: not NULL, not in use, filled with zeros; or a panic. *)
  heap_alloc_ok : ∀ s B size, heap_ok s B → 0 ≤ size ≤ 2 ^ 32 →
    safe (heap_alloc size) s (λ p s', 0 < p < 2 ^ 64 ∧ ¬ (p ∈ B) ∧ heap_ok s' ({[p]} ∪ B) ∧
      (∀ (k : nat) i, 0 ≤ i → i + Z.of_nat k ≤ size → load k s' (p + i) = 0) ∧
      blocks_kept s s' B ∧ hhdm_offset s < p ∧ p + size ≤ 2 ^ 64 ∧
      ∀ i, 0 ≤ i < size → heap_data s' p (cell (hhdm_offset s') (p + i)));
  (** The owner of a block may write it. *)
  heap_write_ok : ∀ s B p m, heap_ok s B → p ∈ B → same_outside (heap_data s p) (ram s) m →
    heap_ok (set_ram m s) B ∧ blocks_kept s (set_ram m s) (B ∖ {[p]}) ∧
    ∀ x, heap_data s p x → heap_data (set_ram m s) p x;
  heap_free_ok : ∀ s B p, heap_ok s B → p ∈ B →
    runs (heap_free p) s (λ _ s', heap_ok s' (B ∖ {[p]}) ∧ blocks_kept s s' (B ∖ {[p]}));
  space_new_ok : ∀ s B, heap_ok s B →
    safe space_new s (λ p s', 0 < p ∧ heap_ok s' B ∧ blocks_kept s s' B);
  space_switch_ok : ∀ s B vmm, heap_ok s B →
    runs (space_switch vmm) s (λ _ s', heap_ok s' B ∧ blocks_kept s s' B ∧ space_loaded s' vmm);
}.

Section kept.
Context `{HO : HeapOps, HV : HeapView}.

Lemma blocks_kept_refl s X : blocks_kept s s X.
Proof. by split. Qed.

Lemma blocks_kept_trans s1 s2 s3 X : blocks_kept s1 s2 X → blocks_kept s2 s3 X → blocks_kept s1 s3 X.
Proof.
  intros [E1 H1] [E2 H2]. split; [congruence|]. intros p x Hp Hx.
  destruct (H1 p x Hp Hx) as [Hx' ->%eq_sym]. by apply H2.
Qed.

Lemma blocks_kept_mono s s' X Y : Y ⊆ X → blocks_kept s s' X → blocks_kept s s' Y.
Proof. intros HY [E H]. split; [done|]. intros p x Hp. apply H. by apply HY. Qed.

(** Of the blocks [X], an operation leaves the blocks [Y] alone. *)
Definition mem_kept (s s' : kstate) (X Y : gset Z) : Prop :=
  ∀ B, heap_ok s B → X ⊆ B → ∃ B', heap_ok s' B' ∧ Y ⊆ B' ∧ blocks_kept s s' Y.

Lemma mem_kept_refl s X : mem_kept s s X X.
Proof. intros B HB HX. exists B. split_and!; [done..|]. apply blocks_kept_refl. Qed.

Lemma mem_kept_trans s1 s2 s3 X Y Z : Z ⊆ Y → mem_kept s1 s2 X Y → mem_kept s2 s3 Y Z → mem_kept s1 s3 X Z.
Proof.
  intros HZ H1 H2 B HB HX. destruct (H1 B HB HX) as (B2 & HB2 & HX2 & K1).
  destruct (H2 B2 HB2 HX2) as (B3 & HB3 & HX3 & K2). exists B3. split_and!; [done..|].
  eapply blocks_kept_trans; [exact (blocks_kept_mono _ _ _ _ HZ K1)|exact K2].
Qed.

(** Words in a kept block are kept. *)
Lemma load_kept s s' X p (k : nat) a : blocks_kept s s' X → p ∈ X → hhdm_offset s ≤ a →
  (∀ i, 0 ≤ i < Z.of_nat k → heap_data s p (cell (hhdm_offset s) (a + i))) → load k s' a = load k s a.
Proof.
  intros [E H] Hp Ha Hd. unfold load. rewrite E. apply rd_ext. intros x Hx.
  apply (H p x Hp). specialize (Hd (x - cell (hhdm_offset s) a)). unfold cell in *.
  rewrite (proj2 (Z.leb_le _ _)) in * by lia.
  rewrite (proj2 (Z.leb_le _ _)) in Hd by lia.
  replace (a + (x - (a - hhdm_offset s)) - hhdm_offset s) with x in Hd by lia. apply Hd. lia.
Qed.

End kept.
