(* ===== verification/KheapCorrect.v ===== *)
(** * Correctness of the kernel heap, and its interface to processes

    The theorems on [kheap.c] and [vmm_new], and the instance of [HeapLaws] that
    the process theorems build on. *)

From S2P Require Import Prelude Machine Util Spinlock Pmm Frames PmmFrames.
From S2P Require Import Vmm VmmCorrect Kheap VmmNew Heap.

(** ** The interface *)

Section instance.
Context `{FO : FrameOps, FV : FrameView, FL : !FrameLaws}.

#[export] Instance kheap_ops : HeapOps := {
  heap_alloc := kalloc;
  heap_free := kfree;
  space_new := vmm_new;
  space_switch := vmm_switch_pml;
}.

(** The first frame of the arena of a block. *)
Definition frame_of_block (s : kstate) (p : Z) : Z := (p - 48 - hhdm_offset s) / PAGE_SIZE.

#[export] Instance kheap_view : HeapView := {
  heap_ok s B := ∃ v root live, heap_inv s v root live ∧
    ∀ p, p ∈ B ↔ ∃ q n, live !! q = Some n ∧ p = block s q;
  heap_data s p x := let q := frame_of_block s p in
    block_bytes q (rd 8 (ram s) (q * PAGE_SIZE + 16) / PAGE_SIZE) x;
  space_loaded s vmm := cr3 s = u64 (load 8 s (vmm_pml_addr vmm) - hhdm_offset s);
}.

Lemma frame_of_block_eq s q : frame_of_block s (block s q) = q.
Proof. unfold frame_of_block, block. rewrite <- (Z.div_mul q PAGE_SIZE) at 2 by done. f_equal. lia. Qed.

Lemma block_data s v root live q n x : heap_inv s v root live → live !! q = Some n →
  heap_data s (block s q) x ↔ block_bytes q n x.
Proof.
  intros H Hq. unfold heap_data, kheap_view. cbv zeta. rewrite frame_of_block_eq, (ah_size _ _ _ (h_header _ _ _ _ H q n Hq)).
  by rewrite Z.div_mul by done.
Qed.

(** Two states of the heap: the blocks that are live in both, with the same bytes. *)
Lemma kept_blocks s s' v root live live' X :
  heap_inv s v root live → heap_inv s' v root live' → hhdm_offset s' = hhdm_offset s →
  (∀ p, p ∈ X → ∃ q n, live !! q = Some n ∧ live' !! q = Some n ∧ p = block s q) →
  (∀ q n x, live !! q = Some n → live' !! q = Some n → page_bytes q n x →
    byte (ram s') x = byte (ram s) x) →
  blocks_kept s s' X.
Proof.
  intros HI HI' Eh HX Hb. split; [done|]. intros p x Hp Hx. destruct (HX p Hp) as (q & n & Hq & Hq' & ->).
  apply (block_data s v root live q n x HI Hq) in Hx. split.
  - assert (block s q = block s' q) as -> by (unfold block; by rewrite Eh).
    by apply (block_data s' v root live' q n x).
  - apply (Hb q n); [done..|]. unfold block_bytes, page_bytes, in_range in *. lia.
Qed.

Lemma rd_zero k a : rd k ∅ a = 0.
Proof. revert a. induction k as [|k IH]; intros a; cbn [rd]; [done|]. by rewrite IH. Qed.

Lemma block_inj s q q' : block s q = block s q' → q = q'.
Proof. unfold block, PAGE_SIZE. lia. Qed.

(** A new block comes from [k_alloc]. *)
Lemma kheap_alloc_law : ∀ s B size, heap_ok s B → 0 ≤ size ≤ 2 ^ 32 →
  safe (heap_alloc size) s (λ p s', 0 < p < 2 ^ 64 ∧ ¬ (p ∈ B) ∧ heap_ok s' ({[p]} ∪ B) ∧
    (∀ (k : nat) i, 0 ≤ i → i + Z.of_nat k ≤ size → load k s' (p + i) = 0) ∧
    blocks_kept s s' B ∧ hhdm_offset s < p ∧ p + size ≤ 2 ^ 64 ∧
    ∀ i, 0 ≤ i < size → heap_data s' p (cell (hhdm_offset s') (p + i))).
Proof.
  cbn -[rd heap_data].
  intros s B size (v & root & live & HI & HB) Hs.
  eapply safe_mono; [apply (k_alloc_ok s v root live); [done|lia|unfold PAGE_SIZE; lia]|].
  intros p s' (q & n & -> & [H' [Hnone _] Hroom Hz Hkeep (Eh & _) _]).
  assert (∀ q, block s' q = block s q) as Hblk by (intros; unfold block; by rewrite Eh).
  pose proof (h_frames _ _ _ _ H' q n ltac:(by rewrite lookup_insert_eq)) as A.
  destruct (af_range _ _ _ _ _ A) as (Hq & Hn & _ & H64).
  pose proof (vm_hhdm _ _ _ _ (h_space _ _ _ _ H')) as Hh.
  split_and!.
  + unfold block, PAGE_SIZE in *. lia.
  + unfold block, PAGE_SIZE in *. lia.
  + rewrite HB, Hblk. intros (q' & n' & Hq' & ->%block_inj). congruence.
  + exists v, root, (<[q := n]> live). split; [done|]. intros p.
    rewrite elem_of_union, elem_of_singleton, HB. split.
    * intros [->|(q' & n' & Hq' & ->)]; [exists q, n; by rewrite lookup_insert_eq|].
      exists q', n'. rewrite lookup_insert_ne by congruence. by rewrite Hblk.
    * intros (q' & n' & [[<- <-]|[Hne Hq']]%lookup_insert_Some & ->); [by left|].
      right. exists q', n'. by rewrite Hblk.
  + intros k i Hi Hik. unfold load, block.
    replace (q * PAGE_SIZE + hhdm_offset s' + 48 + i) with
      (q * PAGE_SIZE + 48 + i + hhdm_offset s') by lia.
    rewrite cell_hhdm by (unfold PAGE_SIZE; lia). rewrite (rd_ext k _ ∅), rd_zero; [done|].
    intros x Hx. rewrite Hz; [done|unfold in_range; lia].
  + eapply (kept_blocks s s' v root live); [done..| |by intros; eapply Hkeep].
    intros p (q' & n' & Hq' & ->)%HB. exists q', n'. split_and!; [done| |done].
    rewrite lookup_insert_ne by congruence. done.
  + unfold block, PAGE_SIZE. lia.
  + unfold block, PAGE_SIZE in *. lia.
  + intros i Hi. apply (block_data s' v root _ q n _ H'); [by rewrite lookup_insert_eq|].
    unfold block. replace (q * PAGE_SIZE + hhdm_offset s' + 48 + i) with
      (q * PAGE_SIZE + 48 + i + hhdm_offset s') by lia.
    rewrite cell_hhdm by (unfold PAGE_SIZE; lia). unfold block_bytes, in_range. lia.
Qed.

(** Writes inside a block leave the arenas in order. *)
Lemma kheap_write_law : ∀ s B p m, heap_ok s B → p ∈ B → same_outside (heap_data s p) (ram s) m →
  heap_ok (set_ram m s) B ∧ blocks_kept s (set_ram m s) (B ∖ {[p]}) ∧
  ∀ x, heap_data s p x → heap_data (set_ram m s) p x.
Proof.
  cbn -[rd heap_data].
  intros s B p m (v & root & live & HI & HB) Hp Hm. apply HB in Hp as (q & n & Hq & ->).
  assert (same_outside (block_bytes q n) (ram s) m) as Hm'.
  { eapply same_outside_mono; [|exact Hm]. intros x. by apply (block_data s v root live). }
  pose proof (block_write s v root live q n m HI Hq Hm') as HI'. split_and!.
  + exists v, root, live. by split.
  + apply (kept_blocks s _ v root live (delete q live)); [done|by apply heap_delete|done| |].
    * intros p [(q' & n' & Hq' & ->)%HB Hne]%elem_of_difference. exists q', n'. split_and!; [done| |done].
      apply lookup_delete_Some. split; [|done]. intros <-. by apply Hne, elem_of_singleton.
    * intros q' n' x Hq' [Hne _]%lookup_delete_Some Hx. apply Hm'. intros Hx'.
      destruct (h_apart _ _ _ _ HI q n q' n' Hq Hq' Hne);
        unfold block_bytes, page_bytes, in_range, PAGE_SIZE in *; lia.
  + intros x. change (block s q) with (block (set_ram m s) q) at 2.
    rewrite (block_data s v root live q n x), (block_data (set_ram m s) v root live q n x) by done. done.
Qed.

(** A block goes back through [k_free]. *)
Lemma kheap_free_law : ∀ s B p, heap_ok s B → p ∈ B →
  runs (heap_free p) s (λ _ s', heap_ok s' (B ∖ {[p]}) ∧ blocks_kept s s' (B ∖ {[p]})).
Proof.
  cbn -[rd heap_data].
  intros s B p (v & root & live & HI & HB) Hp. apply HB in Hp as (q & n & Hq & ->).
  eapply runs_mono; [by apply k_free_ok|]. intros u s' [H' _ (Eh & _) _ _ Hk].
  assert (∀ q, block s' q = block s q) as Hblk by (intros; unfold block; by rewrite Eh).
  split.
  + exists v, root, (delete q live). split; [done|]. intros p.
    rewrite elem_of_difference, elem_of_singleton, HB. split.
    * intros [(q' & n' & Hq' & ->) Hne]. exists q', n'. rewrite Hblk. split; [|done].
      apply lookup_delete_Some. split; [|done]. intros ->. done.
    * intros (q' & n' & [Hne Hq']%lookup_delete_Some & ->). rewrite Hblk.
      split; [by exists q', n'|]. by intros ?%block_inj.
  + eapply (kept_blocks s s' v root live); [done..| |by intros; eapply Hk].
    intros p [(q' & n' & Hq' & ->)%HB Hne]%elem_of_difference. exists q', n'. split_and!; [done| |done].
    apply lookup_delete_Some. split; [|done]. intros <-. by apply Hne, elem_of_singleton.
Qed.

Lemma kheap_space_law : ∀ s B, heap_ok s B →
  safe space_new s (λ p s', 0 < p ∧ heap_ok s' B ∧ blocks_kept s s' B).
Proof.
  cbn -[rd heap_data].
  intros s B (v & root & live & HI & HB). eapply safe_mono; [by apply (vmm_new_ok s v root live)|].
  intros p s' [H' _ (Eh & _) Hk (f & r & -> & Hf & _)].
  pose proof (vm_hhdm _ _ _ _ (h_space _ _ _ _ H')) as Hh. split_and!; [unfold PAGE_SIZE; lia| |].
  + exists v, root, live. split; [done|]. unfold block. by rewrite Eh.
  + eapply (kept_blocks s s' v root live live); [done..| |by intros; eapply Hk].
    intros p (q' & n' & Hq' & ->)%HB. by exists q', n'.
Qed.

Lemma kheap_switch_law : ∀ s B vmm, heap_ok s B →
  runs (space_switch vmm) s (λ _ s', heap_ok s' B ∧ blocks_kept s s' B ∧ space_loaded s' vmm).
Proof.
  cbn -[rd heap_data].
  intros s B vmm (v & root & live & [I Hl Ha Hf Hh Hd] & HB). cbn. split; [|by split]. exists v, root, live. split; [|done].
  destruct (globals_inv s (vmm_kernel s) (u64 (load 8 s (vmm_pml_addr vmm) - hhdm_offset s))
    (vm_alloc _ _ _ _ I)) as (_ & _ & HI'). rewrite set_cr3_eta.
  destruct (frame_globals_ok s (vmm_kernel s) (u64 (load 8 s (vmm_pml_addr vmm) - hhdm_offset s))
    (vm_alloc _ _ _ _ I)) as (_ & Ht & Hp).
  split; [by apply HI'|done|done| |by intros q n Hq; destruct (Hh q n Hq)|done].
  intros q n Hq. eapply arena_frames_keep; [by apply Hf|done|by intros f _; rewrite Ht|done|].
  by intros f π _ _.
Qed.

#[export] Instance kheap_laws : HeapLaws.
Proof.
  split; [exact kheap_alloc_law|exact kheap_write_law|exact kheap_free_law|exact kheap_space_law|
    exact kheap_switch_law].
Qed.

End instance.

(** ** The theorems *)

Section correct.
Context `{FO : FrameOps, FV : FrameView, FL : !FrameLaws}.

(** [C20] [k_alloc] returns, or panics when frames run out.  The block it returns
    lies behind a header at the start of frames that were free before: [size]
    bytes of zeros, inside the frames, overlapping no other live block; the
    contents of all other blocks are unchanged and the heap's invariant (with the
    new block) holds.  The frames are mapped at their direct-map addresses: a page
    that was mapped keeps its translation, any other one gets its frame, writable;
    no other translation changes. *)
Theorem k_alloc_correct (s : kstate) (v root : Z) (live : gmap Z Z) (size : Z) :
  heap_inv s v root live → 0 ≤ size → size + 48 + PAGE_SIZE ≤ 2 ^ 64 →
  safe (k_alloc size) s (λ p s', ∃ q n, p = q * PAGE_SIZE + hhdm_offset s + 48 ∧
    heap_inv s' v root (<[q := n]> live) ∧
    (∀ f, q ≤ f < q + n → ¬ fr_taken s f) ∧
    (∀ q' n', live !! q' = Some n' → q + n ≤ q' ∨ q' + n' ≤ q) ∧
    size + 48 ≤ n * PAGE_SIZE < size + 48 + PAGE_SIZE ∧
    (∀ x, in_range (q * PAGE_SIZE + 48) size x → byte (ram s') x = 0) ∧
    (∀ q' n' x, live !! q' = Some n' → page_bytes q' n' x → byte (ram s') x = byte (ram s) x) ∧
    (∀ i, 0 ≤ i < n → is_Some (mapping (ram s') root ((q + i) * PAGE_SIZE + hhdm_offset s))) ∧
    ∀ va, mapping (ram s') root va =
      or_else (mapping (ram s) root) (translate (arena_requests (hhdm_offset s) q n)) va).
Proof.
  intros HI H0 H1. eapply safe_mono; [by apply (k_alloc_ok s v root live)|].
  intros p s' (q & n & -> & [H' [Hnone Hfr] Hroom Hz Hk (Eh & _) Hm Htr]). exists q, n.
  unfold block. rewrite Eh in *. split_and!; try done; try lia.
  intros q' n' Hq'. eapply (h_apart _ _ _ _ H' q n q' n').
  - by rewrite lookup_insert_eq.
  - rewrite lookup_insert_ne by congruence. done.
  - congruence.
Qed.

(** [C21] [k_free] on a live block returns; the frames of its arena are free
    again and all others keep their owner, and the invariant holds without the
    block.  It also removes the mapping of the freed frames at their direct-map
    addresses: the allocator may hand the frames out again, but the addresses at
    which it would clear them are no longer mapped. *)
Theorem k_free_correct (s : kstate) (v root : Z) (live : gmap Z Z) (q n : Z) :
  heap_inv s v root live → live !! q = Some n →
  runs (k_free (q * PAGE_SIZE + hhdm_offset s + 48)) s (λ _ s',
    heap_inv s' v root (delete q live) ∧
    (∀ f, fr_taken s' f ↔ fr_taken s f ∧ ¬ (q ≤ f < q + n)) ∧
    (∀ i, 0 ≤ i < n → mapping (ram s') root ((q + i) * PAGE_SIZE + hhdm_offset s') = None) ∧
    (∀ va, (∀ i, 0 ≤ i < n → vpage va ≠ vpage ((q + i) * PAGE_SIZE + hhdm_offset s)) →
      mapping (ram s') root va = mapping (ram s) root va)).
Proof.
  intros HI Hq. eapply runs_mono; [by apply (k_free_ok s v root live)|].
  intros u s' [H' Ht (Eh & _) Hg Hk _]. split_and!; try done.
  intros i Hi. apply (Hg i); [done|]. by rewrite Eh.
Qed.


End correct.

(** ** Instances with the bitmap allocator *)

Lemma demo_arena_list : load 8 demo_space (vmm_arena_addr (vmm_kernel demo_space)) = 0.
Proof. vm_compute. reflexivity. Qed.

Lemma empty_heap s v root : vm_inv s (vmm_kernel s) v root → unlocked s v →
  load 8 s (vmm_arena_addr (vmm_kernel s)) = 0 → heap_inv s v root ∅.
Proof.
  intros I Hl Ha. unfold load, vmm_arena_addr in Ha.
  rewrite (field_cell s _ v root I) in Ha by (unfold PAGE_SIZE; lia).
  split; try done; intros *; by rewrite lookup_empty.
Qed.

Lemma demo_heap : ∃ v root, heap_inv demo_space v root ∅.
Proof.
  destruct demo_space_ok as (v & root & I & Hl & _). exists v, root.
  exact (empty_heap demo_space v root I Hl demo_arena_list).
Qed.

Lemma demo_heap_ok : heap_ok demo_space ∅.
Proof.
  destruct demo_heap as (v & root & H). exists v, root, ∅. split; [exact H|].
  intros p. split; [by intros ?%elem_of_empty|]. intros (q & n & Hq & _). by rewrite lookup_empty in Hq.
Qed.

Definition demo_block : kstate := run_state (k_alloc 100) demo_space.

Lemma demo_block_returns : returns (k_alloc 100 demo_space) = true.
Proof. vm_compute. reflexivity. Qed.

Lemma demo_block_heap : ∃ v root q n, heap_inv demo_block v root {[q := n]}.
Proof.
  destruct demo_heap as (v & root & HI).
  destruct (safe_run_state _ _ _ (k_alloc_ok demo_space v root ∅ 100 HI ltac:(lia)
    ltac:(unfold PAGE_SIZE; lia)) demo_block_returns) as (p & q & n & _ & [H' _ _ _ _ _ _ _]).
  exists v, root, q, n. exact H'.
Qed.

Lemma k_alloc_correct_witness : ∃ v root,
  safe (k_alloc 100) demo_space (λ p s', ∃ q n, p = q * PAGE_SIZE + hhdm_offset demo_space + 48 ∧
    heap_inv s' v root (<[q := n]> ∅) ∧
    (∀ f, q ≤ f < q + n → ¬ fr_taken demo_space f) ∧
    (∀ q' n', (∅ : gmap Z Z) !! q' = Some n' → q + n ≤ q' ∨ q' + n' ≤ q) ∧
    100 + 48 ≤ n * PAGE_SIZE < 100 + 48 + PAGE_SIZE ∧
    (∀ x, in_range (q * PAGE_SIZE + 48) 100 x → byte (ram s') x = 0) ∧
    (∀ q' n' x, (∅ : gmap Z Z) !! q' = Some n' → page_bytes q' n' x →
      byte (ram s') x = byte (ram demo_space) x) ∧
    (∀ i, 0 ≤ i < n → is_Some (mapping (ram s') root ((q + i) * PAGE_SIZE + hhdm_offset demo_space))) ∧
    ∀ va, mapping (ram s') root va =
      or_else (mapping (ram demo_space) root) (translate (arena_requests (hhdm_offset demo_space) q n)) va).
Proof.
  destruct demo_heap as (v & root & HI). exists v, root.
  apply (k_alloc_correct demo_space v root ∅ 100 HI); unfold PAGE_SIZE; lia.
Defined.

Lemma k_free_correct_witness : ∃ v root q n,
  runs (k_free (q * PAGE_SIZE + hhdm_offset demo_block + 48)) demo_block (λ _ s',
    heap_inv s' v root (delete q {[q := n]}) ∧
    (∀ f, fr_taken s' f ↔ fr_taken demo_block f ∧ ¬ (q ≤ f < q + n)) ∧
    (∀ i, 0 ≤ i < n → mapping (ram s') root ((q + i) * PAGE_SIZE + hhdm_offset s') = None) ∧
    (∀ va, (∀ i, 0 ≤ i < n → vpage va ≠ vpage ((q + i) * PAGE_SIZE + hhdm_offset demo_block)) →
      mapping (ram s') root va = mapping (ram demo_block) root va)).
Proof.
  destruct demo_block_heap as (v & root & q & n & HI). exists v, root, q, n.
  exact (k_free_correct demo_block v root {[q := n]} q n HI (lookup_singleton_eq q n)).
Defined.

