(* ===== verification/Process.v ===== *)
(** * Processes: [src/kernel/scheduler/process.c] and [process.h]

    Process control blocks live in heap blocks.  The model keeps them as typed
    objects, in a store keyed by address; an access through a pointer that
    designates no live object (NULL, or a block that was freed) is a [Fault].  A
    fresh object's fields are what the RAM of its block holds.  Execution contexts
    are words of RAM: the entry points of interrupts push and pop them.  Messages
    to the log are not modelled. *)

From S2P Require Import Prelude Machine Util Spinlock Heap.

Definition PROCESS_NAME_MAX_LEN : nat := 64.
Definition MAX_RESOURCE_IDS : Z := 255.
Definition DEFAULT_PROCESS_RUNNING_QUANTUM : Z := 3.
Definition STACK_SIZE : Z := 64 * 1024.
Definition KERNEL_MODE : Z := 0.
Definition USER_MODE : Z := 3.

Inductive status_t := SPAWNED | READY | RUNNING | SLEEPING | DEAD.
#[global] Instance status_eq_dec : EqDecision status_t.
Proof. solve_decision. Defined.

Definition status_of (n : Z) : status_t :=
  if n =? 0 then SPAWNED else if n =? 1 then READY else if n =? 2 then RUNNING
  else if n =? 3 then SLEEPING else DEAD.

Record process_t := Process {
  pid : Z;
  status : status_t;
  vmm : Z;
  resources : list Z;
  name : list Z;
  remaining_quantum : Z;
  wake_time : Z;
  next : Z;
  context : Z;
  ustack : Z;
  kstack : Z;
}.

Definition sizeof_process_t : Z := 2176.

(** The object a block of RAM holds, by the layout of the structure. *)
Definition process_at (m : kstate) (p : Z) : process_t := {|
  pid := load 8 m p;
  status := status_of (load 4 m (p + 8));
  vmm := load 8 m (p + 16);
  resources := (λ i, load 8 m (p + 24 + 8 * i)) <$> seqZ 0 MAX_RESOURCE_IDS;
  name := (λ i, load 1 m (p + 2064 + i)) <$> seqZ 0 64;
  remaining_quantum := s16 (load 2 m (p + 2128));
  wake_time := load 8 m (p + 2136);
  next := load 8 m (p + 2144);
  context := load 8 m (p + 2152);
  ustack := load 8 m (p + 2160);
  kstack := load 8 m (p + 2168);
|}.

Definition set_status (x : status_t) (p : process_t) : process_t :=
  Process (pid p) x (vmm p) (resources p) (name p) (remaining_quantum p) (wake_time p) (next p)
    (context p) (ustack p) (kstack p).
Definition set_next (x : Z) (p : process_t) : process_t :=
  Process (pid p) (status p) (vmm p) (resources p) (name p) (remaining_quantum p) (wake_time p) x
    (context p) (ustack p) (kstack p).
Definition set_quantum (x : Z) (p : process_t) : process_t :=
  Process (pid p) (status p) (vmm p) (resources p) (name p) x (wake_time p) (next p)
    (context p) (ustack p) (kstack p).
Definition set_wake_time (x : Z) (p : process_t) : process_t :=
  Process (pid p) (status p) (vmm p) (resources p) (name p) (remaining_quantum p) x (next p)
    (context p) (ustack p) (kstack p).
Definition set_context (x : Z) (p : process_t) : process_t :=
  Process (pid p) (status p) (vmm p) (resources p) (name p) (remaining_quantum p) (wake_time p)
    (next p) x (ustack p) (kstack p).

(** [execution_context] of [cpu.h] *)
Record execution_context := Context {
  rbp : Z; r15 : Z; r14 : Z; r13 : Z; r12 : Z; r11 : Z; r10 : Z; r9 : Z; r8 : Z;
  rsi : Z; rdi : Z; rdx : Z; rcx : Z; rbx : Z; rax : Z;
  int_number : Z; error_code : Z;
  iret_rip : Z; iret_cs : Z; iret_flags : Z; iret_rsp : Z; iret_ss : Z;
}.

Definition sizeof_execution_context : Z := 176.

Definition context_at (m : kstate) (c : Z) : execution_context :=
  let f i := load 8 m (c + 8 * i) in
  Context (f 0) (f 1) (f 2) (f 3) (f 4) (f 5) (f 6) (f 7) (f 8) (f 9) (f 10) (f 11) (f 12) (f 13)
    (f 14) (f 15) (f 16) (f 17) (f 18) (f 19) (f 20) (f 21).

(** ** The kernel's state as processes see it *)

Record pstate := PState {
  mem : kstate;
  procs : gmap Z process_t;
  processes_list : Z;
  current_process : Z;
  next_pid : Z;
  uptime : Z;                 (* timer.c *)
  rsp0 : Z;                   (* tss_instance.rsp0 of gdt.c *)
  interrupts : bool;          (* the interrupt flag *)
}.

Definition set_mem (x : kstate) (s : pstate) : pstate :=
  PState x (procs s) (processes_list s) (current_process s) (next_pid s) (uptime s)
    (rsp0 s) (interrupts s).
Definition set_procs (x : gmap Z process_t) (s : pstate) : pstate :=
  PState (mem s) x (processes_list s) (current_process s) (next_pid s) (uptime s)
    (rsp0 s) (interrupts s).
Definition set_list (x : Z) (s : pstate) : pstate :=
  PState (mem s) (procs s) x (current_process s) (next_pid s) (uptime s)
    (rsp0 s) (interrupts s).
Definition set_current (x : Z) (s : pstate) : pstate :=
  PState (mem s) (procs s) (processes_list s) x (next_pid s) (uptime s)
    (rsp0 s) (interrupts s).
Definition set_next_pid (x : Z) (s : pstate) : pstate :=
  PState (mem s) (procs s) (processes_list s) (current_process s) x (uptime s)
    (rsp0 s) (interrupts s).
Definition set_rsp0 (x : Z) (s : pstate) : pstate :=
  PState (mem s) (procs s) (processes_list s) (current_process s) (next_pid s)
    (uptime s) x (interrupts s).
Definition set_uptime (x : Z) (s : pstate) : pstate :=
  PState (mem s) (procs s) (processes_list s) (current_process s) (next_pid s) x
    (rsp0 s) (interrupts s).
Definition set_interrupts (x : bool) (s : pstate) : pstate :=
  PState (mem s) (procs s) (processes_list s) (current_process s) (next_pid s)
    (uptime s) (rsp0 s) x.

Definition on_mem {A} (c : M kstate A) : M pstate A := zoom mem set_mem c.

(** [*p] and [p->field = ...] *)
Definition proc (p : Z) : M pstate process_t :=
  λ s, match procs s !! p with Some x => Ok (x, s) | None => Fault end.
Definition update (p : Z) (f : process_t → process_t) : M pstate unit :=
  λ s, match procs s !! p with
       | Some x => Ok (tt, set_procs (<[p := f x]> (procs s)) s)
       | None => Fault
       end.
(** [process->context->field = v], for the [i]th word of the context *)
Definition put_context (process i v : Z) : M pstate unit :=
  p ← proc process;
  on_mem (modify (store 8 (context p + 8 * i) v)).

(** A lock on the caller's stack: nobody else ever holds it. *)
Definition with_local_lock {A} (c : M pstate A) : M pstate A :=
  λ s, bind_result (spinlock_acquire SPINLOCK_INIT) (λ l,
         bind_result (c s) (λ r,
           bind_result (spinlock_release l.2) (λ _, Ok r))).

Section process.
Context `{HO : HeapOps}.

(** [(process_t* ) kalloc(sizeof(process_t))] *)
Definition new_process : M pstate Z :=
  p ← on_mem (heap_alloc sizeof_process_t);
  modify (λ s, set_procs (<[p := process_at (mem s) p]> (procs s)) s);;
  mret p.
Definition new_context : M pstate Z := on_mem (heap_alloc sizeof_execution_context).

Definition alloc_stack (mode : Z) : M pstate Z :=
  if mode =? KERNEL_MODE then
    base ← on_mem (heap_alloc STACK_SIZE);
    mret (u64 (base + STACK_SIZE))
  else if mode =? USER_MODE then mret 0
  else panic "alloc_stack: invalid mode".

Definition process_get_list : M pstate Z := gets processes_list.
Definition process_get_current : M pstate Z := gets current_process.
Definition process_set_current (p : Z) : M pstate unit := modify (set_current p).
Definition process_get_current_vmm : M pstate Z :=
  c ← process_get_current; p ← proc c; mret (vmm p).

(** [while (iterator->next != NULL) iterator = iterator->next;] *)
Definition last_round (iterator : Z) : M pstate (Z + Z) :=
  p ← proc iterator;
  if next p =? 0 then mret (inr iterator) else mret (inl (next p)).

Definition process_add (process : Z) : M pstate unit :=
  iterator ← gets processes_list;
  update process (set_status READY);;
  if iterator =? 0 then modify (set_list process)
  else
    last ← loop last_round iterator;
    update last (set_next process).

(** [kstrcpy(process->name, name, PROCESS_NAME_MAX_LEN)] for the C string [str]. *)
Definition copy_name (str : list Z) : list Z := take PROCESS_NAME_MAX_LEN (str ++ [0]).

(** The allocations of [process_create] and the first context; [wrapper] is the
    address of [process_execution_wrapper]. *)
Definition process_alloc (wrapper function arg : Z) : M pstate Z :=
  process ← new_process;
  ctx ← new_context;
  update process (set_context ctx);;
  stack ← alloc_stack KERNEL_MODE;
  update process (λ p, Process (pid p) (status p) (vmm p) (resources p) (name p)
    (remaining_quantum p) (wake_time p) (next p) (context p) 0 stack);;
  p ← proc process;
  put_context process 21 0x30;;
  put_context process 20 (kstack p);;
  put_context process 19 0x202;;
  put_context process 18 0x28;;
  put_context process 17 wrapper;;
  put_context process 10 function;;
  put_context process 9 arg;;
  put_context process 0 0;;
  mret process.

Definition process_create (wrapper : Z) (str : list Z) (function arg : Z) : M pstate Z :=
  process ← process_alloc wrapper function arg;
  n ← gets next_pid;
  modify (set_next_pid (u64 (n + 1)));;
  update process (λ p, Process n SPAWNED (vmm p) (resources p)
    (copy_name str ++ drop (length (copy_name str)) (name p))
    (remaining_quantum p) (wake_time p) (next p) (context p) (ustack p) (kstack p));;
  v ← on_mem space_new;
  update process (λ p, Process (pid p) (status p) v (resources p) (name p)
    (remaining_quantum p) (wake_time p) (next p) (context p) (ustack p) (kstack p));;
  process_add process;;
  modify (set_interrupts true);;
  mret process.

(** [while (scan->next != process) { scan = scan->next; if (scan == NULL) panic }] *)
Definition scan_round (process scan : Z) : M pstate (Z + Z) :=
  p ← proc scan;
  if next p =? process then mret (inr scan)
  else if next p =? 0 then
    panic "deleting a process with pid: %d that is not part of linked list"
  else mret (inl (next p)).

Definition process_unlink (process : Z) : M pstate unit :=
  l ← gets processes_list;
  if l =? process then
    p ← proc process;
    modify (set_list (next p))
  else
    scan ← loop (scan_round process) l;
    p ← proc process;
    update scan (set_next (next p)).

(** [setting current_process] *)
Definition advance_current : M pstate unit :=
  c ← gets current_process;
  p ← proc c;
  if negb (next p =? 0) then modify (set_current (next p))
  else l ← gets processes_list; modify (set_current l).

Definition process_delete (process : Z) : M pstate unit :=
  if process =? 0 then mret tt
  else with_local_lock (
    process_unlink process;;
    advance_current;;
    on_mem (heap_free process);;
    modify (λ s, set_procs (delete process (procs s)) s)).

(** [process_exit]: what runs when a process's function returns, up to the
    interrupt that [scheduler_yield] fires. *)
Definition process_exit : M pstate unit :=
  c ← process_get_current;
  update c (set_status DEAD).

End process.

(** ** The process list *)

(** [linked ps p l]: following [next] from [p] visits the processes [l], then NULL. *)
Fixpoint linked (ps : gmap Z process_t) (p : Z) (l : list Z) : Prop :=
  match l with
  | [] => p = 0
  | x :: l' => p = x ∧ x ≠ 0 ∧ ∃ pr, ps !! x = Some pr ∧ linked ps (next pr) l'
  end.

Definition head_of (l : list Z) : Z := default 0 (head l).

Lemma linked_head ps p l : linked ps p l → p = head_of l.
Proof. destruct l; simpl; [done|]. by intros [-> _]. Qed.

Lemma linked_nonzero ps p l x : linked ps p l → x ∈ l → x ≠ 0.
Proof.
  revert p. induction l as [|y l IH]; intros p; [by intros _ ?%elem_of_nil|].
  intros (_ & Hy & pr & _ & Hl) [->|Hx]%elem_of_cons; [done|by eapply IH].
Qed.

(** Only the links of the members matter. *)
Lemma linked_ext ps ps' p l : linked ps p l →
  (∀ x pr, x ∈ l → ps !! x = Some pr → ∃ pr', ps' !! x = Some pr' ∧ next pr' = next pr) →
  linked ps' p l.
Proof.
  revert p. induction l as [|x l IH]; intros p; [done|]. intros (-> & Hx & pr & Hpr & Hl) Hext.
  destruct (Hext x pr ltac:(by left) Hpr) as (pr' & Hpr' & Hn). split_and!; [done..|].
  exists pr'. split; [done|]. rewrite Hn. apply IH; [done|]. intros y py Hy. apply Hext. by right.
Qed.

Lemma linked_at ps p a x b : linked ps p (a ++ x :: b) →
  x ≠ 0 ∧ ∃ pr, ps !! x = Some pr ∧ next pr = head_of b ∧ linked ps (next pr) b.
Proof.
  revert p. induction a as [|y a IH]; intros p; simpl.
  - intros (_ & Hx & pr & Hpr & Hl). split; [done|]. exists pr. split_and!; [done| |done].
    by eapply linked_head.
  - intros (_ & _ & pr & _ & Hl). by eapply IH.
Qed.

(** Changing the tail of a list: [y]'s link is redirected to another list. *)
Lemma linked_redirect ps p a y b c pr :
  linked ps p (a ++ y :: b) → NoDup (a ++ y :: b) → ps !! y = Some pr →
  y ∉ c → linked ps (head_of c) c →
  linked (<[y := set_next (head_of c) pr]> ps) p (a ++ y :: c).
Proof.
  revert p. induction a as [|z a IH]; intros p; simpl.
  - intros (-> & Hy & pr' & Hpr' & _) _ Hpr Hyc Hc. split_and!; [done..|].
    eexists. rewrite lookup_insert_eq. split; [done|]. cbn. eapply linked_ext; [exact Hc|].
    intros x px Hx Hpx. exists px. rewrite lookup_insert_ne by (intros ->; done). done.
  - intros (-> & Hz & pr' & Hpr' & Hl) Hnd Hpr Hyc Hc. split_and!; [done..|].
    pose proof (NoDup_cons_1_1 _ _ Hnd) as Hnz. apply NoDup_cons_1_2 in Hnd.
    exists pr'. rewrite lookup_insert_ne; [split; [done|by apply IH]|].
    intros ->. apply Hnz. rewrite elem_of_app. right. by left.
Qed.

(** ** The invariant and the operations on the list *)

Section invariant.
Context `{HO : HeapOps, HV : HeapView, HL : !HeapLaws}.

(** The process list visits [l], without repetition; every process is a heap
    block of its own. *)
Record proc_inv (s : pstate) (l : list Z) : Prop := {
  pi_linked : linked (procs s) (processes_list s) l;
  pi_nodup : NoDup l;
  pi_heap : ∃ B, heap_ok (mem s) B ∧ ∀ p, p ∈ l → p ∈ B;
  pi_length : Z.of_nat (length l) < 2 ^ 32;
}.

Lemma pi_at s l a x b : proc_inv s l → l = a ++ x :: b →
  x ≠ 0 ∧ ∃ pr, procs s !! x = Some pr ∧ next pr = head_of b.
Proof.
  intros I ->. destruct (linked_at _ _ _ _ _ (pi_linked _ _ I)) as (Hx & pr & Hpr & Hn & _).
  split; [done|]. by exists pr.
Qed.

Lemma pi_in s l x : proc_inv s l → x ∈ l → x ≠ 0 ∧ ∃ pr, procs s !! x = Some pr.
Proof.
  intros I (a & b & Hl)%list_elem_of_split. destruct (pi_at _ _ _ _ _ I Hl) as (Hx & pr & Hpr & _).
  eauto.
Qed.

(** Updates that leave the links alone. *)
Lemma pi_update s l x pr f : proc_inv s l → procs s !! x = Some pr → next (f pr) = next pr →
  proc_inv (set_procs (<[x := f pr]> (procs s)) s) l.
Proof.
  intros [L N Hh Hlen] Hpr Hn. split; try done. cbn. eapply linked_ext; [exact L|].
  intros y py Hy Hpy. destruct (decide (y = x)) as [->|Hne].
  - rewrite lookup_insert_eq. simplify_eq. eauto.
  - rewrite lookup_insert_ne by done. eauto.
Qed.

Lemma update_ok p f s pr : procs s !! p = Some pr →
  update p f s = Ok (tt, set_procs (<[p := f pr]> (procs s)) s).
Proof. unfold update. by intros ->. Qed.

(** The loop to the end of the list. *)
Lemma last_loop s l a y : proc_inv s l → l = a ++ [y] →
  loop last_round (processes_list s) s = Ok (y, s).
Proof.
  intros I Hl. assert (runs (loop last_round (processes_list s)) s (λ r s', r = y ∧ s' = s)) as H.
  { apply (runs_loop_ghost _ (λ n it t, t = s ∧ ∃ b c, l = b ++ it :: c ∧ n = Z.of_nat (length c)))
      with (n := Z.of_nat (length l) - 1).
    - intros n it t (-> & b & c & Hbc & ->). destruct (pi_at _ _ _ _ _ I Hbc) as (Hit & pr & Hpr & Hn).
      unfold runs, last_round, mbind, M_bind, proc. rewrite Hpr. cbn [bind_result fst snd]. rewrite Hn.
      destruct c as [|z c]; cbn.
      + rewrite Hl in Hbc. apply app_inj_2 in Hbc as [_ [= ->]]; done.
      + assert (z ≠ 0) as Hz.
        { apply (pi_in _ _ z I). rewrite Hbc. apply elem_of_app. right. by right; left. }
        apply Z.eqb_neq in Hz. rewrite Hz. cbn. exists (Z.of_nat (length c)). split; [lia|].
        split; [done|]. exists (b ++ [it]), c. by rewrite <- app_assoc.
    - split; [done|]. rewrite (linked_head _ _ _ (pi_linked _ _ I)).
      destruct l as [|x l']; [by destruct a|]. exists [], l'. split; [done|]. simpl. lia.
    - pose proof (pi_length _ _ I). destruct l; simpl in *; [by destruct a|lia]. }
  apply runs_inv in H as (r & s' & H & -> & ->). exact H.
Qed.

(** The loop to the predecessor of [x]. *)
Lemma scan_loop s l a y x c : proc_inv s l → l = a ++ y :: x :: c →
  loop (scan_round x) (processes_list s) s = Ok (y, s).
Proof.
  intros I Hl. assert (runs (loop (scan_round x) (processes_list s)) s (λ r s', r = y ∧ s' = s)) as H.
  { apply (runs_loop_ghost _ (λ n it t, t = s ∧ ∃ b d, a ++ [y] = b ++ it :: d ∧ n = Z.of_nat (length d)))
      with (n := Z.of_nat (length (a ++ [y])) - 1).
    - intros n it t (-> & b & d & Hbd & ->).
      assert (l = b ++ it :: (d ++ x :: c)) as Hl'.
      { rewrite Hl, (cons_middle _ a), app_assoc, Hbd, <- app_assoc. done. }
      destruct (pi_at _ _ _ _ _ I Hl') as (Hit & pr & Hpr & Hn).
      unfold runs, scan_round, mbind, M_bind, proc. rewrite Hpr. cbn [bind_result fst snd]. rewrite Hn.
      destruct d as [|z d]; cbn.
      + rewrite Z.eqb_refl. cbn. by apply app_inj_2 in Hbd as [_ [= ->]].
      + pose proof (pi_nodup _ _ I) as Hnd. rewrite Hl' in Hnd.
        assert (z ≠ x) as Hzx.
        { intros ->. apply list.NoDup_app in Hnd as (_ & _ & Hnd). apply NoDup_cons_1_2 in Hnd. cbn in Hnd.
          apply NoDup_cons_1_1 in Hnd. apply Hnd. apply elem_of_app. right. by left. }
        assert (z ≠ 0) as Hz.
        { apply (pi_in _ _ z I). rewrite Hl'. apply elem_of_app. right. by right; left. }
        apply Z.eqb_neq in Hz, Hzx. rewrite Hz, Hzx. cbn. exists (Z.of_nat (length d)).
        split; [lia|]. split; [done|]. exists (b ++ [it]), d. by rewrite <- app_assoc.
    - split; [done|]. rewrite (linked_head _ _ _ (pi_linked _ _ I)), Hl.
      destruct a as [|z a]; [by exists [], []|]. exists [], (a ++ [y]). split; [done|].
      simpl. rewrite !length_app. simpl. lia.
    - pose proof (pi_length _ _ I) as Hlen. rewrite Hl in Hlen. rewrite length_app in *. simpl in *. lia. }
  apply runs_inv in H as (r & s' & H & -> & ->). exact H.
Qed.

(** Appending a process. *)
Lemma process_add_ok s l p pr : proc_inv s l → p ∉ l → p ≠ 0 → procs s !! p = Some pr →
  next pr = 0 → (∃ B, heap_ok (mem s) B ∧ p ∈ B ∧ ∀ x, x ∈ l → x ∈ B) →
  Z.of_nat (length l) + 1 < 2 ^ 32 →
  runs (process_add p) s (λ _ s', proc_inv s' (l ++ [p]) ∧
    (∃ pr', procs s' !! p = Some pr' ∧ pr' = set_status READY pr) ∧
    (∀ x px, x ≠ p → procs s !! x = Some px →
      ∃ px', procs s' !! x = Some px' ∧ set_next 0 px' = set_next 0 px) ∧
    (∀ x, is_Some (procs s' !! x) → is_Some (procs s !! x)) ∧
    s' = set_list (processes_list s') (set_procs (procs s') s)).
Proof.
  intros I Hp Hp0 Hpr Hn (B & HB & HpB & HlB) Hlen.
  pose proof (pi_update s l p pr (set_status READY) I Hpr eq_refl) as I1.
  set (s1 := set_procs (<[p := set_status READY pr]> (procs s)) s) in *.
  assert (∀ t, linked (procs t) (processes_list t) (l ++ [p]) → mem t = mem s → proc_inv t (l ++ [p])) as Hinv.
  { intros t Ht Hm. split; [done| | |rewrite length_app; simpl; lia].
    - apply list.NoDup_app. split_and!; [apply I| |apply NoDup_singleton].
      intros x Hx ->%list_elem_of_singleton. done.
    - exists B. rewrite Hm. split; [done|]. intros x [Hx| ->%list_elem_of_singleton]%elem_of_app; auto. }
  unfold process_add, runs, mbind, M_bind, gets. cbn [bind_result fst snd].
  rewrite (update_ok p _ s pr Hpr). cbn [bind_result fst snd]. fold s1.
  destruct l as [|x l] using rev_ind.
  - rewrite (linked_head _ _ _ (pi_linked _ _ I)). cbn. split_and!; [|..|done].
    + apply Hinv; [|done]. cbn. split_and!; [done..|]. exists (set_status READY pr).
      rewrite lookup_insert_eq. split; [done|]. by cbn.
    + exists (set_status READY pr). by rewrite lookup_insert_eq.
    + intros y py Hy Hpy. exists py. by rewrite lookup_insert_ne.
    + intros y [<-|Hy]%lookup_insert_is_Some'; [by exists pr|done].
  - clear IHl. assert (processes_list s ≠ 0) as Hne%Z.eqb_neq.
    { rewrite (linked_head _ _ _ (pi_linked _ _ I)). apply (pi_in _ _ _ I).
      destruct l; [by left|]. by left. }
    rewrite Hne. change (processes_list s) with (processes_list s1).
    rewrite (last_loop s1 (l ++ [x]) l x I1 eq_refl). cbn [bind_result fst snd].
    destruct (pi_at s1 _ l x [] I1 eq_refl) as (Hx0 & px & Hpx & Hnx).
    rewrite (update_ok x _ s1 px Hpx).
    assert (x ≠ p) as Hxp by (intros ->; apply Hp, elem_of_app; right; by left).
    split_and!; [|..|done].
    + apply Hinv; [|done]. cbn [procs set_procs processes_list]. rewrite <- app_assoc. cbn [app].
      apply (linked_redirect _ _ l x [] [p] px); [apply I1|apply I1|done| |].
      * rewrite list_elem_of_singleton. done.
      * cbn. split_and!; [done..|]. exists (set_status READY pr). cbn. by rewrite lookup_insert_eq.
    + exists (set_status READY pr). cbn. rewrite lookup_insert_ne, lookup_insert_eq by done. done.
    + intros y py Hy Hpy. cbn. destruct (decide (y = x)) as [->|Hyx].
      * rewrite lookup_insert_eq. cbn in Hpx. rewrite lookup_insert_ne in Hpx by done.
        simplify_eq. by eexists.
      * rewrite !lookup_insert_ne by done. by exists py.
    + cbn. intros y [<-|[<-|Hy]%lookup_insert_is_Some']%lookup_insert_is_Some'; [|by exists pr|done].
      cbn in Hpx. rewrite lookup_insert_ne in Hpx by done. by exists px.
Qed.

(** Taking a process out of the list. *)
Lemma process_unlink_ok s l a p b : proc_inv s l → l = a ++ p :: b →
  ∃ ps, process_unlink p s = Ok (tt, set_list (head_of (a ++ b)) (set_procs ps s)) ∧
    linked ps (head_of (a ++ b)) (a ++ b) ∧ ps !! p = procs s !! p ∧
    ∀ x px, procs s !! x = Some px → ∃ px', ps !! x = Some px' ∧ set_next 0 px' = set_next 0 px.
Proof.
  intros I Hl. pose proof (pi_nodup _ _ I) as Hnd. rewrite Hl in Hnd.
  destruct (pi_at _ _ _ _ _ I Hl) as (Hp0 & pr & Hpr & Hn).
  pose proof (pi_linked _ _ I) as L. rewrite Hl in L.
  destruct (linked_at _ _ _ _ _ L) as (_ & pr' & Hpr' & _ & Lb). assert (pr' = pr) as -> by congruence.
  rewrite Hn in Lb. unfold process_unlink, mbind, M_bind, gets. cbn [bind_result fst snd].
  rewrite (linked_head _ _ _ L). destruct a as [|y a _] using rev_ind.
  - cbn [app head_of head default]. cbn. rewrite Z.eqb_refl. unfold proc. rewrite Hpr. cbn. rewrite Hn.
    exists (procs s). split_and!; [by destruct s|done|done|]. intros x px Hx. by exists px.
  - assert (l = a ++ y :: p :: b) as Hl' by by rewrite Hl, <- app_assoc.
    destruct (pi_at _ _ _ _ _ I Hl') as (Hy0 & py & Hpy & Hny).
    assert (y ≠ p) as Hyp.
    { intros ->. apply list.NoDup_app in Hnd as (_ & Hnd & _). apply (Hnd p); [|by left].
      apply elem_of_app. right. by left. }
    assert (head_of ((a ++ [y]) ++ p :: b) ≠ p) as Hh%Z.eqb_neq.
    { destruct a as [|z a]; cbn; [done|]. intros ->. apply list.NoDup_app in Hnd as (_ & Hnd & _).
      apply (Hnd p); by left. }
    rewrite Hh. rewrite <- (linked_head _ _ _ L). rewrite (scan_loop s l a y p b I Hl').
    cbn [bind_result fst snd]. unfold proc. rewrite Hpr. cbn [bind_result fst snd].
    rewrite (update_ok y _ s py Hpy), Hn. exists (<[y := set_next (head_of b) py]> (procs s)).
    assert (head_of ((a ++ [y]) ++ b) = processes_list s) as ->.
    { rewrite (linked_head _ _ _ L). by destruct a. }
    split_and!; [by destruct s| | |].
    + rewrite <- app_assoc. cbn [app]. rewrite <- app_assoc in L, Hnd. cbn [app] in L, Hnd.
      apply (linked_redirect _ _ a y (p :: b)); try done.
      apply list.NoDup_app in Hnd as (_ & _ & Hnd). apply NoDup_cons_1_1 in Hnd.
      intros Hyb. apply Hnd. by right.
    + by rewrite lookup_insert_ne.
    + intros x px Hx. destruct (decide (x = y)) as [->|Hxy].
      * rewrite lookup_insert_eq. simplify_eq. by eexists.
      * rewrite lookup_insert_ne by done. by exists px.
Qed.

(** The parts of the state that the list operations leave alone. *)
Definition same_rest (s s' : pstate) : Prop :=
  next_pid s' = next_pid s ∧ uptime s' = uptime s ∧
  rsp0 s' = rsp0 s ∧ interrupts s' = interrupts s.

(** [d] is what follows the current process in the list, or followed it when it
    is the deleted one; its head, or else the head of the list, is current next. *)
Lemma process_delete_ok s l a p b g d : proc_inv s l → l = a ++ p :: b →
  current_process s = g → (g = p ∧ d = b ∨ ∃ c, a ++ b = c ++ g :: d) →
  runs (process_delete p) s (λ _ s', proc_inv s' (a ++ b) ∧
    current_process s' = head_of (d ++ a ++ b) ∧ procs s' !! p = None ∧
    (∀ x px, x ≠ p → procs s !! x = Some px →
      ∃ px', procs s' !! x = Some px' ∧ set_next 0 px' = set_next 0 px) ∧ same_rest s s' ∧
    ∀ X, ¬ (p ∈ X) → mem_kept (mem s) (mem s') ({[p]} ∪ X) X).
Proof.
  intros I Hl Hg Hd. destruct (pi_at _ _ _ _ _ I Hl) as (Hp0 & pr & Hpr & Hn).
  destruct (process_unlink_ok s l a p b I Hl) as (ps & E & L & Hps & Hkeep).
  pose proof (pi_nodup _ _ I) as Hnd. rewrite Hl in Hnd.
  destruct (nodup_mid _ _ _ Hnd) as [Hpab Hnd'].
  assert (∃ pg, ps !! g = Some pg ∧ next pg = head_of d) as (pg & Hpg & Hng).
  { destruct Hd as [[-> ->]|[c Hc]].
    - exists pr. by rewrite Hps.
    - rewrite Hc in L at 2. destruct (linked_at _ _ _ _ _ L) as (_ & pg & ? & ? & _). by exists pg. }
  set (s1 := set_list (head_of (a ++ b)) (set_procs ps s)) in E.
  assert (advance_current s1 = Ok (tt, set_current (head_of (d ++ a ++ b)) s1)) as E2.
  { unfold advance_current, mbind, M_bind, gets, proc. cbn [bind_result fst snd].
    cbn [s1 current_process procs set_list set_procs]. rewrite Hg, Hpg. cbn [bind_result fst snd].
    rewrite Hng. destruct d as [|z d]; [done|]. cbn. assert (z ≠ 0) as Hz%Z.eqb_neq; [|by rewrite Hz].
    apply (pi_in _ _ z I). rewrite Hl. apply elem_mid. destruct Hd as [[_ <-]|[c Hc]]; [|rewrite Hc];
      apply elem_of_app; right; [by left|by right; left]. }
  unfold process_delete. apply Z.eqb_neq in Hp0. rewrite Hp0.
  unfold with_local_lock, runs, mbind, M_bind, SPINLOCK_INIT. rewrite spinlock_acquire_free.
  cbn [bind_result fst snd]. rewrite E. cbn [bind_result fst snd]. rewrite E2.
  cbn [bind_result fst snd]. destruct (pi_heap _ _ I) as (B & HB & HlB).
  assert (p ∈ B) as HpB by (apply HlB; rewrite Hl; apply elem_of_app; right; by left).
  destruct (runs_inv _ _ _ (heap_free_ok _ _ _ HB HpB)) as ([] & m' & Ef & HB' & _).
  unfold on_mem, zoom. cbn [mem set_current]. change (mem s1) with (mem s). rewrite Ef.
  cbn [bind_result fst snd modify]. split_and!; [split|..].
  - cbn. eapply linked_ext; [exact L|]. intros x px Hx Hpx. exists px.
    rewrite lookup_delete_ne by (intros ->; done). done.
  - done.
  - exists (B ∖ {[p]}). split; [done|]. intros x Hx. apply elem_of_difference. split.
    + apply HlB. rewrite Hl. by apply elem_mid.
    + rewrite elem_of_singleton. by intros ->.
  - pose proof (pi_length _ _ I) as Hlen. rewrite Hl in Hlen. rewrite length_app in *. simpl in Hlen. lia.
  - done.
  - cbn. by rewrite lookup_delete_eq.
  - intros x px Hx Hpx. cbn. rewrite lookup_delete_ne by done. by apply Hkeep.
  - by repeat split.
  - intros X HpX B' HBs HX. cbn. destruct (runs_inv _ _ _ (heap_free_ok _ B' p HBs ltac:(set_solver)))
      as ([] & m2 & Ef2 & HB2 & K2). rewrite Ef in Ef2. injection Ef2 as <-.
    exists (B' ∖ {[p]}). split_and!; [done|set_solver|]. eapply blocks_kept_mono; [|exact K2]. set_solver.
Qed.

(** ** Creation *)

Lemma safe_on_mem {A} (c : M kstate A) (s : pstate) (Q : A → pstate → Prop) :
  safe c (mem s) (λ a m, Q a (set_mem m s)) → safe (on_mem c) s Q.
Proof. unfold safe, on_mem, zoom. by destruct (c (mem s)) as [[a m]| | |]. Qed.

Lemma safe_update p f s pr (Q : unit → pstate → Prop) : procs s !! p = Some pr →
  Q tt (set_procs (<[p := f pr]> (procs s)) s) → safe (update p f) s Q.
Proof. intros H. unfold safe. by rewrite (update_ok p f s pr H). Qed.

Lemma safe_proc p s pr (Q : process_t → pstate → Prop) : procs s !! p = Some pr →
  Q pr s → safe (proc p) s Q.
Proof. unfold safe, proc. by intros ->. Qed.

Lemma new_process_ok s B : heap_ok (mem s) B →
  safe new_process s (λ p s', 0 < p ∧ ¬ (p ∈ B) ∧ heap_ok (mem s') ({[p]} ∪ B) ∧
    blocks_kept (mem s) (mem s') B ∧ ∃ pr, next pr = 0 ∧ s' = set_procs (<[p := pr]> (procs s)) (set_mem (mem s') s)).
Proof.
  intros HB. unfold new_process. sstep. apply safe_on_mem.
  eapply safe_mono; [apply (heap_alloc_ok (mem s) B); [done|unfold sizeof_process_t; lia]|].
  intros p m (Hp & HpB & HB' & Hz & K & _). do 3 sstep. split_and!; [lia|done|done|done|].
  exists (process_at m p). split; [|done]. cbn. apply (Hz 8%nat); unfold sizeof_process_t; lia.
Qed.

(** The context a process starts with: the wrapper, called with the function and
    its argument, on the new stack, with interrupts enabled. *)
Definition start_context (wrapper function arg stack : Z) : execution_context :=
  Context 0 0 0 0 0 0 0 0 0 (u64 arg) (u64 function) 0 0 0 0 0 0 (u64 wrapper) 0x28 0x202 stack 0x30.

(** The stores of [process_create] into the context at [c]. *)
Definition context_stores (wrapper function arg stack : Z) : list (Z * Z) :=
  [(21, 0x30); (20, stack); (19, 0x202); (18, 0x28); (17, wrapper); (10, function); (9, arg); (0, 0)].
Definition write_words (c : Z) (ws : list (Z * Z)) (m : kstate) : kstate :=
  fold_left (λ m w, store 8 (c + 8 * w.1) w.2 m) ws m.

Lemma put_context_ok p i v s pr : procs s !! p = Some pr →
  put_context p i v s = Ok (tt, set_mem (store 8 (context pr + 8 * i) v (mem s)) s).
Proof. intros H. unfold put_context, mbind, M_bind, proc. by rewrite H. Qed.

Lemma safe_put_context p i v s pr (Q : unit → pstate → Prop) : procs s !! p = Some pr →
  Q tt (set_mem (store 8 (context pr + 8 * i) v (mem s)) s) → safe (put_context p i v) s Q.
Proof. intros H. unfold safe. by rewrite (put_context_ok p i v s pr H). Qed.

Lemma write_words_set_ram c ws m : write_words c ws m = set_ram (ram (write_words c ws m)) m.
Proof.
  revert m. induction ws as [|w ws IH]; intros m; [by destruct m|]. cbn [write_words fold_left].
  change (fold_left _ ws _) with (write_words c ws (store 8 (c + 8 * w.1) w.2 m)). by rewrite IH.
Qed.

Lemma write_words_outside (P : Z → Prop) c ws m : hhdm_offset m ≤ c →
  Forall (λ w, 0 ≤ w.1 < 22) ws →
  (∀ i, 0 ≤ i < 176 → P (cell (hhdm_offset m) (c + i))) → same_outside P (ram m) (ram (write_words c ws m)).
Proof.
  intros Hc Hws HP. revert m Hc HP. induction ws as [|w ws IH]; intros m Hc HP; [done|].
  apply list.Forall_cons in Hws as [Hw Hws]. cbn [write_words fold_left].
  eapply same_outside_trans; [|by apply (IH Hws)]. unfold store. cbn [ram set_ram].
  eapply same_outside_mono; [|apply (same_outside_wr 8)]. intros x Hx.
  specialize (HP (x - (c - hhdm_offset m))). unfold in_range, cell in *.
  rewrite (proj2 (Z.leb_le _ _)) in Hx by lia.
  rewrite (proj2 (Z.leb_le _ _)) in HP by lia.
  replace (c + (x - (c - hhdm_offset m)) - hhdm_offset m) with x in HP by lia. apply HP. lia.
Qed.

Lemma context_written c m wrapper function arg stack : hhdm_offset m ≤ c → 0 ≤ stack < 2 ^ 64 →
  (∀ (k : nat) i, 0 ≤ i → i + Z.of_nat k ≤ 176 → load k m (c + i) = 0) →
  context_at (write_words c (context_stores wrapper function arg stack) m) c
  = start_context wrapper function arg stack.
Proof.
  intros Hc Hst Hz. unfold context_at, start_context, write_words, context_stores. cbn [fold_left fst snd].
  f_equal; repeat first
    [rewrite load_store_same; first [done|by rewrite u64_small]
    |rewrite load_store_other by (cbn; lia)
    |by apply (Hz 8%nat)].
Qed.

(** The bytes [lo, lo + n) belong to block [b]. *)
Definition owns (m : kstate) (b lo n : Z) : Prop :=
  hhdm_offset m ≤ lo ∧ ∀ i, 0 ≤ i < n → heap_data m b (cell (hhdm_offset m) (lo + i)).

Lemma owns_kept m m' X b lo n : blocks_kept m m' X → b ∈ X → owns m b lo n → owns m' b lo n.
Proof. intros [E H] Hb [Hlo Ho]. split; [by rewrite E|]. intros i Hi. rewrite E. by apply (H b), Ho. Qed.

Lemma context_kept m m' X b c : blocks_kept m m' X → b ∈ X → owns m b c 176 →
  context_at m' c = context_at m c.
Proof.
  intros K Hb [Hc Ho]. unfold context_at. f_equal; apply (load_kept _ _ X b); try done; try lia;
    intros i Hi; rewrite <- Z.add_assoc; apply Ho; lia.
Qed.

(** What [process_create] allocates: the control block [p], the context, and the
    stack, whose block starts at [base]. *)
Record new_blocks (s s' : pstate) (B : gset Z) (p base : Z) (pr : process_t) : Prop := {
  nb_heap : heap_ok (mem s') ({[base]} ∪ ({[context pr]} ∪ ({[p]} ∪ B)));
  nb_kept : blocks_kept (mem s) (mem s') B;
  nb_range : 0 < context pr ∧ 0 < base;
  nb_fresh : ¬ (p ∈ B) ∧ ¬ (context pr ∈ {[p]} ∪ B) ∧ ¬ (base ∈ {[context pr]} ∪ ({[p]} ∪ B));
  nb_context : owns (mem s') (context pr) (context pr) 176 ∧ context pr + 176 ≤ 2 ^ 64;
  nb_stack : owns (mem s') base base STACK_SIZE ∧ base + STACK_SIZE ≤ 2 ^ 64 ∧
    kstack pr = u64 (base + STACK_SIZE);
}.

(** A process as [process_create] leaves it: ready, numbered, at the end of the
    list, with a context that starts the wrapper on a fresh stack. *)
Record created (s s' : pstate) (l : list Z) (wrapper : Z) (function arg p : Z) : Prop := {
  cr_inv : proc_inv s' (l ++ [p]);
  cr_new : ¬ (p ∈ l) ∧ procs s !! p = None;
  cr_pid : next_pid s' = u64 (next_pid s + 1);
  cr_enabled : interrupts s' = true;
  cr_proc : ∃ pr, procs s' !! p = Some pr ∧ pid pr = next_pid s ∧ status pr = READY ∧
    context_at (mem s') (context pr) = start_context wrapper function arg (kstack pr);
  cr_keep : ∀ x px, procs s !! x = Some px →
    ∃ px', procs s' !! x = Some px' ∧ set_next 0 px' = set_next 0 px;
  cr_only : ∀ x px, procs s' !! x = Some px → x ∈ l ++ [p];
  cr_current : current_process s' = current_process s;
}.

(** After the allocations. *)
Record allocated (s t : pstate) (B : gset Z) (wrapper function arg p base : Z) (pr : process_t) : Prop := {
  al_state : t = set_procs (<[p := pr]> (procs s)) (set_mem (mem t) s);
  al_next : next pr = 0;
  al_nonzero : 0 < p;
  al_context : context_at (mem t) (context pr) = start_context wrapper function arg (kstack pr);
  al_blocks : new_blocks s t B p base pr;
}.

Lemma process_alloc_ok s B wrapper function arg : heap_ok (mem s) B →
  safe (process_alloc wrapper function arg) s (λ p t, ∃ base pr, allocated s t B wrapper function arg p base pr).
Proof.
  intros HB. unfold process_alloc. sstep. eapply safe_mono; [by apply new_process_ok|].
  intros p s1 (Hp0 & HpB & HB1 & K1 & pr & Hn & Es1). sstep. apply safe_on_mem.
  eapply safe_mono; [apply (heap_alloc_ok (mem s1) ({[p]} ∪ B)); [done|unfold sizeof_execution_context; lia]|].
  intros c m2 (Hc & HcB & HB2 & Hz & K2 & Hhc & Hc64 & Hdc). unfold sizeof_execution_context in *. sstep.
  eapply (safe_update _ _ _ pr); [rewrite Es1; cbn; by rewrite lookup_insert_eq|].
  sstep. unfold alloc_stack. cbn [KERNEL_MODE Z.eqb]. sstep. apply safe_on_mem. cbn [mem set_procs set_mem].
  eapply safe_mono; [apply (heap_alloc_ok _ _ STACK_SIZE HB2); unfold STACK_SIZE; lia|].
  intros base m3 (Hb & HbB & HB3 & _ & K3 & Hhb & Hb64 & Hdb). sstep. sstep.
  eapply safe_update; [cbn; by rewrite lookup_insert_eq|]. sstep.
  eapply safe_proc; [cbn; by rewrite lookup_insert_eq|]. cbn [kstack].
  set (stack := u64 (base + STACK_SIZE)).
  do 8 (sstep; eapply safe_put_context; [cbn; by rewrite lookup_insert_eq|]). sstep.
  cbn [mem procs set_procs set_mem context set_context]. rewrite insert_insert_eq.
  set (t := set_mem _ _). set (pr' := Process _ _ _ _ _ _ _ _ c _ stack) in t.
  pose proof K1 as [Eh1 _]. pose proof K2 as [Eh2 _]. pose proof K3 as [Eh3 _].
  set (ws := context_stores wrapper function arg stack).
  assert (owns m3 c c 176) as Hoc.
  { eapply (owns_kept m2); [exact K3|set_solver|]. by split; [lia|]. }
  assert (same_outside (heap_data m3 c) (ram m3) (ram (write_words c ws m3))) as Hout.
  { apply write_words_outside; [lia|by repeat constructor|apply Hoc]. }
  destruct (heap_write_ok m3 _ c _ HB3 ltac:(set_solver) Hout) as (HB4 & K4 & Hd4).
  rewrite <- write_words_set_ram in HB4, K4, Hd4. pose proof K4 as [Eh4 _].
  exists base, pr'. split; cbn [mem set_procs set_mem]; [|done|done| |].
  - unfold t. rewrite Es1. cbn. by rewrite insert_insert_eq.
  - change (context_at (write_words c ws m3) c = start_context wrapper function arg stack).
    apply context_written; [lia|apply u64_range|]. intros k i Hi Hk. rewrite <- (Hz k i) by done.
    eapply (load_kept m2 _ _ c); [exact K3|set_solver|lia|]. intros j Hj. rewrite <- Z.add_assoc. apply Hdc. lia.
  - split; change (mem t) with (write_words c ws m3); cbn [context kstack pr'].
    + done.
    + eapply blocks_kept_trans; [exact K1|]. eapply blocks_kept_trans; [eapply blocks_kept_mono, K2; set_solver|].
      eapply blocks_kept_trans; [eapply blocks_kept_mono, K3; set_solver|].
      eapply blocks_kept_mono, K4. set_solver.
    + lia.
    + done.
    + split; [|done]. split; [lia|]. intros i Hi. apply Hd4. rewrite Eh4. by apply Hoc.
    + split_and!; [|done|done]. eapply owns_kept; [exact K4|set_solver|]. split; [lia|done].
Qed.

Lemma process_create_at s l B wrapper str function arg : proc_inv s l → heap_ok (mem s) B →
  (∀ x, x ∈ l → x ∈ B) → Z.of_nat (length l) + 1 < 2 ^ 32 → (∀ x px, procs s !! x = Some px → x ∈ l) →
  safe (process_create wrapper str function arg) s
    (λ p s', created s s' l wrapper function arg p ∧
       ∃ base pr, procs s' !! p = Some pr ∧ new_blocks s s' B p base pr).
Proof.
  intros I HB HlB Hlen Hall. pose proof I as [L N _ _]. unfold process_create. sstep.
  eapply safe_mono; [by apply process_alloc_ok|].
  intros p s1 (base & pr & [Es1 Hn Hp0 Hctx [HB1 K1 Hrg Hfr [Hoc Hc64] (Hob & Hb64 & Hst)]]).
  assert (procs s1 = <[p := pr]> (procs s)) as Ep1 by by rewrite Es1.
  assert (procs s1 !! p = Some pr) as Hpr1 by by rewrite Ep1, lookup_insert_eq.
  do 5 sstep. eapply safe_update; [exact Hpr1|]. sstep. apply safe_on_mem.
  eapply safe_mono; [by apply space_new_ok|]. intros v m4 (_ & HB4 & K4). cbn [mem set_procs set_next_pid] in K4. sstep.
  eapply safe_update; [cbn; by rewrite lookup_insert_eq|]. sstep.
  cbn [procs set_procs set_mem set_next_pid]. rewrite !insert_insert_eq.
  set (t := set_procs (<[p := _]> (procs s1)) _). set (pr' := Process _ _ v _ _ _ _ _ _ _ _) in t.
  assert (procs t = <[p := pr']> (procs s)) as Ept.
  { change (procs t) with (<[p := pr']> (procs s1)). by rewrite Ep1, insert_insert_eq. }
  assert (¬ (p ∈ l)) as Hpl by (intros Hx; by apply (proj1 Hfr), HlB).
  assert (procs s !! p = None) as Hfree.
  { destruct (procs s !! p) eqn:E; [|done]. by apply Hall in E. }
  assert (proc_inv t l) as It.
  { split; [|done| |lia].
    - rewrite Ept. replace (processes_list t) with (processes_list s) by (cbn; by rewrite Es1).
      eapply linked_ext; [exact L|]. intros y py Hy Hpy. exists py.
      rewrite lookup_insert_ne by (intros ->; done). done.
    - eexists. split; [exact HB4|]. intros y Hy. rewrite !elem_of_union. auto. }
  eapply safe_mono; [apply runs_safe, (process_add_ok t l p pr' It Hpl)|].
  - lia.
  - rewrite Ept. by rewrite lookup_insert_eq.
  - done.
  - eexists. split; [exact HB4|]. split; [set_solver|]. intros y Hy. rewrite !elem_of_union. auto.
  - done.
  - intros u5 s5 (I5 & (pr5 & Hpr5 & ->) & Hk5 & Ho5 & E5). do 3 sstep.
    assert (mem s5 = m4) as Em by (by rewrite E5).
    assert (∀ b lo n, b ∈ {[base]} ∪ ({[context pr]} ∪ ({[p]} ∪ B)) → owns (mem s1) b lo n → owns m4 b lo n)
      as Ho by (intros; by eapply owns_kept).
    split.
    + split; [by destruct I5|done|rewrite E5; cbn; by rewrite Es1|done| | | |rewrite E5; cbn; by rewrite Es1].
      * exists (set_status READY pr'). cbn [procs set_interrupts mem].
        split_and!; [done|cbn; by rewrite Es1|done|]. cbn [context kstack set_status pr'].
        rewrite Em. rewrite <- Hctx. eapply (context_kept _ _ _ (context pr)); [exact K4|set_solver|done].
      * intros y py Hpy. apply Hk5; [congruence|]. rewrite Ept. by rewrite lookup_insert_ne by congruence.
      * intros y py Hpy. destruct (Ho5 y) as [py' Hpy']; [by exists py|]. rewrite Ept in Hpy'.
        apply elem_of_app. apply lookup_insert_Some in Hpy' as [[<- _]|[_ Hy]]; [right; by left|left].
        by eapply Hall.
    + exists base, (set_status READY pr'). split; [done|].
      split; cbn [mem set_interrupts context set_status pr' kstack]; rewrite ?Em; [done| |done|done| |].
      * eapply blocks_kept_trans; [exact K1|]. eapply blocks_kept_mono, K4. set_solver.
      * split; [|done]. apply Ho; [set_solver|done].
      * split_and!; [|done|done]. apply Ho; [set_solver|done].
Qed.

Lemma process_create_ok s l wrapper str function arg : proc_inv s l →
  Z.of_nat (length l) + 1 < 2 ^ 32 → (∀ x px, procs s !! x = Some px → x ∈ l) →
  safe (process_create wrapper str function arg) s
    (λ p s', created s s' l wrapper function arg p).
Proof.
  intros I Hlen Hall. destruct (pi_heap _ _ I) as (B & HB & HlB).
  eapply safe_mono; [by apply (process_create_at s l B)|]. by intros p s' [H _].
Qed.

End invariant.
