(* ===== verification/Scheduler.v ===== *)
(** * The scheduler: [src/kernel/scheduler/scheduler.c] and [timer.c]

    [schedule] runs in the timer interrupt.  It walks the circular order of the
    process list from the current process on, reaps dead processes, and returns
    the context to resume. *)

From S2P Require Import Prelude Machine Util Spinlock Heap Process.

Section scheduler.
Context `{HO : HeapOps}.

Definition tss_set_rsp0 (x : Z) : M pstate unit := modify (set_rsp0 x).

Definition scheduler_init (wrapper process_idle : Z) (idle_name : list Z) : M pstate unit :=
  process_create wrapper idle_name process_idle 0;;
  mret tt.

Definition scheduler_context_switch : M pstate Z :=
  c ← process_get_current;
  p ← proc c;
  tss_set_rsp0 (kstack p);;
  v ← process_get_current_vmm;
  on_mem (space_switch v);;
  mret (context p).

Definition stay_idle_round (process : Z) : M pstate (Z + bool) :=
  if process =? 0 then mret (inr true)
  else
    p ← proc process;
    if decide (status p ≠ SLEEPING) then mret (inr false)
    else mret (inl (next p)).
Definition stay_idle (process : Z) : M pstate bool :=
  p ← proc process;
  loop stay_idle_round (next p).

(** The variables of the loop. *)
Record loop_vars := Vars {
  v_current : Z; v_list : Z; v_still : bool; v_switched : bool;
}.

(** The [switch] on the status; [inl] is the [continue] of a dead process. *)
Definition schedule_switch (ctx : Z) (v : loop_vars) : M pstate (loop_vars + loop_vars) :=
  let cur := v_current v in
  p ← proc cur;
  match status p with
  | SPAWNED =>
      update cur (set_status READY);;
      mret (inr (Vars cur (v_list v) false true))
  | READY => mret (inr (Vars cur (v_list v) false true))
  | RUNNING =>
      let quantum := s16 (remaining_quantum p - 1) in
      update cur (set_quantum quantum);;
      update cur (set_context ctx);;
      if quantum >? 0 then mret (inr (Vars cur (v_list v) false (v_switched v)))
      else
        update cur (set_status READY);;
        mret (inr (Vars cur (v_list v) (v_still v) true))
  | SLEEPING =>
      now ← gets uptime;
      if now >? wake_time p then
        update cur (set_wake_time 0);;
        update cur (set_status READY);;
        mret (inr (Vars cur (v_list v) false (v_switched v)))
      else mret (inr v)
  | DEAD =>
      process_delete cur;;
      c ← process_get_current;
      l ← process_get_list;
      mret (inl (Vars c l (v_still v) true))
  end.

(** One round of [while (still_scheduling)]. *)
Definition schedule_round (ctx : Z) (v : loop_vars) : M pstate (loop_vars + loop_vars) :=
  if negb (v_still v) then mret (inr v)
  else if v_list v =? 0 then panic "SCHEDULER ::"
  else
    r ← schedule_switch ctx v;
    match r with
    | inl v' => mret (inl v')
    | inr v' =>
        let cur := v_current v' in
        p ← proc cur;
        (* the outcome of [stay_idle] changes nothing *)
        (if negb (v_still v') && (pid p =? 1) then stay_idle cur;; mret tt else mret tt);;
        if v_still v' then
          let cur' := if negb (next p =? 0) then next p else v_list v' in
          mret (inl (Vars cur' (v_list v') true (v_switched v')))
        else mret (inl v')
    end.

Definition schedule (ctx : Z) : M pstate Z :=
  l ← process_get_list;
  if l =? 0 then panic "SCHEDULER ::"
  else
    c0 ← process_get_current;
    cur ← (if c0 =? 0 then process_set_current l;; mret l else mret c0);
    v ← loop (schedule_round ctx) (Vars cur l true false);
    process_set_current (v_current v);;
    update (v_current v) (set_status RUNNING);;
    if v_switched v then
      update (v_current v) (set_quantum DEFAULT_PROCESS_RUNNING_QUANTUM);;
      scheduler_context_switch
    else
      p ← proc (v_current v);
      mret (context p).

(** [timer_handler] of [timer.c]; [quantum] is 10 ms. *)
Definition timer_quantum : Z := 10.
Definition timer_handler (frame : Z) : M pstate Z :=
  modify (λ s, set_uptime (u64 (uptime s + timer_quantum)) s);;
  schedule frame.

End scheduler.

(** ** Circular orders *)

(** [rot l r]: [r] lists the same circle as [l], from another start. *)
Definition rot (l r : list Z) : Prop := ∃ a b, l = a ++ b ∧ r = b ++ a.

Lemma rot_refl l : rot l l.
Proof. exists l, []. by rewrite app_nil_r. Qed.

Lemma rot_swap a b : rot (a ++ b) (b ++ a).
Proof. by exists a, b. Qed.

Lemma rot_trans l1 l2 l3 : rot l1 l2 → rot l2 l3 → rot l1 l3.
Proof.
  intros (a & b & -> & ->) (c & d & Heq & ->).
  apply app_eq_inv in Heq as [(e & -> & ->)|(e & -> & ->)].
  - exists (a ++ c), e. by rewrite <- !app_assoc.
  - exists e, (d ++ b). by rewrite <- !app_assoc.
Qed.

Lemma rot_elem l r x : rot l r → x ∈ r ↔ x ∈ l.
Proof. intros (a & b & -> & ->). rewrite !elem_of_app. tauto. Qed.

Lemma rot_length l r : rot l r → length r = length l.
Proof. intros (a & b & -> & ->). rewrite !length_app. lia. Qed.

Lemma NoDup_split_eq (l : list Z) x a b c d : NoDup l →
  l = a ++ x :: b → l = c ++ x :: d → a = c ∧ b = d.
Proof.
  intros Hnd -> Heq. revert c Heq. induction a as [|y a IH]; intros c Heq.
  - destruct c as [|z c]; simplify_eq/=; [done|]. apply NoDup_cons_1_1 in Hnd.
    destruct Hnd. apply elem_of_app. right. by left.
  - destruct c as [|z c]; simplify_eq/=.
    + apply NoDup_cons_1_1 in Hnd. destruct Hnd. apply elem_of_app. right. by left.
    + apply NoDup_cons_1_2 in Hnd. destruct (IH Hnd c) as [-> ->]; done.
Qed.

(** The circle from [x] on, read off the list. *)
Lemma rot_at l a x b z : NoDup l → l = a ++ x :: b → rot l (x :: z) → z = b ++ a.
Proof.
  intros Hnd Hl (c & d & Hl' & Hr). destruct d as [|y d].
  - destruct c as [|y c]; [done|]. rewrite app_nil_r in Hl'. injection Hr as <- ->.
    destruct (NoDup_split_eq l x a b [] c Hnd Hl Hl') as [-> ->]. by rewrite app_nil_r.
  - injection Hr as <- ->. by destruct (NoDup_split_eq l x a b c d Hnd Hl Hl') as [-> ->].
Qed.

(** ** Who may run *)

Definition can_run (now : Z) (pr : process_t) : bool :=
  match status pr with
  | SPAWNED | READY | RUNNING => true
  | SLEEPING => now >? wake_time pr
  | DEAD => false
  end.

Definition runnable (ps : gmap Z process_t) (now x : Z) : bool :=
  match ps !! x with Some pr => can_run now pr | None => false end.

Definition has_status (ps : gmap Z process_t) (st : status_t) (x : Z) : Prop :=
  ∃ pr, ps !! x = Some pr ∧ status pr = st.

#[global] Instance has_status_dec ps st x : Decision (has_status ps st x).
Proof.
  destruct (ps !! x) as [pr|] eqn:E.
  - destruct (decide (status pr = st)); [left|right]; [by exists pr|].
    intros (pr' & ? & ?). congruence.
  - right. intros (pr' & ? & ?). congruence.
Defined.

Definition deads (ps : gmap Z process_t) (l : list Z) : Z :=
  Z.of_nat (length (filter (has_status ps DEAD) l)).

(** Two stores that agree up to links. *)
Definition same_procs (l : list Z) (ps ps' : gmap Z process_t) : Prop :=
  ∀ x px, x ∈ l → ps !! x = Some px → ∃ px', ps' !! x = Some px' ∧ set_next 0 px' = set_next 0 px.

Lemma same_procs_refl l ps : same_procs l ps ps.
Proof. intros x px _ Hx. by exists px. Qed.

Lemma same_procs_trans l l' ps1 ps2 ps3 : (∀ x, x ∈ l' → x ∈ l) →
  same_procs l ps1 ps2 → same_procs l' ps2 ps3 → same_procs l' ps1 ps3.
Proof.
  intros Hsub H1 H2 x px Hx Hpx. destruct (H1 x px (Hsub x Hx) Hpx) as (px2 & Hpx2 & E2).
  destruct (H2 x px2 Hx Hpx2) as (px3 & Hpx3 & E3). exists px3. split; [done|congruence].
Qed.

Lemma set_next_fields px px' : set_next 0 px' = set_next 0 px →
  status px' = status px ∧ wake_time px' = wake_time px ∧ context px' = context px ∧
  remaining_quantum px' = remaining_quantum px ∧ pid px' = pid px ∧ kstack px' = kstack px.
Proof. unfold set_next. intros [= -> -> _ _ _ -> -> -> _ ->]. done. Qed.

(** ** The scan

    In a scan, [g] is the global current process, [cur] the one looked at; the
    circle from [cur] on is [cur :: tail ++ pre], where [pre] is empty at the
    start ([cur = g]) and otherwise runs from [g] to the predecessor of [cur].
    Those strictly between were found not to be runnable. *)

Definition scan_pos (bad : Z → Prop) (g cur : Z) (pre : list Z) : Prop :=
  pre = [] ∧ cur = g ∨ ∃ mid, pre = g :: mid ∧ Forall bad mid.

Lemma scan_pos_move bad g cur tail pre : scan_pos bad g cur pre → bad cur → tail ++ pre ≠ [] →
  ∃ cur' tail' pre', tail ++ pre ++ [cur] = cur' :: tail' ++ pre' ∧ scan_pos bad g cur' pre'.
Proof.
  intros [[-> ->]|(mid & -> & Hmid)] Hbad Hne.
  - rewrite app_nil_r in Hne. destruct tail as [|c tail]; [done|].
    exists c, tail, [g]. split; [done|]. right. by exists [].
  - destruct tail as [|c tail].
    + exists g, (mid ++ [cur]), []. split; [by rewrite app_nil_r|]. by left.
    + exists c, tail, (g :: mid ++ [cur]). split; [done|]. right. exists (mid ++ [cur]).
      split; [done|]. apply list.Forall_app. by rewrite Forall_singleton.
Qed.

(** After the deletion of [cur] the scan restarts behind [g]; [T], the first
    runnable process, stays the first. *)
Lemma scan_pos_delete (asleep bad : Z → Prop) g cur tail pre a b u T w :
  (∀ x, asleep x → bad x) → scan_pos asleep g cur pre → NoDup (a ++ cur :: b) → tail ++ pre = b ++ a →
  tail ++ pre = u ++ T :: w → Forall bad u → ¬ bad T →
  ∃ d r u' w', (g = cur ∧ d = b ∨ ∃ c, a ++ b = c ++ g :: d) ∧
    rot (a ++ b) (head_of (d ++ a ++ b) :: r) ∧
    head_of (d ++ a ++ b) :: r = u' ++ T :: w' ∧ Forall bad u' ∧
    (∀ x, x ∈ u → x ∈ u') ∧ ∀ x, x ∈ u' → x ∈ u ∨ asleep x.
Proof.
  intros Hab Hpos Hnd Hba Hu Hbad HT.
  assert (NoDup (a ++ b)) as Hnd'.
  { apply list.NoDup_app in Hnd as (H1 & H2 & H3). apply NoDup_cons_1_2 in H3.
    apply list.NoDup_app. split_and!; [done| |done]. intros x Hx Hx'. apply (H2 x Hx). by right. }
  destruct Hpos as [[-> ->]|(mid & -> & Hmid)].
  - rewrite Hba in Hu. exists b.
    destruct (b ++ a) as [|c r] eqn:Er; [by destruct u|]. exists r, u, w.
    assert (head_of (b ++ a ++ b) = c) as -> by (by rewrite app_assoc, Er).
    split_and!; [by left| |done|done|done|by left]. rewrite <- Er. apply rot_swap.
  - assert (g ∈ a ++ b) as (c0 & d & Hc)%list_elem_of_split.
    { apply (rot_elem _ _ g (rot_swap a b)). rewrite <- Hba. apply elem_of_app. right. by left. }
    assert (rot (a ++ b) (g :: mid ++ tail)) as Hr.
    { eapply rot_trans; [apply rot_swap|]. rewrite <- Hba. apply (rot_swap tail (g :: mid)). }
    pose proof (rot_at _ _ _ _ _ Hnd' Hc Hr) as Hmt.
    assert (rot (a ++ b) ((mid ++ tail) ++ [g])) as Hr'.
    { eapply rot_trans; [exact Hr|]. apply (rot_swap [g] (mid ++ tail)). }
    assert (head_of (d ++ a ++ b) = head_of ((mid ++ tail) ++ [g])) as Hh.
    { rewrite Hc, app_assoc, <- Hmt. destruct (mid ++ tail); [|done]. by destruct c0. }
    exists d. destruct ((mid ++ tail) ++ [g]) as [|c r] eqn:Er; [by destruct (mid ++ tail)|].
    rewrite Hh. change (head_of (c :: r)) with c.
    assert (∃ w', (mid ++ tail) ++ [g] = (mid ++ u) ++ T :: w') as (w' & E').
    { apply app_eq_inv in Hu as [(e & -> & He)|(e & -> & He)].
      - destruct e as [|x e]; cbn in He; injection He as -> Hw.
        + exists []. by rewrite app_nil_r.
        + exists (e ++ [g]). by rewrite <- !app_assoc.
      - destruct e as [|x e]; cbn in He; injection He as -> Hw.
        + exists []. by rewrite app_nil_r.
        + rewrite Hw in Hmid. apply list.Forall_app in Hmid as [_ Hmid].
          apply list.Forall_cons in Hmid as [HbT _]. by destruct HT; apply Hab. }
    assert (∀ x, x ∈ mid → asleep x) as Hmid' by by apply list.Forall_forall.
    exists r, (mid ++ u), w'. split_and!; [right; by exists c0|done|congruence|..].
    + apply list.Forall_app. split; [|done]. by eapply list.Forall_impl.
    + intros x Hx. apply elem_of_app. by right.
    + intros x [Hx|Hx]%elem_of_app; [right; by apply Hmid'|by left].
Qed.

Section scan.
Context `{HO : HeapOps, HV : HeapView, HL : !HeapLaws}.
(** [U] are the processes the scan has to pass before [T]; [sw0] says whether a
    switch is due already. *)
Context (s1 : pstate) (l0 : list Z) (ctx T : Z) (U : list Z) (sw0 : bool).
Context (Hs1 : proc_inv s1 l0) (HT : runnable (procs s1) (uptime s1) T = true).

(** Of the blocks [X] beside the processes [l0], all are left alone, and those of [l]. *)
Definition others_kept (m m' : kstate) (l0 l : list Z) : Prop :=
  ∀ X : gset Z, (∀ x, x ∈ X → ¬ (x ∈ l0)) →
    mem_kept m m' (X ∪ list_to_set l0) (X ∪ list_to_set l).

#[local] Abbreviation bad := (λ x, runnable (procs s1) (uptime s1) x = false).
#[local] Abbreviation dead := (has_status (procs s1) DEAD).
#[local] Abbreviation asleep := (λ x, bad x ∧ ¬ dead x).

(** The state during the scan: some dead processes of [U] are gone, nothing else. *)
Record scan_state (t : pstate) (l : list Z) : Prop := {
  ss_inv : proc_inv t l;
  ss_procs : same_procs l (procs s1) (procs t);
  ss_rest : same_rest s1 t;
  ss_running : ∀ x, x ∈ l → ¬ has_status (procs s1) RUNNING x;
  ss_sub : l `sublist_of` l0;
  ss_gone : ∀ x, x ∈ l0 → x ∈ l ∨ dead x ∧ x ∈ U;
  ss_mem : length l = length l0 → mem t = mem s1;
  ss_kept : others_kept (mem s1) (mem t) l0 l;
}.

Record scanning (n : Z) (v : loop_vars) (t : pstate) : Prop := {
  sn_still : v_still v = true;
  sn_list : v_list v = processes_list t;
  sn_pos : ∃ l tail pre u w, scan_state t l ∧ rot l (v_current v :: tail ++ pre) ∧
    scan_pos asleep (current_process t) (v_current v) pre ∧
    v_current v :: tail ++ pre = u ++ T :: w ∧ Forall bad u ∧
    (∀ x, x ∈ l → dead x → (x ∈ u ↔ x ∈ U)) ∧
    (v_switched v = true ↔ sw0 = true ∨ length l ≠ length l0) ∧
    n = (Z.of_nat (length l) + 1) * deads (procs s1) l + Z.of_nat (length u) + 1;
}.

(** Whether the code takes the way of a switch: the quantum of the process that ran
    is used up, a dead process was met, or the next process was ready (a sleeper
    that is woken is not, by itself, a reason). *)
Definition switches : Prop :=
  sw0 = true ∨ (∃ x, x ∈ l0 ∧ x ∈ U ∧ dead x) ∨
  has_status (procs s1) READY T ∨ has_status (procs s1) SPAWNED T.

(** [T] is found: it is to run next. *)
Definition ready_to_run (p : process_t) : process_t :=
  set_next 0 (set_status RUNNING (set_wake_time 0 p)).

Record found (v : loop_vars) (t : pstate) : Prop := {
  fd_still : v_still v = false;
  fd_current : v_current v = T;
  fd_list : ∃ l, proc_inv t l ∧ T ∈ l ∧ l `sublist_of` l0 ∧
    (∀ x, x ∈ l0 → (x ∈ l ↔ ¬ (x ∈ U ∧ dead x))) ∧ same_rest s1 t ∧
    (length l = length l0 → mem t = mem s1) ∧ (v_switched v = true ↔ switches) ∧
    others_kept (mem s1) (mem t) l0 l ∧
    (∀ x px, x ∈ l → x ≠ T → procs s1 !! x = Some px →
      ∃ px', procs t !! x = Some px' ∧ set_next 0 px' = set_next 0 px) ∧
    ∃ p0 p, procs s1 !! T = Some p0 ∧ procs t !! T = Some p ∧ ready_to_run p = ready_to_run p0;
}.

Lemma ss_lookup t l x : scan_state t l → x ∈ l →
  ∃ p0 p, procs s1 !! x = Some p0 ∧ procs t !! x = Some p ∧ set_next 0 p = set_next 0 p0.
Proof.
  intros [I P _ _ Sub _ _ _] Hx. assert (x ∈ l0) as Hx0 by by eapply elem_of_sublist.
  destruct (pi_in _ _ x Hs1 Hx0) as (_ & p0 & Hp0). destruct (P x p0 Hx Hp0) as (p & Hp & E).
  by exists p0, p.
Qed.

Lemma others_kept_delete m m1 m2 l a p b : others_kept m m1 l0 l → l = a ++ p :: b → NoDup (a ++ p :: b) →
  p ∈ l0 → (∀ X, ¬ (p ∈ X) → mem_kept m1 m2 ({[p]} ∪ X) X) → others_kept m m2 l0 (a ++ b).
Proof.
  intros K -> Hnd Hp Hdel X HX. assert (¬ (p ∈ X ∪ list_to_set (a ++ b))) as HpX.
  { rewrite elem_of_union, elem_of_list_to_set. intros [Hx|Hx]; [by apply (HX p)|].
    rewrite <- (Permutation_middle a b p) in Hnd. by apply NoDup_cons_1_1 in Hnd. }
  eapply mem_kept_trans; [|exact (K X HX)|].
  - rewrite !list_to_set_app_L, list_to_set_cons. set_solver.
  - specialize (Hdel _ HpX). intros B HB HBX. apply (Hdel B HB). etrans; [|exact HBX].
    rewrite !list_to_set_app_L, list_to_set_cons. set_solver.
Qed.

(** Walking the rest of the list for [stay_idle]. *)
Lemma stay_idle_ok t l x : proc_inv t l → x ∈ l → ∃ b, stay_idle x t = Ok (b, t).
Proof.
  intros I (a & b & Hl)%list_elem_of_split. destruct (pi_at _ _ _ _ _ I Hl) as (_ & px & Hpx & Hn).
  unfold stay_idle, mbind, M_bind, proc. rewrite Hpx. cbn [bind_result fst snd]. rewrite Hn.
  assert (runs (loop stay_idle_round (head_of b)) t (λ _ t', t' = t)) as H.
  { apply (runs_loop_ghost _ (λ n it t', t' = t ∧ ∃ c d, l = c ++ d ∧ it = head_of d ∧
      n = Z.of_nat (length d))) with (n := Z.of_nat (length b)).
    - intros n it t' (-> & c & d & Hcd & -> & ->). unfold stay_idle_round, runs.
      destruct d as [|y d]; [done|]. destruct (pi_at _ _ _ _ _ I Hcd) as (Hy & py & Hpy & Hny).
      change (head_of (y :: d)) with y. apply Z.eqb_neq in Hy. rewrite Hy.
      unfold mbind, M_bind, proc. rewrite Hpy. cbn [bind_result fst snd]. case_decide; [done|].
      cbn. exists (Z.of_nat (length d)). split; [lia|]. split; [done|].
      exists (c ++ [y]), d. by rewrite <- app_assoc.
    - split; [done|]. exists (a ++ [x]), b. by rewrite <- app_assoc.
    - pose proof (pi_length _ _ I) as Hlen. rewrite Hl, length_app in Hlen. simpl in Hlen. lia. }
  apply runs_inv in H as (r & t' & H & ->). by exists r.
Qed.

(** The end of a round that found its process. *)
Lemma round_found t v v' t' l : v_still v = true → v_list v ≠ 0 →
  schedule_switch ctx v t = Ok (inr v', t') → proc_inv t' l → T ∈ l → found v' t' →
  schedule_round ctx v t = Ok (inl v', t').
Proof.
  intros Hs Hl E I HTl [Hst Hc _]. unfold schedule_round. rewrite Hs. cbn [negb].
  apply Z.eqb_neq in Hl. rewrite Hl. unfold mbind, M_bind. rewrite E. cbn [bind_result fst snd].
  destruct (pi_in _ _ T I HTl) as (_ & p & Hp). destruct (stay_idle_ok t' l T I HTl) as [b Hb].
  unfold proc. rewrite Hc, Hp, Hst. cbn [bind_result fst snd negb andb].
  destruct (pid p =? 1); [|done]. by rewrite Hb.
Qed.

Lemma scan_nonempty t l x : proc_inv t l → x ∈ l → processes_list t ≠ 0.
Proof.
  intros I Hx. rewrite (linked_head _ _ _ (pi_linked _ _ I)). apply (pi_in _ _ _ I).
  destruct l as [|y l]; [by apply elem_of_nil in Hx|]. by left.
Qed.

(** A process is missing exactly when a dead one of [U] was met. *)
Lemma deleted_iff t l : scan_state t l → (∀ x, x ∈ l → dead x → ¬ (x ∈ U)) →
  length l ≠ length l0 ↔ ∃ x, x ∈ l0 ∧ x ∈ U ∧ dead x.
Proof.
  intros S Hnone. pose proof (ss_sub _ _ S) as Sub. split.
  - intros Hlen. destruct (decide (Forall (λ x, x ∈ l) l0)) as [Hall|Hex].
    + destruct Hlen. apply Nat.le_antisymm; [by apply sublist_length|].
      apply submseteq_length, NoDup_submseteq; [apply (pi_nodup _ _ Hs1)|]. by apply list.Forall_forall.
    + apply not_Forall_Exists, list.Exists_exists in Hex as (x & Hx & Hxl); [|apply _].
      exists x. destruct (ss_gone _ _ S x Hx) as [?|[? ?]]; [done|by split_and!].
  - intros (x & Hx & HxU & Hxd) Hlen. apply (Hnone x); [|done..].
    by rewrite (sublist_same l l0 Sub ltac:(lia)).
Qed.

(** Updates of [T] alone lead to [found]. *)
Lemma found_intro t l v f : scan_state t l → T ∈ l → v_still v = false → v_current v = T →
  (∀ x, x ∈ l → dead x → ¬ (x ∈ U)) → (v_switched v = true ↔ switches) →
  (∀ p, ready_to_run (f p) = ready_to_run p ∧ next (f p) = next p) →
  ∃ t', update T f t = Ok (tt, t') ∧ proc_inv t' l ∧ found v t'.
Proof.
  intros S HTl Hs Hc Hnone Hsw Hf. destruct (ss_lookup t l T S HTl) as (p0 & p & Hp0 & Hp & E).
  destruct (Hf p) as [Hr Hn]. pose proof S as [I P R _ Sub G Hmem K].
  eexists. split; [by apply update_ok|]. pose proof (pi_update t l T p f I Hp Hn) as I'.
  split; [done|]. split; [done..|]. exists l. split_and!; try done.
  - intros x Hx. split; [intros Hxl [? ?]; by apply (Hnone x)|].
    intros Hn'. destruct (G x Hx) as [?|[? ?]]; [done|]. by destruct Hn'.
  - intros x px Hx HxT Hpx. cbn. rewrite lookup_insert_ne by done. by apply P.
  - exists p0, (f p). cbn. rewrite lookup_insert_eq. split_and!; [done..|]. rewrite Hr.
    change (set_status RUNNING (set_wake_time 0 (set_next 0 p)) =
      set_status RUNNING (set_wake_time 0 (set_next 0 p0))). by rewrite E.
Qed.

Lemma scan_hit v t l z : v_still v = true → v_list v = processes_list t →
  scan_state t l → rot l (v_current v :: z) → v_current v = T →
  (∀ x, x ∈ l → dead x → ¬ (x ∈ U)) → (v_switched v = true ↔ sw0 = true ∨ length l ≠ length l0) →
  ∃ v' t', schedule_round ctx v t = Ok (inl v', t') ∧ found v' t'.
Proof.
  intros Hst Hl S Hrot Hc Hnone Hsw.
  assert (T ∈ l) as HTl by (apply (rot_elem _ _ T Hrot); rewrite Hc; by left).
  destruct (ss_lookup t l T S HTl) as (p0 & p & Hp0 & Hp & E).
  destruct (set_next_fields _ _ E) as (Es & Ew & _).
  pose proof (ss_inv _ _ S) as I. pose proof (scan_nonempty t l T I HTl) as Hne. rewrite <- Hl in Hne.
  pose proof HT as Hrun. unfold runnable in Hrun. rewrite Hp0 in Hrun. unfold can_run in Hrun.
  rewrite (deleted_iff t l S Hnone) in Hsw.
  assert (∀ st, has_status (procs s1) st T ↔ status p0 = st) as HstT.
  { intros st. split; [intros (q & Hq & <-); congruence|by exists p0]. }
  assert (∃ v' t', schedule_switch ctx v t = Ok (inr v', t') ∧ proc_inv t' l ∧ found v' t')
    as (v' & t' & E' & I' & F); [|exists v', t'; split; [by eapply round_found|done]].
  unfold schedule_switch, mbind, M_bind, proc. rewrite Hc, Hp. cbn [bind_result fst snd]. rewrite Es.
  assert (status p0 = READY ∨ status p0 = SPAWNED → true = true ↔ switches) as Hready.
  { intros H. split; [|done]. intros _. unfold switches. rewrite !HstT. tauto. }
  destruct (status p0) eqn:E0; [..|done].
  - destruct (found_intro t l (Vars T (v_list v) false true) (set_status READY) S HTl) as (t' & -> & I' & F);
      [done|done|done|cbn; tauto|done|]. cbn. by eexists _, _.
  - destruct (found_intro t l (Vars T (v_list v) false true) (λ p, p) S HTl) as (t' & E' & I' & F);
      [done|done|done|cbn; tauto|done|]. rewrite (update_ok T _ t p Hp) in E'. rewrite insert_id in E' by done.
    assert (t' = t) as -> by (by destruct t; simplify_eq/=). by eexists _, _.
  - destruct (ss_running _ _ S T HTl). by exists p0.
  - unfold gets. cbn [bind_result fst snd]. destruct (ss_rest _ _ S) as (_ & Eu & _).
    rewrite Eu, Ew, Hrun.
    destruct (found_intro t l (Vars T (v_list v) false (v_switched v))
      (λ p, set_status READY (set_wake_time 0 p)) S HTl) as (t' & E' & I' & F); [done|done|done| |done|].
    { cbn [v_switched]. rewrite Hsw. unfold switches. rewrite !HstT. split; [tauto|]. intros [?|[?|[[=]|[=]]]]; auto. }
    rewrite (update_ok T _ t p Hp). cbn [bind_result fst snd].
    rewrite (update_ok T _ _ (set_wake_time 0 p)) by (cbn; by rewrite lookup_insert_eq).
    cbn [procs set_procs bind_result fst snd]. rewrite insert_insert_eq.
    rewrite (update_ok T _ t p Hp) in E'. injection E' as <-. by eexists _, _.
Qed.

(** The code's successor is the next in the circle. *)
Lemma next_in_circle t l cur z p : proc_inv t l → rot l (cur :: z) → procs t !! cur = Some p →
  (if negb (next p =? 0) then next p else processes_list t) = head_of (z ++ [cur]).
Proof.
  intros I Hrot Hp. assert (cur ∈ l) as (a & b & Hl)%list_elem_of_split
    by (apply (rot_elem _ _ cur Hrot); by left).
  rewrite (rot_at _ _ _ _ _ (pi_nodup _ _ I) Hl Hrot), (linked_head _ _ _ (pi_linked _ _ I)).
  destruct (pi_at _ _ _ _ _ I Hl) as (_ & p' & Hp' & Hn). assert (p' = p) as -> by congruence.
  rewrite Hn, Hl. destruct b as [|y b]; [by destruct a|]. change (head_of (y :: b)) with y.
  assert (y ≠ 0) as Hy%Z.eqb_neq; [|by rewrite Hy].
  apply (pi_in _ _ y I). rewrite Hl. apply elem_of_app. right. by right; left.
Qed.

(** A sleeper that is not due is passed over. *)
Lemma scan_skip v t l tail pre u w : v_still v = true → v_list v = processes_list t →
  scan_state t l → rot l (v_current v :: tail ++ pre) →
  scan_pos asleep (current_process t) (v_current v) pre →
  tail ++ pre = u ++ T :: w → bad (v_current v) → Forall bad u →
  (∀ x, x ∈ l → dead x → (x ∈ v_current v :: u ↔ x ∈ U)) →
  (v_switched v = true ↔ sw0 = true ∨ length l ≠ length l0) →
  has_status (procs s1) SLEEPING (v_current v) →
  ∃ v', schedule_round ctx v t = Ok (inl v', t) ∧
    scanning ((Z.of_nat (length l) + 1) * deads (procs s1) l + Z.of_nat (length u) + 1) v' t.
Proof.
  intros Hst Hl S Hrot Hpos Hu Hbc Hbu Hdead Hsw (p0 & Hp0 & Hs0). set (cur := v_current v) in *.
  assert (cur ∈ l) as Hcl by (apply (rot_elem _ _ cur Hrot); by left).
  destruct (ss_lookup t l cur S Hcl) as (p0' & p & Hp0' & Hp & E).
  assert (p0' = p0) as -> by congruence.
  destruct (set_next_fields _ _ E) as (Es & Ew & _). pose proof (ss_inv _ _ S) as I.
  pose proof (scan_nonempty t l cur I Hcl) as Hne%Z.eqb_neq.
  assert (runnable (procs s1) (uptime s1) cur = false) as Hbc' by exact Hbc.
  unfold runnable in Hbc'. rewrite Hp0 in Hbc'. unfold can_run in Hbc'. rewrite Hs0 in Hbc'.
  destruct (ss_rest _ _ S) as (_ & Eu & _).
  assert (¬ dead cur) as Hnd by (intros (q & Hq & Hqd); congruence).
  destruct (scan_pos_move asleep (current_process t) cur tail pre Hpos (conj Hbc Hnd))
    as (cur' & tail' & pre' & Hz & Hpos').
  { rewrite Hu. by destruct u. }
  pose proof (next_in_circle t l cur _ p I Hrot Hp) as Hnext.
  assert (head_of ((tail ++ pre) ++ [cur]) = cur') as Hh by by rewrite <- app_assoc, Hz.
  exists (Vars cur' (v_list v) true (v_switched v)). split.
  - unfold schedule_round, schedule_switch. rewrite Hst, Hl, Hne. cbn [negb].
    unfold mbind, M_bind, proc, gets. fold cur. rewrite Hp. cbn [bind_result fst snd].
    rewrite Es, Hs0. cbn [bind_result fst snd]. rewrite Eu, Ew, Hbc'. cbn [bind_result fst snd mret M_ret].
    fold cur. rewrite Hp. cbn [bind_result fst snd]. rewrite Hst. cbn [negb andb bind_result fst snd mret M_ret].
    by rewrite Hl, Hnext, Hh.
  - split; [done|done|]. exists l, tail', pre', u, (w ++ [cur]). cbn [v_current]. split_and!; try done.
    + rewrite <- Hz, app_assoc. eapply rot_trans; [exact Hrot|]. apply (rot_swap [cur]).
    + rewrite <- Hz, app_assoc, Hu, <- app_assoc. done.
    + intros x Hx Hxd. rewrite <- (Hdead x Hx Hxd), elem_of_cons. split; [by right|].
      intros [->|?]; done.
Qed.

Lemma deads_remove ps a x b : has_status ps DEAD x →
  deads ps (a ++ x :: b) = deads ps (a ++ b) + 1.
Proof.
  intros Hx. unfold deads. rewrite !list.filter_app, list.filter_cons, decide_True, !length_app by done.
  simpl. lia.
Qed.

Lemma measure_drop k d i : 0 ≤ d → 0 ≤ i < k →
  0 ≤ (k + 1) * d + i + 1 < (k + 1 + 1) * (d + 1) + 1.
Proof. nia. Qed.

(** A dead process is taken out of the list, and the scan restarts. *)
Lemma scan_reap v t l tail pre u w : v_still v = true → v_list v = processes_list t →
  scan_state t l → rot l (v_current v :: tail ++ pre) →
  scan_pos asleep (current_process t) (v_current v) pre →
  tail ++ pre = u ++ T :: w → Forall bad u →
  (∀ x, x ∈ l → dead x → (x ∈ v_current v :: u ↔ x ∈ U)) → dead (v_current v) →
  ∃ v' t' n', schedule_round ctx v t = Ok (inl v', t') ∧ scanning n' v' t' ∧
    0 ≤ n' < (Z.of_nat (length l) + 1) * deads (procs s1) l + 1.
Proof.
  intros Hst Hl S Hrot Hpos Hu Hbu Hdead HD. set (cur := v_current v) in *.
  assert (cur ∈ l) as Hcl by (apply (rot_elem _ _ cur Hrot); by left).
  destruct (ss_lookup t l cur S Hcl) as (p0 & p & Hp0 & Hp & E).
  destruct (set_next_fields _ _ E) as (Es & _). pose proof S as [I P R Hrun Sub G Hm0 K].
  pose proof (scan_nonempty t l cur I Hcl) as Hne%Z.eqb_neq.
  apply list_elem_of_split in Hcl as (a & b & Hab).
  pose proof (pi_nodup _ _ I) as Hnd. rewrite Hab in Hnd.
  pose proof (rot_at _ _ _ _ _ (pi_nodup _ _ I) Hab Hrot) as Hba.
  destruct (scan_pos_delete asleep bad (current_process t) cur tail pre a b u T w (λ x H, proj1 H) Hpos Hnd Hba Hu Hbu)
    as (d & r & u' & w' & Hd & Hrot' & Hr & Hbu' & Huu' & Hu'u); [by rewrite HT|].
  destruct (runs_inv _ _ _ (process_delete_ok t l a cur b _ d I Hab eq_refl Hd))
    as ([] & t' & Edel & I' & Hcur' & Hgone & Hkeep & Hrest & Hmem).
  assert (∀ x, x ∈ a ++ b → x ∈ l ∧ x ≠ cur) as Hin.
  { intros x Hx. rewrite Hab. split; [by apply elem_mid|]. intros ->. by apply (nodup_mid _ _ _ Hnd). }
  assert (cur ∈ U) as HcU by (apply Hdead; [rewrite Hab; apply elem_of_app; right; by left|done|by left]).
  assert (length (a ++ b) < length l0)%nat as Hshort.
  { apply sublist_length in Sub. rewrite Hab, length_app in Sub. rewrite length_app. cbn in Sub. lia. }
  exists (Vars (current_process t') (processes_list t') true true), t'. eexists. split; [|split].
  - unfold schedule_round, schedule_switch. rewrite Hst, Hl, Hne. cbn [negb].
    unfold mbind, M_bind, proc, gets, process_get_current, process_get_list, gets. fold cur.
    rewrite Hp. cbn [bind_result fst snd]. destruct HD as (p0' & Hp0' & Hd0).
    assert (p0' = p0) as -> by congruence. rewrite Es, Hd0, Edel. done.
  - split; [done|done|]. exists (a ++ b), r, [], u', w'. cbn [v_current]. rewrite app_nil_r, Hcur'.
    split_and!; try done; [|by left| |].
    2: { intros x Hx Hxd. destruct (Hin x Hx) as [Hxl Hxc]. rewrite <- (Hdead x Hxl Hxd), elem_of_cons.
         split; [|intros [?|?]; [done|by apply Huu']]. intros [?|[_ ?]]%Hu'u; [by right|done]. }
    2: { cbn. split; [intros _; right; lia|done]. }
    split; [done|..].
    + intros x px Hx Hpx. destruct (Hin x Hx) as [Hxl Hxc].
      destruct (P x px Hxl Hpx) as (px1 & Hpx1 & E1). destruct (Hkeep x px1 Hxc Hpx1) as (px2 & ? & E2).
      exists px2. split; [done|congruence].
    + destruct R as (? & ? & ? & ?), Hrest as (? & ? & ? & ?). repeat split; congruence.
    + intros x Hx. by apply Hrun, Hin.
    + etrans; [|exact Sub]. rewrite Hab. apply sublist_app; [done|]. by constructor.
    + intros x Hx. destruct (G x Hx) as [Hxl|]; [|by right]. rewrite Hab in Hxl.
      apply elem_of_app in Hxl as [Hxl|[->|Hxl]%elem_of_cons].
      * left. by apply elem_of_app; left.
      * by right.
      * left. by apply elem_of_app; right.
    + lia.
    + eapply others_kept_delete; [exact K|exact Hab|exact Hnd| |exact Hmem].
      eapply elem_of_sublist; [|exact Sub]. rewrite Hab. apply elem_of_app. right. by left.
  - rewrite Hab, (deads_remove _ a cur b HD).
    assert (length u' < length (a ++ b))%nat as Hlu.
    { rewrite <- (rot_length _ _ Hrot'), Hr, length_app. simpl. lia. }
    replace (Z.of_nat (length (a ++ cur :: b))) with (Z.of_nat (length (a ++ b)) + 1)
      by (rewrite !length_app; simpl; lia).
    apply measure_drop; [unfold deads; lia|lia].
Qed.

(** One round of the scan. *)
Lemma scan_round_ok n v t : scanning n v t →
  ∃ v' t', schedule_round ctx v t = Ok (inl v', t') ∧
    (found v' t' ∨ ∃ n', 0 ≤ n' < n ∧ scanning n' v' t').
Proof.
  intros [Hst Hl (l & tail & pre & u & w & S & Hrot & Hpos & Hu & Hbad & Hdead & Hsw & ->)].
  assert (v_current v ∈ l) as Hcl by (apply (rot_elem _ _ _ Hrot); by left).
  destruct u as [|c u]; cbn in Hu; injection Hu as Hc Hu.
  - destruct (scan_hit v t l _ Hst Hl S Hrot Hc) as (v' & t' & E & F); [|done|].
    { intros x Hx Hxd HxU. apply (Hdead x Hx Hxd), elem_of_nil in HxU. done. }
    exists v', t'. by split; [|left].
  - subst c. apply list.Forall_cons in Hbad as [Hbc Hbu].
    destruct (ss_lookup t l _ S Hcl) as (p0 & p & Hp0 & _ & _).
    assert (runnable (procs s1) (uptime s1) (v_current v) = false) as Hb by exact Hbc.
    unfold runnable in Hb. rewrite Hp0 in Hb. unfold can_run in Hb.
    assert (0 ≤ deads (procs s1) l) by (unfold deads; lia).
    destruct (status p0) eqn:E0; try done.
    + destruct (scan_skip v t l tail pre u w) as (v' & E & Sn'); try done; [by exists p0|].
      exists v', t. split; [done|]. right. eexists. split; [|exact Sn']. simpl. nia.
    + destruct (scan_reap v t l tail pre u w) as (v' & t' & n' & E & Sn' & Hn'); try done; [by exists p0|].
      exists v', t'. split; [done|]. right. exists n'. split; [|done]. simpl. lia.
Qed.

End scan.

(** ** One call of [schedule] *)

(** What the tick does to the process it interrupts. *)
Definition preempt (ctx : Z) (p : process_t) : process_t :=
  let quantum := s16 (remaining_quantum p - 1) in
  let p' := set_context ctx (set_quantum quantum p) in
  if quantum >? 0 then p' else set_status READY p'.

(** The processes [schedule] considers, in order, when [g] is current and [rest]
    follows it in the circle: [g] alone while it has quantum left, [g] last when
    its quantum is used up, [g] first when it was not running. *)
Definition candidates (pg : process_t) (g : Z) (rest : list Z) : list Z :=
  match status pg with
  | RUNNING => if s16 (remaining_quantum pg - 1) >? 0 then [g] else rest ++ [g]
  | _ => g :: rest
  end.

Section schedule.
Context `{HO : HeapOps, HV : HeapView, HL : !HeapLaws}.
Context (s : pstate) (l : list Z) (g ctx T : Z) (rest : list Z) (pg : process_t).
Context (I : proc_inv s l) (Hrot : rot l (g :: rest)) (Hpg : procs s !! g = Some pg).
Context (Hg : current_process s = g ∨ current_process s = 0 ∧ g = head_of l).
Context (Hone : ∀ x, x ∈ rest → ¬ has_status (procs s) RUNNING x).
Context (u w : list Z) (Hcand : candidates pg g rest = u ++ T :: w).
Context (Hu : Forall (λ x, runnable (procs s) (uptime s) x = false) u).
Context (HT : runnable (procs s) (uptime s) T = true).

Definition s0 : pstate := set_current g s.
Definition s1 : pstate :=
  if decide (status pg = RUNNING) then set_procs (<[g := preempt ctx pg]> (procs s)) s0 else s0.

Lemma g_in : g ∈ l.
Proof. apply (rot_elem _ _ g Hrot). by left. Qed.

Lemma rest_not_g x : x ∈ rest → x ≠ g.
Proof.
  intros Hx ->. pose proof (pi_nodup _ _ I) as Hnd. destruct Hrot as (a & b & Hl & Hr).
  assert (NoDup (g :: rest)) as Hnd'; [|by apply NoDup_cons_1_1 in Hnd'].
  rewrite Hr. rewrite Hl in Hnd. apply list.NoDup_app in Hnd as (H1 & H2 & H3).
  apply list.NoDup_app. split_and!; [done| |done]. intros x Hx1 Hx2. by apply (H2 x).
Qed.

Lemma s0_inv : proc_inv s0 l.
Proof. by destruct I. Qed.

Lemma s1_inv : proc_inv s1 l.
Proof.
  unfold s1. case_decide; [|apply s0_inv].
  apply (pi_update s0 l g pg (preempt ctx)); [apply s0_inv|done|]. unfold preempt; cbv zeta; by case_if.
Qed.

Lemma s1_other x : x ≠ g → procs s1 !! x = procs s !! x.
Proof. intros. unfold s1. case_decide; [cbn; by rewrite lookup_insert_ne|done]. Qed.

Lemma s1_g : procs s1 !! g = Some (if decide (status pg = RUNNING) then preempt ctx pg else pg).
Proof. unfold s1. case_decide; [cbn; by rewrite lookup_insert_eq|done]. Qed.

Lemma s1_rest : same_rest s s1.
Proof. unfold s1. by case_decide. Qed.

Lemma s1_dead x : has_status (procs s1) DEAD x → has_status (procs s) DEAD x.
Proof.
  intros (p & Hp & Hd). destruct (decide (x = g)) as [->|Hne]; [|exists p; by rewrite <- s1_other].
  rewrite s1_g in Hp. exists pg. split; [done|]. case_decide as Hr; simplify_eq; [|done].
  unfold preempt in Hd; cbv zeta in Hd; destruct (_ >? 0); cbn in Hd; congruence.
Qed.

Lemma s1_runnable x : runnable (procs s1) (uptime s1) x = runnable (procs s) (uptime s) x.
Proof.
  unfold runnable. destruct s1_rest as (_ & -> & _). destruct (decide (x = g)) as [->|Hne].
  - rewrite s1_g, Hpg. case_decide as Hr; [|done]. unfold preempt, can_run; cbv zeta; case_if; cbn; by rewrite Hr.
  - by rewrite s1_other.
Qed.

(** The process ran and has used its quantum up. *)
Definition expired : bool :=
  bool_decide (status pg = RUNNING) && negb (s16 (remaining_quantum pg - 1) >? 0).

(** When the quantum, the kernel stack and the address space are set: the quantum
    of the process that ran is used up, a dead process was passed, or the next
    process was ready.  A sleeper that is woken is, by itself, no such reason. *)
Definition reloads : Prop :=
  expired = true ∨ (∃ x, x ∈ u ∧ has_status (procs s) DEAD x) ∨
  has_status (procs s) READY T ∨ has_status (procs s) SPAWNED T.

#[local] Abbreviation v0 := (Vars g (head_of l) true false).
#[local] Abbreviation done_scan := (found s1 l T u expired).

Lemma passed_in x : x ∈ u → x ∈ l.
Proof.
  intros Hx. apply (rot_elem _ _ x Hrot).
  assert (x ∈ candidates pg g rest) as Hc by (rewrite Hcand; apply elem_of_app; by left).
  unfold candidates in Hc. destruct (status pg); try case_match; try done.
  - apply elem_of_cons in Hc as [->|Hc]; [by left|by apply elem_of_nil in Hc].
  - apply elem_of_app in Hc as [?|[->|Hc]%elem_of_cons]; [by right|by left|by apply elem_of_nil in Hc].
Qed.

Lemma s1_dead_iff x : has_status (procs s1) DEAD x ↔ has_status (procs s) DEAD x.
Proof.
  split; [apply s1_dead|]. intros (p & Hp & Hd). destruct (decide (x = g)) as [->|Hne].
  - exists pg. rewrite s1_g. assert (p = pg) as -> by congruence. by rewrite decide_False by congruence.
  - exists p. by rewrite s1_other.
Qed.

Lemma switches_reloads : switches s1 l T u expired ↔ reloads.
Proof.
  unfold switches, reloads.
  assert ((∃ x, x ∈ l ∧ x ∈ u ∧ has_status (procs s1) DEAD x) ↔ ∃ x, x ∈ u ∧ has_status (procs s) DEAD x) as ->.
  { split; intros (x & H); exists x; rewrite s1_dead_iff in *; [tauto|]. pose proof (passed_in x). tauto. }
  destruct (decide (T = g ∧ status pg = RUNNING)) as [[-> Hr]|Hne].
  - assert (∀ st, has_status (procs s1) st g ↔ status (preempt ctx pg) = st) as E1.
    { intros st. split; [intros (p & Hp & <-)|intros <-; eexists]; rewrite s1_g, decide_True in * by done; [congruence|done]. }
    assert (∀ st, has_status (procs s) st g ↔ status pg = st) as E by (intros st; split; [intros (p & Hp & <-); congruence|by exists pg]).
    rewrite !E1, !E, Hr. unfold expired, preempt. rewrite bool_decide_eq_true_2 by done. cbv zeta.
    destruct (_ >? 0); cbn; [rewrite Hr|]; intuition congruence.
  - assert (∀ st, has_status (procs s1) st T ↔ has_status (procs s) st T) as E; [|by rewrite !E].
    intros st. unfold has_status. destruct (decide (T = g)) as [->|Hg']; [|by rewrite s1_other].
    rewrite s1_g, Hpg, decide_False by tauto. done.
Qed.

Lemma list_head : processes_list s = head_of l ∧ head_of l ≠ 0.
Proof.
  rewrite <- (linked_head _ _ _ (pi_linked _ _ I)). split; [done|].
  eapply scan_nonempty; [done|apply g_in].
Qed.

(** From a state that is scanned or found after one round, the loop finds [T]. *)
Lemma loop_found N v t : 0 < N < 2 ^ 66 →
  (∃ v' t', schedule_round ctx v t = Ok (inl v', t') ∧
    (done_scan v' t' ∨ ∃ n', 0 ≤ n' < N ∧ scanning s1 l T u expired n' v' t')) →
  runs (loop (schedule_round ctx) v) t (λ v' t', done_scan v' t').
Proof.
  intros HN Hfirst.
  apply (runs_loop_ghost _ (λ n v' t', n = N ∧ v' = v ∧ t' = t ∨
    n < N ∧ (scanning s1 l T u expired n v' t' ∨ n = 0 ∧ done_scan v' t'))) with (n := N); [|by left|lia].
  intros n v' t' Hcases.
  assert (done_scan v' t' ∨ 0 < n ≤ N ∧ ∃ v'' t'', schedule_round ctx v' t' = Ok (inl v'', t'') ∧
    (done_scan v'' t'' ∨ ∃ n', 0 ≤ n' < n ∧ scanning s1 l T u expired n' v'' t'')) as [F|(Hn & v'' & t'' & E & H)].
  { destruct Hcases as [(-> & -> & ->)|(Hn & [Sn|[-> F]])]; [right; split; [lia|done]| |by left].
    right. split.
    - destruct Sn as [_ _ (l1 & ? & ? & u1 & ? & _ & _ & _ & _ & _ & _ & _ & ->)]. unfold deads in *. nia.
    - apply (scan_round_ok s1 l ctx T u expired s1_inv); [|done]. by rewrite s1_runnable. }
  - unfold schedule_round, runs. rewrite (fd_still _ _ _ _ _ _ _ F). done.
  - unfold runs. rewrite E. destruct H as [F|(n' & Hn' & Sn')].
    + exists 0. split; [lia|]. right. split; [lia|]. right. done.
    + exists n'. split; [lia|]. right. split; [lia|]. by left.
Qed.

Lemma measure_bound lu (l1 : list Z) : (lu ≤ length l)%nat → (length l1 ≤ length l)%nat →
  0 < (Z.of_nat (length l1) + 1) * deads (procs s1) l1 + Z.of_nat lu + 1 < 2 ^ 65.
Proof.
  intros H1 H2. pose proof (pi_length _ _ I) as Hlen. unfold deads.
  pose proof (length_filter (has_status (procs s1) DEAD) l1) as Hf. nia.
Qed.

Lemma cand_length : (length u ≤ length l)%nat.
Proof.
  pose proof (rot_length _ _ Hrot) as Hlen. simpl in Hlen.
  assert (length (candidates pg g rest) ≤ length l)%nat as Hc.
  { unfold candidates. destruct (status pg); try case_if; rewrite ?length_app; simpl; lia. }
  rewrite Hcand, length_app in Hc. lia.
Qed.

Lemma bad_s1 x : runnable (procs s) (uptime s) x = false → runnable (procs s1) (uptime s1) x = false.
Proof. by rewrite s1_runnable. Qed.

Lemma start_state : (∀ x, x ∈ l → ¬ has_status (procs s1) RUNNING x) → scan_state s1 l u s1 l.
Proof.
  intros Hrun. split; [apply s1_inv|apply same_procs_refl|by repeat split|done|done|by left|done|].
  intros X _. apply mem_kept_refl.
Qed.

Lemma none_running : (status pg ≠ RUNNING ∨ (s16 (remaining_quantum pg - 1) >? 0) = false) →
  ∀ x, x ∈ l → ¬ has_status (procs s1) RUNNING x.
Proof.
  intros Hq x Hx (p & Hp & Hst). destruct (decide (x = g)) as [->|Hne].
  - rewrite s1_g in Hp. case_decide as Hr; injection Hp as <-; [|done].
    unfold preempt in Hst. destruct Hq as [?|Hq]; [done|]. rewrite Hq in Hst. done.
  - rewrite s1_other in Hp by done. apply (rot_elem _ _ x Hrot) in Hx as [?|Hx]%elem_of_cons; [done|].
    apply (Hone x Hx). by exists p.
Qed.

(** The current process was not running: the scan starts with it. *)
Lemma loop_idle : status pg ≠ RUNNING → runs (loop (schedule_round ctx) v0) s0 (λ v t, done_scan v t).
Proof.
  intros Hst. assert (s1 = s0) as Es by (unfold s1; by rewrite decide_False).
  pose proof (measure_bound (length u) l cand_length ltac:(lia)) as HN.
  eapply loop_found; [|apply (scan_round_ok s1 l ctx T u expired s1_inv);
    [by rewrite s1_runnable|]]; [split; [apply HN|lia]|].
  split; [done|by destruct list_head|]. exists l, rest, [], u, w. rewrite app_nil_r.
  split_and!; try done.
  - rewrite <- Es. apply start_state, none_running. by left.
  - by left.
  - rewrite <- Hcand. unfold candidates. by destruct (status pg).
  - eapply list.Forall_impl; [exact Hu|]. intros x. apply bad_s1.
  - unfold expired. rewrite bool_decide_eq_false_2 by done. cbn. split; [done|]. by intros [?|[]].
Qed.

Lemma switch_running : status pg = RUNNING →
  schedule_switch ctx v0 s0 = Ok (inr (if s16 (remaining_quantum pg - 1) >? 0
    then Vars g (head_of l) false false else Vars g (head_of l) true true), s1).
Proof.
  intros Hst. unfold schedule_switch, mbind, M_bind, proc. cbn [v_current v_list v_still v_switched].
  cbn [s0 procs set_current]. rewrite Hpg. cbn [bind_result fst snd]. rewrite Hst. cbv zeta.
  rewrite (update_ok g _ s0 pg) by done. cbn [bind_result fst snd].
  rewrite (update_ok g _ _ (set_quantum (s16 (remaining_quantum pg - 1)) pg))
    by (cbn; by rewrite lookup_insert_eq).
  cbn [bind_result fst snd procs set_procs]. rewrite insert_insert_eq.
  unfold s1. rewrite decide_True by done. unfold preempt. cbv zeta. case_if; [done|].
  rewrite (update_ok g _ _ (set_context ctx (set_quantum (s16 (remaining_quantum pg - 1)) pg)))
    by (cbn; by rewrite lookup_insert_eq).
  cbn [bind_result fst snd procs set_procs]. by rewrite insert_insert_eq.
Qed.

(** It was running and has quantum left: it goes on. *)
Lemma loop_stays : status pg = RUNNING → (s16 (remaining_quantum pg - 1) >? 0) = true →
  runs (loop (schedule_round ctx) v0) s0 (λ v t, done_scan v t).
Proof.
  intros Hst Hq. pose proof (switch_running Hst) as E. rewrite Hq in E.
  assert (T = g) as HTg.
  { unfold candidates in Hcand. rewrite Hst, Hq in Hcand. by destruct u as [|? [|]]; simplify_eq/=. }
  assert (done_scan (Vars g (head_of l) false false) s1) as F.
  { assert (u = []) as Eu.
    { unfold candidates in Hcand. rewrite Hst, Hq in Hcand. by destruct u as [|? [|]]. }
    split; [done|done|]. exists l.
    split_and!; try done; [apply s1_inv|rewrite HTg; apply g_in| | |intros X _; apply mem_kept_refl| |].
    - intros x Hx. rewrite Eu. split; [|done]. by intros _ [?%elem_of_nil _].
    - rewrite switches_reloads. unfold reloads, expired. rewrite Hst, Hq, Eu, HTg. cbn. split; [done|].
      intros [?|[(x & ?%elem_of_nil & _)|[(p & ? & ?)|(p & ? & ?)]]]; [done|done|congruence..].
    - intros x px _ _ Hpx. by exists px.
    - destruct (pi_in _ _ T s1_inv) as (_ & p & Hp); [rewrite HTg; apply g_in|]. by exists p, p. }
  apply (loop_found 1); [lia|]. eexists _, s1. split; [|by left].
  eapply round_found; [done|by destruct list_head|exact E|apply s1_inv|rewrite HTg; apply g_in|exact F].
Qed.

(** It was running and its quantum is used up: the scan starts behind it. *)
Lemma loop_expires : status pg = RUNNING → (s16 (remaining_quantum pg - 1) >? 0) = false →
  runs (loop (schedule_round ctx) v0) s0 (λ v t, done_scan v t).
Proof.
  intros Hst Hq. pose proof (switch_running Hst) as E. rewrite Hq in E.
  assert (rest ++ [g] = u ++ T :: w) as Hc.
  { rewrite <- Hcand. unfold candidates. by rewrite Hst, Hq. }
  pose proof (measure_bound (length u) l cand_length ltac:(lia)) as HN.
  assert (∃ p, procs s1 !! g = Some p) as [p Hp] by (rewrite s1_g; by eexists).
  pose proof (next_in_circle s1 l g rest p s1_inv Hrot Hp) as Hnext.
  destruct list_head as [Hlh Hne]. apply Z.eqb_neq in Hne.
  assert (processes_list s1 = head_of l) as Hlh1 by (unfold s1; by case_decide).
  apply (loop_found ((Z.of_nat (length l) + 1) * deads (procs s1) l + Z.of_nat (length u) + 2)); [lia|].
  exists (Vars (head_of (rest ++ [g])) (head_of l) true true), s1. split.
  - unfold schedule_round, mbind, M_bind. cbn [v_still v_list negb]. rewrite Hne, E.
    cbn [bind_result fst snd v_current v_still v_list]. unfold proc. rewrite Hp.
    cbn [bind_result fst snd negb andb mret M_ret v_switched]. by rewrite <- Hlh1, Hnext.
  - right. eexists. split; [|split; [done|by rewrite Hlh1|]]; cycle 1.
    + cbn [v_current].
      assert (∃ c tail pre, rest ++ [g] = c :: tail ++ pre ∧ (pre = [] ∧ c = g ∨ pre = [g]))
        as (c & tail & pre & Hz & Hpre).
      { clear. destruct rest as [|c r]; [by exists g, [], []; auto|by exists c, r, [g]; auto]. }
      assert (current_process s1 = g) as Hcur by (unfold s1; by case_decide).
      rewrite Hz. change (head_of (c :: tail ++ pre)) with c.
      exists l, tail, pre, u, w. rewrite Hcur, <- Hz.
      split_and!; [apply start_state, none_running; by right| | |done| |done| |done].
      * eapply rot_trans; [exact Hrot|]. apply (rot_swap [g] rest).
      * destruct Hpre as [[-> ->]| ->]; [by left|right; by exists []].
      * eapply list.Forall_impl; [exact Hu|]. intros x. apply bad_s1.
      * cbn. unfold expired. rewrite Hst, Hq. cbn. split; [by left|done].
    + lia.
Qed.

Lemma schedule_loop : runs (loop (schedule_round ctx) v0) s0 (λ v t, done_scan v t).
Proof.
  destruct (decide (status pg = RUNNING)) as [Hst|Hst]; [|by apply loop_idle].
  destruct (s16 (remaining_quantum pg - 1) >? 0) eqn:Hq; [by apply loop_stays|by apply loop_expires].
Qed.

(** The process record of [T] that will be resumed. *)
Definition resumed (r : Z) (t : pstate) : Prop :=
  ∃ l' p0 pT, proc_inv t l' ∧ T ∈ l' ∧ l' `sublist_of` l ∧
    (∀ x, x ∈ l → (x ∈ l' ↔ ¬ (x ∈ u ∧ has_status (procs s) DEAD x))) ∧
    (∀ x px, x ∈ l' → x ≠ T → procs s1 !! x = Some px →
      ∃ px', procs t !! x = Some px' ∧ set_next 0 px' = set_next 0 px) ∧
    current_process t = T ∧ procs s1 !! T = Some p0 ∧ procs t !! T = Some pT ∧
    status pT = RUNNING ∧ context pT = context p0 ∧ pid pT = pid p0 ∧ r = context pT ∧
    others_kept (mem s) (mem t) l l' ∧ kstack pT = kstack p0 ∧ vmm pT = vmm p0 ∧
    (reloads → remaining_quantum pT = DEFAULT_PROCESS_RUNNING_QUANTUM ∧
      rsp0 t = kstack pT ∧ space_loaded (mem t) (vmm pT)) ∧
    (¬ reloads → remaining_quantum pT = remaining_quantum p0 ∧ rsp0 t = rsp0 s ∧ mem t = mem s).

Lemma ready_to_run_fields p p' : ready_to_run p' = ready_to_run p →
  context p' = context p ∧ pid p' = pid p ∧ kstack p' = kstack p ∧ vmm p' = vmm p ∧
  remaining_quantum p' = remaining_quantum p.
Proof. unfold ready_to_run, set_next, set_status, set_wake_time. cbn. intros [=]. done. Qed.

(** The end of [schedule], once [T] is found. *)
Lemma schedule_end v t : done_scan v t →
  runs (process_set_current (v_current v);; update (v_current v) (set_status RUNNING);;
    if v_switched v then
      update (v_current v) (set_quantum DEFAULT_PROCESS_RUNNING_QUANTUM);; scheduler_context_switch
    else p ← proc (v_current v); mret (context p)) t resumed.
Proof.
  intros [_ Hc (l' & It & HTl & Sub & G & Hrest & Hmem & Hsw & K & Hk & p0 & p & Hp0 & Hp & E)]. rewrite Hc.
  rewrite switches_reloads in Hsw. destruct (ready_to_run_fields _ _ E) as (Ec & Epid & Eks & Evm & Eq).
  assert (proc_inv (set_current T t) l') as It0 by by destruct It.
  set (p1 := set_status RUNNING p).
  pose proof (pi_update _ l' T p (set_status RUNNING) It0 Hp eq_refl) as It1. cbn [procs set_current] in It1.
  assert (mem s1 = mem s) as Em by (unfold s1; by case_decide). rewrite Em in K.
  assert (∀ x, x ∈ l → (x ∈ l' ↔ ¬ (x ∈ u ∧ has_status (procs s) DEAD x))) as G'.
  { intros x Hx. by rewrite <- s1_dead_iff, G. }
  assert (¬ reloads → mem t = mem s) as Hmem'.
  { intros Hn. rewrite <- Em. apply Hmem. rewrite (sublist_full l' l); [done|apply (pi_nodup _ _ I)|done|].
    intros x Hx. apply G'; [done|]. intros [? ?]. apply Hn. right; left. by exists x. }
  assert (∀ t' pT, proc_inv t' l' → current_process t' = T → procs t' = <[T := pT]> (procs t) →
    others_kept (mem s) (mem t') l l' → status pT = RUNNING → context pT = context p0 → pid pT = pid p0 →
    kstack pT = kstack p0 → vmm pT = vmm p0 →
    (reloads → remaining_quantum pT = DEFAULT_PROCESS_RUNNING_QUANTUM ∧
      rsp0 t' = kstack pT ∧ space_loaded (mem t') (vmm pT)) →
    (¬ reloads → remaining_quantum pT = remaining_quantum p0 ∧ rsp0 t' = rsp0 s ∧ mem t' = mem s) →
    resumed (context pT) t') as Hend.
  { intros t' pT I' Hc' Hp' HK H1 H2 H3 H4 H5 H6 H7. exists l', p0, pT. rewrite Hp', lookup_insert_eq.
    split_and!; try done.
    intros x px Hx HxT Hpx. rewrite lookup_insert_ne by done. by eapply Hk. }
  unfold runs, mbind, M_bind, process_set_current, modify. cbn [bind_result fst snd].
  rewrite (update_ok T _ (set_current T t) p) by done. cbn [bind_result fst snd procs set_current].
  fold p1. destruct (v_switched v) eqn:Ev.
  - rewrite (update_ok T _ _ p1) by (cbn; by rewrite lookup_insert_eq).
    cbn [bind_result fst snd procs set_procs]. rewrite insert_insert_eq.
    set (p2 := set_quantum _ p1).
    unfold scheduler_context_switch, process_get_current_vmm, process_get_current, tss_set_rsp0,
      mbind, M_bind, gets, modify, proc. cbn [bind_result fst snd].
    cbn [procs set_procs current_process set_current set_rsp0]. rewrite lookup_insert_eq.
    cbn [bind_result fst snd procs set_procs current_process set_current set_rsp0].
    rewrite lookup_insert_eq. cbn [bind_result fst snd mret M_ret]. unfold on_mem, zoom.
    cbn [mem set_procs set_current set_rsp0].
    destruct (pi_heap _ _ It) as (B & HB & HlB).
    destruct (runs_inv _ _ _ (space_switch_ok (mem t) B (vmm p2) HB)) as ([] & m' & Esw & HB' & _ & Hload).
    rewrite Esw. cbn [bind_result fst snd mret M_ret]. apply (Hend _ p2); try done; cycle 1.
    { intros X HX. eapply mem_kept_trans; [done|by apply K|]. intros B2 HB2 HX2. cbn.
      destruct (runs_inv _ _ _ (space_switch_ok (mem t) B2 (vmm p2) HB2)) as ([] & m2 & E2 & HB2' & K2 & _).
      rewrite Esw in E2. injection E2 as <-. exists B2. split_and!; [done..|]. by eapply blocks_kept_mono. }
    { intros Hn. by destruct Hn; apply Hsw. }
    pose proof (pi_update _ l' T p1 (set_quantum DEFAULT_PROCESS_RUNNING_QUANTUM) It1
      ltac:(cbn; by rewrite lookup_insert_eq) eq_refl) as [L2 N2 _ Len2].
    cbn in L2. rewrite insert_insert_eq in L2. split; [done|done| |done]. by exists B.
  - unfold proc. cbn [procs set_procs]. rewrite lookup_insert_eq. cbn [bind_result fst snd].
    apply (Hend _ p1); try done; [intros Hr; by apply Hsw in Hr|].
    intros Hn. destruct Hrest as (_ & _ & Er & _). split_and!; [done| |by apply Hmem'].
    cbn. rewrite Er. by destruct s1_rest as (_ & _ & -> & _).
Qed.

Lemma schedule_ok : runs (schedule ctx) s resumed.
Proof.
  destruct list_head as [Hlh Hne]. apply Z.eqb_neq in Hne.
  assert ((if current_process s =? 0 then process_set_current (head_of l);; mret (head_of l)
    else mret (current_process s)) s = Ok (g, s0)) as Hcur.
  { unfold s0. destruct Hg as [Hc|[Hc ->]].
    - rewrite Hc. destruct (pi_in _ _ g I g_in) as (Hg0 & _). apply Z.eqb_neq in Hg0. rewrite Hg0.
      cbn. do 2 f_equal. destruct s. cbn in *. by subst.
    - by rewrite Hc. }
  unfold schedule, runs, process_get_list, process_get_current. unfold mbind at 1, M_bind at 1, gets at 1.
  cbn [bind_result fst snd]. rewrite Hlh, Hne. unfold mbind at 1, M_bind at 1, gets at 1.
  cbn [bind_result fst snd]. unfold mbind at 1, M_bind at 1. rewrite Hcur. cbn [bind_result fst snd].
  unfold mbind at 1, M_bind at 1.
  destruct (runs_inv _ _ _ schedule_loop) as (v & t & -> & F). cbn [bind_result fst snd].
  exact (schedule_end v t F).
Qed.

End schedule.
