(* ===== verification/SchedulerCorrect.v ===== *)
(** * Correctness of processes and scheduling

    The theorems on [process.c] and [scheduler.c], for any memory management that
    keeps the laws of [Heap], with instances on the kernel's own heap. *)

From S2P Require Import Prelude Machine Util Spinlock Pmm Frames PmmFrames.
From S2P Require Import Vmm VmmCorrect Kheap VmmNew Heap KheapCorrect Process Scheduler.

Section correct.
Context `{HO : HeapOps, HV : HeapView, HL : !HeapLaws}.

(** [process_create] returns, or panics when memory runs out.  The process
    it returns is new, has the next process id, is READY and is the last of the
    process list; its context starts the wrapper with the function and its
    argument, in kernel mode with interrupts on, on the process's own stack; the
    other processes are unchanged. *)
Theorem process_create_correct (s : pstate) (l : list Z) (wrapper : Z) (str : list Z)
    (function arg : Z) :
  proc_inv s l → Z.of_nat (length l) + 1 < 2 ^ 32 →
  (∀ x px, procs s !! x = Some px → x ∈ l) →
  safe (process_create wrapper str function arg) s (λ p s',
    proc_inv s' (l ++ [p]) ∧ ¬ (p ∈ l) ∧ next_pid s' = u64 (next_pid s + 1) ∧
    (∃ pr base, procs s' !! p = Some pr ∧ pid pr = next_pid s ∧ status pr = READY ∧
      context_at (mem s') (context pr) = start_context wrapper function arg (kstack pr) ∧
      kstack pr = u64 (base + STACK_SIZE) ∧ owns (mem s') base base STACK_SIZE ∧
      owns (mem s') (context pr) (context pr) sizeof_execution_context) ∧
    (∀ x px, procs s !! x = Some px →
      ∃ px', procs s' !! x = Some px' ∧ set_next 0 px' = set_next 0 px)).
Proof.
  intros I Hlen Hall. destruct (pi_heap _ _ I) as (B & HB & HlB).
  eapply safe_mono; [by apply (process_create_at s l B)|].
  intros p s' [[I' [Hp _] Hn _ (pr & Hpr & Hpid & Hst & Hc) Hk _ _] (base & pr' & Hpr' & [_ _ _ _ [Hoc _] (Hos & _ & Hks)])].
  assert (pr' = pr) as -> by congruence. split_and!; try done. by exists pr, base.
Qed.

(** [process_delete] on a process of the list returns: the list loses
    exactly that process and keeps its order, the block is given back, the other
    processes are unchanged, and the successor of the current process (of the
    deleted process when it is current), or else the head of the list, becomes
    current. *)
Theorem process_delete_correct (s : pstate) (a b d : list Z) (p : Z) :
  proc_inv s (a ++ p :: b) →
  (current_process s = p ∧ d = b ∨ ∃ c, a ++ b = c ++ current_process s :: d) →
  runs (process_delete p) s (λ _ s',
    proc_inv s' (a ++ b) ∧ current_process s' = head_of (d ++ a ++ b) ∧
    procs s' !! p = None ∧
    (∀ x px, x ≠ p → procs s !! x = Some px →
      ∃ px', procs s' !! x = Some px' ∧ set_next 0 px' = set_next 0 px)).
Proof.
  intros I Hd. eapply runs_mono; [by apply (process_delete_ok s _ a p b _ d I eq_refl eq_refl)|].
  intros u s' (I' & Hc & Hn & Hk & _). by split_and!.
Qed.

(** The record of the next process before and after the interrupted context is saved. *)
Lemma resumed_record (s : pstate) (g ctx T : Z) (pg p0 : process_t) : procs s !! g = Some pg →
  procs (s1 s g ctx pg) !! T = Some p0 → ∃ p, procs s !! T = Some p ∧
    context p0 = (if decide (T = g ∧ status pg = RUNNING) then ctx else context p) ∧
    pid p0 = pid p ∧ kstack p0 = kstack p ∧ vmm p0 = vmm p ∧
    remaining_quantum p0 = (if decide (T = g ∧ status pg = RUNNING)
      then s16 (remaining_quantum pg - 1) else remaining_quantum p).
Proof.
  intros Hpg Hp0. destruct (decide (T = g)) as [->|Hne].
  - rewrite (s1_g s g ctx pg Hpg) in Hp0. exists pg. split; [done|]. case_decide as Hr; injection Hp0 as <-.
    + rewrite !decide_True by done. unfold preempt. cbv zeta. by case_if.
    + by rewrite !decide_False by naive_solver.
  - rewrite s1_other in Hp0 by done. exists p0. by rewrite !decide_False by naive_solver.
Qed.

(** [C9] [schedule] is round robin.  Let [g] be the current process and [rest]
    the others in circular order behind it, none of them running.  The next
    process [T] is the first runnable one among [candidates]: [g] while its quantum
    lasts, otherwise those of [rest] in order and then [g] (or [g] first, when it
    was not running); a sleeper is runnable once its wake time has passed, a dead
    process never.  [schedule] returns.  [T] is current and RUNNING and its context
    is returned, the interrupted one if [T] is [g] and was running.  The dead
    processes among those passed on the way to [T] leave the list, which keeps its
    order, and no others do; the interrupted context is saved in [g]; no other
    process changes.  The quantum of [T] is renewed, its kernel stack is put in the
    task state segment and its address space is loaded exactly when the quantum of
    [g] was used up, a dead process was passed or [T] was ready ([reloads]);
    otherwise (its quantum lasts, or a sleeper was woken and nothing else happened)
    the quantum, the kernel stack of the segment and the memory stay as they are. *)
Theorem schedule_round_robin (s : pstate) (l : list Z) (g ctx T : Z) (rest u w : list Z)
    (pg : process_t) :
  proc_inv s l → rot l (g :: rest) → procs s !! g = Some pg →
  (current_process s = g ∨ current_process s = 0 ∧ g = head_of l) →
  (∀ x, x ∈ rest → ¬ has_status (procs s) RUNNING x) →
  candidates pg g rest = u ++ T :: w →
  Forall (λ x, runnable (procs s) (uptime s) x = false) u →
  runnable (procs s) (uptime s) T = true →
  runs (schedule ctx) s (λ r s', ∃ l' p pT,
    proc_inv s' l' ∧ l' `sublist_of` l ∧
    (∀ x, x ∈ l → (x ∈ l' ↔ ~ (x ∈ u ∧ has_status (procs s) DEAD x))) ∧
    current_process s' = T ∧ procs s !! T = Some p ∧ procs s' !! T = Some pT ∧
    status pT = RUNNING ∧ pid pT = pid p ∧ kstack pT = kstack p ∧ vmm pT = vmm p ∧
    context pT = r ∧ r = (if decide (T = g ∧ status pg = RUNNING) then ctx else context p) ∧
    (reloads s T pg u → remaining_quantum pT = DEFAULT_PROCESS_RUNNING_QUANTUM ∧
      rsp0 s' = kstack pT ∧ space_loaded (mem s') (vmm pT)) ∧
    (~ reloads s T pg u → rsp0 s' = rsp0 s ∧ mem s' = mem s ∧
      remaining_quantum pT = (if decide (T = g ∧ status pg = RUNNING)
        then s16 (remaining_quantum pg - 1) else remaining_quantum p)) ∧
    (∀ x px, x ∈ l' → x ≠ T → (x = g → status pg ≠ RUNNING) → procs s !! x = Some px →
      ∃ px', procs s' !! x = Some px' ∧ set_next 0 px' = set_next 0 px) ∧
    (status pg = RUNNING → g ≠ T → ∃ pg', procs s' !! g = Some pg' ∧ context pg' = ctx ∧
      status pg' = READY)).
Proof.
  intros I Hrot Hpg Hg Hone Hc Hu HT.
  eapply runs_mono; [by apply (schedule_ok s l g ctx T rest pg I Hrot Hpg Hg Hone u w Hc Hu HT)|].
  intros r s' (l' & p0 & pT & I' & HTl & Sub & G & Hk & Hcur & Hp0 & HpT & Hst & Hctx & Hpid & -> & _ & Hks & Hvm & Hyes & Hno).
  destruct (resumed_record s g ctx T pg p0 Hpg Hp0) as (p & Hp & Ec & Epid & Eks & Evm & Eq).
  exists l', p, pT. split_and!; try done; try congruence.
  - intros Hn. destruct (Hno Hn) as (E1 & E2 & E3). split_and!; [done..|congruence].
  - intros x px Hx HxT Hxg Hpx. apply (Hk x px Hx HxT).
    destruct (decide (x = g)) as [->|Hne]; [|by rewrite s1_other].
    rewrite (s1_g s g ctx pg Hpg), decide_False by auto. congruence.
  - intros Hr HgT. assert (g ∈ l) as Hgl by (apply (rot_elem _ _ g Hrot); by left).
    assert (g ∈ l') as Hgl'.
    { apply (G g Hgl). intros [_ (q & Hq & Hd)]. congruence. }
    destruct (Hk g (preempt ctx pg) Hgl' HgT) as (pg' & Hpg' & E).
    { rewrite (s1_g s g ctx pg Hpg). by rewrite decide_True. }
    exists pg'. destruct (set_next_fields _ _ E) as (-> & _ & -> & _). split; [done|].
    unfold candidates in Hc. rewrite Hr in Hc. unfold preempt. cbv zeta.
    destruct (_ >? 0); [|done]. destruct u as [|? [|]]; simplify_eq/=.
Qed.

(** [C39] When every process sleeps and none is due, [schedule] never returns:
    the loop goes round the list, and the uptime it compares with cannot change
    while the interrupt is being handled. *)
Theorem schedule_hangs_all_asleep (s : pstate) (l : list Z) (ctx : Z) :
  proc_inv s l → l ≠ [] → (current_process s ∈ l ∨ current_process s = 0) →
  (∀ x px, x ∈ l → procs s !! x = Some px → status px = SLEEPING ∧ uptime s ≤ wake_time px) →
  schedule ctx s = Hang.
Proof.
  intros I Hl Hc Hsl. assert (head_of l ∈ l) as Hhl by (destruct l; [done|by left]).
  assert (head_of l ≠ 0) as Hh0 by by apply (pi_in s l). apply Z.eqb_neq in Hh0.
  assert (∃ g, g ∈ l ∧ (if current_process s =? 0 then process_set_current (head_of l);; mret (head_of l)
    else mret (current_process s)) s = Ok (g, set_current g s)) as (g & Hgl & E).
  { destruct Hc as [Hc|Hc]; [|exists (head_of l); by rewrite Hc].
    exists (current_process s). split; [done|]. destruct (pi_in _ _ _ I Hc) as [Hc0 _].
    apply Z.eqb_neq in Hc0. rewrite Hc0. by destruct s. }
  unfold schedule, process_get_list, process_get_current, gets. unfold mbind at 1, M_bind at 1.
  cbn [bind_result fst snd]. rewrite (linked_head _ _ _ (pi_linked _ _ I)), Hh0.
  unfold mbind at 1, M_bind at 1. cbn [bind_result fst snd]. unfold mbind at 1, M_bind at 1.
  rewrite E. cbn [bind_result fst snd]. unfold mbind at 1, M_bind at 1.
  rewrite (loop_hangs _ (λ v t, t = set_current g s ∧ v_still v = true ∧ v_list v = head_of l ∧
    v_current v ∈ l)); [done| |done].
  intros [cur vl st sw] t (-> & Hs & Hvl & Hcl). cbn in Hs, Hvl, Hcl. subst vl st.
  apply list_elem_of_split in Hcl as (a & b & Hab).
  destruct (pi_at _ _ _ _ _ I Hab) as (_ & p & Hp & Hn).
  destruct (Hsl cur p) as [Hst Hw]; [rewrite Hab; apply elem_of_app; right; by left|done|].
  assert ((uptime s >? wake_time p) = false) as Hdue by (rewrite Z.gtb_ltb; apply Z.ltb_ge; lia).
  eexists _, _. split.
  - unfold schedule_round, schedule_switch, mbind, M_bind, proc, gets, mret, M_ret.
    cbn [v_still v_list v_current negb procs set_current]. rewrite Hh0.
    cbn [procs set_current]. rewrite Hp. cbn [bind_result fst snd]. rewrite Hst. cbn [bind_result fst snd uptime set_current].
    rewrite Hdue. cbn [bind_result fst snd v_still v_list v_current v_switched procs set_current].
    rewrite Hp. cbn [bind_result fst snd negb andb]. reflexivity.
  - cbn. split_and!; try done. destruct (next p =? 0) eqn:En; [done|]. cbn. rewrite Hn in *.
    destruct b as [|y b]; [done|]. rewrite Hab. apply elem_of_app. right. by right; left.
Qed.

End correct.

(** ** Instances on the kernel's heap *)

Definition two_blocks : M kstate (Z * Z) :=
  p ← heap_alloc sizeof_process_t; q ← heap_alloc sizeof_process_t; mret (p, q).

Definition demo_two : kstate := run_state two_blocks demo_space.

Lemma demo_two_returns : returns (two_blocks demo_space) = true.
Proof. vm_compute. reflexivity. Qed.

Lemma two_blocks_ok s : heap_ok s ∅ → safe two_blocks s (λ r s',
  ∃ B, heap_ok s' B ∧ r.1 ∈ B ∧ r.2 ∈ B ∧ r.1 ≠ r.2 ∧ r.1 ≠ 0 ∧ r.2 ≠ 0).
Proof.
  intros H. unfold two_blocks. sstep.
  eapply safe_mono; [apply (heap_alloc_ok s ∅); [done|unfold sizeof_process_t; lia]|].
  intros p s1 (Hp & _ & H1 & _). sstep.
  eapply safe_mono; [apply (heap_alloc_ok s1 ({[p]} ∪ ∅)); [exact H1|unfold sizeof_process_t; lia]|].
  intros q s2 (Hq & Hqp & H2 & _). sstep. eexists. split; [exact H2|]. cbn.
  rewrite !elem_of_union, !elem_of_singleton. split_and!; [by auto|by auto| |lia|lia].
  intros ->. apply Hqp. rewrite elem_of_union, elem_of_singleton. by left.
Qed.

Lemma demo_two_heap : ∃ p q B, heap_ok demo_two B ∧ p ∈ B ∧ q ∈ B ∧ p ≠ q ∧ p ≠ 0 ∧ q ≠ 0.
Proof.
  destruct (safe_run_state _ _ _ (two_blocks_ok demo_space demo_heap_ok) demo_two_returns)
    as ([p q] & B & H). exact (ex_intro _ p (ex_intro _ q (ex_intro _ B H))).
Qed.

(** Two processes, the first one running with its quantum used up. *)
Definition demo_proc (id : Z) (st : status_t) (quantum wake nxt ctx : Z) : process_t :=
  Process id st 0 [] [] quantum wake nxt ctx 0 0.

Definition demo_procs (m : kstate) (p q : Z) (st1 st2 : status_t) : pstate :=
  PState m (<[p := demo_proc 1 st1 1 50 q 100]> {[q := demo_proc 2 st2 3 50 0 200]}) p p 3 20 0 true.

Lemma demo_procs_inv m p q st1 st2 B : heap_ok m B → p ∈ B → q ∈ B → p ≠ q → p ≠ 0 → q ≠ 0 →
  proc_inv (demo_procs m p q st1 st2) [p; q].
Proof.
  intros HB Hp Hq Hne Hp0 Hq0. split.
  - cbn. split_and!; [done..|]. eexists. rewrite lookup_insert_eq. split; [done|].
    cbn. split_and!; [done..|]. eexists. rewrite lookup_insert_ne, lookup_singleton_eq by done. done.
  - apply NoDup_cons_2; [by rewrite list_elem_of_singleton|apply NoDup_singleton].
  - exists B. split; [done|]. intros x [->|[->|?%elem_of_nil]%elem_of_cons]%elem_of_cons; done.
  - done.
Qed.

Lemma schedule_round_robin_witness : ∃ p q,
  let s := demo_procs demo_two p q RUNNING READY in
  runs (schedule 77) s (λ r s', ∃ l' pq pT,
    proc_inv s' l' ∧ l' `sublist_of` [p; q] ∧
    (∀ x, x ∈ [p; q] → (x ∈ l' ↔ ~ (x ∈ [] ∧ has_status (procs s) DEAD x))) ∧
    current_process s' = q ∧ procs s !! q = Some pq ∧ procs s' !! q = Some pT ∧
    status pT = RUNNING ∧ pid pT = pid pq ∧ kstack pT = kstack pq ∧ vmm pT = vmm pq ∧
    context pT = r ∧
    r = (if decide (q = p ∧ status (demo_proc 1 RUNNING 1 50 q 100) = RUNNING) then 77 else context pq) ∧
    (reloads s q (demo_proc 1 RUNNING 1 50 q 100) [] →
      remaining_quantum pT = DEFAULT_PROCESS_RUNNING_QUANTUM ∧
      rsp0 s' = kstack pT ∧ space_loaded (mem s') (vmm pT)) ∧
    (~ reloads s q (demo_proc 1 RUNNING 1 50 q 100) [] → rsp0 s' = rsp0 s ∧ mem s' = mem s ∧
      remaining_quantum pT =
        (if decide (q = p ∧ status (demo_proc 1 RUNNING 1 50 q 100) = RUNNING) then s16 (1 - 1)
         else remaining_quantum pq)) ∧
    (∀ x px, x ∈ l' → x ≠ q → (x = p → status (demo_proc 1 RUNNING 1 50 q 100) ≠ RUNNING) →
      procs s !! x = Some px → ∃ px', procs s' !! x = Some px' ∧ set_next 0 px' = set_next 0 px) ∧
    (status (demo_proc 1 RUNNING 1 50 q 100) = RUNNING → p ≠ q →
      ∃ pg', procs s' !! p = Some pg' ∧ context pg' = 77 ∧ status pg' = READY)).
Proof.
  destruct demo_two_heap as (p & q & B & HB & Hp & Hq & Hne & Hp0 & Hq0). exists p, q.
  pose proof (demo_procs_inv demo_two p q RUNNING READY B HB Hp Hq Hne Hp0 Hq0) as I.
  apply (schedule_round_robin (demo_procs demo_two p q RUNNING READY) [p; q] p 77 q [q] [] [p]
    (demo_proc 1 RUNNING 1 50 q 100) I).
  - apply rot_refl.
  - cbn. apply lookup_insert_eq.
  - left. reflexivity.
  - intros x [->|?%elem_of_nil]%elem_of_cons (pr & Hpr & Hst); [|done]. cbn in Hpr.
    rewrite lookup_insert_ne, lookup_singleton_eq in Hpr by done. injection Hpr as <-. discriminate.
  - reflexivity.
  - apply Forall_nil.
  - unfold runnable. cbn. by rewrite lookup_insert_ne, lookup_singleton_eq by done.
Defined.

Lemma schedule_hangs_all_asleep_witness : ∃ p q,
  schedule 77 (demo_procs demo_two p q SLEEPING SLEEPING) = Hang.
Proof.
  destruct demo_two_heap as (p & q & B & HB & Hp & Hq & Hne & Hp0 & Hq0). exists p, q.
  apply (schedule_hangs_all_asleep (demo_procs demo_two p q SLEEPING SLEEPING) [p; q] 77
    (demo_procs_inv demo_two p q SLEEPING SLEEPING B HB Hp Hq Hne Hp0 Hq0)).
  - discriminate.
  - left. by left.
  - intros x px [->|[->|?%elem_of_nil]%elem_of_cons]%elem_of_cons; [..|done]; cbn; intros Hpx.
    + rewrite lookup_insert_eq in Hpx. injection Hpx as <-. cbn. split; [done|lia].
    + rewrite lookup_insert_ne, lookup_singleton_eq in Hpx by done. injection Hpx as <-.
      cbn. split; [done|lia].
Defined.

Lemma process_delete_correct_witness : ∃ p q,
  runs (process_delete p) (demo_procs demo_two p q DEAD READY) (λ _ s',
    proc_inv s' ([] ++ [q]) ∧ current_process s' = head_of ([q] ++ [] ++ [q]) ∧
    procs s' !! p = None ∧
    (∀ x px, x ≠ p → procs (demo_procs demo_two p q DEAD READY) !! x = Some px →
      ∃ px', procs s' !! x = Some px' ∧ set_next 0 px' = set_next 0 px)).
Proof.
  destruct demo_two_heap as (p & q & B & HB & Hp & Hq & Hne & Hp0 & Hq0). exists p, q.
  apply (process_delete_correct (demo_procs demo_two p q DEAD READY) [] [q] [q] p
    (demo_procs_inv demo_two p q DEAD READY B HB Hp Hq Hne Hp0 Hq0)).
  left. split; reflexivity.
Defined.

Definition no_procs : pstate := PState demo_space ∅ 0 0 1 0 0 false.

Lemma process_create_correct_witness :
  safe (process_create 4096 [105] 8192 7) no_procs (λ p s',
    proc_inv s' ([] ++ [p]) ∧ ¬ (p ∈ []) ∧ next_pid s' = u64 (next_pid no_procs + 1) ∧
    (∃ pr base, procs s' !! p = Some pr ∧ pid pr = next_pid no_procs ∧ status pr = READY ∧
      context_at (mem s') (context pr) = start_context 4096 8192 7 (kstack pr) ∧
      kstack pr = u64 (base + STACK_SIZE) ∧ owns (mem s') base base STACK_SIZE ∧
      owns (mem s') (context pr) (context pr) sizeof_execution_context) ∧
    (∀ x px, procs no_procs !! x = Some px →
      ∃ px', procs s' !! x = Some px' ∧ set_next 0 px' = set_next 0 px)).
Proof.
  apply (process_create_correct no_procs [] 4096 [105] 8192 7).
  - split; [reflexivity|apply NoDup_nil_2| |done]. exists ∅. split; [exact demo_heap_ok|].
    intros p Hp. by apply elem_of_nil in Hp.
  - done.
  - intros x px Hx. cbn in Hx. by rewrite lookup_empty in Hx.
Defined.
