(* ===== verification/Formatter.v ===== *)
(** * [src/kernel/lib/formatter.c], [print.c], [logger.c] and [panic.c]

    The directive handlers that append to a 1024-byte buffer, the format loop
    that [vkprintf], [vklog] and [panic] share, and the writers they end in
    ([limine_write], [log_to_serial]).

    A [char] is its byte value; a C string is the list of its bytes with the
    terminating 0, and a pointer into it is the rest of the list, so that
    reading past the object is [Fault]. *)

From Stdlib Require Import Ascii.
From S2P Require Import Prelude.

Definition MAX_STRING_FORMATTER_BUFFER_SIZE : Z := 1024.
Definition MAX_HEX_HANDLER_BUFFER_SIZE : Z := 64.
Definition LOGGER_PREFIX_LENGTH : Z := 32.

(** ** Arrays of characters *)

Definition put_char (i c : Z) : M (list Z) unit :=
  λ b, if (0 <=? i) && (i <? Z.of_nat (length b))
       then Ok (tt, <[Z.to_nat i := u8 c]> b) else Fault.

Definition get_char (i : Z) : M (list Z) Z :=
  λ b, if (0 <=? i) && (i <? Z.of_nat (length b))
       then Ok (nth (Z.to_nat i) b 0, b) else Fault.

(** ** Numbers to text *)

Definition hex_chars : list Z :=
  [48; 49; 50; 51; 52; 53; 54; 55; 56; 57; 97; 98; 99; 100; 101; 102].

(** [while (num != 0 && index < MAX_HEX_HANDLER_BUFFER_SIZE)] *)
Definition hex_digit_round (v : Z * Z) : M (list Z) ((Z * Z) + Z) :=
  let '(num, index) := v in
  if negb (num =? 0) && (index <? MAX_HEX_HANDLER_BUFFER_SIZE) then
    let rem := u8 (num mod 16) in
    put_char index (nth (Z.to_nat rem) hex_chars 0);;
    mret (inl (num / 16, index + 1))
  else mret (inr index).

(** [while (k < j)], the reversal in place *)
Definition reverse_round (v : Z * Z) : M (list Z) ((Z * Z) + unit) :=
  let '(k, j) := v in
  if k <? j then
    temp ← get_char k;
    cj ← get_char j;
    put_char k cj;;
    put_char j temp;;
    mret (inl (u32 (k + 1), u32 (j - 1)))
  else mret (inr tt).

Definition int_to_hex (i : Z) : M (list Z) unit :=
  if i =? 0 then put_char 0 48
  else
    index ← loop hex_digit_round (i, 0);
    loop reverse_round (0, u32 (index - 1)).

(** [while (remainder != 0) { len++; remainder /= 10; }]; [/] of C truncates
    towards zero. *)
Definition count_round (v : Z * Z) : M unit ((Z * Z) + Z) :=
  let '(remainder, len) := v in
  if negb (remainder =? 0) then mret (inl (Z.quot remainder 10, u32 (len + 1)))
  else mret (inr len).

(** [number[i] = (n % 10) + '0'; n /= 10;] for [i] below [len] *)
Definition digits_round (len : Z) (v : Z * Z) : M (list Z) ((Z * Z) + unit) :=
  let '(i, n) := v in
  if i <? len then
    put_char i (Z.rem n 10 + 48);;
    mret (inl (u32 (i + 1), Z.quot n 10))
  else mret (inr tt).

(** The local array [number] of [format_uint] and [format_int], filled. *)
Definition number_array (n : Z) : result (list Z) :=
  bind_result (loop count_round (n, 0) tt) (λ p,
    let len := p.1 in
    bind_result (loop (digits_round len) (0, n) (replicate (Z.to_nat len) 0))
      (λ q, Ok q.2)).

(** ** Variadic arguments

    [va_arg] takes the next eight-byte slot; a string argument is the object
    its pointer designates.  Taking an argument that was not passed, or with
    another type, is undefined. *)

Inductive arg := ArgWord (v : Z) | ArgString (s : list Z).

Record out := Out { buffer : list Z; args : list arg }.

Definition in_buffer {A} (c : M (list Z) A) : M out A :=
  zoom buffer (λ b s, Out b (args s)) c.

Definition va_word : M out Z := λ s,
  match args s with
  | ArgWord v :: rest => Ok (v, Out (buffer s) rest)
  | _ => Fault
  end.
Definition va_string : M out (list Z) := λ s,
  match args s with
  | ArgString str :: rest => Ok (str, Out (buffer s) rest)
  | _ => Fault
  end.

(** ** The handlers; each returns the new offset *)

Fixpoint format_string (s : list Z) (buffer_offset : Z) : M (list Z) Z :=
  match s with
  | [] => fault
  | c :: s' =>
      if negb (c =? 0) && (buffer_offset <? MAX_STRING_FORMATTER_BUFFER_SIZE) then
        put_char buffer_offset c;;
        format_string s' (buffer_offset + 1)
      else mret buffer_offset
  end.

Definition format_char (c buffer_offset : Z) : M (list Z) Z :=
  if buffer_offset <? MAX_STRING_FORMATTER_BUFFER_SIZE then
    put_char buffer_offset c;;
    mret (buffer_offset + 1)
  else mret buffer_offset.

(** [for (int i = len - 1; i >= 0; i--)], with the [break] when the buffer is
    full; the argument lists [number] from index [i] down. *)
Fixpoint emit_digits (number : list Z) (buffer_offset : Z) : M (list Z) Z :=
  match number with
  | [] => mret buffer_offset
  | d :: rest =>
      if buffer_offset <? MAX_STRING_FORMATTER_BUFFER_SIZE then
        put_char buffer_offset d;;
        emit_digits rest (buffer_offset + 1)
      else mret buffer_offset
  end.

(** The common text of [format_uint] and [format_int], which differ in the type
    of the number only: [%] and [/] on values the type can hold. *)
Definition format_number (n buffer_offset : Z) : M (list Z) Z :=
  if n =? 0 then format_char 48 buffer_offset
  else λ b, bind_result (number_array n) (λ number, emit_digits (reverse number) buffer_offset b).

Definition format_uint (uint buffer_offset : Z) : M (list Z) Z :=
  format_number uint buffer_offset.
Definition format_int (integer buffer_offset : Z) : M (list Z) Z :=
  format_number integer buffer_offset.

Definition format_hex (hex_int buffer_offset : Z) : M (list Z) Z :=
  λ b, bind_result (int_to_hex hex_int (replicate 64 0)) (λ p,
    format_string p.2 buffer_offset b).

Definition is_char (c : Z) (a : Ascii.ascii) : bool := c =? Z.of_N (Ascii.N_of_ascii a).

Definition format_handler (format buffer_offset : Z) : M out Z :=
  if is_char format "d"%char || is_char format "i"%char then
    int_arg ← va_word;
    in_buffer (format_int (s64 int_arg) buffer_offset)
  else if is_char format "u"%char then
    uint_arg ← va_word;
    in_buffer (format_uint (u64 uint_arg) buffer_offset)
  else if is_char format "X"%char || is_char format "p"%char || is_char format "x"%char then
    if buffer_offset + 2 <? MAX_STRING_FORMATTER_BUFFER_SIZE then
      in_buffer (put_char buffer_offset 48);;
      in_buffer (put_char (buffer_offset + 1) 120);;
      hex_arg ← va_word;
      in_buffer (format_hex (u64 hex_arg) (buffer_offset + 2))
    else mret buffer_offset
  else if is_char format "c"%char then
    arg_char ← va_word;
    in_buffer (format_char (s32 arg_char) buffer_offset)
  else if is_char format "s"%char then
    arg_str ← va_string;
    in_buffer (format_string arg_str buffer_offset)
  else mret buffer_offset.  (* %o, %f, %e, %g, %a and the rest print nothing *)

(** The loop of [vkprintf], [vklog] and [panic]; returns the final [i]. *)
Fixpoint format_loop (fmt : list Z) (i : Z) : M out Z :=
  match fmt with
  | [] => fault
  | c :: fmt' =>
      if negb (c =? 0) && (i <? MAX_STRING_FORMATTER_BUFFER_SIZE) then
        if is_char c "%"%char then
          match fmt' with
          | [] => fault
          | d :: fmt'' =>
              i' ← format_handler d i;
              format_loop fmt'' i'
          end
        else
          in_buffer (put_char i c);;
          format_loop fmt' (i + 1)
      else mret i
  end.

(** ** The writers

    What the kernel puts out: the strings handed to the boot loader's terminal,
    the bytes sent on the serial line, and the sticky prefix of the logger. *)

Record console := Console {
  terminal : bool;          (* a response with at least one terminal *)
  prod_mode : bool;         (* [PROD_MODE] of the Makefile *)
  screen : list (list Z);
  serial : list Z;
  prefix : list Z;
}.

(** [str[len]] up to the terminator *)
Fixpoint c_string (str : list Z) : result (list Z) :=
  match str with
  | [] => Fault
  | c :: rest => if c =? 0 then Ok [] else bind_result (c_string rest) (λ r, Ok (c :: r))
  end.

(** [hcf] when there is no terminal *)
Definition limine_write (str : list Z) : M console unit := λ s,
  if negb (terminal s) then Hang
  else bind_result (c_string str) (λ text,
    Ok (tt, Console (terminal s) (prod_mode s) (screen s ++ [text]) (serial s) (prefix s))).

(** The transmitter is taken to drain: the two waits on the line status end. *)
Definition log_to_serial (str : list Z) : M console unit := λ s,
  bind_result (c_string str) (λ text,
    Ok (tt, Console (terminal s) (prod_mode s) (screen s) (serial s ++ text ++ [10]) (prefix s))).

Definition empty_buffer : list Z := replicate 1024 0.

(** The buffer after the format loop has run over [fmt]. *)
Definition formatted (fmt : list Z) (a : list arg) (start : Z) (b : list Z) : result (list Z) :=
  bind_result (format_loop fmt start (Out b a)) (λ p, Ok (buffer p.2)).

Definition vkprintf (fmt : list Z) (a : list arg) : M console unit := λ s,
  bind_result (formatted fmt a 0 empty_buffer) (λ b, limine_write b s).
Definition kprintf (fmt : list Z) (a : list arg) : M console unit := vkprintf fmt a.
Definition print_syscall (str : list Z) : M console unit := kprintf str [].

(** The copy stops at the terminator or two bytes before the end of [prefix]. *)
Fixpoint copy_prefix (new_prefix : list Z) (i : Z) : M (list Z) Z :=
  match new_prefix with
  | [] => fault
  | c :: rest =>
      if negb (c =? 0) && (i <? LOGGER_PREFIX_LENGTH - 2) then
        put_char i c;; copy_prefix rest (i + 1)
      else mret i
  end.
Definition set_prefix (new_prefix : list Z) : M (list Z) unit :=
  i ← copy_prefix new_prefix 0;
  put_char i 32;;
  put_char (i + 1) 0.

(** [new_prefix] is [None] for a null pointer. *)
Definition vklog (new_prefix : option (list Z)) (fmt : list Z) (a : list arg) : M console unit :=
  λ s,
  bind_result (match new_prefix with
               | Some p => set_prefix p (prefix s)
               | None => Ok (tt, prefix s) end) (λ p,
  let s' := Console (terminal s) (prod_mode s) (screen s) (serial s) p.2 in
  bind_result (format_string p.2 0 empty_buffer) (λ q,
  bind_result (formatted fmt a q.1 q.2) (λ b,
  log_to_serial b s'))).
Definition klog (new_prefix : option (list Z)) (fmt : list Z) (a : list arg) : M console unit :=
  λ s, if prod_mode s then Ok (tt, s) else vklog new_prefix fmt a s.

(** [panic] up to its final [hcf]: the message is formatted, printed and logged. *)
Definition panic_report (fmt : list Z) (a : list arg) : M console unit := λ s,
  bind_result (formatted fmt a 0 empty_buffer) (λ b,
    (kprintf b [];; klog None b []) s).

(** ** The specification: what a format prints *)

(** The digits of [n] in base [b], least significant first; 64 of them are
    enough for a 64-bit number in any base. *)
Fixpoint digits (fuel : nat) (b n : Z) : list Z :=
  match fuel with
  | O => []
  | S f => if n =? 0 then [] else n mod b :: digits f b (n / b)
  end.

Definition decimal_char (d : Z) : Z := d + 48.
Definition hex_char (d : Z) : Z := nth (Z.to_nat d) hex_chars 0.

Definition numeral (b : Z) (char_of : Z → Z) (n : Z) : list Z :=
  if n =? 0 then [char_of 0] else reverse (map char_of (digits 64 b n)).
Definition decimal : Z → list Z := numeral 10 decimal_char.
Definition hexadecimal : Z → list Z := numeral 16 hex_char.

(** Reading a numeral back, digit by digit from the left. *)
Definition char_value (c : Z) : Z := if c <? 97 then c - 48 else c - 87.
Definition read_numeral (b : Z) (cs : list Z) : Z :=
  fold_left (λ acc c, acc * b + char_value c) cs 0.

(** The text before the terminator, if the object has one and the bytes are
    bytes. *)
Fixpoint text (s : list Z) : option (list Z) :=
  match s with
  | [] => None
  | c :: s' =>
      if c =? 0 then Some []
      else if (0 <=? c) && (c <? 256) then t ← text s'; Some (c :: t) else None
  end.

(** What one directive prints and the arguments it leaves.  A negative [%d] is
    not specified, [format_int] does not print it as a number, and neither is
    a [%c] of the terminator, which cuts the message. *)
Definition directive (d : Z) (a : list arg) : option (list Z * list arg) :=
  if is_char d "d"%char || is_char d "i"%char then
    match a with
    | ArgWord v :: a' => if 0 <=? s64 v then Some (decimal (s64 v), a') else None
    | _ => None
    end
  else if is_char d "u"%char then
    match a with ArgWord v :: a' => Some (decimal (u64 v), a') | _ => None end
  else if is_char d "X"%char || is_char d "p"%char || is_char d "x"%char then
    match a with ArgWord v :: a' => Some ([48; 120] ++ hexadecimal (u64 v), a') | _ => None end
  else if is_char d "c"%char then
    match a with
    | ArgWord v :: a' => if u8 (s32 v) =? 0 then None else Some ([u8 (s32 v)], a')
    | _ => None
    end
  else if is_char d "s"%char then
    match a with ArgString s :: a' => t ← text s; Some (t, a') | _ => None end
  else Some ([], a).

Fixpoint render (fmt : list Z) (a : list arg) : option (list Z) :=
  match fmt with
  | [] => None
  | c :: fmt' =>
      if c =? 0 then Some []
      else if is_char c "%"%char then
        match fmt' with
        | [] => None
        | d :: fmt'' =>
            '(t, a') ← directive d a;
            u ← render fmt'' a';
            Some (t ++ u)
        end
      else if (0 <=? c) && (c <? 256) then u ← render fmt' a; Some (c :: u)
      else None
  end.

(** A buffer into which [o] has been written. *)
Definition filled (o : list Z) : list Z := o ++ replicate (1024 - length o) 0.

Definition is_byte (c : Z) : Prop := 0 ≤ c < 256.

(** Appending to a buffer keeps what fits. *)
Definition append (o t : list Z) : list Z := take 1024 (o ++ t).

(** ** Lemmas: the buffer *)

Lemma filled_length o : (length o ≤ 1024)%nat → length (filled o) = 1024%nat.
Proof. intros. unfold filled. rewrite length_app, length_replicate. lia. Qed.

Lemma filled_nil : empty_buffer = filled [].
Proof. done. Qed.

Lemma append_nil o : (length o ≤ 1024)%nat → append o [] = o.
Proof. intros. unfold append. by rewrite app_nil_r, take_ge. Qed.

Lemma append_cons o c t : append (o ++ [c]) t = append o (c :: t).
Proof. unfold append. by rewrite <- app_assoc. Qed.

Lemma append_full o t : length o = 1024%nat → append o t = o.
Proof. intros H. unfold append. rewrite <- H. apply take_app_length. Qed.

Lemma append_length o t : (length (append o t) ≤ 1024)%nat.
Proof. unfold append. rewrite length_take. lia. Qed.

Lemma append_fits o t : (length o + length t ≤ 1024)%nat → append o t = o ++ t.
Proof. intros. unfold append. apply take_ge. rewrite length_app. lia. Qed.

Lemma append_app o t u : append (append o t) u = append o (t ++ u).
Proof.
  unfold append. rewrite app_assoc. destruct (decide (length (o ++ t) ≤ 1024)%nat).
  - by rewrite (take_ge (o ++ t)).
  - rewrite (take_app_le (o ++ t)) by lia. rewrite take_app_le; [|rewrite length_take; lia].
    rewrite take_take. f_equal.
Qed.

Lemma put_char_filled o c i :
  i = Z.of_nat (length o) → (length o < 1024)%nat → is_byte c →
  put_char i c (filled o) = Ok (tt, filled (o ++ [c])).
Proof.
  intros -> Ho Hc. unfold put_char. rewrite filled_length by lia.
  rewrite (proj2 (Z.leb_le _ _)), (proj2 (Z.ltb_lt _ _)) by lia. cbn [andb].
  rewrite Nat2Z.id, u8_small by done. do 2 f_equal. unfold filled.
  rewrite length_app. cbn [length].
  replace (1024 - length o)%nat with (S (1024 - (length o + 1)))%nat by lia.
  cbn [replicate]. rewrite list.insert_app_r_alt, Nat.sub_diag by lia. cbn.
  by rewrite <- app_assoc.
Qed.

(** The handlers that copy bytes append them, up to the capacity. *)
Definition appends (c : Z → M (list Z) Z) (t : list Z) : Prop :=
  ∀ o, (length o ≤ 1024)%nat →
  c (Z.of_nat (length o)) (filled o)
  = Ok (Z.of_nat (length (append o t)), filled (append o t)).

Lemma emit_digits_appends ds : Forall is_byte ds → appends (emit_digits ds) ds.
Proof.
  induction 1 as [|d ds Hd _ IH]; intros o Ho; cbn [emit_digits].
  { by rewrite append_nil. }
  unfold MAX_STRING_FORMATTER_BUFFER_SIZE. case_if.
  - unfold mbind, M_bind. rewrite put_char_filled by (done || lia). cbn [bind_result fst snd].
    rewrite <- append_cons. specialize (IH (o ++ [d])). rewrite length_app in IH. cbn in IH.
    rewrite Nat2Z.inj_add in IH. apply IH. lia.
  - rewrite append_full by lia. done.
Qed.

Lemma text_bytes s t : text s = Some t → Forall (λ c, is_byte c ∧ c ≠ 0) t.
Proof.
  revert t. induction s as [|c s IH]; intros t H; cbn [text] in H; [done|].
  destruct (c =? 0) eqn:E0; [by simplify_eq|].
  destruct ((0 <=? c) && (c <? 256)) eqn:Eb; [|done]. bool_to_prop.
  destruct (text s) as [u|] eqn:Eu; simplify_eq/=. constructor; [done|by apply IH].
Qed.

Lemma format_string_appends s t : text s = Some t → appends (format_string s) t.
Proof.
  revert t. induction s as [|c s IH]; intros t H o Ho; cbn [text format_string] in *; [done|].
  unfold MAX_STRING_FORMATTER_BUFFER_SIZE.
  destruct (c =? 0) eqn:E0; cbn [negb andb]; bool_to_prop.
  { simplify_eq. by rewrite append_nil. }
  destruct ((0 <=? c) && (c <? 256)) eqn:Eb; [|done]. bool_to_prop.
  destruct (text s) as [u|] eqn:Eu; simplify_eq/=. case_if.
  - unfold mbind, M_bind. rewrite put_char_filled by (done || lia). cbn [bind_result fst snd].
    rewrite <- append_cons. specialize (IH u eq_refl (o ++ [c])). rewrite length_app in IH.
    cbn in IH. rewrite Nat2Z.inj_add in IH. apply IH. lia.
  - rewrite append_full by lia. done.
Qed.

Lemma format_char_appends c : appends (format_char c) [u8 c].
Proof.
  intros o Ho. unfold format_char, MAX_STRING_FORMATTER_BUFFER_SIZE. case_if.
  - assert (put_char (Z.of_nat (length o)) c (filled o)
            = put_char (Z.of_nat (length o)) (u8 c) (filled o)) as Hc.
    { unfold put_char. unfold u8. by rewrite wrap_wrap. }
    unfold mbind, M_bind. rewrite Hc, put_char_filled by (apply u8_range || done || lia).
    cbn [bind_result fst snd]. unfold mret, M_ret.
    rewrite append_fits by (cbn; lia). rewrite length_app. cbn. do 2 f_equal. lia.
  - by rewrite append_full by lia.
Qed.

(** ** Lemmas: numerals *)

Lemma div_shrinks b n : 2 ≤ b → 0 < n → 0 ≤ n / b < n.
Proof. intros. split; [apply Z.div_pos; lia|apply Z.div_lt; lia]. Qed.

Lemma div_below b f n : 2 ≤ b → 0 ≤ f → 0 ≤ n < 2 ^ (f + 1) → 0 ≤ n / b < 2 ^ f.
Proof.
  intros Hb Hf Hn. rewrite Z.pow_add_r in Hn by lia. split; [apply Z.div_pos; lia|].
  apply Z.div_lt_upper_bound; nia.
Qed.

Lemma digits_zero f b : digits f b 0 = [].
Proof. by destruct f. Qed.

Lemma digits_more b f : 2 ≤ b → ∀ n, 0 ≤ n < 2 ^ Z.of_nat f → digits (S f) b n = digits f b n.
Proof.
  intros Hb. induction f as [|f IH]; intros n Hn.
  { cbn in Hn. by replace n with 0 by lia. }
  change (digits (S (S f)) b n) with (if n =? 0 then [] else n mod b :: digits (S f) b (n / b)).
  cbn [digits]. case_if; [done|]. f_equal. apply IH. apply div_below; lia.
Qed.

Lemma digits_step b n : 2 ≤ b → 0 < n < 2 ^ 64 → digits 64 b n = n mod b :: digits 64 b (n / b).
Proof.
  intros Hb Hn. rewrite <- (digits_more b 64) by (done || cbn; lia).
  change (digits 65 b n) with (if n =? 0 then [] else n mod b :: digits 64 b (n / b)).
  by rewrite (proj2 (Z.eqb_neq _ _)) by lia.
Qed.

Lemma digits_length b f k n :
  2 ≤ b → 0 ≤ n < b ^ Z.of_nat k → (length (digits f b n) ≤ k)%nat.
Proof.
  intros Hb. revert k n. induction f as [|f IH]; intros k n Hn; cbn [digits length]; [lia|].
  case_if; cbn [length]; [lia|]. destruct k as [|k].
  { cbn in Hn. lia. }
  apply le_n_S, IH. rewrite Nat2Z.inj_succ, Z.pow_succ_r in Hn by lia.
  split; [apply Z.div_pos; lia|]. apply Z.div_lt_upper_bound; lia.
Qed.

Lemma digits_bound b f n : 2 ≤ b → 0 ≤ n → Forall (λ d, 0 ≤ d < b) (digits f b n).
Proof.
  intros Hb. revert n. induction f as [|f IH]; intros n Hn; cbn [digits]; [done|].
  case_if; [done|]. constructor; [apply Z.mod_pos_bound; lia|].
  apply IH, Z.div_pos; lia.
Qed.

(** The positional value of the digits. *)
Lemma digits_value b f n :
  2 ≤ b → 0 ≤ n < 2 ^ Z.of_nat f → foldr (λ d acc, acc * b + d) 0 (digits f b n) = n.
Proof.
  intros Hb. revert n. induction f as [|f IH]; intros n Hn; cbn [digits].
  { cbn in *. lia. }
  case_if; [done|]. cbn [foldr]. rewrite IH; [|apply div_below; lia].
  rewrite Z.mul_comm. symmetry. apply Z.div_mod. lia.
Qed.

(** *** The number of digits and the array of [format_uint], [format_int] *)

Section signed.
Context (sg : Z) (Hsg : sg = 1 ∨ sg = -1).

Lemma quot_signed m : 0 ≤ m → Z.quot (sg * m) 10 = sg * (m / 10).
Proof.
  intros Hm. destruct Hsg as [-> | ->]; [rewrite !Z.mul_1_l; apply Z.quot_div_nonneg; lia|].
  replace (-1 * m) with (- m) by lia. rewrite Z.quot_opp_l, Z.quot_div_nonneg; lia.
Qed.

Lemma rem_signed m : 0 ≤ m → Z.rem (sg * m) 10 = sg * (m mod 10).
Proof.
  intros Hm. destruct Hsg as [-> | ->]; [rewrite !Z.mul_1_l; apply Z.rem_mod_nonneg; lia|].
  replace (-1 * m) with (- m) by lia. rewrite Z.rem_opp_l, Z.rem_mod_nonneg; lia.
Qed.

Lemma abs_signed m : 0 ≤ m → Z.abs (sg * m) = m.
Proof. intros. destruct Hsg as [-> | ->]; lia. Qed.

Definition digit_char (d : Z) : Z := u8 (sg * d + 48).

Lemma count_ok m : 0 ≤ m < 2 ^ 64 →
  loop count_round (sg * m, 0) tt = Ok (Z.of_nat (length (digits 64 10 m)), tt).
Proof.
  intros Hm. set (N := length (digits 64 10 m)).
  assert (runs (loop count_round (sg * m, 0)) tt (λ len _, len = Z.of_nat N)) as H.
  { apply (runs_loop count_round (λ v _, ∃ r, 0 ≤ r < 2 ^ 64 ∧ v.1 = sg * r ∧
      v.2 + Z.of_nat (length (digits 64 10 r)) = Z.of_nat N ∧ 0 ≤ v.2)
      (λ v _, Z.abs v.1)); [| exists m; cbn -[digits]; lia | cbn; rewrite abs_signed; lia].
    intros [r' len] s (r & Hr & Hv & Hl & Hp). cbn [fst snd] in *. subst r'. unfold count_round.
    assert (Z.of_nat N ≤ 20).
    { apply (Nat2Z.inj_le _ 20), digits_length; [lia|]. cbn. lia. }
    case_if; cbn -[digits].
    - assert (0 < r) by (destruct (Z.eq_dec r 0) as [->|]; lia). rewrite quot_signed by lia.
      rewrite digits_step in Hl by lia. cbn [length] in Hl.
      pose proof (div_shrinks 10 r). rewrite u32_small by lia.
      rewrite !abs_signed by lia. split; [|lia]. exists (r / 10). cbn -[digits]. lia.
    - assert (r = 0) as -> by (rewrite <- (abs_signed r) by lia; lia). rewrite digits_zero in Hl. cbn -[digits] in Hl. lia. }
  destruct (runs_inv _ _ _ H) as (len & [] & -> & ->). done.
Qed.

Lemma digits_loop_ok m : 0 ≤ m < 2 ^ 64 →
  let N := length (digits 64 10 m) in
  loop (digits_round (Z.of_nat N)) (0, sg * m) (replicate N 0)
  = Ok (tt, map digit_char (digits 64 10 m)).
Proof.
  intros Hm N. set (total := map digit_char (digits 64 10 m)).
  assert (length total = N) as HN by apply length_map.
  assert (Z.of_nat N ≤ 20).
  { apply (Nat2Z.inj_le _ 20), digits_length; [lia|]. cbn. lia. }
  clearbody N.
  assert (runs (loop (digits_round (Z.of_nat N)) (0, sg * m)) (replicate N 0)
    (λ _ b, b = total)) as H'.
  { apply (runs_loop (digits_round (Z.of_nat N)) (λ v b, ∃ r pre, 0 ≤ r < 2 ^ 64 ∧
      v = (Z.of_nat (length pre), sg * r) ∧ b = pre ++ replicate (N - length pre) 0 ∧
      pre ++ map digit_char (digits 64 10 r) = total)
      (λ v _, Z.of_nat N - v.1)); [| exists m, []; cbn -[digits]; rewrite ?Nat.sub_0_r; split_and!; done || lia | cbn [fst]; lia].
    intros v b (r & pre & Hr & -> & -> & Htot). unfold digits_round.
    assert (length pre + length (digits 64 10 r) = N)%nat as Hlen.
    { by rewrite <- HN, <- Htot, length_app, length_map. }
    case_if.
    - assert (0 < r) by (destruct (Z.eq_dec r 0) as [->|]; [rewrite digits_zero in Hlen; cbn [length] in Hlen; lia|lia]).
      rewrite quot_signed, rem_signed by lia. pose proof (div_shrinks 10 r).
      unfold put_char, runs, mbind, M_bind. rewrite length_app, length_replicate.
      rewrite (proj2 (Z.leb_le _ _)), (proj2 (Z.ltb_lt _ _)) by lia. cbn -[digits replicate].
      rewrite u32_small by lia. split; [|lia].
      exists (r / 10), (pre ++ [digit_char (r mod 10)]). rewrite length_app. cbn [length].
      split_and!; [lia|lia|f_equal; lia| |].
      + rewrite Nat2Z.id, list.insert_app_r_alt, Nat.sub_diag by lia.
        replace (N - length pre)%nat with (S (N - (length pre + 1)))%nat by lia.
        cbn [replicate]. by rewrite <- app_assoc.
      + rewrite <- Htot, <- app_assoc. by rewrite (digits_step 10 r) by lia.
    - cbn. assert (length (digits 64 10 r) = 0)%nat as Hz by lia.
      apply nil_length_inv in Hz. rewrite Hz in *. cbn in *.
      replace (N - length pre)%nat with 0%nat by lia. done. }
  destruct (runs_inv _ _ _ H') as ([] & b & -> & ->). done.
Qed.

Lemma number_array_ok m : 0 ≤ m < 2 ^ 64 →
  number_array (sg * m) = Ok (map digit_char (digits 64 10 m)).
Proof.
  intros Hm. unfold number_array. rewrite count_ok by done. cbn [bind_result fst].
  rewrite Nat2Z.id, digits_loop_ok by done. done.
Qed.

Lemma format_number_appends m : 0 < m < 2 ^ 64 →
  appends (format_number (sg * m)) (reverse (map digit_char (digits 64 10 m))).
Proof.
  intros Hm o Ho. unfold format_number. rewrite (proj2 (Z.eqb_neq _ _)) by lia.
  rewrite number_array_ok by lia. cbn [bind_result].
  apply emit_digits_appends; [|done]. apply Forall_reverse, Forall_map.
  eapply list.Forall_impl; [apply (digits_bound 10 64 m); lia|]. intros d _. apply u8_range.
Qed.

End signed.

Lemma digit_char_pos d : 0 ≤ d < 10 → digit_char 1 d = decimal_char d.
Proof. intros. unfold digit_char, decimal_char. rewrite u8_small; lia. Qed.

Lemma map_digit_char n : 0 ≤ n →
  map (digit_char 1) (digits 64 10 n) = map decimal_char (digits 64 10 n).
Proof.
  intros Hn. apply map_ext_Forall. eapply list.Forall_impl; [apply digits_bound; lia|].
  intros d. cbn. apply digit_char_pos.
Qed.

Lemma format_decimal_appends n : 0 ≤ n < 2 ^ 64 → appends (format_number n) (decimal n).
Proof.
  intros Hn. unfold decimal, numeral. case_if.
  { subst. apply (format_char_appends 48). }
  rewrite <- map_digit_char by lia. intros o Ho.
  replace (format_number n) with (format_number (1 * n)) by (f_equal; lia).
  apply format_number_appends; [by left|lia|done].
Qed.

(** *** Hexadecimal *)

Definition hex_filled (o : list Z) : list Z := o ++ replicate (64 - length o) 0.

Lemma hex_char_byte d : 0 ≤ d < 16 → is_byte (hex_char d) ∧ hex_char d ≠ 0.
Proof.
  intros Hd. unfold is_byte, hex_char, hex_chars.
  assert (∃ k, (k < 16)%nat ∧ d = Z.of_nat k) as (k & Hk & ->) by (exists (Z.to_nat d); lia).
  rewrite Nat2Z.id. do 16 (destruct k as [|k]; [cbn; lia|]). lia.
Qed.

Lemma hex_digits_ok n : 0 ≤ n < 2 ^ 64 →
  let xs := map hex_char (digits 64 16 n) in
  loop hex_digit_round (n, 0) (hex_filled []) = Ok (Z.of_nat (length xs), hex_filled xs).
Proof.
  intros Hn xs.
  assert (length xs ≤ 16)%nat as HL.
  { subst xs. rewrite length_map. apply digits_length; [lia|]. cbn. lia. }
  assert (runs (loop hex_digit_round (n, 0)) (hex_filled [])
    (λ k b, k = Z.of_nat (length xs) ∧ b = hex_filled xs)) as H.
  { apply (runs_loop hex_digit_round (λ v b, ∃ pre, 0 ≤ v.1 < 2 ^ 64 ∧
      v.2 = Z.of_nat (length pre) ∧ b = hex_filled pre ∧
      pre ++ map hex_char (digits 64 16 v.1) = xs) (λ v _, v.1));
      [| exists []; cbn -[digits hex_filled]; split_and!; done || lia | cbn [fst]; lia].
    clearbody xs. intros [num index] b (pre & Hr & Hi & -> & Htot). cbn [fst snd] in *. subst index.
    unfold hex_digit_round, MAX_HEX_HANDLER_BUFFER_SIZE.
    assert (length pre + length (digits 64 16 num) = length xs)%nat as Hlen.
    { by rewrite <- Htot, length_app, length_map. }
    case_if.
    - assert (0 < num) by lia. pose proof (div_shrinks 16 num).
      pose proof (Z.mod_pos_bound num 16).
      unfold put_char, runs, mbind, M_bind.
      assert (length (hex_filled pre) = 64)%nat as ->.
      { unfold hex_filled. rewrite length_app, length_replicate. lia. }
      rewrite (proj2 (Z.leb_le _ _)), (proj2 (Z.ltb_lt _ _)) by lia. cbn -[digits hex_filled nth].
      split; [|lia]. exists (pre ++ [hex_char (num mod 16)]).
      split_and!; [lia|lia|rewrite length_app; cbn; lia| |].
      + rewrite (u8_small (num mod 16)) by lia. change (nth _ hex_chars 0) with (hex_char (num mod 16)).
        rewrite u8_small by (apply hex_char_byte; lia). unfold hex_filled.
        rewrite Nat2Z.id, list.insert_app_r_alt, Nat.sub_diag, length_app by lia. cbn [length].
        replace (64 - length pre)%nat with (S (64 - (length pre + 1)))%nat by lia.
        cbn [replicate]. by rewrite <- app_assoc.
      + rewrite <- Htot, <- app_assoc. by rewrite (digits_step 16 num) by lia.
    - assert (num = 0) as ->.
      { destruct (Z.eq_dec num 0) as [|Hne]; [done|]. exfalso.
        rewrite digits_step in Hlen by lia. cbn [length] in Hlen.
        apply andb_false_iff in E as [E|E]; bool_to_prop; lia. }
      rewrite digits_zero in Htot. cbn in Htot. rewrite app_nil_r in Htot. by subst. }
  destruct (runs_inv _ _ _ H) as (k & b & -> & -> & ->). done.
Qed.

(** The loop that swaps from both ends reverses. *)
Definition half_reversed (xs : list Z) (k : nat) (b : list Z) : Prop :=
  length b = 64%nat ∧
  ∀ i, b !! i = if decide (i < k ∨ length xs - k ≤ i < length xs)%nat
                then reverse xs !! i else hex_filled xs !! i.

Lemma reverse_done xs k b :
  (length xs ≤ 64 ∧ length xs ≤ 2 * k + 1 ∧ k ≤ length xs)%nat →
  half_reversed xs k b → b = hex_filled (reverse xs).
Proof.
  intros Hk [Hb Hl]. apply list_eq. intros i. rewrite Hl. unfold hex_filled.
  rewrite length_reverse. case_decide as Hi.
  { by rewrite lookup_app_l by (rewrite length_reverse; lia). }
  destruct (decide (i < length xs)%nat).
  - rewrite !lookup_app_l by (rewrite ?length_reverse; lia).
    rewrite reverse_lookup by done. f_equal. lia.
  - by rewrite !lookup_app_r, length_reverse by (rewrite ?length_reverse; lia).
Qed.

Lemma half_reversed_swap xs k b ck cj :
  (length xs ≤ 64)%nat → (2 * k + 1 < length xs)%nat → half_reversed xs k b →
  let j := (length xs - 1 - k)%nat in
  b !! k = Some ck → b !! j = Some cj →
  half_reversed xs (S k) (<[j := ck]> (<[k := cj]> b)).
Proof.
  intros HL Hk [Hb Hl] j Hck Hcj. split; [by rewrite !length_insert|]. intros i.
  assert (xs !! k = Some ck) as Ek.
  { rewrite Hl, decide_False in Hck by lia. unfold hex_filled in Hck.
    by rewrite lookup_app_l in Hck by lia. }
  assert (xs !! j = Some cj) as Ej.
  { rewrite Hl, decide_False in Hcj by lia. unfold hex_filled in Hcj.
    by rewrite lookup_app_l in Hcj by lia. }
  destruct (decide (i = j)) as [->|Hij].
  { rewrite list_lookup_insert_eq by (rewrite length_insert; lia).
    rewrite decide_True by lia. rewrite reverse_lookup by lia. rewrite <- Ek. f_equal. lia. }
  rewrite list_lookup_insert_ne by done.
  destruct (decide (i = k)) as [->|Hik].
  { rewrite list_lookup_insert_eq by lia. rewrite decide_True by lia.
    rewrite reverse_lookup by lia. rewrite <- Ej. f_equal. lia. }
  rewrite list_lookup_insert_ne, Hl by done. repeat case_decide; done || lia.
Qed.

Lemma array_access i c b :
  length b = 64%nat → (i < 64)%nat → b !! i = Some c →
  get_char (Z.of_nat i) b = Ok (c, b) ∧
  ∀ d, is_byte d → put_char (Z.of_nat i) d b = Ok (tt, <[i := d]> b).
Proof.
  intros Hb Hi Hc. unfold get_char, put_char. rewrite Hb.
  rewrite (proj2 (Z.leb_le _ _)), (proj2 (Z.ltb_lt _ _)) by lia. cbn [andb]. rewrite Nat2Z.id.
  split; [by rewrite (nth_lookup_Some _ _ _ _ Hc)|]. intros d Hd. by rewrite u8_small.
Qed.

Lemma reverse_ok xs : xs ≠ [] → (length xs ≤ 64)%nat → Forall is_byte xs →
  loop reverse_round (0, Z.of_nat (length xs) - 1) (hex_filled xs)
  = Ok (tt, hex_filled (reverse xs)).
Proof.
  intros Hne HL Hby.
  assert (Hpos : (0 < length xs)%nat) by (destruct xs; cbn; lia || done).
  assert (∀ i x, xs !! i = Some x → is_byte x) as Hbyte by (by apply Forall_lookup).
  assert (runs (loop reverse_round (0, Z.of_nat (length xs) - 1)) (hex_filled xs)
    (λ _ b, b = hex_filled (reverse xs))) as H.
  { apply (runs_loop reverse_round (λ v b, ∃ k, v = (Z.of_nat k, Z.of_nat (length xs) - 1 - Z.of_nat k)
      ∧ (k ≤ length xs ∧ (k = 0 ∨ 2 * k ≤ length xs))%nat ∧ half_reversed xs k b)
      (λ v _, Z.of_nat (length xs) - v.1)).
    - intros v b (k & -> & Hk & Hh). unfold reverse_round. case_if.
      + destruct Hh as [Hb Hl]. set (j := (length xs - 1 - k)%nat).
        replace (Z.of_nat (length xs) - 1 - Z.of_nat k) with (Z.of_nat j) by lia.
        destruct (lookup_lt_is_Some_2 xs k) as [ck Eck]; [lia|].
        destruct (lookup_lt_is_Some_2 xs j) as [cj Ecj]; [lia|].
        assert (b !! k = Some ck) as Ek.
        { rewrite Hl, decide_False by lia. unfold hex_filled. by rewrite lookup_app_l by lia. }
        assert (b !! j = Some cj) as Ej.
        { rewrite Hl, decide_False by lia. unfold hex_filled. by rewrite lookup_app_l by lia. }
        destruct (array_access k ck b) as [Gk Pk]; [done|lia|done|].
        destruct (array_access j cj b) as [Gj _]; [done|lia|done|].
        destruct (array_access j cj (<[k := cj]> b)) as [_ Pj];
          [by rewrite length_insert|lia|by rewrite list_lookup_insert_ne by lia|].
        unfold runs, mbind, M_bind. rewrite Gk. cbn [bind_result fst snd].
        rewrite Gj. cbn [bind_result fst snd]. rewrite Pk by eauto. cbn [bind_result fst snd].
        rewrite Pj by eauto. cbn [bind_result fst snd mret M_ret].
        rewrite !u32_small by lia. split; [|cbn [fst]; lia].
        exists (S k). split_and!; [f_equal; lia|lia|lia|].
        apply half_reversed_swap; done || lia.
      + cbn. apply (reverse_done xs k); [lia|done].
    - exists 0%nat. split_and!; [f_equal; lia|lia|by left|]. split.
      { unfold hex_filled. rewrite length_app, length_replicate. lia. }
      intros i. by rewrite decide_False by lia.
    - cbn [fst]. lia. }
  destruct (runs_inv _ _ _ H) as ([] & b & -> & ->). done.
Qed.

Definition printable (c : Z) : Prop := is_byte c ∧ c ≠ 0.

Lemma numeral_printable b char_of n :
  2 ≤ b → 0 ≤ n → (∀ d, 0 ≤ d < b → printable (char_of d)) →
  Forall printable (numeral b char_of n).
Proof.
  intros Hb Hn Hc. unfold numeral. case_if.
  { constructor; [apply Hc; lia|done]. }
  apply Forall_reverse, Forall_map. eapply list.Forall_impl; [by apply digits_bound|done].
Qed.

Lemma decimal_printable n : 0 ≤ n → Forall printable (decimal n).
Proof.
  intros. apply numeral_printable; [lia|done|]. unfold printable, is_byte, decimal_char. lia.
Qed.

Lemma hexadecimal_printable n : 0 ≤ n → Forall printable (hexadecimal n).
Proof. intros. apply numeral_printable; [lia|done|]. intros. by apply hex_char_byte. Qed.

Lemma text_terminated t rest : Forall printable t → text (t ++ 0 :: rest) = Some t.
Proof.
  induction 1 as [|c t [Hc H0] _ IH]; [done|]. cbn [text app].
  rewrite (proj2 (Z.eqb_neq _ _) H0), IH.
  by rewrite (proj2 (Z.leb_le _ _)), (proj2 (Z.ltb_lt _ _)) by apply Hc.
Qed.

Lemma int_to_hex_ok n : 0 ≤ n < 2 ^ 64 →
  ∃ k, int_to_hex n (replicate 64 0) = Ok (tt, hexadecimal n ++ replicate (S k) 0).
Proof.
  intros Hn. unfold int_to_hex, hexadecimal, numeral. case_if.
  { by exists 62%nat. }
  unfold mbind, M_bind. change (replicate 64 0) with (hex_filled []).
  rewrite hex_digits_ok by done. cbn [bind_result fst snd].
  set (xs := map hex_char (digits 64 16 n)).
  assert (length xs ≤ 16)%nat as HL.
  { subst xs. rewrite length_map. apply digits_length; [lia|]. cbn. lia. }
  assert (xs ≠ []) by (subst xs; by rewrite digits_step by lia).
  assert (0 < length xs)%nat by (destruct xs; cbn; lia || done).
  rewrite u32_small by lia. rewrite reverse_ok; [|done|lia|].
  - exists (63 - length xs)%nat. unfold hex_filled. rewrite length_reverse.
    do 4 f_equal. lia.
  - apply Forall_map. eapply list.Forall_impl; [apply (digits_bound 16 64 n); lia|].
    intros d Hd. by apply hex_char_byte.
Qed.

Lemma format_hex_appends n : 0 ≤ n < 2 ^ 64 → appends (format_hex n) (hexadecimal n).
Proof.
  intros Hn o Ho. unfold format_hex. destruct (int_to_hex_ok n Hn) as [k ->]. cbn [bind_result snd].
  apply format_string_appends; [|done]. apply text_terminated, hexadecimal_printable. lia.
Qed.

(** ** Lemmas: directives and the format loop *)

Lemma directive_printable d a t a' : directive d a = Some (t, a') → Forall printable t.
Proof.
  unfold directive. intros H.
  repeat match type of H with
  | (if ?b then _ else _) = Some _ => destruct b eqn:?
  | match ?a with _ => _ end = Some _ => destruct a eqn:?
  end; simplify_eq/=; bool_to_prop; try done.
  - by apply decimal_printable.
  - apply decimal_printable, u64_range.
  - repeat constructor; try (unfold is_byte; lia). apply hexadecimal_printable, u64_range.
  - repeat constructor; try done; apply u8_range.
  - destruct (text s) eqn:Et; simplify_eq/=. by apply text_bytes in Et.
Qed.

Lemma render_printable fmt a u : render fmt a = Some u → Forall printable u.
Proof.
  remember (length fmt) as n eqn:Hn. assert (length fmt ≤ n)%nat as Hle by lia. clear Hn.
  revert fmt a u Hle. induction n as [|n IH]; intros [|c fmt] a u Hle H;
    cbn [length render] in *; try done; [lia|].
  destruct (c =? 0) eqn:E0; [by simplify_eq|]. destruct (is_char c "%"%char) eqn:Ep.
  - destruct fmt as [|d fmt]; [done|]. cbn [length] in Hle.
    destruct (directive d a) as [[t a']|] eqn:Ed; [|done]. cbn in H.
    destruct (render fmt a') as [u'|] eqn:Er; simplify_eq/=.
    apply list.Forall_app. split; [by eapply directive_printable|by eapply IH, Er; lia].
  - destruct ((0 <=? c) && (c <? 256)) eqn:Eb; [|done]. bool_to_prop.
    destruct (render fmt a) as [u'|] eqn:Er; simplify_eq/=.
    constructor; [done|]. by eapply IH, Er; lia.
Qed.

Lemma in_buffer_appends c t o a : appends c t → (length o + length t ≤ 1024)%nat →
  in_buffer (c (Z.of_nat (length o))) (Out (filled o) a)
  = Ok (Z.of_nat (length (o ++ t)), Out (filled (o ++ t)) a).
Proof.
  intros Hc Hl. unfold in_buffer, zoom. cbn [buffer]. rewrite Hc by lia.
  by rewrite append_fits by lia.
Qed.

Lemma hex_directive d o a v :
  is_char d "d"%char || is_char d "i"%char = false → is_char d "u"%char = false →
  is_char d "X"%char || is_char d "p"%char || is_char d "x"%char = true →
  (length o + (2 + length (hexadecimal (u64 v))) ≤ 1023)%nat →
  (0 < length (hexadecimal (u64 v)))%nat →
  format_handler d (Z.of_nat (length o)) (Out (filled o) (ArgWord v :: a))
  = Ok (Z.of_nat (length (o ++ [48; 120] ++ hexadecimal (u64 v))),
        Out (filled (o ++ [48; 120] ++ hexadecimal (u64 v))) a).
Proof.
  intros E1 E2 E3 Hl Hpos. unfold format_handler. rewrite E1, E2, E3.
  unfold MAX_STRING_FORMATTER_BUFFER_SIZE. rewrite (proj2 (Z.ltb_lt _ _)) by lia.
  unfold mbind, M_bind, in_buffer, zoom. cbn [buffer args].
  rewrite put_char_filled by (done || lia). cbn [bind_result fst snd buffer args].
  rewrite put_char_filled by (rewrite ?length_app; cbn; done || lia).
  cbn [bind_result fst snd buffer args va_word].
  rewrite <- app_assoc. cbn [app].
  replace (Z.of_nat (length o) + 2) with (Z.of_nat (length (o ++ [48; 120])))
    by (rewrite length_app; cbn; lia).
  rewrite format_hex_appends by (apply u64_range || rewrite length_app; cbn; lia).
  rewrite append_fits by (rewrite length_app; cbn [length]; lia). cbn [bind_result fst snd].
  by rewrite <- app_assoc.
Qed.

Lemma numeral_nonempty b char_of n : 2 ≤ b → 0 ≤ n < 2 ^ 64 →
  (0 < length (numeral b char_of n))%nat.
Proof.
  intros Hb Hn. unfold numeral. case_if; [cbn; lia|].
  rewrite length_reverse, length_map, digits_step by lia. cbn. lia.
Qed.

Lemma format_handler_ok d a t a' o :
  directive d a = Some (t, a') → (length o + length t ≤ 1023)%nat →
  format_handler d (Z.of_nat (length o)) (Out (filled o) a)
  = Ok (Z.of_nat (length (o ++ t)), Out (filled (o ++ t)) a').
Proof.
  intros H Hl. pose proof (directive_printable _ _ _ _ H) as Hp.
  unfold directive in H.
  destruct (is_char d "d"%char || is_char d "i"%char) eqn:E1.
  { destruct a as [|[v|] a]; try done. destruct (0 <=? s64 v) eqn:Ev; [|done]. bool_to_prop.
    simplify_eq. unfold format_handler. rewrite E1. unfold mbind, M_bind.
    cbn [va_word args bind_result fst snd buffer].
    apply in_buffer_appends; [|lia]. apply format_decimal_appends.
    pose proof (swrap_range 64 v ltac:(lia)). unfold s64 in *. lia. }
  destruct (is_char d "u"%char) eqn:E2.
  { destruct a as [|[v|] a]; try done. simplify_eq. unfold format_handler. rewrite E1, E2.
    unfold mbind, M_bind. cbn [va_word args bind_result fst snd buffer].
    apply in_buffer_appends; [|lia]. apply format_decimal_appends, u64_range. }
  destruct (is_char d "X"%char || is_char d "p"%char || is_char d "x"%char) eqn:E3.
  { destruct a as [|[v|] a]; try done. simplify_eq. rewrite length_app in Hl. cbn [length] in Hl.
    apply hex_directive; try done. apply numeral_nonempty; [lia|apply u64_range]. }
  destruct (is_char d "c"%char) eqn:E4.
  { destruct a as [|[v|] a]; try done. destruct (u8 (s32 v) =? 0); [done|]. simplify_eq.
    unfold format_handler. rewrite E1, E2, E3, E4.
    unfold mbind, M_bind. cbn [va_word args bind_result fst snd buffer].
    apply in_buffer_appends; [|lia]. apply format_char_appends. }
  destruct (is_char d "s"%char) eqn:E5.
  { destruct a as [|[|s] a]; try done. destruct (text s) as [u|] eqn:Et; simplify_eq/=.
    unfold format_handler. rewrite E1, E2, E3, E4, E5.
    unfold mbind, M_bind. cbn [va_string args bind_result fst snd buffer].
    apply in_buffer_appends; [|lia]. by apply format_string_appends. }
  simplify_eq. unfold format_handler. rewrite E1, E2, E3, E4, E5.
  by rewrite app_nil_r.
Qed.

Lemma format_loop_ok fmt a u o :
  render fmt a = Some u → (length o + length u ≤ 1023)%nat →
  ∃ a', format_loop fmt (Z.of_nat (length o)) (Out (filled o) a)
        = Ok (Z.of_nat (length (o ++ u)), Out (filled (o ++ u)) a').
Proof.
  remember (length fmt) as n eqn:Hn. assert (length fmt ≤ n)%nat as Hle by lia. clear Hn.
  revert fmt a u o Hle. induction n as [|n IH]; intros [|c fmt] a u o Hle H Hl;
    cbn [length render format_loop] in *; try done; [lia|].
  destruct (c =? 0) eqn:E0; cbn [negb andb].
  { simplify_eq. exists a. by rewrite app_nil_r. }
  unfold MAX_STRING_FORMATTER_BUFFER_SIZE. rewrite (proj2 (Z.ltb_lt _ _)) by lia.
  destruct (is_char c "%"%char) eqn:Ep.
  - destruct fmt as [|d fmt]; [done|]. cbn [length] in Hle.
    destruct (directive d a) as [[t a']|] eqn:Ed; [|done]. cbn in H.
    destruct (render fmt a') as [u'|] eqn:Er; simplify_eq/=. rewrite length_app in Hl.
    unfold mbind, M_bind. rewrite (format_handler_ok _ _ _ _ _ Ed) by lia.
    cbn [bind_result fst snd]. rewrite (app_assoc o t u').
    apply IH; [lia|done|rewrite length_app; lia].
  - destruct ((0 <=? c) && (c <? 256)) eqn:Eb; [|done]. bool_to_prop.
    destruct (render fmt a) as [u'|] eqn:Er; simplify_eq/=.
    unfold mbind, M_bind, in_buffer, zoom. cbn [buffer].
    rewrite put_char_filled by (done || lia). cbn [bind_result fst snd args].
    replace (Z.of_nat (length o) + 1) with (Z.of_nat (length (o ++ [c])))
      by (rewrite length_app; cbn; lia).
    replace (o ++ c :: u') with ((o ++ [c]) ++ u') by (by rewrite <- app_assoc).
    apply IH; [lia|done|rewrite length_app; cbn; lia].
Qed.

Lemma formatted_ok fmt a u o :
  render fmt a = Some u → (length o + length u ≤ 1023)%nat →
  formatted fmt a (Z.of_nat (length o)) (filled o) = Ok (filled (o ++ u)).
Proof.
  intros Hr Hl. unfold formatted.
  destruct (format_loop_ok _ _ _ _ Hr Hl) as [a' ->]. done.
Qed.

Lemma formatted_start fmt a u :
  render fmt a = Some u → (length u < 1024)%nat →
  formatted fmt a 0 (filled []) = Ok (filled u).
Proof. intros Hr Hl. apply (formatted_ok fmt a u [] Hr). cbn. lia. Qed.

Lemma c_string_terminated t rest : Forall printable t → c_string (t ++ 0 :: rest) = Ok t.
Proof.
  induction 1 as [|c t [_ H0] _ IH]; [done|]. cbn [c_string app].
  by rewrite (proj2 (Z.eqb_neq _ _) H0), IH.
Qed.

Lemma c_string_unterminated t : Forall printable t → c_string t = Fault.
Proof.
  induction 1 as [|c t [_ H0] _ IH]; [done|]. cbn [c_string].
  by rewrite (proj2 (Z.eqb_neq _ _) H0), IH.
Qed.

Lemma filled_terminated t : (length t < 1024)%nat →
  ∃ k, filled t = t ++ 0 :: replicate k 0.
Proof.
  intros. exists (1023 - length t)%nat. unfold filled.
  by replace (1024 - length t)%nat with (S (1023 - length t)) by lia.
Qed.

Lemma c_string_filled t : Forall printable t → (length t < 1024)%nat → c_string (filled t) = Ok t.
Proof.
  intros Ht Hl. destruct (filled_terminated t Hl) as [k ->]. by apply c_string_terminated.
Qed.

Lemma vkprintf_ok fmt a u s :
  render fmt a = Some u → (length u < 1024)%nat → terminal s = true →
  vkprintf fmt a s
  = Ok (tt, Console true (prod_mode s) (screen s ++ [u]) (serial s) (prefix s)).
Proof.
  intros Hr Hl Ht. unfold vkprintf. rewrite filled_nil.
  rewrite (formatted_start fmt a u) by (done || lia). cbn [bind_result].
  unfold limine_write. rewrite Ht. cbn [negb].
  by rewrite c_string_filled by (done || by eapply render_printable).
Qed.

Lemma is_percent c : is_char c "%"%char = (c =? 37).
Proof. done. Qed.

(** A text without [%] is its own format. *)
Lemma render_plain t rest a : Forall printable t → Forall (λ c, c ≠ 37) t →
  render (t ++ 0 :: rest) a = Some t.
Proof.
  intros Ht. induction Ht as [|c t [Hb H0] _ IH]; intros Hp; [done|]. cbn [render app].
  apply list.Forall_cons in Hp as [Hc Hp].
  rewrite (proj2 (Z.eqb_neq _ _) H0), is_percent.
  rewrite (proj2 (Z.eqb_neq _ _) Hc), IH by done.
  by rewrite (proj2 (Z.leb_le _ _)), (proj2 (Z.ltb_lt _ _)) by apply Hb.
Qed.

Lemma format_loop_plain_full t rest a o :
  Forall printable t → Forall (λ c, c ≠ 37) t → (length o ≤ 1024)%nat →
  (1024 ≤ length o + length t)%nat →
  format_loop (t ++ 0 :: rest) (Z.of_nat (length o)) (Out (filled o) a)
  = Ok (1024, Out (filled (append o t)) a).
Proof.
  intros Ht. revert o. induction Ht as [|c t [Hb H0] _ IH]; intros o Hp Ho Hl.
  { cbn in Hl. assert (length o = 1024)%nat as E by lia. rewrite append_full, E by done. done. }
  apply list.Forall_cons in Hp as [Hc Hp]. cbn [format_loop app length] in *.
  rewrite (proj2 (Z.eqb_neq _ _) H0). cbn [negb andb].
  unfold MAX_STRING_FORMATTER_BUFFER_SIZE. case_if.
  - rewrite is_percent.
    rewrite (proj2 (Z.eqb_neq _ _) Hc).
    unfold mbind, M_bind, in_buffer, zoom. cbn [buffer].
    rewrite put_char_filled by (done || lia). cbn [bind_result fst snd args].
    replace (Z.of_nat (length o) + 1) with (Z.of_nat (length (o ++ [c])))
      by (rewrite length_app; cbn; lia).
    rewrite <- append_cons. apply IH; rewrite ?length_app; cbn; done || lia.
  - assert (length o = 1024)%nat as Ef by lia. by rewrite append_full, Ef by done.
Qed.
