(* ===== verification/FormatterCorrect.v ===== *)
(** * Properties of the formatted output

    What [kprintf], [klog], [print_syscall] and [panic] put out, that the
    numerals they print can be read back, and the limits of the code: negative
    [%d], messages of 1024 bytes and more, a skipped [%x], a message with [%]. *)

From Stdlib Require Import Ascii.
From S2P Require Import Prelude Formatter.

(** The bytes of a C string literal. *)
Definition literal (s : string) : list Z :=
  map (λ a, Z.of_N (N_of_ascii a)) (String.list_ascii_of_string s) ++ [0].

Definition demo_console : console := Console true false [] [] (replicate 32 0).

(** ** Reading numerals back *)

Lemma read_numeral_ok b char_of n :
  2 ≤ b → 0 ≤ n < 2 ^ 64 → (∀ d, 0 ≤ d < b → char_value (char_of d) = d) →
  read_numeral b (numeral b char_of n) = n.
Proof.
  intros Hb Hn Hc. unfold numeral. case_if.
  { subst. cbn. apply Hc. lia. }
  rewrite <- (digits_value b 64 n) at 2 by (done || cbn; lia).
  pose proof (digits_bound b 64 n ltac:(done) ltac:(lia)) as Hd.
  unfold read_numeral. induction Hd as [|d ds Hd _ IH]; [done|].
  cbn [map foldr]. rewrite reverse_cons, fold_left_app. cbn [fold_left].
  by rewrite IH, Hc.
Qed.

Lemma decimal_value d : 0 ≤ d < 10 → char_value (decimal_char d) = d.
Proof. intros. unfold char_value, decimal_char. case_if; lia. Qed.

Lemma hex_value d : 0 ≤ d < 16 → char_value (hex_char d) = d.
Proof.
  intros Hd. unfold char_value, hex_char, hex_chars.
  assert (∃ k, (k < 16)%nat ∧ d = Z.of_nat k) as (k & Hk & ->) by (exists (Z.to_nat d); lia).
  rewrite Nat2Z.id. do 16 (destruct k as [|k]; [done|]). lia.
Qed.

Lemma numeral_length b char_of n k :
  2 ≤ b → (1 ≤ k)%nat → 0 ≤ n < b ^ Z.of_nat k → (length (numeral b char_of n) ≤ k)%nat.
Proof.
  intros Hb Hk Hn. unfold numeral. case_if; [cbn; lia|].
  rewrite length_reverse, length_map. by apply digits_length.
Qed.

(** ** The logger's prefix *)

Lemma put_char_at pre c x rest :
  is_byte c →
  put_char (Z.of_nat (length pre)) c (pre ++ x :: rest) = Ok (tt, pre ++ c :: rest).
Proof.
  intros Hc. unfold put_char. rewrite length_app. cbn [length].
  rewrite (proj2 (Z.leb_le _ _)), (proj2 (Z.ltb_lt _ _)) by lia. cbn [andb].
  rewrite Nat2Z.id, u8_small by done. by rewrite list.insert_app_r_alt, Nat.sub_diag by lia.
Qed.

Lemma copy_prefix_ok np p pre b :
  text np = Some p → (length pre ≤ 30)%nat → (length pre + length b = 32)%nat →
  ∃ b', let pre' := take 30 (pre ++ p) in
    copy_prefix np (Z.of_nat (length pre)) (pre ++ b) = Ok (Z.of_nat (length pre'), pre' ++ b')
    ∧ (length pre' + length b' = 32)%nat.
Proof.
  revert p pre b. induction np as [|c np IH]; intros p pre b Ht Hp Hb; [done|].
  cbn [text copy_prefix] in *. unfold LOGGER_PREFIX_LENGTH.
  destruct (c =? 0) eqn:E0; cbn [negb andb]; bool_to_prop.
  { simplify_eq. exists b. rewrite app_nil_r, take_ge by lia. done. }
  destruct ((0 <=? c) && (c <? 256)) eqn:Eb; [|done]. bool_to_prop.
  destruct (text np) as [q|] eqn:Eq; simplify_eq/=. case_if.
  - destruct b as [|x b]; [cbn in Hb; lia|]. cbn [length] in Hb.
    unfold mbind, M_bind. rewrite put_char_at by done. cbn [bind_result fst snd].
    replace (Z.of_nat (length pre) + 1) with (Z.of_nat (length (pre ++ [c])))
      by (rewrite length_app; cbn; lia).
    replace (pre ++ c :: b) with ((pre ++ [c]) ++ b) by (by rewrite <- app_assoc).
    replace (pre ++ c :: q) with ((pre ++ [c]) ++ q) by (by rewrite <- app_assoc).
    apply IH; rewrite ?length_app; cbn; done || lia.
  - exists b. assert (length pre = 30)%nat as Hfull by lia.
    assert (take 30 (pre ++ c :: q) = pre) as ->.
    { rewrite <- Hfull. apply take_app_length. }
    done.
Qed.

(** The text of the logger's prefix after [vklog] was given [p]. *)
Definition log_prefix (p : list Z) : list Z := take 30 p ++ [32].

Lemma set_prefix_ok np p b :
  text np = Some p → length b = 32%nat →
  ∃ b', set_prefix np b = Ok (tt, b') ∧ text b' = Some (log_prefix p) ∧ length b' = 32%nat.
Proof.
  intros Ht Hb. destruct (copy_prefix_ok np p [] b Ht) as (r & Hc & Hr); [cbn; lia..|].
  cbn [app length] in Hc. change (Z.of_nat 0) with 0 in Hc. cbn [app] in Hr.
  set (pre := take 30 p) in *.
  assert (length pre ≤ 30)%nat by (subst pre; rewrite length_take; lia).
  assert (Forall printable pre) as Hpre.
  { subst pre. apply Forall_take. by apply text_bytes in Ht. }
  destruct r as [|x [|y r]]; cbn [length] in Hr; try lia.
  unfold set_prefix, mbind, M_bind. rewrite Hc. cbn [bind_result fst snd].
  rewrite put_char_at by (unfold is_byte; lia). cbn [bind_result fst snd].
  replace (Z.of_nat (length pre) + 1) with (Z.of_nat (length (pre ++ [32])))
    by (rewrite length_app; cbn; lia).
  replace (pre ++ 32 :: y :: r) with ((pre ++ [32]) ++ y :: r) by (by rewrite <- app_assoc).
  rewrite put_char_at by (unfold is_byte; lia).
  eexists. split; [done|]. split; [|rewrite !length_app; cbn [length]; lia].
  unfold log_prefix. change (take 30 p) with pre. apply text_terminated, list.Forall_app.
  split; [done|]. repeat constructor; unfold is_byte; lia.
Qed.

(** The console after a text was written to the screen, or to the serial line. *)
Definition on_screen (t : list Z) (s : console) : console :=
  Console (terminal s) (prod_mode s) (screen s ++ [t]) (serial s) (prefix s).
Definition on_serial (t pfx : list Z) (s : console) : console :=
  Console (terminal s) (prod_mode s) (screen s) (serial s ++ t ++ [10]) pfx.

(** [vklog] after the prefix has been settled *)
Lemma vklog_tail fmt a u pfx pt s :
  render fmt a = Some u → text pfx = Some pt → (length pt + length u ≤ 1023)%nat →
  bind_result (format_string pfx 0 empty_buffer) (λ q,
    bind_result (formatted fmt a q.1 q.2) (λ b,
      log_to_serial b (Console (terminal s) (prod_mode s) (screen s) (serial s) pfx)))
  = Ok (tt, on_serial (pt ++ u) pfx s).
Proof.
  intros Hr Hp Hl. rewrite filled_nil.
  pose proof (format_string_appends _ _ Hp [] ltac:(cbn; lia)) as Hf.
  cbn [length] in Hf. change (Z.of_nat 0) with 0 in Hf. rewrite Hf, append_fits by (cbn; lia). cbn [bind_result fst snd app].
  rewrite (formatted_ok fmt a u pt) by done. cbn [bind_result]. unfold log_to_serial.
  rewrite c_string_filled; [done| |rewrite length_app; lia].
  apply list.Forall_app. split; [by apply text_bytes in Hp|by eapply render_printable].
Qed.

(** ** The properties *)

(** [C36] [kprintf] is correct: if the format and its arguments denote a text
    [u] ([render]: literal bytes, [%d]/[%i] of a non-negative number, [%u],
    [%x]/[%X]/[%p] with their [0x], [%c], [%s]; the other directives print
    nothing) of fewer than 1024 bytes, then the terminal receives exactly [u],
    and the serial line and the logger are untouched. *)
Theorem kprintf_correct fmt a u s :
  render fmt a = Some u → (length u < 1024)%nat → terminal s = true →
  kprintf fmt a s = Ok (tt, on_screen u s).
Proof.
  intros Hr Hl Ht. unfold kprintf. rewrite (vkprintf_ok fmt a u s) by done.
  unfold on_screen. by rewrite Ht.
Qed.

Lemma kprintf_correct_witness :
  kprintf (literal "ptr2 addr: %p value: %d") [ArgWord (2 ^ 64 - 4096); ArgWord 8765] demo_console
  = Ok (tt, on_screen (removelast (literal "ptr2 addr: 0xfffffffffffff000 value: 8765")) demo_console).
Proof. apply kprintf_correct; [by vm_compute|vm_compute; lia|done]. Defined.

(** The print system call on a text without [%]: fewer than 1024 bytes
    are printed as they are; from 1024 bytes on the buffer is full, has no
    terminator, and the terminal's length loop runs past it. *)
Theorem print_syscall_spec t rest s :
  Forall printable t → Forall (λ c, c ≠ 37) t → terminal s = true →
  print_syscall (t ++ 0 :: rest) s
  = if decide (length t < 1024)%nat then Ok (tt, on_screen t s) else Fault.
Proof.
  intros Hp Hn Ht. unfold print_syscall, kprintf. case_decide as Hl.
  { rewrite (vkprintf_ok _ _ t) by (done || by apply render_plain). unfold on_screen. by rewrite Ht. }
  unfold vkprintf, formatted. rewrite filled_nil.
  pose proof (format_loop_plain_full t rest [] [] Hp Hn ltac:(cbn; lia) ltac:(cbn; lia)) as Hf.
  cbn [length] in Hf. change (Z.of_nat 0) with 0 in Hf. rewrite Hf. cbn [bind_result snd buffer].
  unfold limine_write. rewrite Ht. cbn [negb]. unfold append, filled. cbn [app].
  rewrite length_take, Nat.min_l, Nat.sub_diag by lia. cbn [replicate]. rewrite app_nil_r.
  by rewrite c_string_unterminated by (by apply Forall_take).
Qed.

Lemma print_syscall_spec_witness :
  print_syscall (replicate 1024 65 ++ 0 :: []) demo_console = Fault
  ∧ print_syscall ([72; 105] ++ 0 :: []) demo_console = Ok (tt, on_screen [72; 105] demo_console).
Proof.
  split.
  - rewrite (print_syscall_spec (replicate 1024 65) []);
      [by rewrite decide_False by (rewrite length_replicate; lia)|..|done];
      apply Forall_replicate; unfold printable, is_byte; lia.
  - rewrite (print_syscall_spec [72; 105] []); [by rewrite decide_True by (cbn; lia)|..|done];
      repeat constructor; unfold is_byte; lia.
Defined.

(** [C37] Numbers survive printing: [format_uint] and [format_hex] append the
    decimal and the hexadecimal digits of any 64-bit number (at most 20 and 16
    of them), and reading these digits back gives the number. *)
Theorem format_number_roundtrip n o :
  0 ≤ n < 2 ^ 64 → (length o ≤ 1004)%nat →
  (∃ t, format_uint n (Z.of_nat (length o)) (filled o)
          = Ok (Z.of_nat (length (o ++ t)), filled (o ++ t)) ∧ read_numeral 10 t = n) ∧
  (∃ t, format_hex n (Z.of_nat (length o)) (filled o)
          = Ok (Z.of_nat (length (o ++ t)), filled (o ++ t)) ∧ read_numeral 16 t = n).
Proof.
  intros Hn Ho. split.
  - exists (decimal n). unfold format_uint. rewrite format_decimal_appends by (done || lia).
    assert (length (decimal n) ≤ 20)%nat by (apply numeral_length; cbn; lia).
    rewrite append_fits by lia. split; [done|].
    apply read_numeral_ok; [lia|done|apply decimal_value].
  - exists (hexadecimal n). rewrite format_hex_appends by (done || lia).
    assert (length (hexadecimal n) ≤ 16)%nat by (apply numeral_length; cbn; lia).
    rewrite append_fits by lia. split; [done|].
    apply read_numeral_ok; [lia|done|apply hex_value].
Qed.

Lemma format_number_roundtrip_witness :
  ∃ t, format_hex 48879 0 (filled []) = Ok (Z.of_nat (length t), filled t) ∧ read_numeral 16 t = 48879.
Proof. apply (format_number_roundtrip 48879 []); cbn; lia. Defined.

(** Negative numbers are not printed as numbers: for [-m] there is no
    sign, and each decimal digit of [m] comes out as the character as far below
    ['0'] as the digit is above it ([c] becomes [96 - c]). *)
Theorem format_int_negative m o :
  0 < m ≤ 2 ^ 63 → (length o ≤ 1004)%nat →
  let t := map (λ c, 96 - c) (decimal m) in
  format_int (- m) (Z.of_nat (length o)) (filled o)
  = Ok (Z.of_nat (length (o ++ t)), filled (o ++ t)).
Proof.
  intros Hm Ho t. unfold format_int.
  replace (- m) with (-1 * m) by lia. rewrite format_number_appends by (lia || by right).
  assert (reverse (map (digit_char (-1)) (digits 64 10 m)) = t) as ->.
  { subst t. unfold decimal, numeral. rewrite (proj2 (Z.eqb_neq _ _)) by lia.
    rewrite (fmap_reverse (λ c, 96 - c)). f_equal. cbn -[digits]. rewrite map_map. apply map_ext_Forall.
    eapply list.Forall_impl; [apply digits_bound; lia|]. intros d Hd. cbn in Hd.
    unfold digit_char, decimal_char. rewrite u8_small; lia. }
  assert (length t ≤ 20)%nat.
  { subst t. rewrite length_map. apply numeral_length; cbn; lia. }
  by rewrite append_fits by lia.
Qed.

(** [kprintf("%d", -12)] prints "/.". *)
Lemma format_int_negative_witness :
  format_int (-12) 0 (filled []) = Ok (2, filled [47; 46]).
Proof. apply (format_int_negative 12 []); cbn; lia. Defined.

(** [klog] outside production mode: the message goes to the serial line
    after the prefix (the first 30 bytes of a given prefix and a space, or the
    prefix of the call before when none is given), the new prefix is remembered,
    and the screen is untouched. *)
Theorem klog_correct np fmt a u pt s :
  prod_mode s = false → length (prefix s) = 32%nat → render fmt a = Some u →
  match np with
  | Some p => ∃ t, text p = Some t ∧ pt = log_prefix t
  | None => text (prefix s) = Some pt
  end →
  (length pt + length u ≤ 1023)%nat →
  ∃ pfx, klog np fmt a s = Ok (tt, on_serial (pt ++ u) pfx s) ∧
    length pfx = 32%nat ∧ text pfx = Some pt.
Proof.
  intros Hm Hlen Hr Hnp Hl. unfold klog. rewrite Hm. unfold vklog.
  destruct np as [p|].
  - destruct Hnp as (t & Ht & ->).
    destruct (set_prefix_ok p t (prefix s) Ht Hlen) as (pfx & -> & Hpt & Hpl).
    cbn [bind_result snd]. exists pfx. by rewrite (vklog_tail fmt a u pfx (log_prefix t)).
  - cbn [bind_result snd]. exists (prefix s). by rewrite (vklog_tail fmt a u (prefix s) pt).
Qed.

Lemma klog_correct_witness :
  ∃ pfx, klog (Some (literal "PMM ::")) (literal "free: %u") [ArgWord 7] demo_console
    = Ok (tt, on_serial (removelast (literal "PMM :: free: 7")) pfx demo_console) ∧
    length pfx = 32%nat ∧ text pfx = Some (removelast (literal "PMM :: ")).
Proof.
  apply (klog_correct _ _ _ (removelast (literal "free: 7")) (removelast (literal "PMM :: ")) demo_console);
    [done|done|by vm_compute|by eexists|vm_compute; lia].
Defined.

(** [panic] reports: a message [u] without a [%] of its own, that fits
    with the logger's prefix, is shown on the terminal and, outside production
    mode, sent on the serial line, before the machine is halted. *)
Theorem panic_report_correct fmt a u pt s :
  terminal s = true → length (prefix s) = 32%nat → text (prefix s) = Some pt →
  render fmt a = Some u → Forall (λ c, c ≠ 37) u → (length pt + length u ≤ 1023)%nat →
  panic_report fmt a s
  = Ok (tt, if prod_mode s then on_screen u s else on_serial (pt ++ u) (prefix s) (on_screen u s)).
Proof.
  intros Ht Hlen Hpt Hr Hp Hl. unfold panic_report. rewrite filled_nil.
  rewrite (formatted_start fmt a u) by (done || lia). cbn [bind_result].
  pose proof (render_printable _ _ _ Hr) as Hu.
  destruct (filled_terminated u) as [k Hk]; [lia|].
  assert (render (filled u) [] = Some u) as Hr2 by (rewrite Hk; by apply render_plain).
  unfold mbind, M_bind, kprintf. rewrite (vkprintf_ok _ _ u) by (done || lia).
  cbn [bind_result fst snd]. unfold klog. cbn [prod_mode].
  destruct (prod_mode s) eqn:Em.
  { unfold on_screen. by rewrite Ht, Em. }
  unfold vklog. cbn [prefix bind_result snd]. unfold on_screen. rewrite Ht, Em.
  apply (vklog_tail _ _ u (prefix s) pt
    (Console true false (screen s ++ [u]) (serial s) (prefix s))); [done..|lia].
Qed.

Lemma panic_report_correct_witness :
  panic_report (literal "%s") [ArgString (literal "Page Fault")] demo_console
  = Ok (tt, on_serial (removelast (literal "Page Fault")) (replicate 32 0)
              (on_screen (removelast (literal "Page Fault")) demo_console)).
Proof.
  apply (panic_report_correct _ _ (removelast (literal "Page Fault")) []);
    [done|done|done|by vm_compute| |cbn; lia].
  vm_compute. repeat constructor; done.
Defined.

(** ** Limits of the code *)

(** [panic] hands the finished message to [kprintf] as a format: a [%d] inside
    it takes an argument nobody passed. *)
Lemma panic_formats_twice :
  panic_report (literal "%s") [ArgString (literal "100%d")] demo_console = Fault.
Proof. by vm_compute. Qed.

(** With two bytes left [%x] prints nothing and leaves its argument, which the
    next directive takes for its own: here [%s] reads a number as a pointer. *)
Lemma hex_leaves_argument :
  kprintf (replicate 1022 65 ++ literal "%x%s") [ArgWord 4096; ArgString (literal "a")]
    demo_console = Fault.
Proof. by vm_compute. Qed.
