(* ===== verification/Keyboard.v ===== *)
(** * [src/kernel/interrupts/keyboard.c]

    The scan code tables, the interrupt handler with its shift and caps-lock
    state, and the one-character mailbox that [keyboard_getch] empties.  The
    bytes the controller answers on port 0x60 are arguments of the handler. *)

From S2P Require Import Prelude Spinlock.

(** ** Key codes *)

Inductive Special_Keys :=
  | UNKNOWN | ESC | CTRL | LSHFT | RSHFT | ALT | F1 | F2 | F3
  | F4 | F5 | F6 | F7 | F8 | F9 | F10 | F11 | F12
  | SCRLCK | HOME | UP | LEFT | RIGHT | DOWN | PGUP | PGDOWN | END
  | INS | DEL | CAPS | NONE | ALTGR | NUMLCK.

(** [0xFFFFFFFF - k] *)
Definition key_code (k : Special_Keys) : Z :=
  0xFFFFFFFF - match k with
  | UNKNOWN => 0 | ESC => 1 | CTRL => 2 | LSHFT => 3 | RSHFT => 4 | ALT => 5
  | F1 => 6 | F2 => 7 | F3 => 8 | F4 => 9 | F5 => 10 | F6 => 11
  | F7 => 12 | F8 => 13 | F9 => 14 | F10 => 15 | F11 => 16 | F12 => 17
  | SCRLCK => 18 | HOME => 19 | UP => 20 | LEFT => 21 | RIGHT => 22 | DOWN => 23
  | PGUP => 24 | PGDOWN => 25 | END => 26 | INS => 27 | DEL => 28 | CAPS => 29
  | NONE => 30 | ALTGR => 31 | NUMLCK => 32
  end.
#[local] Abbreviation K := key_code.

Definition lower_case : list Z :=
  [K UNKNOWN; K ESC; 49; 50; 51; 52; 53; 54;
   55; 56; 57; 48; 45; 61; 8; 9;
   113; 119; 101; 114; 116; 121; 117; 105;
   111; 112; 91; 93; 10; K CTRL; 97; 115;
   100; 102; 103; 104; 106; 107; 108; 59;
   39; 96; K LSHFT; 92; 122; 120; 99; 118;
   98; 110; 109; 44; 46; 47; K RSHFT; 42;
   K ALT; 32; K CAPS; K F1; K F2; K F3; K F4; K F5;
   K F6; K F7; K F8; K F9; K F10; K NUMLCK; K SCRLCK; K HOME;
   K UP; K PGUP; 45; K LEFT; K UNKNOWN; K RIGHT; 43; K END;
   K DOWN; K PGDOWN; K INS; K DEL; K UNKNOWN; K UNKNOWN; K UNKNOWN; K F11;
   K F12; K UNKNOWN; K UNKNOWN; K UNKNOWN; K UNKNOWN; K UNKNOWN; K UNKNOWN; K UNKNOWN;
   K UNKNOWN; K UNKNOWN; K UNKNOWN; K UNKNOWN; K UNKNOWN; K UNKNOWN; K UNKNOWN; K UNKNOWN;
   K UNKNOWN; K UNKNOWN; K UNKNOWN; K UNKNOWN; K UNKNOWN; K UNKNOWN; K UNKNOWN; K UNKNOWN;
   K UNKNOWN; K UNKNOWN; K UNKNOWN; K UNKNOWN; K UNKNOWN; K UNKNOWN; K UNKNOWN; K UNKNOWN;
   K UNKNOWN; K UNKNOWN; K UNKNOWN; K UNKNOWN; K UNKNOWN; K UNKNOWN; K UNKNOWN; K UNKNOWN].

Definition upper_case : list Z :=
  [K UNKNOWN; K ESC; 33; 64; 35; 36; 37; 94;
   38; 42; 40; 41; 95; 43; 8; 9;
   81; 87; 69; 82; 84; 89; 85; 73;
   79; 80; 123; 125; 10; K CTRL; 65; 83;
   68; 70; 71; 72; 74; 75; 76; 58;
   34; 126; K LSHFT; 124; 90; 88; 67; 86;
   66; 78; 77; 60; 62; 63; K RSHFT; 42;
   K ALT; 32; K CAPS; K F1; K F2; K F3; K F4; K F5;
   K F6; K F7; K F8; K F9; K F10; K NUMLCK; K SCRLCK; K HOME;
   K UP; K PGUP; 45; K LEFT; K UNKNOWN; K RIGHT; 43; K END;
   K DOWN; K PGDOWN; K INS; K DEL; K UNKNOWN; K UNKNOWN; K UNKNOWN; K F11;
   K F12; K UNKNOWN; K UNKNOWN; K UNKNOWN; K UNKNOWN; K UNKNOWN; K UNKNOWN; K UNKNOWN;
   K UNKNOWN; K UNKNOWN; K UNKNOWN; K UNKNOWN; K UNKNOWN; K UNKNOWN; K UNKNOWN; K UNKNOWN;
   K UNKNOWN; K UNKNOWN; K UNKNOWN; K UNKNOWN; K UNKNOWN; K UNKNOWN; K UNKNOWN; K UNKNOWN;
   K UNKNOWN; K UNKNOWN; K UNKNOWN; K UNKNOWN; K UNKNOWN; K UNKNOWN; K UNKNOWN; K UNKNOWN;
   K UNKNOWN; K UNKNOWN; K UNKNOWN; K UNKNOWN; K UNKNOWN; K UNKNOWN; K UNKNOWN; K UNKNOWN].

(** ** State *)

Record Key_Event := KeyEvent { shift : Z; caps_lock : Z }.

Record keyboard_state := Keyboard {
  keyboard_buffer : Z;
  keyboard_has_char : bool;
  keyboard_lock : Z;
  keyboard : Key_Event;
}.

Definition keyboard_initial : keyboard_state := Keyboard 0 false SPINLOCK_INIT (KeyEvent 0 0).

Definition set_keyboard (k : Key_Event) (s : keyboard_state) : keyboard_state :=
  Keyboard (keyboard_buffer s) (keyboard_has_char s) (keyboard_lock s) k.
Definition set_char (c : Z) (has : bool) (s : keyboard_state) : keyboard_state :=
  Keyboard c has (keyboard_lock s) (keyboard s).

Definition with_lock {A} (c : M Z A) : M keyboard_state A :=
  zoom keyboard_lock
    (λ l s, Keyboard (keyboard_buffer s) (keyboard_has_char s) l (keyboard s)) c.

(** ** Operations *)

(** The keys whose [case] is an empty [break]: Esc, Ctrl, Alt, F1 to F12. *)
Definition ignored_keys : list Z :=
  [1; 29; 56; 59; 60; 61; 62; 63; 64; 65; 66; 67; 68; 87; 88].

(** [in1] and [in2] are the two reads of port 0x60. *)
Definition keyboard_handler (in1 in2 : Z) : M keyboard_state unit :=
  let scancode := Z.land in1 0x7f in
  let pressed := Z.land in2 0x80 in
  if existsb (Z.eqb scancode) ignored_keys then mret tt
  else if scancode =? 42 then
    modify (λ s, set_keyboard (KeyEvent (if pressed =? 0 then 1 else 0) (caps_lock (keyboard s))) s)
  else if scancode =? 58 then
    k ← gets keyboard;
    if (caps_lock k =? 0) && (pressed =? 0) then
      modify (set_keyboard (KeyEvent (shift k) 1))
    else if negb (caps_lock k =? 0) && (pressed =? 0) then
      modify (set_keyboard (KeyEvent (shift k) 0))
    else mret tt
  else if pressed =? 0 then
    with_lock spinlock_acquire;;
    k ← gets keyboard;
    let c :=
      if negb (shift k =? 0) && negb (caps_lock k =? 0) then nth (Z.to_nat scancode) lower_case 0
      else if negb (shift k =? 0) || negb (caps_lock k =? 0) then nth (Z.to_nat scancode) upper_case 0
      else nth (Z.to_nat scancode) lower_case 0 in
    modify (set_char (u8 c) true);;
    with_lock spinlock_release
  else mret tt.

Definition keyboard_getch : M keyboard_state Z :=
  with_lock spinlock_acquire;;
  res ← gets keyboard_buffer;
  modify (set_char 0 false);;
  with_lock spinlock_release;;
  mret res.

Definition keyboard_checkch : M keyboard_state bool := gets keyboard_has_char.

Definition keyboard_getch_syscall : M keyboard_state Z :=
  has ← keyboard_checkch;
  if (has : bool) then keyboard_getch else mret (u64 (-1)).

(** ** The specification: a mailbox of one character

    A byte from the controller is a key and whether it goes down or up; a
    client takes the character that waits, if any.  Shift is held or not, caps
    lock toggles, and the case of a key is decided by exactly one of them being
    in force.  A character nobody took is overwritten. *)

Inductive event := Byte (b : Z) | Take.

Record mailbox := Mailbox { held : bool; caps : bool; waiting : option Z }.

Definition key_char (up : bool) (scancode : Z) : Z :=
  u8 (nth (Z.to_nat scancode) (if up then upper_case else lower_case) 0).

Definition mailbox_step (m : mailbox) (e : event) : mailbox * option Z :=
  match e with
  | Byte b =>
      let scancode := b mod 128 in
      let down := b <? 128 in
      (if bool_decide (scancode ∈ ignored_keys) then m
       else if scancode =? 42 then Mailbox down (caps m) (waiting m)
       else if scancode =? 58 then Mailbox (held m) (xorb (caps m) down) (waiting m)
       else if down then
         Mailbox (held m) (caps m) (Some (key_char (xorb (held m) (caps m)) scancode))
       else m, None)
  | Take => (Mailbox (held m) (caps m) None, waiting m)
  end.

(** The code on the same events; what a [Take] returns is collected. *)
Definition keyboard_step (e : event) : M keyboard_state (option Z) :=
  match e with
  | Byte b => keyboard_handler b b;; mret None
  | Take =>
      r ← keyboard_getch_syscall;
      mret (if r =? 2 ^ 64 - 1 then None else Some r)
  end.

Fixpoint keyboard_run (es : list event) : M keyboard_state (list (option Z)) :=
  match es with
  | [] => mret []
  | e :: es' => r ← keyboard_step e; rs ← keyboard_run es'; mret (r :: rs)
  end.

Fixpoint mailbox_run (es : list event) (m : mailbox) : list (option Z) * mailbox :=
  match es with
  | [] => ([], m)
  | e :: es' =>
      let '(m', r) := mailbox_step m e in
      let '(rs, m'') := mailbox_run es' m' in
      (r :: rs, m'')
  end.

(** How the variables of the code represent a mailbox. *)
Definition b2z (b : bool) : Z := if b then 1 else 0.
Definition represents (m : mailbox) (s : keyboard_state) : Prop :=
  keyboard_lock s = 0 ∧ keyboard s = KeyEvent (b2z (held m)) (b2z (caps m)) ∧
  match waiting m with
  | Some c => keyboard_has_char s = true ∧ keyboard_buffer s = c ∧ 0 ≤ c < 256
  | None => keyboard_has_char s = false
  end.

Definition is_byte_event (e : event) : Prop :=
  match e with Byte b => 0 ≤ b < 256 | Take => True end.

(** ** Lemmas *)

Lemma scancode_bits b : 0 ≤ b < 256 →
  Z.land b 0x7f = b mod 128 ∧ (Z.land b 0x80 =? 0) = (b <? 128).
Proof.
  intros Hb. split; [by apply (Z.land_ones b 7)|].
  pose proof (land_one_bit b 7 ltac:(lia)) as H. change (Z.shiftl 1 7) with 128 in H.
  apply (f_equal negb) in H. rewrite negb_involutive in H. rewrite H.
  rewrite Z.testbit_eqb by lia. change (2 ^ 7) with 128.
  destruct (b <? 128) eqn:E; bool_to_prop.
  - by rewrite Z.div_small by lia.
  - assert (b / 128 = 1) as -> by zify_div. done.
Qed.

Lemma existsb_elem x l : existsb (Z.eqb x) l = bool_decide (x ∈ l).
Proof.
  induction l as [|y l IH]; [done|]. cbn [existsb]. rewrite IH. clear IH.
  destruct (Z.eqb_spec x y) as [->|Hxy]; cbn [orb].
  - symmetry. apply bool_decide_eq_true. left.
  - apply bool_decide_ext. rewrite elem_of_cons. split; [by right|by intros [->|]].
Qed.

Lemma b2z_zero b : (b2z b =? 0) = negb b.
Proof. by destruct b. Qed.

(** With the lock free, a bracketed update goes through and leaves it free. *)
Lemma handler_press s c :
  keyboard_lock s = 0 →
  (with_lock spinlock_acquire;; k ← gets keyboard; modify (set_char (c k) true);;
   with_lock spinlock_release) s
  = Ok (tt, Keyboard (c (keyboard s)) true 0 (keyboard s)).
Proof.
  intros Hl. unfold mbind, M_bind, with_lock, zoom. rewrite Hl, spinlock_acquire_free. done.
Qed.

Lemma getch_free s : keyboard_lock s = 0 →
  keyboard_getch s = Ok (keyboard_buffer s, Keyboard 0 false 0 (keyboard s)).
Proof.
  intros Hl. unfold keyboard_getch, mbind, M_bind, with_lock, zoom.
  by rewrite Hl, spinlock_acquire_free.
Qed.

Lemma take_ok m s : represents m s →
  ∃ s', keyboard_step Take s = Ok (waiting m, s')
        ∧ represents (Mailbox (held m) (caps m) None) s'.
Proof.
  intros (Hl & Hk & Hw). unfold keyboard_step, keyboard_getch_syscall, keyboard_checkch.
  unfold mbind, M_bind, gets. cbn [bind_result fst snd].
  destruct (waiting m) as [c|].
  - destruct Hw as (-> & Hc & Hr). rewrite getch_free by done. cbn [bind_result fst snd].
    rewrite Hc. rewrite (proj2 (Z.eqb_neq _ _)) by lia. eexists. split; [done|]. by split_and!.
  - rewrite Hw. cbn [bind_result fst snd mret M_ret]. exists s. by split_and!.
Qed.

Lemma byte_ok m s b : represents m s → 0 ≤ b < 256 →
  ∃ s', keyboard_step (Byte b) s = Ok (None, s') ∧ represents (mailbox_step m (Byte b)).1 s'.
Proof.
  intros (Hl & Hk & Hw) Hb. destruct (scancode_bits b Hb) as [E1 E2].
  unfold keyboard_step, keyboard_handler, mailbox_step. cbv zeta.
  rewrite E1, E2, existsb_elem. cbn [fst].
  pose proof (Z.mod_pos_bound b 128). set (scancode := b mod 128) in *.
  case_bool_decide as Hi; [by exists s|].
  destruct (scancode =? 42).
  { eexists. split; [done|]. split_and!; [done| |done]. cbn. rewrite Hk. by destruct (b <? 128). }
  destruct (scancode =? 58).
  { unfold mbind, M_bind, gets. cbn [bind_result fst snd]. rewrite Hk. cbn [caps_lock shift].
    rewrite b2z_zero. destruct (b <? 128), (caps m) eqn:Ec; cbn; eexists; (split; [done|]);
      split_and!; cbn; try done; by rewrite Hk, ?Ec. }
  destruct (b <? 128); [|by exists s].
  unfold mbind at 1, M_bind at 1.
  pose proof (handler_press s (λ k, u8 (
      if negb (shift k =? 0) && negb (caps_lock k =? 0) then nth (Z.to_nat scancode) lower_case 0
      else if negb (shift k =? 0) || negb (caps_lock k =? 0) then nth (Z.to_nat scancode) upper_case 0
      else nth (Z.to_nat scancode) lower_case 0)) Hl) as Hp.
  cbv beta in Hp. rewrite Hp. cbn [bind_result fst snd mret M_ret]. eexists. split; [done|].
  rewrite Hk. cbn [shift caps_lock]. rewrite !b2z_zero, !negb_involutive.
  split_and!; [done|done|]. cbn [waiting keyboard_has_char keyboard_buffer].
  split_and!; [done| |apply u8_range..].
  unfold key_char. by destruct (held m), (caps m).
Qed.

Lemma keyboard_step_ok m s e : represents m s → is_byte_event e →
  ∃ s', keyboard_step e s = Ok ((mailbox_step m e).2, s') ∧ represents (mailbox_step m e).1 s'.
Proof. intros Hr He. destruct e; [by apply byte_ok|by apply take_ok]. Qed.

Lemma keyboard_run_ok es m s : Forall is_byte_event es → represents m s →
  ∃ s', keyboard_run es s = Ok ((mailbox_run es m).1, s') ∧ represents (mailbox_run es m).2 s'.
Proof.
  intros Hes. revert m s. induction Hes as [|e es He _ IH]; intros m s Hr.
  { by exists s. }
  destruct (keyboard_step_ok m s e Hr He) as (s1 & H1 & R1).
  destruct (IH _ _ R1) as (s2 & H2 & R2). exists s2.
  cbn [keyboard_run mailbox_run]. destruct (mailbox_step m e) as [m1 r]. cbn [fst snd] in *.
  destruct (mailbox_run es m1) as [rs m2]. cbn [fst snd] in *.
  unfold mbind, M_bind. rewrite H1. cbn [bind_result fst snd]. rewrite H2. done.
Qed.

Lemma initial_represents : represents (Mailbox false false None) keyboard_initial.
Proof. done. Qed.

(** ** The properties *)

(** [C27] The keyboard driver refines the mailbox: on every sequence of
    controller bytes and takes, from power-up on, the handler and the system
    call neither hang nor fault, every take gets the character the
    specification says (case decided by shift and caps lock, [-1] when nothing
    waits, nothing delivered twice), and the lock is free afterwards. *)
Theorem keyboard_refines_mailbox es :
  Forall is_byte_event es →
  ∃ s', keyboard_run es keyboard_initial
        = Ok ((mailbox_run es (Mailbox false false None)).1, s')
    ∧ represents (mailbox_run es (Mailbox false false None)).2 s'.
Proof. intros. by apply keyboard_run_ok. Qed.

(** Shift down, 'a', shift up, take, take: "A" once, then nothing. *)
Lemma keyboard_refines_mailbox_witness :
  ∃ s', keyboard_run [Byte 42; Byte 30; Byte 170; Take; Take] keyboard_initial
        = Ok ([None; None; None; Some 65; None], s')
    ∧ represents (Mailbox false false None) s'.
Proof.
  apply (keyboard_refines_mailbox [Byte 42; Byte 30; Byte 170; Take; Take]).
  repeat constructor; cbn; lia.
Defined.

(** Caps lock selects the whole upper table, digits included: Caps, then '1',
    gives '!'. *)
Lemma caps_lock_shifts_digits :
  ∃ s', keyboard_run [Byte 58; Byte 186; Byte 2; Take] keyboard_initial
        = Ok ([None; None; None; Some 33], s').
Proof. eexists. by vm_compute. Qed.

(** Right shift (54) is no modifier: it delivers a character of its own, the
    code of [RSHFT] cut to eight bits. *)
Lemma right_shift_is_a_character :
  ∃ s', keyboard_run [Byte 54; Take; Byte 30; Take] keyboard_initial
        = Ok ([None; Some 251; None; Some 97], s').
Proof. eexists. by vm_compute. Qed.
