(* ===== verification/Gdt.v ===== *)
(** * [src/kernel/gdt.c] and [gdt.h]

    The descriptor table the kernel builds, the segment registers and the task
    register it loads, and the task state segment.  The structures are laid out
    byte by byte as the compiler does, so that the theorems can say what the
    processor decodes from them. *)

From S2P Require Import Prelude.

(** ** Structures *)

Record gdt_descriptor := Descriptor {
  limit : Z; base_low16 : Z; base_mid8 : Z; access : Z; granularity : Z; base_high8 : Z }.

Record tss_descriptor := TssDescriptor {
  tss_length : Z; tss_base_low16 : Z; tss_base_mid8 : Z; flags1 : Z; flags2 : Z;
  tss_base_high8 : Z; base_upper32 : Z; reserved : Z }.

Record gdt := Gdt { descriptors : list gdt_descriptor; tss : tss_descriptor }.

Record gdtr := Gdtr { gdtr_limit : Z; gdtr_address : Z }.

(** Packed; the trailing comments give the offset of each field. *)
Record tss_t := Tss {
  resereved0 : Z;                                   (* 0, 4 bytes *)
  rsp0 : Z; rsp1 : Z; rsp2 : Z;                     (* 4, 12, 20 *)
  resereved1 : Z; resereved2 : Z;                   (* 28, 36 *)
  ist1 : Z; ist2 : Z; ist3 : Z; ist4 : Z; ist5 : Z; ist6 : Z; ist7 : Z;  (* 44 ... 92 *)
  resereved3 : Z;                                   (* 100 *)
  resereved4 : Z;                                   (* 108, 2 bytes *)
  iomap_offset : Z;                                 (* 110, 2 bytes *)
}.

(** The static variables, and the processor registers [gdt_load] and [tss_load]
    set: GDTR, the code segment, the five data segments, the task register. *)
Record tables := Tables {
  gdt_instance : gdt;
  gdtr_instance : gdtr;
  tss_instance : tss_t;
  loaded_gdtr : gdtr;
  cs : Z; ds : Z; es : Z; fs : Z; gs : Z; ss : Z;
  tr : Z;
}.

(** ** Operations *)

Section operations.
(** Where the linker puts the two static variables. *)
Context (gdt_addr tss_addr : Z).

Definition gdt_load (t : tables) : tables :=
  Tables (gdt_instance t) (gdtr_instance t) (tss_instance t) (gdtr_instance t)
    0x28 0x30 0x30 0x30 0x30 0x30 (tr t).

Definition tss_load (t : tables) : tables :=
  Tables (gdt_instance t) (gdtr_instance t) (tss_instance t) (loaded_gdtr t)
    (cs t) (ds t) (es t) (fs t) (gs t) (ss t) 0x48.

Definition set_tss (x : tss_t) (t : tables) : tables :=
  Tables (gdt_instance t) (gdtr_instance t) x (loaded_gdtr t)
    (cs t) (ds t) (es t) (fs t) (gs t) (ss t) (tr t).

Definition tss_set_rsp0 (rsp : Z) (t : tables) : tables :=
  let x := tss_instance t in
  set_tss (Tss (resereved0 x) rsp (rsp1 x) (rsp2 x) (resereved1 x) (resereved2 x)
    (ist1 x) (ist2 x) (ist3 x) (ist4 x) (ist5 x) (ist6 x) (ist7 x)
    (resereved3 x) (resereved4 x) (iomap_offset x)) t.

Definition tss_init (t : tables) : tables :=
  tss_load (set_tss (Tss 0 0 0 0 0 0 0 0 0 0 0 0 0 0 0 0) t).

Definition set_descriptor (i : nat) (d : gdt_descriptor) (g : gdt) : gdt :=
  Gdt (<[i := d]> (descriptors g)) (tss g).

Definition gdt_init (t : tables) : tables :=
  let g := gdt_instance t in
  let g := set_descriptor 0 (Descriptor 0 0 0 0 0 0) g in
  let g := set_descriptor 1 (Descriptor 0xffff 0 0 0x9a 0x00 0) g in
  let g := set_descriptor 2 (Descriptor 0xffff 0 0 0x92 0x00 0) g in
  let g := set_descriptor 3 (Descriptor 0xffff 0 0 0x9a 0xcf 0) g in
  let g := set_descriptor 4 (Descriptor 0xffff 0 0 0x92 0xcf 0) g in
  let g := set_descriptor 5 (Descriptor 0 0 0 0x9a 0x20 0) g in
  let g := set_descriptor 6 (Descriptor 0 0 0 0x92 0 0) g in
  let g := set_descriptor 7 (Descriptor 0 0 0 0xfa 0x20 0) g in
  let g := set_descriptor 8 (Descriptor 0 0 0 0xf2 0 0) g in
  let g := Gdt (descriptors g) (TssDescriptor 104
    (u16 (Z.land tss_addr 0xffff))
    (u8 (Z.land (Z.shiftr tss_addr 16) 0xff))
    0x89
    0
    (u8 (Z.land (Z.shiftr tss_addr 24) 0xff))
    (u32 (Z.land (Z.shiftr tss_addr 32) 0xffffffff))
    0) in
  (* sizeof(struct gdt) is 9 * 8 + 16 *)
  let t := Tables g (Gdtr (u16 (9 * 8 + 16 - 1)) gdt_addr) (tss_instance t) (loaded_gdtr t)
    (cs t) (ds t) (es t) (fs t) (gs t) (ss t) (tr t) in
  tss_init (gdt_load t).

End operations.

(** ** Layout in memory *)

(** The [n] bytes of [v], least significant first, and back. *)
Fixpoint le (n : nat) (v : Z) : list Z :=
  match n with O => [] | S n' => v mod 256 :: le n' (v / 256) end.
Fixpoint un_le (bs : list Z) : Z :=
  match bs with [] => 0 | b :: bs' => b + 256 * un_le bs' end.

Definition descriptor_bytes (d : gdt_descriptor) : list Z :=
  le 2 (limit d) ++ le 2 (base_low16 d) ++ le 1 (base_mid8 d) ++ le 1 (access d) ++
  le 1 (granularity d) ++ le 1 (base_high8 d).

Definition tss_descriptor_bytes (d : tss_descriptor) : list Z :=
  le 2 (tss_length d) ++ le 2 (tss_base_low16 d) ++ le 1 (tss_base_mid8 d) ++ le 1 (flags1 d) ++
  le 1 (flags2 d) ++ le 1 (tss_base_high8 d) ++ le 4 (base_upper32 d) ++ le 4 (reserved d).

Definition gdt_bytes (g : gdt) : list Z :=
  concat (map descriptor_bytes (descriptors g)) ++ tss_descriptor_bytes (tss g).

Definition tss_bytes (t : tss_t) : list Z :=
  le 4 (resereved0 t) ++ le 8 (rsp0 t) ++ le 8 (rsp1 t) ++ le 8 (rsp2 t) ++
  le 8 (resereved1 t) ++ le 8 (resereved2 t) ++
  le 8 (ist1 t) ++ le 8 (ist2 t) ++ le 8 (ist3 t) ++ le 8 (ist4 t) ++ le 8 (ist5 t) ++
  le 8 (ist6 t) ++ le 8 (ist7 t) ++ le 8 (resereved3 t) ++ le 2 (resereved4 t) ++
  le 2 (iomap_offset t).

(** ** What the processor reads *)

(** The eight bytes a selector designates: its index times eight. *)
Definition slot (bytes : list Z) (selector : Z) (n : nat) : list Z :=
  take n (drop (Z.to_nat (selector / 8 * 8)) bytes).

Record segment := Segment {
  seg_base : Z; seg_limit : Z;
  present : bool; dpl : Z; system : bool; kind : Z;   (* [kind]: the four type bits *)
  long : bool; default_size : bool; granular : bool }.

(** A segment descriptor, after the layout of the processor manual. *)
Definition decode (b : list Z) : segment :=
  let byte i := nth i b 0 in
  Segment
    (byte 2%nat + 2 ^ 8 * byte 3%nat + 2 ^ 16 * byte 4%nat + 2 ^ 24 * byte 7%nat)
    (byte 0%nat + 2 ^ 8 * byte 1%nat + 2 ^ 16 * (byte 6%nat mod 16))
    (Z.testbit (byte 5%nat) 7) (byte 5%nat / 32 mod 4) (negb (Z.testbit (byte 5%nat) 4))
    (byte 5%nat mod 16)
    (Z.testbit (byte 6%nat) 5) (Z.testbit (byte 6%nat) 6) (Z.testbit (byte 6%nat) 7).

(** A 64-bit system descriptor has the upper half of its base in bytes 8 to 11. *)
Definition system_base (b : list Z) : Z := seg_base (decode b) + 2 ^ 32 * un_le (take 4 (drop 8 b)).

(** ** Lemmas *)

Lemma u16_u8_parts a : 0 ≤ a < 2 ^ 64 →
  u16 (Z.land a 0xffff) = a mod 2 ^ 16 ∧
  u8 (Z.land (Z.shiftr a 16) 0xff) = a / 2 ^ 16 mod 2 ^ 8 ∧
  u8 (Z.land (Z.shiftr a 24) 0xff) = a / 2 ^ 24 mod 2 ^ 8 ∧
  u32 (Z.land (Z.shiftr a 32) 0xffffffff) = a / 2 ^ 32.
Proof.
  intros Ha. rewrite !Z.shiftr_div_pow2 by lia.
  rewrite (Z.land_ones a 16 ltac:(lia) : Z.land a 0xffff = _).
  rewrite (Z.land_ones (a / 2 ^ 16) 8 ltac:(lia) : Z.land (a / 2 ^ 16) 0xff = _).
  rewrite (Z.land_ones (a / 2 ^ 24) 8 ltac:(lia) : Z.land (a / 2 ^ 24) 0xff = _).
  rewrite (Z.land_ones (a / 2 ^ 32) 32 ltac:(lia) : Z.land (a / 2 ^ 32) 0xffffffff = _).
  unfold u8, u16, u32. rewrite !wrap_small by (apply Z.mod_pos_bound; lia).
  split_and!; try done. apply Z.mod_small. split; [apply Z.div_pos; lia|].
  apply Z.div_lt_upper_bound; lia.
Qed.

Lemma un_le_le n v : 0 ≤ v < 2 ^ (8 * Z.of_nat n) → un_le (le n v) = v.
Proof.
  revert v. induction n as [|n IH]; intros v Hv; [cbn in *; lia|]. cbn [le un_le].
  rewrite IH; [pose proof (Z.div_mod v 256); lia|].
  replace (8 * Z.of_nat (S n)) with (8 + 8 * Z.of_nat n) in Hv by lia.
  rewrite Z.pow_add_r in Hv by lia. split; [apply Z.div_pos; lia|].
  apply Z.div_lt_upper_bound; lia.
Qed.

Lemma length_le n v : List.length (le n v) = n.
Proof. revert v. induction n as [|n IH]; intros v; [done|]. cbn. by rewrite IH. Qed.

(** The table [gdt_init] leaves has nine descriptors, whatever was there. *)
Definition gdt_table (tss_addr : Z) : gdt :=
  Gdt [Descriptor 0 0 0 0 0 0;
       Descriptor 0xffff 0 0 154 0 0; Descriptor 0xffff 0 0 146 0 0;
       Descriptor 0xffff 0 0 154 207 0; Descriptor 0xffff 0 0 146 207 0;
       Descriptor 0 0 0 154 32 0; Descriptor 0 0 0 146 0 0;
       Descriptor 0 0 0 250 32 0; Descriptor 0 0 0 242 0 0]
      (TssDescriptor 104 (tss_addr mod 2 ^ 16) (tss_addr / 2 ^ 16 mod 2 ^ 8) 137 0
         (tss_addr / 2 ^ 24 mod 2 ^ 8) (tss_addr / 2 ^ 32) 0).

Lemma gdt_init_table gdt_addr tss_addr t :
  0 ≤ tss_addr < 2 ^ 64 → List.length (descriptors (gdt_instance t)) = 9%nat →
  gdt_instance (gdt_init gdt_addr tss_addr t) = gdt_table tss_addr.
Proof.
  intros Ha Hl. unfold gdt_init, tss_init, gdt_load, tss_load, set_tss, set_descriptor.
  cbn [gdt_instance descriptors]. unfold gdt_table.
  destruct (u16_u8_parts tss_addr Ha) as (-> & -> & -> & ->).
  destruct (descriptors (gdt_instance t)) as [|d0 [|d1 [|d2 [|d3 [|d4 [|d5 [|d6 [|d7 [|d8 [|]]]]]]]]]];
    cbn in Hl; done || lia.
Qed.

Lemma byte_parts a : 0 ≤ a < 2 ^ 64 →
  a mod 2 ^ 16 mod 256 + 2 ^ 8 * (a mod 2 ^ 16 / 256 mod 256) + 2 ^ 16 * (a / 2 ^ 16 mod 2 ^ 8 mod 256)
  + 2 ^ 24 * (a / 2 ^ 24 mod 2 ^ 8 mod 256) + 2 ^ 32 * (a / 2 ^ 32) = a.
Proof. intros. zify_div. Qed.

(** A field of the task state segment, found at its byte offset. *)
Lemma le_slice pre n v post : 0 ≤ v < 2 ^ (8 * Z.of_nat n) →
  un_le (take n (drop (List.length pre) (pre ++ le n v ++ post))) = v.
Proof.
  intros Hv. rewrite drop_app_length.
  rewrite take_app_le by (rewrite length_le; lia).
  rewrite take_ge by (rewrite length_le; lia). by apply un_le_le.
Qed.

(** The selectors of [sys.h] *)
Definition KERNEL_CS : Z := Z.lor 0x28 0.
Definition KERNEL_SS : Z := Z.lor 0x30 0.
Definition USER_CS : Z := Z.lor 0x38 3.
Definition USER_SS : Z := Z.lor 0x40 3.

(** Code (10: execute and read) and data (2: read and write) segments of the
    64-bit mode at a privilege level: flat, present, [long] for code. *)
Definition code_segment (level : Z) : segment := Segment 0 0 true level false 10 true false false.
Definition data_segment (level : Z) : segment := Segment 0 0 true level false 2 false false false.

Definition demo_tables : tables :=
  Tables (Gdt (replicate 9 (Descriptor 0 0 0 0 0 0)) (TssDescriptor 0 0 0 0 0 0 0 0)) (Gdtr 0 0)
    (Tss 0 0 0 0 0 0 0 0 0 0 0 0 0 0 0 0) (Gdtr 0 0) 0 0 0 0 0 0 0.

(** ** The properties *)

(** [C28] The descriptor table is right: after [gdt_init] the processor's GDTR
    covers exactly the table; what it decodes at the loaded code segment, at the
    loaded data segments and at the user selectors of [sys.h] are present, flat
    64-bit segments of privilege 0 and 3, the requested level of each selector
    being that of its segment; and the task register designates an available
    64-bit task state segment whose base is the address of [tss_instance], for
    every address the linker may choose. *)
Theorem gdt_init_correct gdt_addr tss_addr t :
  0 ≤ tss_addr < 2 ^ 64 → List.length (descriptors (gdt_instance t)) = 9%nat →
  let t' := gdt_init gdt_addr tss_addr t in
  let b := gdt_bytes (gdt_instance t') in
  loaded_gdtr t' = Gdtr (Z.of_nat (List.length b) - 1) gdt_addr ∧
  cs t' = KERNEL_CS ∧ decode (slot b KERNEL_CS 8) = code_segment (KERNEL_CS mod 4) ∧
  Forall (λ r, r = KERNEL_SS) [ds t'; es t'; fs t'; gs t'; ss t'] ∧
  decode (slot b KERNEL_SS 8) = data_segment (KERNEL_SS mod 4) ∧
  decode (slot b USER_CS 8) = code_segment 3 ∧ USER_CS mod 4 = 3 ∧
  decode (slot b USER_SS 8) = data_segment 3 ∧ USER_SS mod 4 = 3 ∧
  (let d := slot b (tr t') 16 in
   system_base d = tss_addr ∧ seg_limit (decode d) = 104 ∧
   present (decode d) = true ∧ dpl (decode d) = 0 ∧ system (decode d) = true ∧ kind (decode d) = 9).
Proof.
  intros Ha Hl t' b. assert (gdt_instance t' = gdt_table tss_addr) as Ht by by apply gdt_init_table.
  subst b. rewrite Ht. split; [done|]. split; [done|]. split; [done|].
  split; [by repeat constructor|]. do 5 (split; [done|]).
  cbv zeta. split_and!; try done.
  unfold system_base, slot. change (tr t') with 0x48.
  cbn -[Z.div Z.modulo Z.pow Z.mul Z.add]. cbn [Z.mul].
  transitivity (tss_addr mod 2 ^ 16 mod 256 + 2 ^ 8 * (tss_addr mod 2 ^ 16 / 256 mod 256)
    + 2 ^ 16 * (tss_addr / 2 ^ 16 mod 2 ^ 8 mod 256)
    + 2 ^ 24 * (tss_addr / 2 ^ 24 mod 2 ^ 8 mod 256) + 2 ^ 32 * (tss_addr / 2 ^ 32));
    [|by apply byte_parts].
  f_equal. f_equal. apply (un_le_le 4). split; [apply Z.div_pos; lia|].
  apply Z.div_lt_upper_bound; cbn; lia.
Qed.

Lemma gdt_init_correct_witness :
  let t' := gdt_init 0xffffffff80010000 0xffffffff80020040 demo_tables in
  system_base (slot (gdt_bytes (gdt_instance t')) (tr t') 16) = 0xffffffff80020040.
Proof. apply (gdt_init_correct 0xffffffff80010000 0xffffffff80020040 demo_tables); done. Defined.

(** [tss_set_rsp0] reaches the processor: the eight bytes at offset 4 of
    the task state segment, from which the stack pointer is loaded when an
    interrupt leaves ring 3, hold the value that was set; the task register and
    the descriptor table are untouched. *)
Theorem tss_set_rsp0_correct rsp t :
  0 ≤ rsp < 2 ^ 64 →
  let t' := tss_set_rsp0 rsp t in
  un_le (take 8 (drop 4 (tss_bytes (tss_instance t')))) = rsp ∧
  gdt_instance t' = gdt_instance t ∧ tr t' = tr t ∧ loaded_gdtr t' = loaded_gdtr t.
Proof.
  intros Hr t'. split_and!; try done.
  apply (le_slice (le 4 (resereved0 (tss_instance t))) 8 rsp); done.
Qed.

Lemma tss_set_rsp0_correct_witness :
  un_le (take 8 (drop 4 (tss_bytes (tss_instance (tss_set_rsp0 0xffff800000104000 demo_tables)))))
  = 0xffff800000104000.
Proof. apply (tss_set_rsp0_correct 0xffff800000104000 demo_tables); done. Defined.

(** The rest of the structure does not match the processor's: there the first
    interrupt stack pointer is at offset 36, where [tss_t] has [resereved2]. *)
Lemma tss_ist1_misplaced t : 0 ≤ resereved2 t < 2 ^ 64 →
  un_le (take 8 (drop 36 (tss_bytes t))) = resereved2 t.
Proof.
  intros Hr.
  apply (le_slice (le 4 (resereved0 t) ++ le 8 (rsp0 t) ++ le 8 (rsp1 t) ++ le 8 (rsp2 t) ++
    le 8 (resereved1 t)) 8 (resereved2 t)); done.
Qed.
