(* ===== verification/Interrupts.v ===== *)
(** * [src/kernel/interrupts/idt.c], [cpu/pic.c], [interrupts/timer.c] (set-up)
      and the serial port of [cpu/cpu.c]

    The interrupt descriptor table, the tables of handlers and the dispatch to
    them, and the programming of the two interrupt controllers, of the interval
    timer and of the serial port through [outb].  What the devices make of the
    bytes is stated with reference models of the 8259A and the 8254. *)

From S2P Require Import Prelude Gdt.

(** ** Structures *)

Record interrupt_descriptor := Gate {
  address_low : Z; selector : Z; ist : Z; flags : Z; address_mid : Z; address_high : Z;
  gate_reserved : Z }.

Record idtr := Idtr { idtr_limit : Z; idtr_address : Z }.

Definition exception_messages : list string :=
  ["Division By Zero"; "Debug"; "Non Maskable Interrupt"; "Breakpoint";
   "Into Detected Overflow"; "Out of Bounds"; "Invalid Opcode"; "No Coprocessor";
   "Double Fault"; "Coprocessor Segment Overrun"; "Bad TSS"; "Segment Not Present";
   "Stack Fault"; "General Protection Fault"; "Page Fault"; "Unknown Interrupt";
   "Coprocessor Fault"; "Alignment Check"; "Machine Check";
   "SIMD floating-point exception"; "Virtualization exception";
   "Reserved"; "Reserved"; "Reserved"; "Reserved"; "Reserved"; "Reserved"; "Reserved";
   "Reserved"; "Reserved"; "Reserved"; "Reserved"; "Timer"]%string.

(** ** State

    [W] is the rest of the kernel, on which the handlers act; [int_number w f]
    is the field of the frame at [f]. *)

Section interrupts.
Context {W : Type} (int_number : W → Z → Z).

Definition handler : Type := Z → M W Z.

Record istate := IState {
  idt : list interrupt_descriptor;       (* 256 *)
  irq_handlers : list (option handler);  (* 16, [None] is the null pointer *)
  isr_handlers : list (option handler);  (* 32 *)
  lidt : option idtr;                    (* what [lidt] loaded *)
  interrupts_on : bool;                  (* [sti] *)
  ports : list (Z * Z);                  (* the bytes written by [outb], in order *)
  world : W;
}.

Definition set_idt (x : list interrupt_descriptor) (s : istate) : istate :=
  IState x (irq_handlers s) (isr_handlers s) (lidt s) (interrupts_on s) (ports s) (world s).
Definition set_irq_handlers (x : list (option handler)) (s : istate) : istate :=
  IState (idt s) x (isr_handlers s) (lidt s) (interrupts_on s) (ports s) (world s).
Definition set_isr_handlers (x : list (option handler)) (s : istate) : istate :=
  IState (idt s) (irq_handlers s) x (lidt s) (interrupts_on s) (ports s) (world s).
Definition set_ports (x : list (Z * Z)) (s : istate) : istate :=
  IState (idt s) (irq_handlers s) (isr_handlers s) (lidt s) (interrupts_on s) x (world s).
Definition set_world (x : W) (s : istate) : istate :=
  IState (idt s) (irq_handlers s) (isr_handlers s) (lidt s) (interrupts_on s) (ports s) x.

Definition outb (portnum value : Z) : M istate unit :=
  modify (λ s, set_ports (ports s ++ [(portnum, u8 value)]) s).

(** ** The interrupt controllers *)

Definition PIC1_COMMAND : Z := 0x20.
Definition PIC1_DATA : Z := 0x21.
Definition PIC2_COMMAND : Z := 0xA0.
Definition PIC2_DATA : Z := 0xA1.
Definition PIC_EOI : Z := 0x20.
Definition ICW1 : Z := 0x11.
Definition ICW4 : Z := 0x01.

Definition pic_init : M istate unit :=
  outb PIC1_COMMAND ICW1;;
  outb PIC2_COMMAND ICW1;;
  outb PIC1_DATA 0x20;;
  outb PIC2_DATA 0x28;;
  outb PIC1_DATA 4;;
  outb PIC2_DATA 2;;
  outb PIC1_DATA ICW4;;
  outb PIC2_DATA ICW4;;
  outb PIC1_DATA 0x0;;
  outb PIC2_DATA 0x0.

Definition pic_eoi (offset : Z) : M istate unit :=
  (if offset >=? 40 then outb PIC2_COMMAND PIC_EOI else mret tt);;
  outb PIC1_COMMAND PIC_EOI.

(** ** Handlers *)

(** [table[i]], undefined outside the array *)
Definition nth_handler (t : list (option handler)) (i : Z) : M istate (option handler) :=
  if (0 <=? i) && (i <? Z.of_nat (List.length t))
  then mret (nth (Z.to_nat i) t None) else fault.

Definition store_handler (t : list (option handler)) (i : Z) (h : option handler) :
    M istate (list (option handler)) :=
  if (0 <=? i) && (i <? Z.of_nat (List.length t))
  then mret (<[Z.to_nat i := h]> t) else fault.

Definition isr_install_handler (offset : Z) (h : handler) : M istate unit :=
  t ← gets isr_handlers;
  t' ← store_handler t offset (Some h);
  modify (set_isr_handlers t').

Definition irq_install_handler (offset : Z) (h : handler) : M istate unit :=
  t ← gets irq_handlers;
  t' ← store_handler t offset (Some h);
  modify (set_irq_handlers t').

Definition irq_uninstall_handler (offset : Z) : M istate unit :=
  t ← gets irq_handlers;
  t' ← store_handler t offset None;
  modify (set_irq_handlers t').

Definition call (h : handler) (frame : Z) : M istate Z := zoom world set_world (h frame).

Definition frame_number (frame : Z) : M istate Z := gets (λ s, int_number (world s) frame).

(** The lookup is in [irq_handlers], as in the source. *)
Definition isr_handler (frame : Z) : M istate Z :=
  n ← frame_number frame;
  t ← gets irq_handlers;
  h ← nth_handler t n;
  match h with
  | Some f => call f frame;; mret tt
  | None => mret tt
  end;;
  n' ← frame_number frame;
  if n' <? 32 then panic (nth (Z.to_nat n') exception_messages EmptyString)
  else mret frame.

Definition irq_handler (frame : Z) : M istate Z :=
  n ← frame_number frame;
  t ← gets irq_handlers;
  h ← nth_handler t (n - 32);
  frame' ← match h with
           | Some f =>
               if n =? 32 then call f frame
               else call f frame;; mret frame
           | None => mret frame
           end;
  n' ← frame_number frame';
  pic_eoi (u8 n');;
  mret frame'.

(** ** The descriptor table *)

Section table.
(** The entry points of [interrupt_vector.asm] ([isr0] ... [isr31], with the
    [isr_err] ones among them, [irq0] ... [irq15], [isr128]), and the table. *)
Context (isr irq : Z → Z) (isr128 idt_addr : Z).

Definition set_interrupt_descriptor (vector handler_address level : Z) : M istate unit :=
  modify (λ s, set_idt (<[Z.to_nat vector := Gate
    (u16 (Z.land handler_address 0xffff))
    0x28
    0
    (u8 (Z.lor (Z.lor 14 (Z.shiftl (Z.land level 3) 5)) (Z.shiftl 1 7)))
    (u16 (Z.land (Z.shiftr handler_address 16) 0xffff))
    (u32 (Z.land (Z.shiftr handler_address 32) 0xffffffff))
    0]> (idt s)) s).

Definition idt_load : M istate unit :=
  modify (λ s, IState (idt s) (irq_handlers s) (isr_handlers s)
    (Some (Idtr (u16 (256 * 16 - 1)) idt_addr)) true (ports s) (world s)).

(** The calls of [idt_init], in order: vector, entry point, privilege level. *)
Definition idt_entries : list (Z * Z * Z) :=
  map (λ n, (n, isr n, 0)) (seqZ 0 32) ++
  [(32, irq 0, 3)] ++ map (λ n, (32 + n, irq n, 0)) (seqZ 1 15) ++
  [(128, isr128, 3)].

Definition idt_init : M istate unit :=
  for_each idt_entries (λ e, set_interrupt_descriptor e.1.1 e.1.2 e.2);;
  pic_init;;
  idt_load.

End table.

(** ** The interval timer *)

Definition CH0_DATA : Z := 0x40.
Definition MODE_CMD : Z := 0x43.

Definition timer_init (timer_handler : handler) : M istate unit :=
  irq_install_handler 0 timer_handler;;
  let freq := 100 in
  let divisor := 1193180 / freq in
  outb MODE_CMD 0x36;;
  outb CH0_DATA (Z.land (u8 divisor) 0xff);;
  outb CH0_DATA (Z.land (u8 (Z.shiftr divisor 8)) 0xff).

Definition keyboard_init (keyboard_handler : handler) : M istate unit :=
  irq_install_handler 1 keyboard_handler.

(** ** The serial port *)

Definition PORT : Z := 0x3f8.

(** [answer] is the byte read back in loopback mode. *)
Definition serial_init (answer : Z) : M istate Z :=
  outb (PORT + 1) 0x00;;
  outb (PORT + 3) 0x80;;
  outb (PORT + 0) 0x03;;
  outb (PORT + 1) 0x00;;
  outb (PORT + 3) 0x03;;
  outb (PORT + 2) 0xC7;;
  outb (PORT + 4) 0x0B;;
  outb (PORT + 4) 0x1E;;
  outb (PORT + 0) 0xAE;;
  if negb (answer =? 0xAE) then mret 1
  else outb (PORT + 4) 0x0F;; mret 0.

End interrupts.
Arguments istate : clear implicits.
Arguments handler : clear implicits.

(** ** Reference models of the devices *)

(** An 8259A: which initialisation word it waits for, the vector of its first
    line, the cascade word, the mask and the lines in service. *)
Inductive pic_phase := Running | WaitICW2 | WaitICW3 | WaitICW4.

Record pic := Pic {
  phase : pic_phase; vector_base : Z; cascade : Z; mode : Z; mask : Z; in_service : Z }.

Definition pic_command (v : Z) (p : pic) : pic :=
  if Z.testbit v 4 then Pic WaitICW2 0 0 0 0 0
  else if v =? 0x20 then
    (* non-specific end of interrupt: the highest priority line in service *)
    Pic (phase p) (vector_base p) (cascade p) (mode p) (mask p)
        (Z.land (in_service p) (in_service p - 1))
  else p.

Definition pic_data (v : Z) (p : pic) : pic :=
  match phase p with
  | WaitICW2 => Pic WaitICW3 (Z.land v 0xf8) (cascade p) (mode p) (mask p) (in_service p)
  | WaitICW3 => Pic WaitICW4 (vector_base p) v (mode p) (mask p) (in_service p)
  | WaitICW4 => Pic Running (vector_base p) (cascade p) v (mask p) (in_service p)
  | Running => Pic Running (vector_base p) (cascade p) (mode p) v (in_service p)
  end.

(** The pair, master first, after a sequence of port writes. *)
Definition pics_write (ps : pic * pic) (w : Z * Z) : pic * pic :=
  let '(port, v) := w in
  if port =? 0x20 then (pic_command v ps.1, ps.2)
  else if port =? 0x21 then (pic_data v ps.1, ps.2)
  else if port =? 0xA0 then (ps.1, pic_command v ps.2)
  else if port =? 0xA1 then (ps.1, pic_data v ps.2)
  else ps.
Definition pics_after (ws : list (Z * Z)) (ps : pic * pic) : pic * pic := fold_left pics_write ws ps.

(** The vector line [n] raises, if neither its controller nor the cascade masks
    it: the slave's lines arrive through line 2 of the master. *)
Definition irq_vector (ps : pic * pic) (n : Z) : option Z :=
  if n <? 8 then if Z.testbit (mask ps.1) n then None else Some (vector_base ps.1 + n)
  else if Z.testbit (mask ps.1) 2 || Z.testbit (mask ps.2) (n - 8)
          || negb (cascade ps.1 =? 4) || negb (cascade ps.2 =? 2) then None
       else Some (vector_base ps.2 + (n - 8)).

(** The lines in service once the processor has taken interrupt [n]. *)
Definition irq_taken (n : Z) (ps : pic * pic) : Prop :=
  phase ps.1 = Running ∧ phase ps.2 = Running ∧
  if n <? 8 then in_service ps.1 = 2 ^ n ∧ in_service ps.2 = 0
  else in_service ps.1 = 2 ^ 2 ∧ in_service ps.2 = 2 ^ (n - 8).

(** Channel 0 of the 8254: mode and reload value, written low byte first. *)
Record pit := Pit { pit_mode : Z; low_next : bool; reload : Z }.
Definition pit_write (p : pit) (w : Z * Z) : pit :=
  let '(port, v) := w in
  if port =? 0x43 then
    if Z.land v 0xf0 =? 0x30 then Pit (Z.land (Z.shiftr v 1) 7) true 0 else p
  else if port =? 0x40 then
    if low_next p then Pit (pit_mode p) false v
    else Pit (pit_mode p) true (reload p + 256 * v)
  else p.
Definition pit_after (ws : list (Z * Z)) (p : pit) : pit := fold_left pit_write ws p.

(** What the processor finds in a gate of the table. *)
Record gate := GateView {
  offset : Z; code_selector : Z; stack_index : Z; gate_kind : Z; gate_dpl : Z; gate_present : bool }.
Definition view_gate (g : interrupt_descriptor) : gate :=
  GateView (address_low g + 2 ^ 16 * address_mid g + 2 ^ 32 * address_high g)
    (selector g) (ist g mod 8) (flags g mod 32) (flags g / 32 mod 4) (Z.testbit (flags g) 7).
