(* ===== verification/InterruptsCorrect.v ===== *)
(** * Properties of the interrupt set-up and dispatch *)

From S2P Require Import Prelude Gdt Interrupts.

(** ** The descriptor table *)

Definition gate_of (e : Z * Z * Z) : interrupt_descriptor :=
  Gate (u16 (Z.land e.1.2 0xffff)) 0x28 0
    (u8 (Z.lor (Z.lor 14 (Z.shiftl (Z.land e.2 3) 5)) (Z.shiftl 1 7)))
    (u16 (Z.land (Z.shiftr e.1.2 16) 0xffff)) (u32 (Z.land (Z.shiftr e.1.2 32) 0xffffffff)) 0.

Definition write_gates (es : list (Z * Z * Z)) (t : list interrupt_descriptor) :
    list interrupt_descriptor :=
  fold_left (λ t e, <[Z.to_nat e.1.1 := gate_of e]> t) es t.

Lemma for_each_gates {W} es (s : istate W) :
  for_each es (λ e, set_interrupt_descriptor e.1.1 e.1.2 e.2) s
  = Ok (tt, set_idt (write_gates es (idt s)) s).
Proof.
  revert s. induction es as [|e es IH]; intros s; [by destruct s|].
  cbn [for_each]. unfold mbind, M_bind, set_interrupt_descriptor at 1, modify.
  cbn [bind_result fst snd]. rewrite IH. by destruct s.
Qed.

Lemma write_gates_length es t : List.length (write_gates es t) = List.length t.
Proof.
  revert t. induction es as [|e es IH]; intros t; [done|].
  cbn [write_gates fold_left]. unfold write_gates in IH. by rewrite IH, length_insert.
Qed.

Lemma write_gates_other es t v :
  v ∉ map (λ e, Z.to_nat e.1.1) es → write_gates es t !! v = t !! v.
Proof.
  revert t. induction es as [|e es IH]; intros t Hv; [done|].
  cbn [map] in Hv. apply not_elem_of_cons in Hv as [Hne Hv].
  unfold write_gates in *. cbn [fold_left]. rewrite IH by done. by apply list_lookup_insert_ne.
Qed.

Lemma write_gates_entry es t e :
  NoDup (map (λ e, Z.to_nat e.1.1) es) → e ∈ es → (Z.to_nat e.1.1 < List.length t)%nat →
  write_gates es t !! Z.to_nat e.1.1 = Some (gate_of e).
Proof.
  revert t. induction es as [|x es IH]; intros t Hnd He Hl; [by apply elem_of_nil in He|].
  cbn [map] in Hnd. apply list.NoDup_cons in Hnd as [Hx Hnd].
  unfold write_gates in *. cbn [fold_left]. apply elem_of_cons in He as [->|He].
  - pose proof (write_gates_other es (<[Z.to_nat x.1.1 := gate_of x]> t) _ Hx) as H.
    unfold write_gates in H. rewrite H. by apply list_lookup_insert_eq.
  - apply IH; [done|done|by rewrite length_insert].
Qed.

Lemma gate_address a : 0 ≤ a < 2 ^ 64 →
  u16 (Z.land a 0xffff) + 2 ^ 16 * u16 (Z.land (Z.shiftr a 16) 0xffff)
  + 2 ^ 32 * u32 (Z.land (Z.shiftr a 32) 0xffffffff) = a.
Proof.
  intros Ha. rewrite !Z.shiftr_div_pow2 by lia.
  rewrite (Z.land_ones a 16 ltac:(lia) : Z.land a 0xffff = _).
  rewrite (Z.land_ones (a / 2 ^ 16) 16 ltac:(lia) : Z.land (a / 2 ^ 16) 0xffff = _).
  rewrite (Z.land_ones (a / 2 ^ 32) 32 ltac:(lia) : Z.land (a / 2 ^ 32) 0xffffffff = _).
  unfold u16, u32. rewrite !wrap_small by (apply Z.mod_pos_bound; lia). zify_div.
Qed.

(** A 64-bit interrupt gate (type 14) into the kernel code segment. *)
Definition interrupt_gate (address level : Z) : gate := GateView address 0x28 0 14 level true.

Lemma view_gate_of v a level : 0 ≤ a < 2 ^ 64 → level = 0 ∨ level = 3 →
  view_gate (gate_of (v, a, level)) = interrupt_gate a level.
Proof.
  intros Ha Hl. unfold view_gate, gate_of, interrupt_gate. cbn [address_low address_mid address_high
    selector ist flags fst snd]. rewrite gate_address by done. by destruct Hl as [-> | ->].
Qed.

(** ** The set-up of the table *)

Section table.
Context (isr irq : Z → Z) (isr128 idt_addr : Z).

(** Where vector [v] must lead: entry point and privilege level. *)
Definition expected (v : Z) : option (Z * Z) :=
  if v <? 32 then Some (isr v, 0)
  else if v =? 32 then Some (irq 0, 3)
  else if v <? 48 then Some (irq (v - 32), 0)
  else if v =? 128 then Some (isr128, 3)
  else None.

Lemma idt_entries_keys :
  map (λ e, Z.to_nat e.1.1) (idt_entries isr irq isr128) = seq 0 48 ++ [128%nat].
Proof. done. Qed.

Lemma idt_entries_nodup : NoDup (map (λ e, Z.to_nat e.1.1) (idt_entries isr irq isr128)).
Proof.
  rewrite idt_entries_keys. apply list.NoDup_app. split_and!.
  - apply NoDup_seq.
  - intros x Hx Hy. apply elem_of_seq in Hx. apply list_elem_of_singleton in Hy. lia.
  - apply NoDup_singleton.
Qed.

Lemma expected_entry v a level : 0 ≤ v → expected v = Some (a, level) →
  (v, a, level) ∈ idt_entries isr irq isr128.
Proof.
  unfold expected, idt_entries. intros Hv H. rewrite !elem_of_app.
  destruct (v <? 32) eqn:E1; bool_to_prop.
  { left. simplify_eq. apply list_elem_of_fmap. exists v. split; [done|]. apply elem_of_seqZ. lia. }
  right. destruct (v =? 32) eqn:E2; bool_to_prop.
  { simplify_eq. left. by apply list_elem_of_singleton. }
  right. destruct (v <? 48) eqn:E3; bool_to_prop.
  { left. simplify_eq. apply list_elem_of_fmap. exists (v - 32).
    split; [by replace (32 + (v - 32)) with v by lia|]. apply elem_of_seqZ. lia. }
  right. destruct (v =? 128) eqn:E4; bool_to_prop; [|done].
  simplify_eq. by apply list_elem_of_singleton.
Qed.

Lemma expected_none v : 0 ≤ v → expected v = None →
  Z.to_nat v ∉ map (λ e, Z.to_nat e.1.1) (idt_entries isr irq isr128).
Proof.
  intros Hv H Hin. rewrite idt_entries_keys in Hin. unfold expected in H.
  repeat (case_match; bool_to_prop; try done).
  apply elem_of_app in Hin as [Hin|Hin].
  - apply elem_of_seq in Hin. lia.
  - apply list_elem_of_singleton in Hin. lia.
Qed.

Lemma idt_gates (t : list interrupt_descriptor) : List.length t = 256%nat →
  (∀ n, 0 ≤ isr n < 2 ^ 64) → (∀ n, 0 ≤ irq n < 2 ^ 64) → 0 ≤ isr128 < 2 ^ 64 →
  ∀ v, 0 ≤ v < 256 → match expected v with
    | Some (a, level) =>
        view_gate <$> write_gates (idt_entries isr irq isr128) t !! Z.to_nat v = Some (interrupt_gate a level)
    | None => write_gates (idt_entries isr irq isr128) t !! Z.to_nat v = t !! Z.to_nat v
    end.
Proof.
  intros Hl Hisr Hirq H128 v Hv. destruct (expected v) as [[a level]|] eqn:E.
  - rewrite (write_gates_entry _ _ (v, a, level)); [|apply idt_entries_nodup| |cbn; lia].
    2: { apply expected_entry; [lia|done]. }
    cbn [fmap option_fmap option_map]. f_equal. unfold expected in E.
    apply view_gate_of; repeat (case_match; simplify_eq); auto.
  - apply write_gates_other, expected_none; [lia|done].
Qed.

(** The bytes [pic_init] sends. *)
Definition pic_bytes : list (Z * Z) :=
  [(0x20, 0x11); (0xA0, 0x11); (0x21, 0x20); (0xA1, 0x28); (0x21, 4); (0xA1, 2);
   (0x21, 1); (0xA1, 1); (0x21, 0); (0xA1, 0)].

Lemma idt_init_run {W} (s : istate W) :
  idt_init isr irq isr128 idt_addr s
  = Ok (tt, IState (write_gates (idt_entries isr irq isr128) (idt s)) (irq_handlers s)
      (isr_handlers s) (Some (Idtr 4095 idt_addr)) true (ports s ++ pic_bytes) (world s)).
Proof.
  unfold idt_init, mbind at 1, M_bind at 1. rewrite for_each_gates.
  cbn [bind_result fst snd]. unfold pic_init, outb, mbind, M_bind, modify, idt_load.
  cbn -[idt_entries write_gates]. by rewrite <- !app_assoc.
Qed.

End table.

(** The state of the controllers after [pic_init], whatever it was before. *)
Lemma pics_initialised ps :
  pics_after pic_bytes ps = (Pic Running 0x20 4 1 0 0, Pic Running 0x28 2 1 0 0).
Proof. by destruct ps as [[[] ? ? ? ? ?] [[] ? ? ? ? ?]]. Qed.

Lemma irq_vector_initialised ps n : 0 ≤ n < 16 →
  irq_vector (pics_after pic_bytes ps) n = Some (32 + n).
Proof.
  intros Hn. rewrite pics_initialised. unfold irq_vector. cbn [mask vector_base cascade fst snd].
  rewrite !Z.bits_0. case_if; [done|]. cbn. f_equal. lia.
Qed.

(** ** Dispatch *)

Lemma nth_handler_ok {W} (t : list (option (handler W))) i h s :
  0 ≤ i → t !! Z.to_nat i = Some h → nth_handler t i s = Ok (h, s).
Proof.
  intros Hi Ht. unfold nth_handler.
  pose proof (lookup_lt_Some _ _ _ Ht). rewrite (proj2 (Z.leb_le _ _)), (proj2 (Z.ltb_lt _ _)) by lia.
  cbn. by rewrite (nth_lookup_Some _ _ _ _ Ht).
Qed.

Lemma nth_handler_out {W} (t : list (option (handler W))) i s :
  Z.of_nat (List.length t) ≤ i → nth_handler t i s = Fault.
Proof.
  intros Hi. unfold nth_handler. rewrite (proj2 (Z.ltb_ge _ _)) by lia. by rewrite andb_false_r.
Qed.

(** The bytes [pic_eoi n] sends. *)
Definition eoi_bytes (n : Z) : list (Z * Z) :=
  (if n >=? 40 then [(0xA0, 0x20)] else []) ++ [(0x20, 0x20)].

Lemma pic_eoi_run {W} n (s : istate W) : pic_eoi n s = Ok (tt, set_ports (ports s ++ eoi_bytes n) s).
Proof.
  unfold pic_eoi, eoi_bytes, outb, modify, mbind, M_bind.
  destruct (n >=? 40); cbn; by rewrite <- ?app_assoc.
Qed.

Lemma clear_only_bit k : 0 ≤ k → Z.land (2 ^ k) (2 ^ k - 1) = 0.
Proof.
  intros Hk. replace (2 ^ k - 1) with (Z.ones k) by (rewrite Z.ones_equiv; lia).
  rewrite Z.land_ones by done. apply Z.mod_same. lia.
Qed.

(** The end-of-interrupt bytes put the controllers at rest. *)
Lemma eoi_rests k n ps : 0 ≤ k < 16 → irq_taken k ps → (8 ≤ k → 40 ≤ n) →
  in_service (pics_after (eoi_bytes n) ps).1 = 0 ∧ in_service (pics_after (eoi_bytes n) ps).2 = 0.
Proof.
  intros Hk (_ & _ & Ht) Hn. destruct ps as [p1 p2]. unfold eoi_bytes. cbn [fst snd] in *.
  destruct (n >=? 40) eqn:En; rewrite Z.geb_leb in En; bool_to_prop;
    destruct (k <? 8) eqn:Ek; bool_to_prop; destruct Ht as [H1 H2]; cbn; rewrite ?H1, ?H2;
    try lia; split; try done; apply clear_only_bit; lia.
Qed.

Lemma irq_handler_run {W} (int_number : W → Z → Z) frame (s : istate W) k h frame2 w' :
  int_number (world s) frame = 32 + k → 0 ≤ k →
  irq_handlers s !! Z.to_nat k = Some h →
  match h with
  | Some f => f frame (world s) = Ok (frame2, w')
  | None => w' = world s
  end →
  let frame' := match h with Some _ => if k =? 0 then frame2 else frame | None => frame end in
  irq_handler int_number frame s
  = Ok (frame', set_ports (ports s ++ eoi_bytes (u8 (int_number w' frame'))) (set_world w' s)).
Proof.
  intros Hn Hk Hh Hf frame'. unfold irq_handler, mbind, M_bind, frame_number, gets.
  cbn [bind_result fst snd]. rewrite Hn. replace (32 + k - 32) with k by lia.
  rewrite (nth_handler_ok _ _ _ _ Hk Hh). cbn [bind_result fst snd].
  replace (32 + k =? 32) with (k =? 0) by (destruct (Z.eqb_spec k 0), (Z.eqb_spec (32 + k) 32); done || lia).
  destruct h as [f|].
  - subst frame'. destruct (k =? 0); unfold call, zoom; rewrite Hf;
      cbn [bind_result fst snd mret M_ret]; rewrite pic_eoi_run; by destruct s.
  - subst. cbn [bind_result fst snd mret M_ret]. rewrite pic_eoi_run. by destruct s.
Qed.


(** A world for the witnesses: a counter of handler calls, and frames that are
    their own interrupt number. *)
Definition demo_number (w : Z) (frame : Z) : Z := frame.
Definition demo_handler : handler Z := λ frame w, Ok (frame, w + 1).
Definition demo_state : istate Z :=
  IState (replicate 256 (Gate 0 0 0 0 0 0 0)) (<[0%nat := Some demo_handler]>
    (<[9%nat := Some demo_handler]> (replicate 16 None))) (replicate 32 None) None false [] 0.

(** ** The properties *)

(** [idt_init] sets interrupts up: it returns; each of the vectors 0-47
    and 128 is a present 64-bit interrupt gate into the kernel code segment at
    its own entry point, callable from ring 3 for 32 and 128 only; the other
    vectors are as before; the table register covers the 256 gates; and the two
    controllers, whatever state they were in, deliver line [n] as vector
    [32 + n], unmasked. *)
Theorem idt_init_correct {W} isr irq isr128 idt_addr (s : istate W) :
  List.length (idt s) = 256%nat →
  (∀ n, 0 ≤ isr n < 2 ^ 64) → (∀ n, 0 ≤ irq n < 2 ^ 64) → 0 ≤ isr128 < 2 ^ 64 →
  ∃ s' ws, idt_init isr irq isr128 idt_addr s = Ok (tt, s') ∧
    (∀ v, 0 ≤ v < 256 → match expected isr irq isr128 v with
       | Some (a, level) => view_gate <$> idt s' !! Z.to_nat v = Some (interrupt_gate a level)
       | None => idt s' !! Z.to_nat v = idt s !! Z.to_nat v
       end) ∧
    lidt s' = Some (Idtr (256 * 16 - 1) idt_addr) ∧ interrupts_on s' = true ∧
    irq_handlers s' = irq_handlers s ∧
    ports s' = ports s ++ ws ∧
    ∀ ps n, 0 ≤ n < 16 → irq_vector (pics_after ws ps) n = Some (32 + n).
Proof.
  intros Hl Hisr Hirq H128. rewrite idt_init_run. eexists _, pic_bytes. split; [done|].
  cbn [idt lidt interrupts_on irq_handlers ports].
  split; [|split_and!; try done; apply irq_vector_initialised]. by apply idt_gates.
Qed.

Lemma idt_init_correct_witness :
  ∃ s' ws, idt_init (λ n, 0x1000 + n mod 256) (λ n, 0x2000 + n mod 256) 0x3000 0x4000 demo_state
      = Ok (tt, s') ∧
    ports s' = ports demo_state ++ ws ∧
    (∀ ps n, 0 ≤ n < 16 → irq_vector (pics_after ws ps) n = Some (32 + n)).
Proof.
  destruct (idt_init_correct (λ n, 0x1000 + n mod 256) (λ n, 0x2000 + n mod 256) 0x3000 0x4000 demo_state)
    as (s' & ws & H & _ & _ & _ & _ & Hp & Hv);
    [done|intros n; pose proof (Z.mod_pos_bound n 256); lia..|lia|].
  by exists s', ws.
Defined.

(** Dispatch of a hardware interrupt: on line [k] the installed handler
    runs exactly once, its frame is returned for the timer and the interrupted
    one for the others, and the bytes sent afterwards end the interrupt on every
    controller that has it in service (the slave too for lines 8-15), so that no
    line stays blocked. *)
Theorem irq_handler_correct {W} (int_number : W → Z → Z) frame (s : istate W) k h frame2 w' :
  0 ≤ k < 16 → int_number (world s) frame = 32 + k →
  irq_handlers s !! Z.to_nat k = Some h →
  match h with
  | Some f => f frame (world s) = Ok (frame2, w')
  | None => w' = world s
  end →
  (8 ≤ k → int_number w' frame = int_number (world s) frame) →
  let frame' := match h with Some _ => if k =? 0 then frame2 else frame | None => frame end in
  ∃ ws, irq_handler int_number frame s
        = Ok (frame', set_ports (ports s ++ ws) (set_world w' s)) ∧
    ∀ ps, irq_taken k ps →
      in_service (pics_after ws ps).1 = 0 ∧ in_service (pics_after ws ps).2 = 0.
Proof.
  intros Hk Hn Hh Hf Hsame frame'. exists (eoi_bytes (u8 (int_number w' frame'))).
  split; [apply irq_handler_run with (k := k) (h := h); done || lia|].
  intros ps Hps. apply (eoi_rests k); [done|done|]. intros H8. subst frame'.
  assert ((match h with Some _ => if k =? 0 then frame2 else frame | None => frame end) = frame) as ->.
  { destruct h; [|done]. by rewrite (proj2 (Z.eqb_neq _ _)) by lia. }
  rewrite Hsame, Hn, u8_small by done || lia. lia.
Qed.

Lemma irq_handler_correct_witness :
  ∃ ws, irq_handler demo_number 41 demo_state
        = Ok (41, set_ports (ports demo_state ++ ws) (set_world 1 demo_state)) ∧
    ∀ ps, irq_taken 9 ps →
      in_service (pics_after ws ps).1 = 0 ∧ in_service (pics_after ws ps).2 = 0.
Proof.
  apply (irq_handler_correct demo_number 41 demo_state 9 (Some demo_handler) 41 1);
    [lia|done|done|done|done].
Defined.

(** Dispatch of a processor exception [n]: the handler that runs is the
    one installed for hardware line [n] ([irq_handlers] is indexed, not
    [isr_handlers]), then the kernel panics with the exception's name; for the
    exceptions 16-31 the index is outside the table. *)
Theorem isr_handler_spec {W} (int_number : W → Z → Z) frame (s : istate W) n h frame2 w' :
  int_number (world s) frame = n → 0 ≤ n < 32 → List.length (irq_handlers s) = 16%nat →
  (n < 16 → irq_handlers s !! Z.to_nat n = Some h) →
  match h with
  | Some f => f frame (world s) = Ok (frame2, w') ∧ int_number w' frame = n
  | None => w' = world s
  end →
  isr_handler int_number frame s
  = if n <? 16 then Panic (nth (Z.to_nat n) exception_messages EmptyString) else Fault.
Proof.
  intros Hn Hr Hl Hh Hf. unfold isr_handler, mbind, M_bind, frame_number, gets.
  cbn [bind_result fst snd]. rewrite Hn. case_if.
  - rewrite (nth_handler_ok _ _ h) by (lia || by apply Hh). cbn [bind_result fst snd].
    destruct h as [f|].
    + destruct Hf as [Hf Hn']. unfold call, zoom. rewrite Hf. cbn [bind_result fst snd mret M_ret].
      cbn [world set_world]. rewrite Hn', (proj2 (Z.ltb_lt _ _)) by lia. done.
    + cbn [bind_result fst snd mret M_ret]. rewrite Hn, (proj2 (Z.ltb_lt _ _)) by lia. done.
  - rewrite nth_handler_out by lia. done.
Qed.

(** A divide error while the timer is installed runs the timer's handler, then
    panics; a machine check (18) reads outside the table. *)
Lemma isr_handler_spec_witness :
  isr_handler demo_number 0 demo_state = Panic "Division By Zero" ∧
  isr_handler demo_number 18 demo_state = Fault.
Proof.
  split.
  - apply (isr_handler_spec demo_number 0 demo_state 0 (Some demo_handler) 0 1); done || lia.
  - apply (isr_handler_spec demo_number 18 demo_state 18 None 0 0); done || lia.
Defined.

(** [timer_init] installs the timer on line 0 and leaves channel 0 of the
    interval timer in mode 3 with the reload value 1193180 / 100, low byte
    first, whatever was programmed before. *)
Theorem timer_init_correct {W} (h : handler W) (s : istate W) p :
  List.length (irq_handlers s) = 16%nat →
  ∃ s' ws, timer_init h s = Ok (tt, s') ∧ irq_handlers s' = <[0%nat := Some h]> (irq_handlers s) ∧
    ports s' = ports s ++ ws ∧ pit_after ws p = Pit 3 true (1193180 / 100).
Proof.
  intros Hl. unfold timer_init, irq_install_handler, store_handler, mbind, M_bind, gets.
  cbn [bind_result fst snd]. rewrite Hl. cbn -[Z.div].
  eexists _, [(0x43, 0x36); (0x40, 0x9b); (0x40, 0x2e)].
  split; [done|]. split; [done|]. split; [cbn [ports set_ports]; by rewrite <- !app_assoc|done].
Qed.

Lemma timer_init_correct_witness :
  ∃ s' ws, timer_init demo_handler demo_state = Ok (tt, s') ∧
    irq_handlers s' = <[0%nat := Some demo_handler]> (irq_handlers demo_state) ∧
    ports s' = ports demo_state ++ ws ∧ pit_after ws (Pit 0 true 0) = Pit 3 true (1193180 / 100).
Proof. apply (timer_init_correct demo_handler demo_state (Pit 0 true 0)). done. Defined.
