(* ===== verification/Fs.v ===== *)
(** * The interface between the file system switch and a file system

    [vfs.c] calls a file system through the function pointers of
    [fs_operations_t].  [FsOps] names the operations [ustar.c] provides, [FsView]
    the abstract state (which contents a path has, which contents are open under
    which id, which memory belongs to the file system), [FsLaws] what a file
    system promises.  [Vfs] is proved against this interface; [UstarCorrect]
    discharges it with the tar archive. *)

From S2P Require Import Prelude Machine Util.

Class FsOps (F : Type) := {
  fs_open : Z → Z → M F Z;                   (* path, flags *)
  fs_close : Z → M F Z;
  fs_read : Z → Z → Z → Z → M F Z;           (* id, buffer, nbytes, offset *)
  fs_get_file_size : Z → M F Z;
  fs_read_dir : Z → Z → Z → Z → M F Z;       (* path, buffer, nbytes, offset *)
  fs_set_start_address : Z → M F unit;
  fs_kalloc : Z → M F Z;                     (* the kernel heap *)
  fs_bytes : F → gmap Z Z;                   (* the memory of paths and buffers *)
  fs_set_bytes : gmap Z Z → F → F;
}.

Class FsView (F : Type) := {
  fs_volume : Type;                          (* what is stored *)
  fs_loaded : fs_volume → Z → F → Prop;      (* in memory at an address, not in use yet *)
  fs_inv : fs_volume → F → Prop;
  fs_find : fs_volume → list Z → option (list Z);
  fs_opened : F → Z → option (list Z);
  fs_capacity : Z;                           (* ids lie below it *)
  fs_private : fs_volume → Z → Prop;         (* memory nobody else may write *)
  fs_scratch : fs_volume → Z → Prop;         (* memory an [open] may overwrite *)
}.

Class FsLaws (F : Type) `{FO : !FsOps F, FV : !FsView F} := {
  fs_start_ok : ∀ g a s, fs_loaded g a s →
    runs (fs_set_start_address a) s (λ _ s',
      fs_inv g s' ∧ fs_bytes s' = fs_bytes s ∧ ∀ j, fs_opened s' j = None);
  fs_kalloc_ok : ∀ g s n, fs_inv g s → 0 ≤ n ≤ 2 ^ 32 →
    safe (fs_kalloc n) s (λ p s',
      0 < p ∧ fs_inv g s' ∧ fs_bytes s' = fs_bytes s ∧ ∀ j, fs_opened s' j = fs_opened s j);
  (** Opening a file gives a fresh id with the file's contents, or -1 when the
      path names no file or no id is free; no other id is touched. *)
  fs_open_ok : ∀ g s q path flags,
    fs_inv g s → cstr_at (fs_bytes s) q path → path ≠ [] → Z.of_nat (length path) < 2 ^ 32 →
    (∀ x, q ≤ x ≤ q + Z.of_nat (length path) → ¬ fs_scratch g x) →
    safe (fs_open q flags) s (λ id s',
      fs_inv g s' ∧ same_outside (fs_scratch g) (fs_bytes s) (fs_bytes s') ∧
      (∀ j, j ≠ id → fs_opened s' j = fs_opened s j) ∧
      (id = -1 ∨ 0 ≤ id < 2 ^ 31 ∧ fs_opened s id = None ∧
        ∃ C, fs_find g path = Some C ∧ fs_opened s' id = Some C) ∧
      (fs_find g path = None → id = -1) ∧
      (id = -1 → fs_find g path = None ∨
        ∀ j, 0 ≤ j < fs_capacity → is_Some (fs_opened s j)));
  (** Reading copies the part of the contents that is there. *)
  fs_read_ok : ∀ g s id C buf n off,
    fs_inv g s → fs_opened s id = Some C → 0 ≤ n < 2 ^ 63 → 0 ≤ off < 2 ^ 63 →
    (∀ x, in_range buf n x → ¬ fs_private g x) →
    runs (fs_read id buf n off) s (λ r s',
      let chunk := take (Z.to_nat n) (drop (Z.to_nat off) C) in
      fs_inv g s' ∧ r = Z.of_nat (length chunk) ∧ bytes_at (fs_bytes s') buf chunk ∧
      same_outside (in_range buf r) (fs_bytes s) (fs_bytes s') ∧
      (∀ j, fs_opened s' j = fs_opened s j));
  fs_close_ok : ∀ g s id C,
    fs_inv g s → fs_opened s id = Some C →
    runs (fs_close id) s (λ r s',
      fs_inv g s' ∧ r = 0 ∧ fs_bytes s' = fs_bytes s ∧ fs_opened s' id = None ∧
      (∀ j, j ≠ id → fs_opened s' j = fs_opened s j));
  fs_size_ok : ∀ g s id C,
    fs_inv g s → fs_opened s id = Some C →
    fs_get_file_size id s = Ok (Z.of_nat (length C), s);
  (** Clients may write memory that is not the file system's. *)
  fs_write_ok : ∀ g s m P,
    fs_inv g s → same_outside P (fs_bytes s) m → (∀ x, P x → ¬ fs_private g x) →
    fs_inv g (fs_set_bytes m s) ∧ fs_bytes (fs_set_bytes m s) = m ∧
    (∀ j, fs_opened (fs_set_bytes m s) j = fs_opened s j);
  fs_opened_range : ∀ g s id C, fs_inv g s → fs_opened s id = Some C →
    0 ≤ id < 2 ^ 31 ∧ Z.of_nat (length C) < 2 ^ 62;
}.

(** *** Listing directories *)

Class FsDirView (F : Type) `{FV : !FsView F} := {
  fs_list : fs_volume → list Z → option (list Z);   (* the text for a directory *)
  fs_in_use : F → Z → Prop;                  (* memory the heap does not hand out *)
  fs_constant : Z → Prop;                    (* literals of the file system *)
  fs_listable : fs_volume → F → Prop;        (* what a listing relies on *)
}.

Class FsDirLaws (F : Type) `{FO : !FsOps F, FV : !FsView F, FD : !FsDirView F} := {
  (** The text is put in the buffer, whatever size the caller gives. *)
  fs_read_dir_ok : ∀ g s q dir buf n off out,
    fs_inv g s → fs_listable g s → cstr_at (fs_bytes s) q dir → Z.of_nat (length dir) < 2 ^ 32 →
    (∀ x, q ≤ x ≤ q + Z.of_nat (length dir) → fs_in_use s x ∧ ¬ fs_scratch g x) →
    (∀ x, in_range buf (Z.of_nat (length out)) x → fs_in_use s x ∧ ¬ fs_private g x) →
    fs_list g dir = Some out →
    safe (fs_read_dir q buf n off) s (λ k s',
      fs_inv g s' ∧ k = Z.of_nat (length out) ∧ bytes_at (fs_bytes s') buf out ∧
      (∀ j, fs_opened s' j = fs_opened s j) ∧
      ∀ x, fs_in_use s x → ¬ fs_scratch g x → ¬ in_range buf k x →
        byte (fs_bytes s') x = byte (fs_bytes s) x);
  (** Clients may write memory without the literals in it. *)
  fs_listable_write : ∀ g s m, fs_listable g s →
    (∀ x, fs_constant x → byte m x = byte (fs_bytes s) x) →
    fs_listable g (fs_set_bytes m s) ∧ ∀ x, fs_in_use s x → fs_in_use (fs_set_bytes m s) x;
}.
