(* ===== verification/Ustar.v ===== *)
(** * [src/kernel/fs/ustar.c] and [ustar.h]

    The tar archive the boot loader leaves in memory, read as a file system:
    walking the records, finding a file, the table of open files, reading and
    closing.

    [bytes] is the memory the archive, the path strings and the callers' buffers
    lie in; a descriptor that [kalloc] returned is an object of its own, keyed by
    its address.  [tar_filename] is the address of the 256-byte local array of
    the functions that build a record's name in one. *)

From S2P Require Import Prelude Machine Util Heap.

Definition MAX_USTAR_OPEN_FILES : Z := 512.

(** The fields of [tar_header_t] the code uses, at their offsets. *)
Definition filename (record : Z) : Z := record.
Definition file_size (record : Z) : Z := record + 124.
Definition filename_prefix (record : Z) : Z := record + 345.

Record ustar_file_descriptor := FileDescriptor { header : Z; references : Z; size : Z }.
Definition sizeof_ustar_file_descriptor : Z := 24.

Record ustate := UState {
  heap : kstate;
  bytes : gmap Z Z;
  tar_fs_start_address : Z;
  descriptors : gmap Z ustar_file_descriptor;
  open_files : list Z;                 (* pointers, 512 of them; 0 is NULL *)
}.

Definition set_heap (x : kstate) (s : ustate) : ustate :=
  UState x (bytes s) (tar_fs_start_address s) (descriptors s) (open_files s).
Definition set_bytes (x : gmap Z Z) (s : ustate) : ustate :=
  UState (heap s) x (tar_fs_start_address s) (descriptors s) (open_files s).
Definition set_descriptors (x : gmap Z ustar_file_descriptor) (s : ustate) : ustate :=
  UState (heap s) (bytes s) (tar_fs_start_address s) x (open_files s).
Definition set_open_files (x : list Z) (s : ustate) : ustate :=
  UState (heap s) (bytes s) (tar_fs_start_address s) (descriptors s) x.

Definition ustar_set_start_address (address : Z) : M ustate unit :=
  modify (λ s, UState (heap s) (bytes s) address (descriptors s) (open_files s)).

Definition on_heap {A} (c : M kstate A) : M ustate A := zoom heap set_heap c.
Definition on_bytes {A} (c : M (gmap Z Z) A) : M ustate A := zoom bytes set_bytes c.

(** [*p] and [p->field = ...] of a descriptor *)
Definition descriptor (p : Z) : M ustate ustar_file_descriptor :=
  λ s, match descriptors s !! p with Some d => Ok (d, s) | None => Fault end.
Definition set_descriptor (p : Z) (d : ustar_file_descriptor) : M ustate unit :=
  modify (λ s, set_descriptors (<[p := d]> (descriptors s)) s).

(** [open_files[i]] and its update, undefined outside the array *)
Definition open_file (i : Z) : M ustate Z := λ s,
  if (0 <=? i) && (i <? Z.of_nat (length (open_files s)))
  then Ok (nth (Z.to_nat i) (open_files s) 0, s) else Fault.
Definition set_open_file (i p : Z) : M ustate unit := λ s,
  if (0 <=? i) && (i <? Z.of_nat (length (open_files s)))
  then Ok (tt, set_open_files (<[Z.to_nat i := p]> (open_files s)) s) else Fault.

(** ** Records of the archive *)

(** [for (i = 0; i < 512; i++)] *)
Fixpoint zeroed_loop (n : nat) (m : gmap Z Z) (record : Z) : bool :=
  match n with
  | O => true
  | S n' => if negb (byte m record =? 0) then false else zeroed_loop n' m (record + 1)
  end.
Definition is_zeroed (m : gmap Z Z) (record : Z) : bool := zeroed_loop 512 m record.

(** [for (i = 0; i < 255; i++) if (tar_filename[i] == '\\') tar_filename[i] = '/';] *)
Fixpoint slash_loop (n : nat) (m : gmap Z Z) (p : Z) : gmap Z Z :=
  match n with
  | O => m
  | S n' => slash_loop n' (if byte m p =? 92 then <[p := 47]> m else m) (p + 1)
  end.

(** The name of a record is built in [dest]: the prefix field, when there is
    one, and the name field 155 bytes behind it. *)
Definition copy_record_name (dest record : Z) (m : gmap Z Z) : gmap Z Z :=
  if negb (byte m (filename_prefix record) =? 0) then
    kstrcpy (kstrcpy m dest (filename_prefix record) 155) (dest + 155) (filename record) 100
  else kstrcpy m dest (filename record) 155.

(** Move to the next record: the size field, rounded up to whole blocks. *)
Definition next_record (record : Z) : M (gmap Z Z) Z :=
  sz ← oct_ascii_to_dec (file_size record) 12;
  let sz := if negb (sz mod 512 =? 0) then u64 ((sz / 512 + 1) * 512) else sz in
  mret (u64 (u64 (record + 512) + sz)).

Section ustar.
Context `{HO : HeapOps} (tar_filename : Z).

(** One round of [while (zero_counter < 2)]; [inr] is a [return]. *)
Definition lookup_round (searched_file : Z) (v : Z * Z) : M (gmap Z Z) ((Z * Z) + Z) :=
  let '(zero_counter, current_record) := v in
  if zero_counter <? 2 then
    zero ← gets (λ m, is_zeroed m current_record);
    if (zero : bool) then mret (inl (zero_counter + 1, current_record))
    else
      modify (copy_record_name tar_filename current_record);;
      modify (λ m, slash_loop 255 m tar_filename);;
      same ← kstrcmp tar_filename searched_file 256;
      if (same : bool) then mret (inr current_record)
      else
        next ← next_record current_record;
        mret (inl (0, next))
  else mret (inr 0).

Definition tar_file_lookup (searched_file : Z) : M ustate Z :=
  start ← gets tar_fs_start_address;
  on_bytes (loop (lookup_round searched_file) (0, start)).

(** Every record matches: the comparison is commented out. *)
Definition prefix_lookup_round (v : Z * Z) : M (gmap Z Z) ((Z * Z) + Z) :=
  let '(zero_counter, current_record) := v in
  if zero_counter <? 2 then
    zero ← gets (λ m, is_zeroed m current_record);
    if (zero : bool) then mret (inl (zero_counter + 1, current_record))
    else
      modify (copy_record_name tar_filename current_record);;
      modify (λ m, slash_loop 255 m tar_filename);;
      mret (inr current_record)
  else mret (inr 0).

Definition tar_file_prefix_lookup (current_record : Z) : M ustate Z :=
  start ← gets tar_fs_start_address;
  first ← (if current_record =? 0 then mret start else on_bytes (next_record current_record));
  on_bytes (loop prefix_lookup_round (0, first)).

(** ** The table of open files *)

(** The name that is compared: the prefix field is copied in both branches. *)
Definition copy_open_name (record : Z) (m : gmap Z Z) : gmap Z Z :=
  let m := memset m tar_filename 0 256 in
  if negb (byte m (filename_prefix record) =? 0) then
    kstrcpy (kstrcpy m tar_filename (filename_prefix record) 155)
      (tar_filename + 155) (filename record) 100
  else kstrcpy m tar_filename (filename_prefix record) 155.

Definition already_open_round (name i : Z) : M ustate (Z + Z) :=
  if i <? MAX_USTAR_OPEN_FILES then
    p ← open_file i;
    if p =? 0 then mret (inl (i + 1))
    else
      d ← descriptor p;
      if references d >? 0 then
        on_bytes (modify (copy_open_name (header d)));;
        same ← on_bytes (kstrcmp tar_filename name 256);
        if (same : bool) then mret (inr i) else mret (inl (i + 1))
      else mret (inl (i + 1))
  else mret (inr (-1)).
Definition is_already_open (name : Z) : M ustate Z := loop (already_open_round name) 0.

Definition open_id_round (i : Z) : M ustate (Z + Z) :=
  if i <? MAX_USTAR_OPEN_FILES then
    p ← open_file i;
    if p =? 0 then mret (inr i) else mret (inl (i + 1))
  else mret (inr (-1)).
Definition find_open_id : M ustate Z := loop open_id_round 0.

Definition ustar_open (path flags : Z) : M ustate Z :=
  id ← is_already_open path;
  if id >? -1 then
    p ← open_file id;
    d ← descriptor p;
    set_descriptor p (FileDescriptor (header d) (u16 (references d + 1)) (size d));;
    mret id
  else
    record ← tar_file_lookup path;
    if record =? 0 then mret (-1)
    else
      file_descriptor ← on_heap (heap_alloc sizeof_ustar_file_descriptor);
      id ← find_open_id;
      if id =? -1 then mret (-1)
      else
        sz ← on_bytes (oct_ascii_to_dec (file_size record) 12);
        set_descriptor file_descriptor (FileDescriptor record 1 (s64 sz));;
        set_open_file id file_descriptor;;
        mret id.

(** [for (i = 0; (i < nbytes) && i + offset < file->size; i++)]; the signed size
    is compared as an unsigned number. *)
Definition read_round (nbytes offset sz : Z) (v : Z * Z * Z) :
    M (gmap Z Z) ((Z * Z * Z) + Z) :=
  let '(i, b, content_pointer) := v in
  if (i <? nbytes) && (u64 (i + offset) <? u64 sz) then
    c ← gets (λ m, byte m content_pointer);
    modify (λ m, <[b := c]> m);;
    mret (inl (u64 (i + 1), b + 1, content_pointer + 1))
  else mret (inr i).

Definition ustar_read (file_id buffer nbytes offset : Z) : M ustate Z :=
  file ← open_file file_id;
  if file =? 0 then mret 0
  else
    d ← descriptor file;
    if offset >? u64 (size d) then mret 0
    else
      let content_pointer := u64 (u64 (header d + 512) + offset) in
      on_bytes (loop (read_round nbytes offset (size d)) (0, buffer, content_pointer)).

Definition ustar_close (file_id : Z) : M ustate Z :=
  file ← open_file file_id;
  d ← descriptor file;
  let r := u16 (references d - 1) in
  set_descriptor file (FileDescriptor (header d) r (size d));;
  (if r <? 1 then
     on_heap (heap_free file);;
     modify (λ s, set_descriptors (delete file (descriptors s)) s);;
     set_open_file file_id 0
   else mret tt);;
  mret 0.

Definition ustar_get_file_size (file_id : Z) : M ustate Z :=
  file ← open_file file_id;
  d ← descriptor file;
  mret (size d).

(** ** Listing a directory *)

(** The strings of these functions are in [bytes], those of [kalloc] too: the
    block it returns is filled with zeros. *)

(** the test at the start of both functions for a leading slash *)
Definition skip_slash (m : gmap Z Z) (p : Z) : Z :=
  if negb (byte m p =? 0) && (byte m p =? 47) then p + 1 else p.

(** The loop to the end of the first component, with a 16-bit [index]. *)
Definition component_round (path index : Z) : M (gmap Z Z) (Z + Z) :=
  c ← gets (λ m, byte m (path + index));
  if negb (c =? 0) && negb (c =? 47) then mret (inl (u16 (index + 1))) else mret (inr index).
Definition cut_component (path : Z) : M (gmap Z Z) unit :=
  index ← loop (component_round path) 0;
  modify (λ m, <[path + index := 0]> m).

Definition is_in_same_dir (path1 path2 : Z) : M (gmap Z Z) bool :=
  path1 ← gets (λ m, skip_slash m path1);
  path2 ← gets (λ m, skip_slash m path2);
  c ← gets (λ m, byte m path2);
  if c =? 0 then mret false
  else
    cut_component path1;;
    cut_component path2;;
    kstrcmp path1 path2 0.

(** The loop over the common characters; [empty] is the address of the literal the
    function returns when [dest] has no more components. *)
Definition remove_round (v : Z * Z) : M (gmap Z Z) ((Z * Z) + Z) :=
  let '(dest, prefix) := v in
  a ← gets (λ m, byte m dest);
  b ← gets (λ m, byte m prefix);
  if a =? b then
    a' ← gets (λ m, byte m (dest + 1));
    b' ← gets (λ m, byte m (prefix + 1));
    if (a' =? 0) || (b' =? 0) then mret (inr (dest + 1)) else mret (inl (dest + 1, prefix + 1))
  else mret (inr dest).
Definition remove_prefix (empty dest prefix : Z) : M (gmap Z Z) Z :=
  dest ← gets (λ m, skip_slash m dest);
  prefix ← gets (λ m, skip_slash m prefix);
  c ← gets (λ m, byte m prefix);
  if c =? 0 then mret dest
  else
    dest ← loop remove_round (dest, prefix);
    c ← gets (λ m, byte m dest);
    if negb (c =? 47) then mret empty else mret (dest + 1).

(** [while (index < 50 && pathes[index] != NULL)] of the search for a duplicate *)
Definition duplicate_round (empty dir path : Z) (pathes : list Z) (index : Z) :
    M (gmap Z Z) (Z + bool) :=
  if (index <? 50) && negb (nth (Z.to_nat index) pathes 0 =? 0) then
    other ← remove_prefix empty (nth (Z.to_nat index) pathes 0) dir;
    same ← is_in_same_dir path other;
    if (same : bool) then mret (inr true) else mret (inl (index + 1))
  else mret (inr false).

(** One round of [while (true)]: the next record of the archive. *)
Definition collect_round (empty dir : Z) (v : Z * list Z * Z) :
    M ustate ((Z * list Z * Z) + list Z) :=
  let '(record, pathes, pathes_len) := v in
  record ← tar_file_prefix_lookup record;
  if record =? 0 then mret (inr pathes)
  else
    name ← on_heap (heap_alloc 256);
    on_bytes (modify (λ m, memset m name 0 256));;
    on_bytes (modify (copy_record_name name record));;
    on_bytes (modify (λ m, slash_loop 255 m name));;
    path ← on_bytes (remove_prefix empty name dir);
    c ← on_bytes (gets (λ m, byte m path));
    if c =? 0 then mret (inl (record, pathes, pathes_len))
    else
      duplicate ← on_bytes (loop (duplicate_round empty dir path pathes) 0);
      if (duplicate : bool) then mret (inl (record, pathes, pathes_len))
      else if pathes_len <? 50 then
        mret (inl (record, <[Z.to_nat pathes_len := path]> pathes, u32 (pathes_len + 1)))
      else fault.

(** The inner loop of the output: one name into the buffer. *)
Definition name_out_round (v : Z * Z * Z) : M (gmap Z Z) ((Z * Z * Z) + (Z * Z)) :=
  let '(address, buffer, read_bytes) := v in
  c ← gets (λ m, byte m address);
  if negb (c =? 0) then
    modify (λ m, <[buffer := c]> m);;
    mret (inl (address + 1, buffer + 1, u64 (read_bytes + 1)))
  else mret (inr (buffer, read_bytes)).

Definition names_out_round (pathes : list Z) (v : Z * Z * Z) : M (gmap Z Z) ((Z * Z * Z) + Z) :=
  let '(index, buffer, read_bytes) := v in
  if (index <? 50) && negb (nth (Z.to_nat index) pathes 0 =? 0) then
    r ← loop name_out_round (nth (Z.to_nat index) pathes 0, buffer, read_bytes);
    modify (λ m, <[fst r := 10]> m);;
    mret (inl (index + 1, fst r + 1, u64 (snd r + 1)))
  else mret (inr read_bytes).

(** [pathes0] is what the uninitialised local array [pathes] holds; [nbytes] and
    [offset] are not used; the length of [dir] is computed for
    [tar_file_prefix_lookup], which does not use it. *)
Definition ustar_read_dir (empty : Z) (pathes0 : list Z) (dir buffer nbytes offset : Z) :
    M ustate Z :=
  pathes ← loop (collect_round empty dir) (0, pathes0, 0);
  on_bytes (loop (names_out_round pathes) (0, buffer, 0)).

End ustar.

(** ** The specification: an archive as a list of files *)

Record tar_entry := TarEntry { e_name : list Z; e_content : list Z }.

Definition content_length (e : tar_entry) : Z := Z.of_nat (length (e_content e)).
(** A header block and the content, in whole blocks. *)
Definition record_length (e : tar_entry) : Z := 512 + (content_length e + 511) / 512 * 512.

(** The record of [e] lies at [a]: a terminated name in the name field, no
    prefix, an octal size, and the content behind the header block. *)
Record entry_at (m : gmap Z Z) (a : Z) (e : tar_entry) : Prop := {
  entry_name : cstr_at m (filename a) (e_name e);
  entry_name_nonempty : e_name e ≠ [];
  entry_name_length : (length (e_name e) ≤ 99)%nat;
  entry_no_prefix : byte m (filename_prefix a) = 0;
  entry_size : bytes_at m (file_size a + 1) (oct_digits 10 (content_length e));
  entry_size_fits : content_length e < 8 ^ 10;
  entry_content : bytes_at m (a + 512) (e_content e);
}.

(** The records of [es] from [a] on, and a block of zeros behind them. *)
Fixpoint archive (m : gmap Z Z) (a : Z) (es : list tar_entry) : Prop :=
  match es with
  | [] => ∀ i, 0 ≤ i < 512 → byte m (a + i) = 0
  | e :: es' => entry_at m a e ∧ archive m (a + record_length e) es'
  end.

Fixpoint archive_length (es : list tar_entry) : Z :=
  match es with [] => 512 | e :: es' => record_length e + archive_length es' end.

(** The length of some records, without the zero block. *)
Definition records_length (es : list tar_entry) : Z := foldr (λ e n, record_length e + n) 0 es.

(** The name a record answers to: backslashes count as slashes. *)
Definition slash (c : Z) : Z := if c =? 92 then 47 else c.
Definition path_of (e : tar_entry) : list Z := map slash (e_name e).

(** The first file of that path, with the address of its record. *)
Fixpoint find_file (a : Z) (es : list tar_entry) (path : list Z) : option (Z * tar_entry) :=
  match es with
  | [] => None
  | e :: es' =>
      if decide (path_of e = path) then Some (a, e)
      else find_file (a + record_length e) es' path
  end.

(** ** Lemmas: memory *)

Definition apart (a n b k : Z) : Prop := a + n ≤ b ∨ b + k ≤ a.

Lemma bytes_at_frame P m m' p l :
  same_outside P m m' → (∀ x, p ≤ x < p + Z.of_nat (length l) → ¬ P x) →
  bytes_at m p l → bytes_at m' p l.
Proof.
  intros Hs HP H i c Hi. rewrite Hs; [by apply H|]. apply HP.
  apply lookup_lt_Some in Hi. lia.
Qed.

Lemma cstr_at_frame P m m' p s :
  same_outside P m m' → (∀ x, p ≤ x ≤ p + Z.of_nat (length s) → ¬ P x) →
  cstr_at m p s → cstr_at m' p s.
Proof.
  intros Hs HP [Hb Hz]. split; [|done]. eapply bytes_at_frame; [done| |done].
  intros x Hx. apply HP. rewrite length_app in Hx. cbn in Hx. lia.
Qed.

Lemma record_length_bounds e :
  512 + content_length e ≤ record_length e < 512 + content_length e + 512.
Proof. unfold record_length. zify_div. Qed.

Lemma archive_length_pos es : 512 ≤ archive_length es.
Proof.
  induction es as [|e es IH]; cbn [archive_length]; [lia|].
  pose proof (record_length_bounds e). unfold content_length in *. lia.
Qed.

Lemma entry_at_frame P m m' a e :
  same_outside P m m' → (∀ x, a ≤ x < a + record_length e → ¬ P x) →
  entry_at m a e → entry_at m' a e.
Proof.
  intros Hs HP [Hn Hne Hnl Hp Hsz Hf Hc].
  pose proof (record_length_bounds e) as Hr. unfold content_length in *.
  unfold filename, file_size, filename_prefix in *. split; unfold filename, file_size, filename_prefix; try done.
  - eapply cstr_at_frame; [done| |done]. intros x Hx. apply HP. lia.
  - rewrite Hs; [done|]. apply HP. lia.
  - eapply bytes_at_frame; [done| |done]. intros x Hx. apply HP.
    unfold oct_digits in Hx. rewrite length_map, length_seqZ in Hx. lia.
  - eapply bytes_at_frame; [done| |done]. intros x Hx. apply HP. lia.
Qed.

Lemma archive_frame P m m' a es :
  same_outside P m m' → (∀ x, a ≤ x < a + archive_length es → ¬ P x) →
  archive m a es → archive m' a es.
Proof.
  intros Hs. revert a. induction es as [|e es IH]; intros a HP H; cbn [archive archive_length] in *.
  { intros i Hi. rewrite Hs; [by apply H|]. apply HP. lia. }
  pose proof (archive_length_pos es). pose proof (record_length_bounds e).
  assert (0 ≤ content_length e) by (unfold content_length; lia).
  destruct H as [He H]. split.
  - eapply entry_at_frame; [done| |done]. intros x Hx. apply HP. lia.
  - apply IH; [|done]. intros x Hx. apply HP. lia.
Qed.

(** ** Lemmas: one record *)

Lemma byte_slash_loop n m p x :
  byte (slash_loop n m p) x =
    if decide (p ≤ x < p + Z.of_nat n) then slash (byte m x) else byte m x.
Proof.
  revert m p. induction n as [|n IH]; intros m p; cbn [slash_loop].
  { by rewrite decide_False by lia. }
  rewrite IH. assert (byte (if byte m p =? 92 then <[p:=47]> m else m) x
    = if decide (p = x) then slash (byte m x) else byte m x) as ->.
  { unfold slash. destruct (byte m p =? 92) eqn:E.
    - rewrite byte_insert. case_decide; [subst; by rewrite E|done].
    - case_decide; [subst; by rewrite E|done]. }
  repeat case_decide; try lia; done.
Qed.

Lemma slash_nonzero c : c ≠ 0 → slash c ≠ 0.
Proof. unfold slash. case_if; lia. Qed.

Lemma is_zeroed_true m a : (∀ i, 0 ≤ i < 512 → byte m (a + i) = 0) → is_zeroed m a = true.
Proof.
  unfold is_zeroed. change 512 with (Z.of_nat 512). generalize 512%nat as n.
  intros n. revert a. induction n as [|n IH]; intros a H; cbn [zeroed_loop]; [done|].
  replace (byte m a) with 0 by (rewrite <- (H 0) by lia; f_equal; lia). cbn [negb Z.eqb].
  apply IH. intros i Hi. rewrite <- (H (i + 1)) by lia. f_equal. lia.
Qed.

Lemma entry_not_zeroed m a e : entry_at m a e → is_zeroed m a = false.
Proof.
  intros H. destruct (e_name e) as [|c s] eqn:E; [by destruct (entry_name_nonempty _ _ _ H)|].
  pose proof (entry_name _ _ _ H) as Hn. rewrite E in Hn.
  destruct (cstr_at_char _ _ _ 0 c Hn eq_refl) as [Hb Hc].
  unfold filename in Hb. rewrite Z.add_0_r in Hb.
  change (is_zeroed m a) with (if negb (byte m a =? 0) then false else zeroed_loop 511 m (a + 1)).
  by rewrite Hb, (proj2 (Z.eqb_neq _ _) Hc).
Qed.

Lemma entry_size_read m a e :
  entry_at m a e → oct_ascii_to_dec (file_size a) 12 m = Ok (content_length e, m).
Proof.
  intros H. apply (oct_value m (file_size a) 10 (content_length e)); [lia| |apply H].
  pose proof (entry_size_fits _ _ _ H). unfold content_length in *. cbn. lia.
Qed.

(** The address behind a record is that of the next one. *)
Lemma next_record_ok m a e :
  entry_at m a e → 0 ≤ a → a + record_length e < 2 ^ 64 →
  next_record a m = Ok (a + record_length e, m).
Proof.
  intros H Ha Hr. pose proof (entry_size_fits _ _ _ H).
  assert (0 ≤ content_length e) by (unfold content_length; lia).
  pose proof (record_length_bounds e). unfold next_record, mbind, M_bind.
  rewrite (entry_size_read m a e H).
  cbn [bind_result fst snd]. unfold record_length in *.
  rewrite (u64_small (a + 512)) by lia. set (n := content_length e) in *. clearbody n.
  assert ((if negb (n mod 512 =? 0) then u64 ((n / 512 + 1) * 512) else n)
    = (n + 511) / 512 * 512) as ->.
  { case_if; [rewrite u64_small by zify_div|]; zify_div. }
  rewrite u64_small by lia. unfold mret, M_ret. do 2 f_equal. lia.
Qed.

Lemma archive_split m pre rest a :
  archive m a (pre ++ rest) → archive m (a + records_length pre) rest.
Proof.
  revert a. induction pre as [|e pre IH]; intros a H; cbn [records_length foldr app archive] in *.
  { by rewrite Z.add_0_r. }
  destruct H as [_ H]. apply IH in H. by rewrite Z.add_assoc.
Qed.

Lemma archive_length_app pre rest :
  archive_length (pre ++ rest) = records_length pre + archive_length rest.
Proof. induction pre as [|e pre IH]; cbn; [lia|]. unfold records_length in *. lia. Qed.

Lemma records_length_app l k : records_length (l ++ k) = records_length l + records_length k.
Proof. induction l as [|e l IH]; cbn; [done|]. unfold records_length in *. lia. Qed.

Lemma sum_nonneg pre : 0 ≤ records_length pre.
Proof.
  induction pre as [|e pre IH]; cbn; [lia|]. pose proof (record_length_bounds e).
  unfold records_length, content_length in *. lia.
Qed.

Section buffer.
Context (t : Z).
#[local] Abbreviation in_buffer := (in_range t 256).

(** The name of a record, as the code builds it in its local array. *)
Lemma copy_record_name_ok m a e :
  entry_at m a e → apart t 256 a 512 →
  let m' := slash_loop 255 (copy_record_name t a m) t in
  cstr_at m' t (path_of e) ∧ same_outside in_buffer m m'.
Proof.
  intros H Hd m'. pose proof (entry_name_length _ _ _ H) as Hl.
  assert (∀ x, byte (copy_record_name t a m) x =
    if decide (t ≤ x < t + (Z.of_nat (length (e_name e)) + 1))
    then byte m (a + (x - t)) else byte m x) as Hcopy.
  { intros x. unfold copy_record_name. rewrite (entry_no_prefix _ _ _ H). cbn [negb Z.eqb].
    unfold kstrcpy. rewrite (byte_kstrcpy_loop _ _ _ _ _ _ (entry_name _ _ _ H)).
    - rewrite Z.min_r by lia. done.
    - unfold filename, apart in *. lia. }
  split; [split|].
  - intros i c Hi. subst m'. rewrite byte_slash_loop, Hcopy.
    pose proof (lookup_lt_Some _ _ _ Hi) as Hlt. unfold path_of in Hlt.
    rewrite length_app, length_map in Hlt. cbn in Hlt.
    rewrite decide_True, decide_True by lia.
    replace (a + (t + Z.of_nat i - t)) with (filename a + Z.of_nat i) by (unfold filename; lia).
    destruct (entry_name _ _ _ H) as [Hb _].
    assert (((e_name e) ++ [0]) !! i = Some (byte m (filename a + Z.of_nat i))) as Hi'.
    { destruct (lookup_lt_is_Some_2 (e_name e ++ [0]) i) as [c' Hc'].
      { rewrite length_app. cbn. lia. }
      by rewrite (Hb i c' Hc'). }
    assert (map slash (e_name e ++ [0]) !! i = Some c) as Hm.
    { rewrite map_app. done. }
    rewrite list_lookup_fmap, Hi' in Hm. by simplify_eq/=.
  - apply Forall_map. eapply list.Forall_impl; [apply (entry_name _ _ _ H)|].
    intros c. apply slash_nonzero.
  - intros x Hx. subst m'. unfold in_range in Hx. rewrite byte_slash_loop, Hcopy.
    by rewrite !decide_False by lia.
Qed.

(** The names of records fit the comparison's limit. *)
Lemma compare_name e path :
  (length (e_name e) ≤ 99)%nat → strncmp_spec (path_of e) path 256 = bool_decide (path_of e = path).
Proof.
  intros Hl. unfold strncmp_spec. cbn [Z.eqb]. apply bool_decide_ext.
  assert (length (path_of e) = length (e_name e)) as El by apply length_map.
  rewrite (take_ge (path_of e)) by (change (Z.to_nat 256) with 256%nat; lia).
  split; [|by intros <-; rewrite take_ge by (change (Z.to_nat 256) with 256%nat; lia)].
  intros E. assert (length (path_of e) = length (take (Z.to_nat 256) path)) as El2 by by rewrite <- E.
  rewrite length_take in El2. change (Z.to_nat 256) with 256%nat in *.
  rewrite take_ge in E by lia. done.
Qed.

(** *** The walk over the archive *)

Context (m0 : gmap Z Z) (start : Z) (es : list tar_entry) (q : Z) (path : list Z).
Context (Ha : archive m0 start es) (Hq : cstr_at m0 q path).
Context (Hstart : 0 < start ∧ start + archive_length es < 2 ^ 64).
Context (Hbuf : apart t 256 start (archive_length es)).
Context (Hqbuf : apart t 256 q (Z.of_nat (length path) + 1)).
Context (Hqlen : Z.of_nat (length path) < 2 ^ 32).

Definition record_address (pre : list tar_entry) : Z :=
  start + records_length pre.

Lemma find_file_app pre rest a :
  Forall (λ e, path_of e ≠ path) pre →
  find_file a (pre ++ rest) path
  = find_file (a + records_length pre) rest path.
Proof.
  revert a. induction pre as [|e pre IH]; intros a H; cbn [app find_file records_length foldr].
  { by rewrite Z.add_0_r. }
  apply list.Forall_cons in H as [He H]. rewrite decide_False by done.
  rewrite IH by done. by rewrite Z.add_assoc.
Qed.

(** What is left to do when the walk stands at a record with [k] zero blocks
    counted. *)
Definition walking (n : Z) (v : Z * Z) (m : gmap Z Z) : Prop :=
  same_outside in_buffer m0 m ∧
  ∃ pre rest, es = pre ++ rest ∧ Forall (λ e, path_of e ≠ path) pre ∧
    v.2 = record_address pre ∧ 0 ≤ v.1 ≤ 2 ∧ (v.1 = 0 ∨ rest = []) ∧
    n = 3 * Z.of_nat (length rest) + (2 - v.1).

Lemma lookup_round_ok n v m : walking n v m →
  runs (lookup_round t q v) m (λ r m', match r with
    | inl v' => ∃ n', 0 ≤ n' < n ∧ walking n' v' m'
    | inr a => same_outside in_buffer m0 m' ∧
        a = match find_file start es path with Some (a, _) => a | None => 0 end
    end).
Proof.
  destruct v as [zc r]. intros (Hs & pre & rest & Hes & Hpre & Hr & Hzc & Hor & ->).
  cbn [fst snd] in *. subst r. pose proof (sum_nonneg pre) as Hsum.
  pose proof (archive_length_pos rest) as Hrest. rewrite Hes in Hstart, Hbuf.
  rewrite archive_length_app in Hstart, Hbuf. unfold record_address in *.
  set (a := start + records_length pre) in *. unfold apart in Hbuf, Hqbuf.
  assert (archive m a rest) as Har.
  { apply (archive_frame in_buffer m0); [done| |rewrite Hes in Ha; by apply archive_split].
    intros x Hx. unfold in_range. lia. }
  unfold lookup_round. case_if.
  2: { split; [done|]. destruct Hor as [->| ->]; [lia|]. rewrite Hes, find_file_app by done. done. }
  destruct rest as [|e rest]; cbn [archive] in Har.
  - unfold runs, mbind, M_bind, gets. cbn [bind_result fst snd].
    rewrite (is_zeroed_true m a) by done. cbn [mret M_ret].
    exists (2 - (zc + 1)). split; [cbn; lia|]. split; [done|]. exists pre, []. cbn. split_and!; auto; lia.
  - destruct Har as [He Har]. destruct Hor as [->|]; [|done].
    cbn [archive_length] in *.
    pose proof (record_length_bounds e). pose proof (archive_length_pos rest).
    assert (0 ≤ content_length e) by (unfold content_length; lia).
    assert (apart t 256 a 512) as Hap by (unfold apart; lia).
    destruct (copy_record_name_ok m a e He Hap) as [Hname Hsame].
    set (m' := slash_loop 255 (copy_record_name t a m) t) in *.
    assert (same_outside in_buffer m0 m') as Hs' by (by eapply same_outside_trans).
    assert (cstr_at m' q path) as Hq'.
    { apply (cstr_at_frame in_buffer m0); [done| |done]. intros x Hx. unfold in_range. lia. }
    assert (entry_at m' a e) as He'.
    { apply (entry_at_frame in_buffer m); [done| |done]. intros x Hx. unfold in_range. lia. }
    unfold runs, mbind, M_bind, gets, modify. cbn [bind_result fst snd].
    rewrite (entry_not_zeroed m a e He). cbn [bind_result fst snd]. fold m'.
    rewrite (kstrcmp_cstr m' t q (path_of e) path 256) by (done || unfold path_of; rewrite ?length_map; pose proof (entry_name_length _ _ _ He); lia).
    cbn [bind_result fst snd]. rewrite compare_name by apply He. rewrite Hes, find_file_app by done.
    fold a. cbn [find_file]. case_bool_decide as Hp.
    + cbn [mret M_ret]. by rewrite decide_True.
    + rewrite (next_record_ok m' a e) by (done || lia). cbn [bind_result fst snd mret M_ret].
      exists (3 * Z.of_nat (length rest) + 2). cbn [length]. split; [lia|]. split; [done|].
      exists (pre ++ [e]), rest. split_and!; cbn [fst snd]; auto; try lia.
      * by rewrite Hes, <- app_assoc.
      * apply list.Forall_app. split; [done|]. by repeat constructor.
      * unfold record_address. rewrite records_length_app. cbn. lia.
Qed.

Lemma lookup_loop_ok :
  runs (loop (lookup_round t q) (0, start)) m0 (λ a m',
    same_outside in_buffer m0 m' ∧
    a = match find_file start es path with Some (a, _) => a | None => 0 end).
Proof.
  assert (Z.of_nat (length es) * 512 ≤ archive_length es) as Hn.
  { clear. induction es as [|e es' IH]; cbn [length archive_length]; [lia|].
    pose proof (record_length_bounds e). unfold content_length in *. lia. }
  apply (runs_loop_ghost (lookup_round t q) walking) with (n := 3 * Z.of_nat (length es) + 2); [|split; [done|]|lia].
  - intros n v m H. by apply lookup_round_ok.
  - exists [], es. unfold record_address. cbn. split_and!; auto; try lia. 
Qed.

End buffer.
