(* ===== verification/UstarCorrect.v ===== *)
(** * Correctness of the tar file system

    Opening, reading and closing on an archive in memory, for any heap that
    keeps the laws of [Heap]; the tar file system is a file system in the sense
    of [Fs]. *)

From S2P Require Import Prelude Machine Util Heap VmmCorrect KheapCorrect Fs Ustar.

(** ** The records of an archive *)

Fixpoint records (a : Z) (es : list tar_entry) : list (Z * tar_entry) :=
  match es with [] => [] | e :: es' => (a, e) :: records (a + record_length e) es' end.

Lemma find_file_records a es path r e :
  find_file a es path = Some (r, e) → (r, e) ∈ records a es ∧ path_of e = path.
Proof.
  revert a. induction es as [|x es IH]; intros a H; cbn [find_file records] in *; [done|].
  case_decide as Hd.
  - simplify_eq. split; [left|done].
  - destruct (IH _ H). split; [by right|done].
Qed.

Lemma record_at m a es r e :
  archive m a es → (r, e) ∈ records a es →
  entry_at m r e ∧ a ≤ r ∧ r + record_length e + 512 ≤ a + archive_length es.
Proof.
  revert a. induction es as [|x es IH]; intros a H Hr; cbn [records archive archive_length] in *.
  { by apply elem_of_nil in Hr. }
  destruct H as [Hx H]. pose proof (archive_length_pos es). pose proof (record_length_bounds x).
  assert (0 ≤ content_length x) by (unfold content_length; lia).
  apply elem_of_cons in Hr as [[= -> ->]|Hr].
  - split_and!; [done|lia|lia].
  - destruct (IH _ H Hr) as (? & ? & ?). split_and!; [done|lia|lia].
Qed.

(** The contents of a file, as the bytes of memory behind a header. *)
Definition contents (m : gmap Z Z) (r n : Z) : list Z := map (byte m) (seqZ (r + 512) n).

Lemma contents_bytes m p l :
  bytes_at m p l → map (byte m) (seqZ p (Z.of_nat (length l))) = l.
Proof.
  intros H. apply list_eq. intros i. rewrite list_lookup_fmap.
  destruct (l !! i) as [c|] eqn:E.
  - pose proof (lookup_lt_Some _ _ _ E). rewrite lookup_seqZ_lt by lia. cbn. f_equal. by apply H.
  - apply lookup_ge_None in E. rewrite lookup_seqZ_ge by lia. done.
Qed.

Lemma contents_entry m a e : entry_at m a e → contents m a (content_length e) = e_content e.
Proof. intros H. apply contents_bytes, H. Qed.

(** The copy loop of [ustar_read]: what is asked for and what is there. *)
Lemma read_loop_ok m0 b c n off sz :
  0 ≤ n < 2 ^ 63 → 0 ≤ off ≤ sz → sz < 2 ^ 62 →
  (∀ x, in_range b n x → ¬ in_range c (sz - off) x) →
  runs (loop (read_round n off sz) (0, b, c)) m0 (λ r m',
    r = Z.min n (sz - off) ∧
    ∀ x, byte m' x = if decide (in_range b r x) then byte m0 (c + (x - b)) else byte m0 x).
Proof.
  intros Hn Hoff Hsz Hd.
  apply (runs_loop (read_round n off sz) (λ v m, ∃ i, v = (i, b + i, c + i) ∧
    0 ≤ i ≤ Z.min n (sz - off) ∧
    ∀ x, byte m x = if decide (in_range b i x) then byte m0 (c + (x - b)) else byte m0 x)
    (λ v _, n - v.1.1)).
  - intros v m (i & -> & Hi & Hm). unfold read_round, in_range in *.
    rewrite !u64_small by lia. case_if.
    + cbn [mbind M_bind gets modify bind_result fst snd]. unfold runs, mbind, M_bind, gets, modify.
      cbn [bind_result fst snd mret M_ret]. split; [|lia]. exists (i + 1).
      split_and!; [f_equal; [f_equal|]; lia|lia|lia|]. intros x.
      rewrite byte_insert. rewrite !Hm. rewrite (decide_False (P := b ≤ c + i < b + i)).
      * repeat case_decide; try lia; try done. subst x.
        unfold byte at 1. rewrite u8_small by apply byte_range.
        change (u8 (default 0 (m0 !! (c + i)))) with (byte m0 (c + i)). f_equal. lia.
      * intros Hx. apply (Hd (c + i)); lia.
    + cbn. rewrite <- (Z.le_antisymm i (Z.min n (sz - off))); [done|lia|].
      apply andb_false_iff in E as [E|E]; bool_to_prop; lia.
  - exists 0. split_and!; [f_equal; [f_equal|]; lia|lia|lia|].
    intros x. rewrite decide_False; [done|unfold in_range; lia].
  - cbn. lia.
Qed.

(** ** The state *)

Record volume := Volume { v_start : Z; v_files : list tar_entry }.

(** The contents open under an id. *)
Definition ustar_opened (s : ustate) (i : Z) : option (list Z) :=
  if i <? 0 then None
  else match open_files s !! Z.to_nat i with
       | Some p =>
           if p =? 0 then None
           else d ← descriptors s !! p; Some (contents (bytes s) (header d) (size d))
       | None => None
       end.

Section correct.
Context `{HO : HeapOps, HV : HeapView, HL : !HeapLaws}.
(** The addresses of the local array for names and of the empty literal, and
    what the local array of [ustar_read_dir] holds at its start. *)
Context (t empty : Z) (pathes0 : list Z).

(** The archive is in place; each entry of the table is NULL or points to a live
    descriptor of its own, with one reference, for a record of the archive. *)
Record ustar_inv (g : volume) (s : ustate) : Prop := {
  ui_start : tar_fs_start_address s = v_start g;
  ui_archive : archive (bytes s) (v_start g) (v_files g);
  ui_bounds : 0 < v_start g ∧ v_start g + archive_length (v_files g) < 2 ^ 62;
  ui_apart : apart t 256 (v_start g) (archive_length (v_files g));
  ui_table : length (open_files s) = 512%nat;
  ui_heap : ∃ B, heap_ok (heap s) B ∧
    ∀ (i : nat) p, open_files s !! i = Some p → p ≠ 0 → p ∈ B;
  ui_desc : ∀ (i : nat) p, open_files s !! i = Some p → p ≠ 0 →
    ∃ r e, (r, e) ∈ records (v_start g) (v_files g) ∧
      descriptors s !! p = Some (FileDescriptor r 1 (content_length e));
  ui_inj : ∀ (i j : nat) p, open_files s !! i = Some p → open_files s !! j = Some p →
    p ≠ 0 → i = j;
}.

Definition ustar_scratch : Z → Prop := in_range t 256.
Definition ustar_private (g : volume) : Z → Prop :=
  in_range (v_start g) (archive_length (v_files g)).

(** What an open id stands for. *)
Record open_as (g : volume) (s : ustate) (id p r : Z) (e : tar_entry) : Prop := {
  oa_id : 0 ≤ id < 512;
  oa_slot : open_files s !! Z.to_nat id = Some p;
  oa_ptr : p ≠ 0;
  oa_desc : descriptors s !! p = Some (FileDescriptor r 1 (content_length e));
  oa_record : (r, e) ∈ records (v_start g) (v_files g);
  oa_entry : entry_at (bytes s) r e;
  oa_range : v_start g ≤ r ∧ r + record_length e + 512 ≤ v_start g + archive_length (v_files g);
}.

Lemma opened_as g s id C : ustar_inv g s → ustar_opened s id = Some C →
  ∃ p r e, open_as g s id p r e ∧ C = e_content e.
Proof.
  intros I H. unfold ustar_opened in H. destruct (id <? 0) eqn:E0; [done|]. bool_to_prop.
  destruct (open_files s !! Z.to_nat id) as [p|] eqn:Ep; [|done].
  destruct (p =? 0) eqn:E1; [done|]. bool_to_prop.
  destruct (ui_desc _ _ I _ _ Ep E1) as (r & e & Hr & Hd).
  rewrite Hd in H. cbn in H. simplify_eq.
  destruct (record_at _ _ _ _ _ (ui_archive _ _ I) Hr) as (He & Hrange).
  exists p, r, e. split; [|by apply contents_entry].
  pose proof (lookup_lt_Some _ _ _ Ep). rewrite (ui_table _ _ I) in *.
  split; try done. lia.
Qed.

Lemma as_opened g s id p r e : open_as g s id p r e → ustar_opened s id = Some (e_content e).
Proof.
  intros [Hid Hs Hp Hd _ He _]. unfold ustar_opened. rewrite (proj2 (Z.ltb_ge _ _)) by lia.
  rewrite Hs, (proj2 (Z.eqb_neq _ _) Hp), Hd. cbn. by rewrite contents_entry.
Qed.

(** Memory may change outside the archive. *)
Lemma ustar_inv_bytes g s m P :
  ustar_inv g s → same_outside P (bytes s) m → (∀ x, P x → ¬ ustar_private g x) →
  ustar_inv g (set_bytes m s) ∧ ∀ j, ustar_opened (set_bytes m s) j = ustar_opened s j.
Proof.
  intros I Hs HP.
  assert (ustar_inv g (set_bytes m s)) as I'.
  { destruct I. split; try done. cbn [bytes set_bytes].
    eapply archive_frame; [done| |done]. intros x Hx HPx. by apply (HP x HPx). }
  split; [done|]. intros j. destruct (ustar_opened s j) as [C|] eqn:E.
  - destruct (opened_as g s j C I E) as (p & r & e & O & ->).
    apply (as_opened g _ j p r e). destruct O. split; try done.
    by destruct (record_at _ _ _ _ _ (ui_archive _ _ I') oa_record0) as (? & _).
  - revert E. unfold ustar_opened. cbn [open_files set_bytes descriptors].
    repeat case_match; try done. by destruct (descriptors s !! z).
Qed.

Lemma set_bytes_twice m m' s : set_bytes m (set_bytes m' s) = set_bytes m s.
Proof. done. Qed.

Lemma open_file_ok s (i : nat) p : open_files s !! i = Some p →
  open_file (Z.of_nat i) s = Ok (p, s).
Proof.
  intros H. pose proof (lookup_lt_Some _ _ _ H). unfold open_file.
  rewrite (proj2 (Z.leb_le _ _)), (proj2 (Z.ltb_lt _ _)) by lia. cbn [andb].
  by rewrite Nat2Z.id, (nth_lookup_Some _ _ _ _ H).
Qed.

Lemma open_file_as g s id p r e : open_as g s id p r e → open_file id s = Ok (p, s).
Proof.
  intros O. rewrite <- (Z2Nat.id id) by apply O. apply open_file_ok, O.
Qed.

Lemma descriptor_ok s p d : descriptors s !! p = Some d → descriptor p s = Ok (d, s).
Proof. unfold descriptor. by intros ->. Qed.

Lemma set_open_file_ok s i p : 0 ≤ i < Z.of_nat (length (open_files s)) →
  set_open_file i p s = Ok (tt, set_open_files (<[Z.to_nat i := p]> (open_files s)) s).
Proof.
  intros H. unfold set_open_file. by rewrite (proj2 (Z.leb_le _ _)), (proj2 (Z.ltb_lt _ _)) by lia.
Qed.

(** *** [is_already_open] never finds a record without a prefix *)

Lemma copy_open_name_ok m r e :
  entry_at m r e → apart t 256 r 512 →
  cstr_at (copy_open_name t r m) t [] ∧ same_outside ustar_scratch m (copy_open_name t r m).
Proof.
  intros H Hd. unfold copy_open_name. cbv zeta. set (m1 := memset m t 0 256).
  assert (byte m1 (filename_prefix r) = 0) as Hp.
  { subst m1. rewrite byte_memset by lia. case_decide; [done|]. apply H. }
  rewrite Hp. cbn [negb Z.eqb].
  assert (cstr_at m1 (filename_prefix r) []) as Hc.
  { split; [|done]. intros [|i] c Hi; [|done]. cbn in Hi. simplify_eq. rewrite Z.add_0_r. done. }
  assert (∀ x, byte (kstrcpy m1 t (filename_prefix r) 155) x
    = if decide (t ≤ x < t + 1) then 0 else byte m1 x) as Hk.
  { intros x. unfold kstrcpy. rewrite (byte_kstrcpy_loop _ _ _ _ _ _ Hc).
    - cbn [length]. change (Z.of_nat 0) with 0. rewrite Z.min_r by lia.
      repeat case_decide; try lia. rewrite <- Hp. f_equal. lia.
    - unfold filename_prefix, apart in *. cbn. lia. }
  split.
  - split; [|done]. intros [|i] c Hi; [|done]. cbn in Hi. simplify_eq.
    rewrite Hk. by rewrite decide_True by lia.
  - intros x Hx. rewrite Hk. unfold ustar_scratch, in_range in Hx. rewrite decide_False by lia.
    subst m1. rewrite byte_memset by lia. by rewrite decide_False by lia.
Qed.

Lemma not_already_open g s q path :
  ustar_inv g s → cstr_at (bytes s) q path → path ≠ [] → Z.of_nat (length path) < 2 ^ 32 →
  (∀ x, q ≤ x ≤ q + Z.of_nat (length path) → ¬ ustar_scratch x) →
  runs (is_already_open t q) s (λ id s', id = -1 ∧
    ∃ m, s' = set_bytes m s ∧ same_outside ustar_scratch (bytes s) m).
Proof.
  intros I Hq Hne Hlen Hsc. unfold is_already_open.
  apply (runs_loop (already_open_round t q) (λ i s', 0 ≤ i ≤ 512 ∧
    ∃ m, s' = set_bytes m s ∧ same_outside ustar_scratch (bytes s) m) (λ i _, 512 - i)).
  2: { split; [lia|]. exists (bytes s). split; [by destruct s|done]. }
  2: { lia. }
  intros i s' (Hi & m & -> & Hm). unfold already_open_round, MAX_USTAR_OPEN_FILES. case_if.
  2: { cbn. split; [done|]. by exists m. }
  destruct (ustar_inv_bytes g s m ustar_scratch I Hm) as [I' _].
  { intros x Hx Hp. pose proof (ui_apart _ _ I). unfold ustar_scratch, ustar_private, in_range, apart in *. lia. }
  destruct (lookup_lt_is_Some_2 (open_files s) (Z.to_nat i)) as [p Hp].
  { rewrite (ui_table _ _ I). lia. }
  unfold runs, mbind, M_bind.
  assert (open_file i (set_bytes m s) = Ok (p, set_bytes m s)) as ->.
  { rewrite <- (Z2Nat.id i) by lia. by apply open_file_ok. }
  cbn [bind_result fst snd]. destruct (p =? 0) eqn:E0; bool_to_prop.
  { cbn. split; [|lia]. split; [lia|]. by exists m. }
  destruct (ui_desc _ _ I' _ _ Hp E0) as (r & e & Hr & Hd).
  unfold descriptor. rewrite Hd. cbn [bind_result fst snd references header].
  change (1 >? 0) with true. cbv iota.
  destruct (record_at _ _ _ _ _ (ui_archive _ _ I') Hr) as (He & Hrange).
  cbn [bytes set_bytes] in He. pose proof (record_length_bounds e).
  assert (apart t 256 r 512) as Hap.
  { pose proof (ui_apart _ _ I). unfold apart, content_length in *. lia. }
  destruct (copy_open_name_ok m r e He Hap) as [Hc Hs].
  unfold on_bytes, zoom, modify. cbn [bind_result fst snd bytes set_bytes].
  set (m' := copy_open_name t r m) in *.
  assert (same_outside ustar_scratch (bytes s) m') as Hm' by (by eapply same_outside_trans).
  rewrite (kstrcmp_cstr m' t q [] path 256); [|done| |lia|cbn; lia|done].
  2: { eapply (cstr_at_frame ustar_scratch (bytes s)); done. }
  cbn [bind_result fst snd].
  assert (strncmp_spec [] path 256 = false) as ->.
  { unfold strncmp_spec. cbn [Z.eqb]. apply bool_decide_eq_false. intros Ee.
    destruct path; [done|]. done. }
  cbn. split; [|lia]. split; [lia|]. exists m'. done.
Qed.

(** No slot of the table is free. *)
Definition table_full (s : ustate) : Prop := ∀ j, 0 ≤ j < 512 → is_Some (ustar_opened s j).

Lemma opened_nonzero g s (i : nat) p : ustar_inv g s →
  open_files s !! i = Some p → p ≠ 0 → is_Some (ustar_opened s (Z.of_nat i)).
Proof.
  intros I Hp H0. destruct (ui_desc _ _ I i p Hp H0) as (r & e & _ & Hd).
  unfold ustar_opened. rewrite (proj2 (Z.ltb_ge _ _)), Nat2Z.id by lia.
  rewrite Hp, (proj2 (Z.eqb_neq _ _) H0), Hd. cbn. done.
Qed.

Lemma find_open_id_ok g s : ustar_inv g s →
  runs find_open_id s (λ id s', s' = s ∧
    (id = -1 ∧ table_full s ∨ 0 ≤ id < 512 ∧ open_files s !! Z.to_nat id = Some 0)).
Proof.
  intros I. unfold find_open_id.
  apply (runs_loop open_id_round (λ i s', s' = s ∧ 0 ≤ i ≤ 512 ∧
    ∀ j, 0 ≤ j < i → is_Some (ustar_opened s j)) (λ i _, 512 - i));
    [|split_and!; [done|lia|lia|lia]|lia].
  intros i s' (-> & Hi & Hfull). unfold open_id_round, MAX_USTAR_OPEN_FILES. case_if.
  2: { cbn. split; [done|]. left. split; [done|]. intros j Hj. apply Hfull. lia. }
  destruct (lookup_lt_is_Some_2 (open_files s) (Z.to_nat i)) as [p Hp].
  { rewrite (ui_table _ _ I). lia. }
  unfold runs, mbind, M_bind.
  assert (open_file i s = Ok (p, s)) as ->.
  { rewrite <- (Z2Nat.id i) by lia. by apply open_file_ok. }
  cbn [bind_result fst snd]. destruct (p =? 0) eqn:E0; bool_to_prop; cbn.
  - subst p. split; [done|]. right. split; [lia|done].
  - split; [|lia]. split_and!; [done|lia|lia|]. intros j Hj.
    destruct (decide (j = i)) as [->|]; [|apply Hfull; lia].
    rewrite <- (Z2Nat.id i) by lia. by eapply opened_nonzero.
Qed.

(** A descriptor is put into a free slot. *)
Lemma open_slot_ok g s B p r e id :
  ustar_inv g s → heap_ok (heap s) B → (∀ (i : nat) x, open_files s !! i = Some x → x ≠ 0 → x ∈ B ∧ x ≠ p) →
  p ∈ B → 0 < p → (r, e) ∈ records (v_start g) (v_files g) →
  0 ≤ id < 512 → open_files s !! Z.to_nat id = Some 0 →
  let s' := set_open_files (<[Z.to_nat id := p]> (open_files s))
              (set_descriptors (<[p := FileDescriptor r 1 (content_length e)]> (descriptors s)) s) in
  ustar_inv g s' ∧ open_as g s' id p r e ∧
  ∀ j, j ≠ id → ustar_opened s' j = ustar_opened s j.
Proof.
  intros I HB Hfresh Hp Hpos Hr Hid Hslot s'.
  assert (Z.to_nat id < length (open_files s))%nat as Hlt by (rewrite (ui_table _ _ I); lia).
  assert (ustar_inv g s') as I'.
  { split; try apply I.
    - cbn. rewrite length_insert. apply I.
    - exists B. split; [done|]. intros i x Hx Hx0. cbn in Hx.
      apply list_lookup_insert_Some in Hx as [(_ & <- & _)|[_ Hx]]; [done|].
      by destruct (Hfresh _ _ Hx Hx0).
    - intros i x Hx Hx0. cbn in Hx |- *.
      apply list_lookup_insert_Some in Hx as [(_ & <- & _)|[_ Hx]].
      + exists r, e. by rewrite lookup_insert_eq.
      + destruct (Hfresh _ _ Hx Hx0) as [_ Hne]. rewrite lookup_insert_ne by done.
        by apply (ui_desc _ _ I _ _ Hx).
    - intros i j x Hx Hy Hx0. cbn in Hx, Hy.
      apply list_lookup_insert_Some in Hx as [(<- & <- & _)|[_ Hx]];
        apply list_lookup_insert_Some in Hy as [(Hj & Hy & _)|[_ Hy]]; try done.
      + by destruct (Hfresh _ _ Hy Hx0).
      + subst x. by destruct (Hfresh _ _ Hx Hx0).
      + by apply (ui_inj _ _ I i j x). }
  destruct (record_at _ _ _ _ _ (ui_archive _ _ I) Hr) as (He & Hrange).
  split_and!; [done| |].
  - split; try done; cbn; [by apply list_lookup_insert_eq|lia|by rewrite lookup_insert_eq].
  - intros j Hj. unfold ustar_opened. destruct (j <? 0) eqn:Ej; [done|]. bool_to_prop. cbn.
    rewrite list_lookup_insert_ne by lia.
    destruct (open_files s !! Z.to_nat j) as [x|] eqn:Ex; [|done].
    destruct (x =? 0) eqn:E0; [done|]. bool_to_prop.
    destruct (Hfresh _ _ Ex E0) as [_ Hne]. by rewrite lookup_insert_ne by done.
Qed.

Lemma ustar_inv_heap g s h B : ustar_inv g s → heap_ok h B →
  (∀ (i : nat) p, open_files s !! i = Some p → p ≠ 0 → p ∈ B) → ustar_inv g (set_heap h s).
Proof. intros I HB Hin. destruct I. split; try done. by exists B. Qed.

(** The rest of [ustar_open] once the record is known. *)
Lemma open_record_ok g s path r e :
  ustar_inv g s → find_file (v_start g) (v_files g) path = Some (r, e) →
  safe (file_descriptor ← on_heap (heap_alloc sizeof_ustar_file_descriptor);
        id ← find_open_id;
        if id =? -1 then mret (-1)
        else
          sz ← on_bytes (oct_ascii_to_dec (file_size r) 12);
          set_descriptor file_descriptor (FileDescriptor r 1 (s64 sz));;
          set_open_file id file_descriptor;;
          mret id) s (λ id s',
    ustar_inv g s' ∧ bytes s' = bytes s ∧
    (∀ j, j ≠ id → ustar_opened s' j = ustar_opened s j) ∧
    (id = -1 ∧ table_full s ∨ ustar_opened s id = None ∧ ∃ p, open_as g s' id p r e)).
Proof.
  intros I Hf. destruct (ui_heap _ _ I) as (B & HB & Hin).
  apply find_file_records in Hf as [Hr _].
  destruct (record_at _ _ _ _ _ (ui_archive _ _ I) Hr) as (He & Hrange).
  apply safe_bind. unfold on_heap at 1. apply safe_zoom.
  eapply safe_mono; [apply (heap_alloc_ok _ B); [done|unfold sizeof_ustar_file_descriptor; lia]|].
  intros p h (Hp & HpB & Hh & _).
  assert (ustar_inv g (set_heap h s)) as I1.
  { apply (ustar_inv_heap g s h _ I Hh). intros i x Hx Hx0. set_solver. }
  apply safe_bind, runs_safe. eapply runs_mono; [by apply (find_open_id_ok g)|].
  intros id s1 (-> & Hid). apply runs_safe. destruct Hid as [[-> Hfull]|[Hid Hslot]].
  { cbn. split_and!; try done. by left. }
  rewrite (proj2 (Z.eqb_neq _ _)) by lia. apply runs_bind.
  eapply runs_ok.
  { unfold on_bytes, zoom. cbn [bytes set_heap]. rewrite (entry_size_read _ _ _ He). reflexivity. }
  cbn [fst snd]. pose proof (entry_size_fits _ _ _ He).
  rewrite s64_small by (unfold content_length in *; lia).
  apply runs_bind. eapply runs_ok; [reflexivity|]. apply runs_bind.
  eapply runs_ok; [apply set_open_file_ok; cbn; rewrite (ui_table _ _ I); lia|]. apply runs_ret.
  destruct (open_slot_ok g (set_heap h s) ({[p]} ∪ B) p r e id I1 Hh) as (I2 & O2 & F2); try done || lia.
  { intros i x Hx Hx0. cbn in Hx. split; [set_solver|]. intros ->. by apply HpB, (Hin i). }
  { set_solver. }
  split_and!; [exact I2|done| |].
  - intros j Hj. by apply F2.
  - right. split; [|by exists p]. cbn in Hslot. unfold ustar_opened.
    rewrite (proj2 (Z.ltb_ge _ _)) by lia. by rewrite Hslot.
Qed.

Lemma ustar_open_ok g s q path flags :
  ustar_inv g s → cstr_at (bytes s) q path → path ≠ [] → Z.of_nat (length path) < 2 ^ 32 →
  (∀ x, q ≤ x ≤ q + Z.of_nat (length path) → ¬ ustar_scratch x) →
  safe (ustar_open t q flags) s (λ id s',
    ustar_inv g s' ∧ same_outside ustar_scratch (bytes s) (bytes s') ∧
    (∀ j, j ≠ id → ustar_opened s' j = ustar_opened s j) ∧
    match find_file (v_start g) (v_files g) path with
    | None => id = -1
    | Some (r, e) => id = -1 ∧ table_full s ∨
        ustar_opened s id = None ∧ ∃ p, open_as g s' id p r e
    end).
Proof.
  intros I Hq Hne Hlen Hsc. unfold ustar_open. apply safe_bind, runs_safe.
  eapply runs_mono; [by eapply not_already_open|]. intros id s1 (-> & m1 & -> & Hm1).
  change (-1 >? -1) with false. cbv iota.
  assert (∀ x, ustar_scratch x → ¬ ustar_private g x) as Hsp.
  { intros x Hx Hp. pose proof (ui_apart _ _ I).
    unfold ustar_scratch, ustar_private, in_range, apart in *. lia. }
  destruct (ustar_inv_bytes g s m1 ustar_scratch I Hm1 Hsp) as [I1 O1].
  apply safe_bind. unfold tar_file_lookup. apply safe_bind, safe_gets.
  rewrite (ui_start _ _ I1). cbn [set_bytes tar_fs_start_address].
  assert (runs (loop (lookup_round t q) (0, v_start g)) m1 (λ a m',
    same_outside (in_range t 256) m1 m' ∧
    a = match find_file (v_start g) (v_files g) path with Some (a, _) => a | None => 0 end)) as Hlk.
  { assert (cstr_at m1 q path) as Hq1 by (by eapply (cstr_at_frame ustar_scratch (bytes s))).
    pose proof (ui_bounds _ _ I). apply lookup_loop_ok; try done.
    - apply I1.
    - lia.
    - apply I.
    - destruct (Z.le_gt_cases (t + 256) q); [by left|]. right.
      destruct (Z.le_gt_cases (q + (Z.of_nat (length path) + 1)) t); [lia|]. exfalso.
      apply (Hsc (Z.max t q)); [lia|]. unfold ustar_scratch, in_range. lia. }
  apply runs_inv in Hlk as (a & m2 & Hrun & Hm2 & Ha). apply runs_safe.
  eapply runs_ok.
  { unfold on_bytes, zoom. cbn [bytes set_bytes]. rewrite Hrun. reflexivity. }
  cbn [fst snd]. rewrite set_bytes_twice. clear Hrun.
  assert (same_outside ustar_scratch (bytes s) m2) as Hm by (by eapply same_outside_trans).
  destruct (ustar_inv_bytes g s m2 ustar_scratch I Hm Hsp) as [I2 O2].
  destruct (find_file _ _ path) as [[r e]|] eqn:Ef; subst a.
  - assert ((r =? 0) = false) as ->.
    { destruct (record_at _ _ _ _ _ (ui_archive _ _ I) (proj1 (find_file_records _ _ _ _ _ Ef))) as (_ & ? & _).
      pose proof (ui_bounds _ _ I). apply Z.eqb_neq. lia. }
    eapply safe_mono; [exact (open_record_ok g _ path r e I2 Ef)|]. cbn beta.
    intros id s' (I3 & Hb & Ho & Hid). split_and!; [done| | |].
    + rewrite Hb. done.
    + intros j Hj. by rewrite Ho, O2.
    + destruct Hid as [[-> Hfull]|[Hn Hid]]; [left|right; by rewrite <- O2].
      split; [done|]. intros j Hj. rewrite <- O2. by apply Hfull.
  - cbn. split_and!; done.
Qed.

Lemma ustar_read_ok g s id C buf n off :
  ustar_inv g s → ustar_opened s id = Some C → 0 ≤ n < 2 ^ 63 → 0 ≤ off < 2 ^ 63 →
  (∀ x, in_range buf n x → ¬ ustar_private g x) →
  runs (ustar_read id buf n off) s (λ r s',
    let chunk := take (Z.to_nat n) (drop (Z.to_nat off) C) in
    ustar_inv g s' ∧ r = Z.of_nat (length chunk) ∧ bytes_at (bytes s') buf chunk ∧
    same_outside (in_range buf r) (bytes s) (bytes s') ∧
    (∀ j, ustar_opened s' j = ustar_opened s j)).
Proof.
  intros I HC Hn Hoff Hbuf. destruct (opened_as g s id C I HC) as (p & r & e & O & ->).
  pose proof (oa_range _ _ _ _ _ _ O) as Hr. pose proof (record_length_bounds e).
  pose proof (ui_bounds _ _ I). pose proof (archive_length_pos (v_files g)).
  assert (0 ≤ content_length e) by (unfold content_length; lia).
  unfold ustar_read. apply runs_bind. eapply runs_ok; [by eapply open_file_as|].
  rewrite (proj2 (Z.eqb_neq _ _) (oa_ptr _ _ _ _ _ _ O)). apply runs_bind.
  eapply runs_ok; [apply descriptor_ok, O|]. cbn [size header].
  rewrite u64_small by lia. case_if.
  { cbn. unfold content_length in *. rewrite drop_ge, take_nil by lia. cbn.
    split_and!; done. }
  rewrite (u64_small (r + 512)), u64_small by lia. apply runs_zoom.
  eapply runs_mono; [apply read_loop_ok; try lia|].
  { intros x Hx Hc. apply (Hbuf x Hx). unfold ustar_private, in_range in *. lia. }
  cbn beta. intros k m (Hk & Hm).
  assert (same_outside (in_range buf k) (bytes s) m) as Hs.
  { intros x Hx. by rewrite Hm, decide_False. }
  destruct (ustar_inv_bytes g s m (in_range buf k) I Hs) as [I' O'].
  { intros x Hx. apply Hbuf. unfold in_range in *. lia. }
  assert (k = Z.of_nat (length (take (Z.to_nat n) (drop (Z.to_nat off) (e_content e))))) as Hlen.
  { rewrite length_take, length_drop. unfold content_length in *. lia. }
  split_and!; [done|done| |done|done].
  cbn [bytes set_bytes]. intros i c Hi. pose proof (lookup_lt_Some _ _ _ Hi).
  rewrite Hm, decide_True by (unfold in_range; lia).
  rewrite lookup_take_lt in Hi by (rewrite length_take in *; lia). rewrite lookup_drop in Hi.
  rewrite <- (entry_content _ _ _ (oa_entry _ _ _ _ _ _ O) _ _ Hi). f_equal. lia.
Qed.

Lemma ustar_close_ok g s id C :
  ustar_inv g s → ustar_opened s id = Some C →
  runs (ustar_close id) s (λ r s',
    ustar_inv g s' ∧ r = 0 ∧ bytes s' = bytes s ∧ ustar_opened s' id = None ∧
    (∀ j, j ≠ id → ustar_opened s' j = ustar_opened s j)).
Proof.
  intros I HC. destruct (opened_as g s id C I HC) as (p & r & e & O & ->).
  destruct (ui_heap _ _ I) as (B & HB & Hin). pose proof (oa_id _ _ _ _ _ _ O) as Hid.
  pose proof (oa_slot _ _ _ _ _ _ O) as Hslot. pose proof (oa_ptr _ _ _ _ _ _ O) as Hp.
  unfold ustar_close. apply runs_bind. eapply runs_ok; [by eapply open_file_as|].
  apply runs_bind. eapply runs_ok; [apply descriptor_ok, O|]. cbn [size header references].
  change (u16 (1 - 1)) with 0. change (0 <? 1) with true. cbv iota.
  apply runs_bind. eapply runs_ok; [reflexivity|]. apply runs_bind, runs_bind.
  apply runs_zoom. cbn [heap set_descriptors].
  eapply runs_mono; [by apply (heap_free_ok _ B); [|apply (Hin (Z.to_nat id))]|].
  cbn beta; intros [] h [Hh _]. apply runs_bind. eapply runs_ok; [reflexivity|].
  eapply runs_ok; [apply set_open_file_ok; cbn; rewrite (ui_table _ _ I); lia|].
  apply runs_ret. cbn. rewrite delete_insert_eq.
  set (s' := set_open_files _ _).
  assert (∀ (i : nat) x, open_files s' !! i = Some x → x ≠ 0 →
    open_files s !! i = Some x ∧ x ≠ p ∧ i ≠ Z.to_nat id) as Hold.
  { intros i x Hx Hx0. cbn in Hx.
    apply list_lookup_insert_Some in Hx as [(<- & <- & _)|[Hne Hx]]; [done|].
    split_and!; [done| |congruence]. intros ->. apply Hne. by apply (ui_inj _ _ I _ _ p). }
  split_and!; try done.
  - split; try apply I.
    + cbn. rewrite length_insert. apply I.
    + exists (B ∖ {[p]}). split; [done|]. intros i x Hx Hx0.
      destruct (Hold i x Hx Hx0) as (Hx' & Hxp & _). pose proof (Hin i x Hx' Hx0). set_solver.
    + intros i x Hx Hx0. destruct (Hold i x Hx Hx0) as (Hx' & Hxp & _).
      cbn. rewrite lookup_delete_ne by done. by apply (ui_desc _ _ I i).
    + intros i j x Hx Hy Hx0. apply (ui_inj _ _ I i j x); [by apply Hold|by apply Hold|done].
  - unfold ustar_opened. rewrite (proj2 (Z.ltb_ge _ _)) by lia. cbn.
    rewrite list_lookup_insert_eq by (rewrite (ui_table _ _ I); lia). done.
  - intros j Hj. unfold ustar_opened. destruct (j <? 0) eqn:Ej; [done|]. bool_to_prop. cbn.
    rewrite list_lookup_insert_ne by lia.
    destruct (open_files s !! Z.to_nat j) as [x|] eqn:Ex; [|done].
    destruct (x =? 0) eqn:E0; [done|]. bool_to_prop. rewrite lookup_delete_ne; [done|].
    intros ->. assert (Z.to_nat j = Z.to_nat id) by (by apply (ui_inj _ _ I _ _ x)). lia.
Qed.

Lemma ustar_size_ok g s id C :
  ustar_inv g s → ustar_opened s id = Some C →
  ustar_get_file_size id s = Ok (Z.of_nat (length C), s).
Proof.
  intros I HC. destruct (opened_as g s id C I HC) as (p & r & e & O & ->).
  unfold ustar_get_file_size, mbind, M_bind. rewrite (open_file_as g _ _ _ _ _ O).
  cbn [bind_result fst snd]. by rewrite (descriptor_ok _ _ _ (oa_desc _ _ _ _ _ _ O)).
Qed.

(** Before [ustar_set_start_address]: the archive is in place, no file is open. *)
Record ustar_loaded (g : volume) (a : Z) (s : ustate) : Prop := {
  ul_start : a = v_start g;
  ul_archive : archive (bytes s) (v_start g) (v_files g);
  ul_bounds : 0 < v_start g ∧ v_start g + archive_length (v_files g) < 2 ^ 62;
  ul_apart : apart t 256 (v_start g) (archive_length (v_files g));
  ul_table : open_files s = replicate 512 0;
  ul_heap : ∃ B, heap_ok (heap s) B;
}.

Lemma ustar_start_ok g a s : ustar_loaded g a s →
  runs (ustar_set_start_address a) s (λ _ s',
    ustar_inv g s' ∧ bytes s' = bytes s ∧ ∀ j, ustar_opened s' j = None).
Proof.
  intros [-> Ha Hb Hap Ht [B HB]]. unfold runs. cbn.
  assert (∀ (i : nat) p, open_files s !! i = Some p → p = 0) as H0.
  { intros i p. rewrite Ht. by intros [-> _]%lookup_replicate. }
  split_and!; [|done|].
  - split; cbn; try done.
    + by rewrite Ht, length_replicate.
    + exists B. split; [done|]. intros i p Hp Hp0. by destruct (Hp0 (H0 i p Hp)).
    + intros i p Hp Hp0. by destruct (Hp0 (H0 i p Hp)).
    + intros i j p Hp _ Hp0. by destruct (Hp0 (H0 i p Hp)).
  - intros j. unfold ustar_opened. cbn. case_if; [done|].
    destruct (open_files s !! _) as [p|] eqn:Ep; [|done]. by rewrite (H0 _ p Ep).
Qed.

Lemma loaded_inv g s : ustar_loaded g (tar_fs_start_address s) s → ustar_inv g s.
Proof. destruct s. intros H. by apply (ustar_start_ok g) in H as [H _]. Qed.

Lemma ustar_kalloc_ok g s n : ustar_inv g s → 0 ≤ n ≤ 2 ^ 32 →
  safe (on_heap (heap_alloc n)) s (λ p s',
    0 < p ∧ ustar_inv g s' ∧ bytes s' = bytes s ∧ ∀ j, ustar_opened s' j = ustar_opened s j).
Proof.
  intros I Hn. destruct (ui_heap _ _ I) as (B & HB & Hin). apply safe_zoom.
  eapply safe_mono; [by apply (heap_alloc_ok _ B)|]. intros p h (Hp & _ & Hh & _).
  split_and!; [lia| |done|done]. apply (ustar_inv_heap g s h _ I Hh).
  intros i x Hx Hx0. pose proof (Hin i x Hx Hx0). set_solver.
Qed.

(** *** The tar file system keeps the contract of [Fs] *)

#[global] Instance ustar_ops : FsOps ustate := {|
  fs_open := ustar_open t;
  fs_close := ustar_close;
  fs_read := ustar_read;
  fs_get_file_size := ustar_get_file_size;
  fs_read_dir := ustar_read_dir t empty pathes0;
  fs_set_start_address := ustar_set_start_address;
  fs_kalloc n := on_heap (heap_alloc n);
  fs_bytes := bytes;
  fs_set_bytes := set_bytes;
|}.

#[global] Instance ustar_view : FsView ustate := {|
  fs_volume := volume;
  fs_loaded := ustar_loaded;
  fs_inv := ustar_inv;
  fs_find g path := (λ r, e_content (snd r)) <$> find_file (v_start g) (v_files g) path;
  fs_opened := ustar_opened;
  fs_capacity := 512;
  fs_private := ustar_private;
  fs_scratch _ := ustar_scratch;
|}.

#[global] Instance ustar_laws : FsLaws ustate.
Proof.
  split.
  - intros. by apply ustar_start_ok.
  - intros. by apply ustar_kalloc_ok.
  - intros g s q path flags I Hq Hne Hlen Hsc. cbn.
    eapply safe_mono; [by apply (ustar_open_ok g)|]. cbn beta.
    intros id s' (I' & Hs & Ho & Hf). cbn.
    destruct (find_file _ _ path) as [[r e]|]; cbn; split_and!; try done; try by left.
    + destruct Hf as [[-> _]|[Hn [p O]]]; [by left|right]. pose proof (oa_id _ _ _ _ _ _ O).
      split_and!; [lia|lia|done|]. exists (e_content e). split; [done|]. by eapply as_opened.
    + intros ->. right. destruct Hf as [[_ Hfull]|[_ [p O]]]; [done|].
      pose proof (oa_id _ _ _ _ _ _ O). lia.
  - intros. by apply ustar_read_ok.
  - intros. by apply (ustar_close_ok g s id C).
  - intros. by apply (ustar_size_ok g).
  - intros g s m P I Hs HP. destruct (ustar_inv_bytes g s m P I Hs HP). by split_and!.
  - intros g s id C I HC. destruct (opened_as g s id C I HC) as (p & r & e & O & ->).
    pose proof (oa_id _ _ _ _ _ _ O). pose proof (entry_size_fits _ _ _ (oa_entry _ _ _ _ _ _ O)).
    unfold content_length in *. lia.
Qed.

(** ** Theorems *)

(** [tar_file_lookup] walks the records of an archive in memory and returns:
    the address of the first record whose name, with backslashes read as slashes,
    is the path it is given, or NULL when no record has that name.  Nothing but
    its local array is written. *)
Theorem tar_file_lookup_correct (s : ustate) (q : Z) (path : list Z) (es : list tar_entry) :
  archive (bytes s) (tar_fs_start_address s) es →
  0 < tar_fs_start_address s → tar_fs_start_address s + archive_length es < 2 ^ 64 →
  apart t 256 (tar_fs_start_address s) (archive_length es) →
  cstr_at (bytes s) q path → apart t 256 q (Z.of_nat (length path) + 1) →
  Z.of_nat (length path) < 2 ^ 32 →
  runs (tar_file_lookup t q) s (λ r s',
    r = match find_file (tar_fs_start_address s) es path with Some (a, _) => a | None => 0 end ∧
    ∃ m, s' = set_bytes m s ∧ same_outside (in_range t 256) (bytes s) m).
Proof.
  intros Ha H0 Hb Hap Hq Hqa Hlen. unfold tar_file_lookup. apply runs_bind.
  apply runs_ok with (a := tar_fs_start_address s) (s' := s); [done|]. apply runs_zoom.
  eapply runs_mono; [by eapply lookup_loop_ok|]. cbn beta. intros a m [Hs ->]. by eauto.
Qed.

(** [ustar_open] on a table of open files in order: it returns, or panics
    when the heap is exhausted.  The id it returns was free and now stands for
    the contents of the first record of that path, and every other id stands for
    what it stood for; it returns -1 exactly when the archive has no such record
    or all 512 ids are in use.  The invariant is kept, and no memory but the
    local array is written. *)
Theorem ustar_open_correct (g : volume) (s : ustate) (q : Z) (path : list Z) (flags : Z) :
  ustar_inv g s → cstr_at (bytes s) q path → path ≠ [] → Z.of_nat (length path) < 2 ^ 32 →
  (∀ x, q ≤ x ≤ q + Z.of_nat (length path) → ¬ in_range t 256 x) →
  safe (ustar_open t q flags) s (λ id s',
    ustar_inv g s' ∧ same_outside (in_range t 256) (bytes s) (bytes s') ∧
    (∀ j, j ≠ id → ustar_opened s' j = ustar_opened s j) ∧
    match find_file (v_start g) (v_files g) path with
    | None => id = -1
    | Some (r, e) =>
        id = -1 ∧ table_full s ∨
        0 ≤ id < 512 ∧ ustar_opened s id = None ∧ ustar_opened s' id = Some (e_content e)
    end).
Proof.
  intros I Hq Hne Hlen Hsc. eapply safe_mono; [by apply (ustar_open_ok g)|]. cbn beta.
  intros id s' (I' & Hs & Ho & Hf). split_and!; try done.
  destruct (find_file _ _ path) as [[r e]|]; [|done].
  destruct Hf as [?|[Hn [p O]]]; [by left|right]. split_and!; [apply O..|done|by eapply as_opened].
Qed.

(** Open a file, read [n] bytes at [off] into [buf], close it. *)
Definition read_file (q buf n off : Z) : M ustate (option Z) :=
  id ← ustar_open t q 0;
  if id =? -1 then mret None
  else
    k ← ustar_read id buf n off;
    ustar_close id;;
    mret (Some k).

(** [C23] Opening a file, reading at any offset and closing it gives the bytes of
    the file that are there: the count is their number, the buffer holds them,
    and nothing outside that part of the buffer and the local array changes.
    Afterwards the table of open files is what it was. *)
Theorem ustar_read_file_correct (g : volume) (s : ustate) (q buf n off : Z) (path : list Z)
    (r : Z) (e : tar_entry) :
  ustar_inv g s → cstr_at (bytes s) q path → path ≠ [] → Z.of_nat (length path) < 2 ^ 32 →
  (∀ x, q ≤ x ≤ q + Z.of_nat (length path) → ¬ in_range t 256 x) →
  0 ≤ n < 2 ^ 63 → 0 ≤ off < 2 ^ 63 → (∀ x, in_range buf n x → ¬ ustar_private g x) →
  find_file (v_start g) (v_files g) path = Some (r, e) →
  safe (read_file q buf n off) s (λ res s',
    let chunk := take (Z.to_nat n) (drop (Z.to_nat off) (e_content e)) in
    ustar_inv g s' ∧ (∀ j, ustar_opened s' j = ustar_opened s j) ∧
    match res with
    | None => table_full s
    | Some k => k = Z.of_nat (length chunk) ∧ bytes_at (bytes s') buf chunk ∧
        same_outside (λ x, in_range t 256 x ∨ in_range buf k x) (bytes s) (bytes s')
    end).
Proof.
  intros I Hq Hne Hlen Hsc Hn Hoff Hbuf Hf. unfold read_file. apply safe_bind.
  eapply safe_mono; [by apply (ustar_open_ok g)|]. cbn beta. rewrite Hf.
  intros id s1 (I1 & Hs1 & Ho1 & [[-> Hfull]|[Hnone [p O]]]).
  { cbn. split_and!; [done| |done]. intros j. destruct (decide (j = -1)) as [->|]; [done|by apply Ho1]. }
  pose proof (oa_id _ _ _ _ _ _ O) as Hid. rewrite (proj2 (Z.eqb_neq _ _)) by lia.
  apply safe_bind, runs_safe.
  eapply runs_mono; [apply (ustar_read_ok g); [done|by eapply as_opened|done..]|]. cbn beta zeta.
  intros k s2 (I2 & Hk & Hb & Hs2 & Ho2). apply runs_safe. apply runs_bind.
  eapply runs_mono; [apply (ustar_close_ok g _ id (e_content e)); [done|rewrite Ho2; by eapply as_opened]|].
  cbn beta. intros _ s3 (I3 & _ & Hb3 & Hid3 & Ho3). apply runs_ret. split_and!; [done| |done| |].
  - intros j. destruct (decide (j = id)) as [->|Hj]; [by rewrite Hid3|].
    by rewrite Ho3, Ho2, Ho1.
  - by rewrite Hb3.
  - rewrite Hb3. intros x Hx. rewrite Hs2, Hs1; [done|..]; intros Hr; apply Hx; auto.
Qed.

End correct.

(** ** Instances *)

(** Deciding whether memory holds an archive. *)
Definition bytes_check (m : gmap Z Z) (p : Z) (l : list Z) : bool :=
  forallb (λ i, bool_decide (byte m (p + Z.of_nat i) = default 0 (l !! i))) (seq 0 (length l)).
Definition cstr_check (m : gmap Z Z) (p : Z) (l : list Z) : bool :=
  bytes_check m p (l ++ [0]) && forallb (λ c, negb (c =? 0)) l.
Definition entry_check (m : gmap Z Z) (a : Z) (e : tar_entry) : bool :=
  cstr_check m (filename a) (e_name e) && bool_decide (e_name e ≠ []) &&
  (length (e_name e) <=? 99)%nat && (byte m (filename_prefix a) =? 0) &&
  bytes_check m (file_size a + 1) (oct_digits 10 (content_length e)) &&
  (content_length e <? 8 ^ 10) && bytes_check m (a + 512) (e_content e).
Fixpoint archive_check (m : gmap Z Z) (a : Z) (es : list tar_entry) : bool :=
  match es with
  | [] => is_zeroed m a
  | e :: es' => entry_check m a e && archive_check m (a + record_length e) es'
  end.

Lemma cstr_check_ok m p l : cstr_check m p l = true → cstr_at m p l.
Proof.
  intros [Hb Hl]%andb_true_iff. split; [by apply bytes_at_check|].
  apply list.Forall_forall. intros c Hc. rewrite forallb_forall in Hl.
  apply list_elem_of_In, Hl in Hc. by bool_to_prop.
Qed.

Lemma entry_check_ok m a e : entry_check m a e = true → entry_at m a e.
Proof.
  intros H. unfold entry_check in H. bool_to_prop.
  split; [by apply cstr_check_ok|done|by apply Nat.leb_le|done|by apply bytes_at_check|done|by apply bytes_at_check].
Qed.

Lemma zeroed_loop_true n m a : zeroed_loop n m a = true →
  ∀ i, 0 ≤ i < Z.of_nat n → byte m (a + i) = 0.
Proof.
  revert a. induction n as [|n IH]; intros a H i Hi; [lia|]. cbn [zeroed_loop] in H.
  destruct (byte m a =? 0) eqn:E; [|done]. cbn [negb] in H. bool_to_prop.
  destruct (decide (i = 0)) as [->|]; [by rewrite Z.add_0_r|].
  rewrite <- (IH (a + 1) H (i - 1)) by lia. f_equal. lia.
Qed.

Lemma archive_check_ok m a es : archive_check m a es = true → archive m a es.
Proof.
  revert a. induction es as [|e es IH]; intros a H; cbn [archive_check archive] in *.
  - intros i Hi. by apply (zeroed_loop_true 512).
  - bool_to_prop. split; [by apply entry_check_ok|by apply IH].
Qed.

(** An archive of two files at 4096, a path and a buffer in low memory. *)
Definition put (p : Z) (l : list Z) (m : gmap Z Z) : gmap Z Z :=
  list_to_map (zip (seqZ p (Z.of_nat (length l))) l) ∪ m.
Definition put_entry (a : Z) (e : tar_entry) (m : gmap Z Z) : gmap Z Z :=
  put (filename a) (e_name e) (put (file_size a) (48 :: oct_digits 10 (content_length e))
    (put (a + 512) (e_content e) m)).

Definition file_hi : tar_entry := TarEntry [104; 105] [72; 101; 108; 108; 111].
Definition file_dir_a : tar_entry := TarEntry [100; 92; 97] [1; 2; 3].
Definition demo_files : list tar_entry := [file_hi; file_dir_a].
Definition demo_volume : volume := Volume 4096 demo_files.
(** "d/a", the path of the second file, at 200 *)
Definition demo_bytes : gmap Z Z :=
  put_entry 4096 file_hi (put_entry (4096 + record_length file_hi) file_dir_a
    (put 200 [100; 47; 97; 0] ∅)).
Definition demo_names : Z := 1024.
Definition demo_ustate : ustate := UState demo_space demo_bytes 4096 ∅ (replicate 512 0).

Lemma demo_archive : archive demo_bytes 4096 demo_files.
Proof. apply archive_check_ok. vm_compute. reflexivity. Qed.

Lemma demo_path : cstr_at demo_bytes 200 [100; 47; 97].
Proof. apply cstr_check_ok. vm_compute. reflexivity. Qed.

Lemma demo_loaded : ustar_loaded demo_names demo_volume 4096 demo_ustate.
Proof.
  split; [done|exact demo_archive|vm_compute; done|left; vm_compute; done|done|].
  exists ∅. exact demo_heap_ok.
Qed.

Lemma demo_ustar_inv : ustar_inv demo_names demo_volume demo_ustate.
Proof. exact (loaded_inv demo_names demo_volume demo_ustate demo_loaded). Qed.

Lemma tar_file_lookup_correct_witness :
  runs (tar_file_lookup demo_names 200) demo_ustate (λ r s',
    r = match find_file 4096 demo_files [100; 47; 97] with Some (a, _) => a | None => 0 end ∧
    ∃ m, s' = set_bytes m demo_ustate ∧ same_outside (in_range demo_names 256) demo_bytes m).
Proof.
  apply (tar_file_lookup_correct demo_names demo_ustate 200 [100; 47; 97] demo_files
    demo_archive); [done|vm_compute; done|left; vm_compute; done|exact demo_path|right; vm_compute; done|done].
Defined.

Lemma ustar_open_correct_witness :
  safe (ustar_open demo_names 200 0) demo_ustate (λ id s',
    ustar_inv demo_names demo_volume s' ∧
    same_outside (in_range demo_names 256) demo_bytes (bytes s') ∧
    (∀ j, j ≠ id → ustar_opened s' j = ustar_opened demo_ustate j) ∧
    match find_file 4096 demo_files [100; 47; 97] with
    | None => id = -1
    | Some (r, e) =>
        id = -1 ∧ table_full demo_ustate ∨
        0 ≤ id < 512 ∧ ustar_opened demo_ustate id = None ∧ ustar_opened s' id = Some (e_content e)
    end).
Proof.
  apply (ustar_open_correct demo_names demo_volume demo_ustate 200 [100; 47; 97] 0
    demo_ustar_inv demo_path); [done|done|].
  intros x Hx. unfold in_range, demo_names. cbn in Hx. lia.
Defined.

Lemma ustar_read_file_correct_witness :
  safe (read_file demo_names 200 300 2 1) demo_ustate (λ res s',
    let chunk := take (Z.to_nat 2) (drop (Z.to_nat 1) [1; 2; 3]) in
    ustar_inv demo_names demo_volume s' ∧
    (∀ j, ustar_opened s' j = ustar_opened demo_ustate j) ∧
    match res with
    | None => table_full demo_ustate
    | Some k => k = Z.of_nat (length chunk) ∧ bytes_at (bytes s') 300 chunk ∧
        same_outside (λ x, in_range demo_names 256 x ∨ in_range 300 k x) demo_bytes (bytes s')
    end).
Proof.
  apply (ustar_read_file_correct demo_names demo_volume demo_ustate 200 300 2 1 [100; 47; 97]
    5120 file_dir_a demo_ustar_inv demo_path); try done.
  - intros x Hx. unfold in_range, demo_names. cbn in Hx. lia.
  - intros x Hx. unfold ustar_private, in_range in *. cbn. lia.
Defined.
