(* ===== verification/Listing.v ===== *)
(** * [ustar_read_dir]: listing a directory of the archive

    The functions of [ustar.c] that build a directory listing work in place on
    copies of the names in blocks of memory.  This file gives them a
    specification on lists of characters ([strip], [search], [collect],
    [listing]), proves for each function that the code on memory computes it, and
    shows what a listing of the root directory consists of.  [ListingCorrect]
    puts the functions together with the heap. *)

From S2P Require Import Prelude Machine Util Heap Ustar UstarCorrect.

(** ** The specification *)

(** A path without the slash it may start with. *)
Definition no_slash (s : list Z) : list Z :=
  match s with c :: r => if c =? 47 then r else s | [] => [] end.

(** The characters before the first slash. *)
Fixpoint component (s : list Z) : list Z :=
  match s with [] => [] | c :: r => if c =? 47 then [] else c :: component r end.

(** What is left of a name behind its common part with a directory. *)
Fixpoint past_common (name dir : list Z) : list Z :=
  match name, dir with
  | a :: n, b :: d =>
      if a =? b then match n, d with [], _ | _, [] => n | _, _ => past_common n d end else name
  | _, _ => name
  end.

(** [remove_prefix]: the name relative to the directory; empty when the common
    part does not end at a slash of the name. *)
Definition strip (name dir : list Z) : list Z :=
  match no_slash dir with
  | [] => no_slash name
  | d => match past_common (no_slash name) d with
         | c :: r => if c =? 47 then r else []
         | [] => []
         end
  end.

(** The string [s] once its tail [o] has been ended behind its first component. *)
Definition cut_at (s o : list Z) : list Z := take (length s - length o) s ++ component o.

(** The search for a listed name with the first component of [p]: it shortens [p]
    and the listed names it passes to their first components. *)
Fixpoint search (dir p : list Z) (listed : list (list Z)) : bool * list Z * list (list Z) :=
  match listed with
  | [] => (false, p, [])
  | q :: qs =>
      match no_slash (strip q dir) with
      | [] => let '(b, p', qs') := search dir p qs in (b, p', q :: qs')
      | o =>
          let p' := cut_at p (no_slash p) in
          if bool_decide (component (no_slash p) = component o) then (true, p', cut_at q o :: qs)
          else let '(b, p'', qs') := search dir p' qs in (b, p'', cut_at q o :: qs')
      end
  end.

(** The names listed for the records [names]; [None] when the array of 50 paths
    overflows. *)
Fixpoint collect (dir : list Z) (names listed : list (list Z)) : option (list (list Z)) :=
  match names with
  | [] => Some listed
  | n :: ns =>
      match strip n dir with
      | [] => collect dir ns listed
      | p =>
          let '(b, p', listed') := search dir p listed in
          if b : bool then collect dir ns listed'
          else if (length listed <? 50)%nat then collect dir ns (listed' ++ [p']) else None
      end
  end.
Definition listing (dir : list Z) (es : list tar_entry) : option (list (list Z)) :=
  collect dir (map path_of es) [].

(** One name a line. *)
Definition lines (l : list (list Z)) : list Z := concat (map (λ s, s ++ [10]) l).

(** A search lists nothing new, and no name is ever taken away. *)
Lemma search_length dir p listed : length (search dir p listed).2 = length listed.
Proof.
  revert p. induction listed as [|q qs IH]; intros p; cbn [search]; [done|].
  destruct (no_slash (strip q dir)) as [|c o].
  - specialize (IH p). destruct (search dir p qs) as [[b p'] qs']. cbn in *. by rewrite IH.
  - case_bool_decide; [done|]. specialize (IH (cut_at p (no_slash p))).
    destruct (search dir _ qs) as [[b p''] qs']. cbn in *. by rewrite IH.
Qed.

Lemma collect_length dir names listed final :
  collect dir names listed = Some final → (length listed ≤ length final)%nat.
Proof.
  revert listed. induction names as [|n ns IH]; intros listed; cbn [collect]; [intros [= ->]; done|].
  destruct (strip n dir) as [|c p]; [apply IH|].
  pose proof (search_length dir (c :: p) listed) as Hl. destruct (search dir (c :: p) listed) as [[b p'] l'].
  cbn in Hl. destruct b; [intros ?%IH; lia|]. destruct (length listed <? 50)%nat; [|done].
  intros H%IH. rewrite length_app in H. lia.
Qed.

(** ** Strings in memory *)

(** [o], at [a], is a tail of the string [s] at [p]. *)
Definition tail_of (p : Z) (s : list Z) (a : Z) (o : list Z) : Prop :=
  ∃ pre, s = pre ++ o ∧ a = p + Z.of_nat (length pre).

Lemma tail_of_refl p s : tail_of p s p s.
Proof. exists []. cbn. split; [done|lia]. Qed.

Lemma tail_of_trans p s a o b r : tail_of p s a o → tail_of a o b r → tail_of p s b r.
Proof.
  intros (pre & -> & ->) (pre' & -> & ->). exists (pre ++ pre').
  rewrite length_app, <- app_assoc. split; [done|lia].
Qed.

Lemma tail_of_step p s a c r : tail_of p s a (c :: r) → tail_of p s (a + 1) r.
Proof.
  intros H. eapply tail_of_trans; [done|]. exists [c]. split; [done|]. cbn. lia.
Qed.

Lemma tail_of_length p s a o :
  tail_of p s a o → p ≤ a ∧ a + Z.of_nat (length o) = p + Z.of_nat (length s).
Proof. intros (pre & -> & ->). rewrite length_app. lia. Qed.

Lemma cstr_at_tail m p s a o : cstr_at m p s → tail_of p s a o → cstr_at m a o.
Proof.
  intros [Hb Hz] (pre & -> & ->). split.
  - rewrite <- app_assoc in Hb. by apply bytes_at_app in Hb as [_ Hb].
  - by apply list.Forall_app in Hz as [_ Hz].
Qed.

(** The first byte of a string. *)
Lemma cstr_at_head m p s : cstr_at m p s →
  byte m p = match s with [] => 0 | c :: _ => c end ∧ Forall (λ c, c ≠ 0) s.
Proof.
  intros H. split; [|apply H]. destruct (cstr_at_byte m p s 0 H) as [E _]; [lia|].
  rewrite Z.add_0_r in E. rewrite E. by destruct s.
Qed.

Lemma head_zero m p s : cstr_at m p s → (byte m p =? 0) = bool_decide (s = []).
Proof.
  intros [E Hz]%cstr_at_head. rewrite E. destruct s as [|c s]; [done|].
  apply list.Forall_cons in Hz as [Hc _]. rewrite bool_decide_false by done. by apply Z.eqb_neq.
Qed.

Lemma cstr_at_nil m p : cstr_at m p [] ↔ byte m p = 0.
Proof.
  split; [by intros [-> _]%cstr_at_head|]. intros H. split; [|done].
  intros i c Hi. destruct i as [|i]; [|by destruct i]. cbn in Hi. simplify_eq. by rewrite Z.add_0_r.
Qed.

Lemma skip_slash_ok m p s : cstr_at m p s → tail_of p s (skip_slash m p) (no_slash s).
Proof.
  intros H. unfold skip_slash. rewrite (head_zero m p s H). destruct (cstr_at_head m p s H) as [-> _].
  destruct s as [|c s]; [apply tail_of_refl|]. rewrite bool_decide_false by done.
  unfold no_slash. cbn [negb andb]. destruct (c =? 47); [|apply tail_of_refl].
  apply (tail_of_step p (c :: s) p c), tail_of_refl.
Qed.

Lemma component_length s : (length (component s) ≤ length s)%nat.
Proof. induction s as [|c s IH]; cbn; [lia|]. destruct (c =? 47); cbn; lia. Qed.

Lemma component_prefix s : ∃ r, s = component s ++ r ∧ match r with [] => True | c :: _ => c = 47 end.
Proof.
  induction s as [|c s (r & E & Hr)]; cbn; [by exists []|].
  destruct (c =? 47) eqn:Ec; bool_to_prop; [by exists (c :: s)|].
  exists r. split; [by rewrite E at 1|done].
Qed.

Lemma component_no_slash s : 47 ∉ component s.
Proof.
  induction s as [|c s IH]; cbn; [apply not_elem_of_nil|].
  destruct (c =? 47) eqn:E; bool_to_prop; [apply not_elem_of_nil|].
  apply not_elem_of_cons. by split.
Qed.

(** *** Cutting a path behind its first component *)

Lemma component_loop_ok m a o : cstr_at m a o → Z.of_nat (length o) < 65536 →
  loop (component_round a) 0 m = Ok (Z.of_nat (length (component o)), m).
Proof.
  intros Ho Hl.
  enough (runs (loop (component_round a) 0) m (λ i m', i = Z.of_nat (length (component o)) ∧ m' = m)) as H.
  { apply runs_inv in H as (i & m' & E & -> & ->). exact E. }
  apply runs_loop_ghost with (n := Z.of_nat (length o)) (I := λ n i m', m' = m ∧
    ∃ pre r, o = pre ++ r ∧ i = Z.of_nat (length pre) ∧ component o = pre ++ component r ∧
      n = Z.of_nat (length r)); [|split; [done|by exists [], o]|lia].
  intros n i m' (-> & pre & r & Eo & -> & Ec & ->). unfold component_round.
  assert (cstr_at m (a + Z.of_nat (length pre)) r) as Hr.
  { eapply cstr_at_tail; [exact Ho|]. exists pre. by split. }
  unfold runs, mbind, M_bind, gets. cbn [bind_result fst snd].
  rewrite (head_zero _ _ _ Hr). destruct (cstr_at_head _ _ _ Hr) as [-> _].
  rewrite Eo, length_app in Hl.
  destruct r as [|c r]; [|rewrite bool_decide_false by done; cbn [negb andb component] in *;
    destruct (c =? 47)]; cbn [mret M_ret].
  - rewrite bool_decide_true by done. cbn. rewrite Ec. cbn. by rewrite app_nil_r.
  - cbn. rewrite Ec. by rewrite app_nil_r.
  - cbn [length negb] in *. exists (Z.of_nat (length r)). split; [lia|]. split; [done|].
    exists (pre ++ [c]), r. rewrite <- !app_assoc, length_app, u16_small by lia. cbn.
    split_and!; [done|lia|done|done].
Qed.

Lemma cut_component_ok m a o : cstr_at m a o → Z.of_nat (length o) < 65536 →
  cut_component a m = Ok (tt, <[a + Z.of_nat (length (component o)) := 0]> m).
Proof.
  intros Ho Hl. unfold cut_component, mbind, M_bind. by rewrite (component_loop_ok m a o).
Qed.

(** A terminator in the middle of a string. *)
Lemma bytes_at_end m p s : bytes_at m p s → Forall (λ c, c ≠ 0) s →
  cstr_at (<[p + Z.of_nat (length s) := 0]> m) p s.
Proof.
  intros Hb Hz. split; [|done]. apply bytes_at_app. split.
  - intros i c Hi. pose proof (lookup_lt_Some _ _ _ Hi). rewrite byte_insert, decide_False by lia. by apply Hb.
  - intros i c Hi. destruct i as [|i]; [|by destruct i]. cbn in Hi. simplify_eq.
    by rewrite byte_insert, decide_True by lia.
Qed.

Lemma cstr_at_cut m p pre r : cstr_at m p (pre ++ r) →
  cstr_at (<[p + Z.of_nat (length pre) := 0]> m) p pre.
Proof.
  intros [Hb Hz]. rewrite <- app_assoc in Hb. apply bytes_at_app in Hb as [Hb _].
  apply list.Forall_app in Hz as [Hz _]. by apply bytes_at_end.
Qed.

Lemma cut_at_prefix p s a o : tail_of p s a o →
  ∃ r, s = cut_at s o ++ r ∧ a + Z.of_nat (length (component o)) = p + Z.of_nat (length (cut_at s o)).
Proof.
  intros (pre & -> & ->). destruct (component_prefix o) as (r & Er & _). exists r.
  unfold cut_at. rewrite length_app. replace (length pre + length o - length o)%nat with (length pre) by lia.
  rewrite take_app_length, length_app. split; [|lia]. rewrite <- app_assoc. by f_equal.
Qed.

Lemma cut_at_length s o : (length o ≤ length s)%nat → (length (cut_at s o) ≤ length s)%nat.
Proof. intros H. unfold cut_at. rewrite length_app, length_take. pose proof (component_length o). lia. Qed.

(** Ending a tail of a string behind its component cuts the string. *)
Lemma cstr_at_cut_tail m p s a o : cstr_at m p s → tail_of p s a o →
  cstr_at (<[a + Z.of_nat (length (component o)) := 0]> m) p (cut_at s o).
Proof.
  intros H Ht. destruct (cut_at_prefix p s a o Ht) as (r & E & ->). rewrite E in H.
  by apply (cstr_at_cut _ _ _ r).
Qed.

Lemma cut_at_self o : cut_at o o = component o.
Proof. unfold cut_at. by rewrite Nat.sub_diag. Qed.

Lemma cstr_at_insert_other m p s x v : cstr_at m p s →
  ¬ in_range p (Z.of_nat (length s) + 1) x → cstr_at (<[x := v]> m) p s.
Proof.
  intros H Hx. apply (cstr_at_frame (λ y, y = x) m); [|unfold in_range in Hx; intros y Hy ->; lia|done].
  intros y Hy. by rewrite byte_insert, decide_False by congruence.
Qed.

Lemma same_outside_insert (P : Z → Prop) m x v : P x → same_outside P m (<[x := v]> m).
Proof. intros Hx y Hy. rewrite byte_insert, decide_False; [done|]. by intros ->. Qed.

Lemma is_in_same_dir_none m p a2 s2 : cstr_at m a2 s2 → no_slash s2 = [] →
  is_in_same_dir p a2 m = Ok (false, m).
Proof.
  intros H E. unfold is_in_same_dir, mbind, M_bind, gets. cbn [bind_result fst snd].
  pose proof (cstr_at_tail _ _ _ _ _ H (skip_slash_ok m a2 s2 H)) as Hs. rewrite E in Hs.
  by rewrite (head_zero _ _ _ Hs).
Qed.

(** The string [sq] at [q] has the tail [s2] at [a2]. *)
Lemma is_in_same_dir_ok m p s1 q sq a2 s2 :
  cstr_at m p s1 → cstr_at m q sq → tail_of q sq a2 s2 →
  apart p (Z.of_nat (length s1) + 1) q (Z.of_nat (length sq) + 1) →
  Z.of_nat (length s1) < 65536 → Z.of_nat (length sq) < 65536 → no_slash s2 ≠ [] →
  runs (is_in_same_dir p a2) m (λ b m',
    b = bool_decide (component (no_slash s1) = component (no_slash s2)) ∧
    cstr_at m' p (cut_at s1 (no_slash s1)) ∧ cstr_at m' q (cut_at sq (no_slash s2)) ∧
    same_outside (λ x, in_range p (Z.of_nat (length s1) + 1) x ∨
                       in_range q (Z.of_nat (length sq) + 1) x) m m').
Proof.
  intros H1 Hq Ht2 Hap L1 Lq Hne.
  pose proof (skip_slash_ok m p s1 H1) as T1. set (a := skip_slash m p) in *.
  pose proof (cstr_at_tail _ _ _ _ _ Hq Ht2) as H2.
  pose proof (tail_of_trans _ _ _ _ _ _ Ht2 (skip_slash_ok m a2 s2 H2)) as T2.
  set (b := skip_slash m a2) in *. set (o1 := no_slash s1) in *. set (o2 := no_slash s2) in *.
  pose proof (cstr_at_tail _ _ _ _ _ H1 T1) as C1. pose proof (cstr_at_tail _ _ _ _ _ Hq T2) as C2.
  pose proof (tail_of_length _ _ _ _ T1). pose proof (tail_of_length _ _ _ _ T2).
  pose proof (component_length o1). pose proof (component_length o2).
  set (x := a + Z.of_nat (length (component o1))). set (y := b + Z.of_nat (length (component o2))).
  unfold apart in Hap.
  assert (cstr_at (<[x := 0]> m) b o2) as C2' by (apply cstr_at_insert_other; [done|unfold in_range; lia]).
  assert (∀ s, (length s ≤ length s1)%nat → cstr_at (<[x := 0]> m) p s → cstr_at (<[y := 0]> (<[x := 0]> m)) p s) as F1.
  { intros s Hs Hc. apply cstr_at_insert_other; [done|unfold in_range; lia]. }
  unfold is_in_same_dir, runs, mbind, M_bind, gets. cbn [bind_result fst snd]. fold a b.
  rewrite (head_zero _ _ _ C2), bool_decide_false by done.
  rewrite (cut_component_ok m a o1) by (done || lia). cbn [bind_result fst snd]. fold x.
  rewrite (cut_component_ok _ b o2) by (done || lia). cbn [bind_result fst snd]. fold y.
  rewrite (kstrcmp_cstr _ a b (component o1) (component o2) 0); [| | |lia..].
  - split; [done|]. split_and!.
    + apply F1; [apply cut_at_length; lia|]. by apply cstr_at_cut_tail.
    + apply (cstr_at_cut_tail _ q sq b o2); [|done]. apply cstr_at_insert_other; [done|unfold in_range; lia].
    + eapply same_outside_trans; apply same_outside_insert; unfold in_range; lia.
  - rewrite <- cut_at_self. apply cstr_at_insert_other.
    + apply cstr_at_cut_tail; [done|apply tail_of_refl].
    + rewrite cut_at_self. unfold in_range. lia.
  - rewrite <- cut_at_self. apply cstr_at_cut_tail; [done|apply tail_of_refl].
Qed.

(** *** Removing the directory from a name *)

Lemma past_common_loop_ok m p s d dir : cstr_at m p s → cstr_at m d dir → dir ≠ [] →
  Z.of_nat (length s) < 2 ^ 32 →
  runs (loop remove_round (p, d)) m (λ a m', m' = m ∧ tail_of p s a (past_common s dir)).
Proof.
  intros Hs Hd Hne Hl.
  apply runs_loop_ghost with (n := Z.of_nat (length s)) (I := λ n v m', m' = m ∧
    ∃ r e, tail_of p s v.1 r ∧ cstr_at m v.2 e ∧ e ≠ [] ∧ past_common s dir = past_common r e ∧
      n = Z.of_nat (length r)).
  2: { split; [done|]. exists s, dir. split_and!; try done. apply tail_of_refl. } 2: lia.
  intros n [x y] m' (-> & r & e & Ht & He & Hne' & -> & ->). cbn [fst snd] in *.
  pose proof (cstr_at_tail _ _ _ _ _ Hs Ht) as Hr.
  unfold remove_round, runs, mbind, M_bind, gets. cbn [bind_result fst snd].
  destruct (cstr_at_head _ _ _ Hr) as [-> Hz]. destruct (cstr_at_head _ _ _ He) as [-> Hz'].
  destruct e as [|b e]; [done|]. destruct r as [|a r]; cbn [past_common].
  { apply list.Forall_cons in Hz' as [Hb _]. rewrite (proj2 (Z.eqb_neq _ _)) by lia. by split. }
  destruct (a =? b); [|by split]. cbn [bind_result fst snd].
  pose proof (tail_of_step _ _ _ _ _ Ht) as Ht'. pose proof (cstr_at_tail _ _ _ _ _ Hs Ht') as Hr'.
  assert (cstr_at m (y + 1) e) as He'.
  { eapply cstr_at_tail; [exact He|]. apply (tail_of_step y (b :: e) y b), tail_of_refl. }
  rewrite (head_zero _ _ _ Hr'), (head_zero _ _ _ He').
  destruct r as [|a' r]; [by rewrite bool_decide_true|].
  destruct e as [|b' e]; [by rewrite bool_decide_false, bool_decide_true|].
  rewrite !bool_decide_false by done. cbn [orb mret M_ret].
  exists (Z.of_nat (length (a' :: r))). split; [cbn [length]; lia|]. split; [done|].
  by exists (a' :: r), (b' :: e).
Qed.

(** [remove_prefix] returns a tail of the name, or the empty literal. *)
Lemma remove_prefix_ok m empty p s d dir :
  cstr_at m p s → cstr_at m d dir → cstr_at m empty [] → Z.of_nat (length s) < 2 ^ 32 →
  runs (remove_prefix empty p d) m (λ a m', m' = m ∧ cstr_at m a (strip s dir) ∧
    (tail_of p s a (strip s dir) ∨ a = empty ∧ strip s dir = [])).
Proof.
  intros Hs Hd He Hl.
  enough (runs (remove_prefix empty p d) m (λ a m', m' = m ∧
    (tail_of p s a (strip s dir) ∨ a = empty ∧ strip s dir = []))) as H.
  { eapply runs_mono; [exact H|]. intros a m' [-> Ha]. split_and!; [done| |exact Ha].
    destruct Ha as [Ha|[-> ->]]; [exact (cstr_at_tail _ _ _ _ _ Hs Ha)|exact He]. }
  pose proof (skip_slash_ok m p s Hs) as Ts.
  pose proof (cstr_at_tail _ _ _ _ _ Hs Ts) as Cs.
  pose proof (cstr_at_tail _ _ _ _ _ Hd (skip_slash_ok m d dir Hd)) as Cd.
  unfold remove_prefix. do 3 (apply runs_bind; apply runs_ok with (1 := eq_refl)).
  rewrite (head_zero _ _ _ Cd). unfold strip.
  destruct (no_slash dir) as [|c dir'] eqn:Edir; [rewrite bool_decide_true by done; apply runs_ret; auto|].
  rewrite bool_decide_false by done. rewrite <- Edir in *. apply runs_bind.
  pose proof (tail_of_length _ _ _ _ Ts).
  eapply runs_mono; [apply (past_common_loop_ok m _ _ _ _ Cs Cd); [by rewrite Edir|lia]|].
  intros a m' [-> Ta]. pose proof (tail_of_trans _ _ _ _ _ _ Ts Ta) as T.
  apply runs_bind, runs_ok with (1 := eq_refl). rewrite Edir in *.
  destruct (cstr_at_head _ _ _ (cstr_at_tail _ _ _ _ _ Hs T)) as [-> _].
  destruct (past_common _ _) as [|c' r]; [by apply runs_ret; auto|].
  destruct (c' =? 47); apply runs_ret; split; auto. left. by eapply tail_of_step.
Qed.

(** ** The paths in their blocks *)

(** A path [s] at [ba.2] in the block of 256 bytes at [ba.1]. *)
Definition holds (m : gmap Z Z) (ba : Z * Z) (s : list Z) : Prop :=
  ba.1 ≤ ba.2 ∧ ba.2 + Z.of_nat (length s) + 1 ≤ ba.1 + 256 ∧ cstr_at m ba.2 s.

Fixpoint separate (bs : list Z) : Prop :=
  match bs with [] => True | b :: bs' => Forall (λ c, apart b 256 c 256) bs' ∧ separate bs' end.

Definition in_blocks (bs : list Z) (x : Z) : Prop := ∃ b, b ∈ bs ∧ in_range b 256 x.

Lemma separate_app l1 b l2 : separate (l1 ++ b :: l2) →
  Forall (λ c, apart b 256 c 256) l1 ∧ Forall (λ c, apart b 256 c 256) l2.
Proof.
  induction l1 as [|c l1 IH]; cbn [app separate]; [by intros [? _]|].
  intros [Hc Hs]. destruct (IH Hs) as [H1 H2]. split; [|done].
  apply list.Forall_app in Hc as [_ Hc]. apply list.Forall_cons in Hc as [Hc _].
  constructor; [|done]. unfold apart in *. lia.
Qed.

Lemma separate_snoc l b : separate l → Forall (λ c, apart b 256 c 256) l → separate (l ++ [b]).
Proof.
  induction l as [|c l IH]; cbn [app separate]; [done|].
  intros [Hc Hs] Hb. apply list.Forall_cons in Hb as [Hcb Hb]. split; [|by apply IH].
  apply list.Forall_app. split; [done|]. constructor; [|done]. unfold apart in *. lia.
Qed.

Lemma holds_frame P m m' ba s : same_outside P m m' → (∀ x, P x → ¬ in_range ba.1 256 x) →
  holds m ba s → holds m' ba s.
Proof.
  intros Hs HP (H1 & H2 & H3). split_and!; [done..|]. eapply cstr_at_frame; [done| |done].
  intros x Hx HPx. apply (HP x HPx). unfold in_range. lia.
Qed.

Lemma Forall2_holds_frame P m m' ads texts :
  same_outside P m m' → (∀ x ba, P x → ba ∈ ads → ¬ in_range ba.1 256 x) →
  Forall2 (holds m) ads texts → Forall2 (holds m') ads texts.
Proof.
  intros Hs HP H. induction H as [|ba s ads texts Hh _ IH]; constructor.
  - eapply holds_frame; [done| |done]. intros x Hx. apply HP; [done|]. by left.
  - apply IH. intros x ba' Hx Hb. apply HP; [done|]. by right.
Qed.

(** The array of paths: the stored ones, then what it held. *)
Definition path_array (pathes0 : list Z) (ads : list (Z * Z)) : list Z :=
  ads.*2 ++ drop (length ads) pathes0.

Lemma path_array_nth pathes0 adone arest : nth (length (adone ++ arest)) pathes0 0 = 0 →
  nth (length adone) (path_array pathes0 (adone ++ arest)) 0 = match arest with [] => 0 | ba :: _ => ba.2 end.
Proof.
  intros H0. unfold path_array. rewrite fmap_app, <- app_assoc, app_nth2 by (rewrite length_fmap; lia).
  rewrite length_fmap, Nat.sub_diag. destruct arest as [|ba arest]; [|done].
  cbn [fmap list_fmap app]. rewrite app_nil_r in *. by rewrite nth_skipn, Nat.add_0_r.
Qed.

Lemma path_array_insert pathes0 ads ba : (length ads < length pathes0)%nat →
  <[length ads := ba.2]> (path_array pathes0 ads) = path_array pathes0 (ads ++ [ba]).
Proof.
  intros H. unfold path_array. rewrite length_app, fmap_app. cbn [length].
  rewrite <- (length_fmap snd ads) at 1. rewrite insert_app_r_alt, length_fmap by (rewrite length_fmap; lia).
  rewrite Nat.sub_diag, <- app_assoc. f_equal. rewrite Nat.add_1_r.
  destruct (lookup_lt_is_Some_2 pathes0 (length ads) H) as [x Hx]. by rewrite (drop_S _ _ _ Hx).
Qed.

Section search.
Context (empty d : Z) (dir : list Z).

(** What the searches read besides the paths: the directory and the literal. *)
Definition context (m : gmap Z Z) : Prop := cstr_at m d dir ∧ cstr_at m empty [].
Definition context_bytes (x : Z) : Prop := in_range d (Z.of_nat (length dir) + 1) x ∨ x = empty.

Lemma context_frame P m m' : same_outside P m m' → (∀ x, P x → ¬ context_bytes x) →
  context m → context m'.
Proof.
  intros Hs HP [Hd He]. split; (eapply cstr_at_frame; [exact Hs| |done]); intros x Hx Hp;
    apply (HP x Hp); unfold context_bytes, in_range; cbn in Hx; lia.
Qed.

(** One listed path [q] is compared with [p]. *)
Lemma compare_paths_ok m p s q sq :
  context m → holds m p s → holds m q sq → apart p.1 256 q.1 256 →
  runs (remove_prefix empty q.2 d) m (λ other m1, runs (is_in_same_dir p.2 other) m1 (λ b m',
    let '(b', s', sq') := match no_slash (strip sq dir) with
      | [] => (false, s, sq)
      | o => (bool_decide (component (no_slash s) = component o), cut_at s (no_slash s), cut_at sq o)
      end in
    b = b' ∧ holds m' p s' ∧ holds m' q sq' ∧ same_outside (in_blocks [p.1; q.1]) m m')).
Proof.
  intros [Hd He] (Hp1 & Hp2 & Hp) (Hq1 & Hq2 & Hq) Hap. unfold apart in Hap.
  eapply runs_mono; [apply (remove_prefix_ok m empty q.2 sq d dir); try done; lia|].
  intros a m' (-> & Ca & Ha).
  destruct (no_slash (strip sq dir)) as [|c o] eqn:E.
  { eapply runs_ok; [by eapply is_in_same_dir_none|]. split_and!; try done. }
  destruct Ha as [Ha|[_ Ha]]; [|by rewrite Ha in E].
  rewrite <- E. eapply runs_mono; [apply (is_in_same_dir_ok m p.2 s q.2 sq a _ Hp Hq Ha)|].
  1-4: unfold apart; try lia. 1: by rewrite E.
  pose proof (tail_of_length _ _ _ _ (skip_slash_ok _ _ _ Hp)).
  pose proof (tail_of_length _ _ _ _ (tail_of_trans _ _ _ _ _ _ Ha (skip_slash_ok _ _ _ Ca))).
  pose proof (cut_at_length s (no_slash s)). pose proof (cut_at_length sq (no_slash (strip sq dir))).
  cbn beta. intros b m' (-> & R1 & R2 & Hs). split; [done|]. split_and!.
  - split_and!; [done|lia|done].
  - split_and!; [done|lia|done].
  - eapply same_outside_mono; [|exact Hs]. intros x [Hx|Hx]; unfold in_range in Hx;
      [exists p.1|exists q.1]; (split; [set_solver|unfold in_range; lia]).
Qed.

(** What the search leaves: the path and the listed ones as [search] says. *)
Definition searched (m0 : gmap Z Z) (p : Z * Z) (ads : list (Z * Z))
    (r : bool * list Z * list (list Z)) (b : bool) (m : gmap Z Z) : Prop :=
  b = r.1.1 ∧ holds m p r.1.2 ∧ Forall2 (holds m) ads r.2 ∧
  same_outside (in_blocks (p.1 :: ads.*1)) m0 m.

(** The search stands at an index: the paths before it are done. *)
Definition searching (m0 : gmap Z Z) (p : Z * Z) (ads : list (Z * Z))
    (r : bool * list Z * list (list Z)) (n i : Z) (m : gmap Z Z) : Prop :=
  ∃ adone arest tdone trest s, ads = adone ++ arest ∧ i = Z.of_nat (length adone) ∧
    n = Z.of_nat (length arest) ∧ Forall2 (holds m) adone tdone ∧ Forall2 (holds m) arest trest ∧
    holds m p s ∧ r = (let '(b, s', ts) := search dir s trest in (b, s', tdone ++ ts)) ∧
    same_outside (in_blocks (p.1 :: ads.*1)) m0 m.

Lemma in_blocks_cons b bs x : in_blocks (b :: bs) x ↔ in_range b 256 x ∨ in_blocks bs x.
Proof.
  unfold in_blocks. setoid_rewrite elem_of_cons. naive_solver.
Qed.

(** Blocks apart from [b] and [c] are untouched by writes to these. *)
Lemma apart_frame b c m m' ads texts :
  same_outside (in_blocks [b; c]) m m' →
  Forall (λ ba : Z * Z, apart b 256 ba.1 256 ∧ apart c 256 ba.1 256) ads →
  Forall2 (holds m) ads texts → Forall2 (holds m') ads texts.
Proof.
  intros Hs Hap. apply (Forall2_holds_frame (in_blocks [b; c])); [done|].
  intros x ba (e & He & Hx) Hba. rewrite list.Forall_forall in Hap. specialize (Hap ba Hba).
  unfold apart, in_range in *. rewrite !elem_of_cons in He.
  destruct He as [->|[->|He]]; [lia|lia|by apply elem_of_nil in He].
Qed.

Lemma duplicate_round_ok pathes0 m0 p ads r n i m :
  nth (length ads) pathes0 0 = 0 →
  separate (p.1 :: ads.*1) → Forall (λ ba, 0 < ba.1) ads → (length ads ≤ 50)%nat →
  context m0 → (∀ x, in_blocks (p.1 :: ads.*1) x → ¬ context_bytes x) →
  searching m0 p ads r n i m →
  runs (duplicate_round empty d p.2 (path_array pathes0 ads) i) m (λ v m', match v with
    | inl i' => ∃ n', 0 ≤ n' < n ∧ searching m0 p ads r n' i' m'
    | inr b => searched m0 p ads r b m' end).
Proof.
  intros H0 Hsep Hpos Hlen Hc Hctx (adone & arest & tdone & trest & s & -> & -> & -> & Hd & Hr & Hp & -> & Hs).
  assert (context m) as Hc' by by eapply context_frame.
  unfold duplicate_round. rewrite Nat2Z.id, path_array_nth by done.
  destruct Hr as [|q sq arest trest Hq Hr].
  { rewrite andb_false_r. apply runs_ret. cbn [search]. unfold searched. cbn [fst snd].
    rewrite !app_nil_r in *. by split_and!. }
  apply list.Forall_app in Hpos as [_ [Hq0 _]%list.Forall_cons]. rewrite length_app in Hlen. cbn [length] in Hlen.
  rewrite (proj2 (Z.ltb_lt _ _)), (proj2 (Z.eqb_neq _ _)) by (destruct Hq; lia). cbn [negb andb].
  cbn [separate] in Hsep. destruct Hsep as [Hpap Hsep]. rewrite fmap_app in Hpap, Hsep.
  cbn [fmap list_fmap] in Hpap, Hsep. destruct (separate_app _ _ _ Hsep) as [Hq1 Hq2].
  apply list.Forall_app in Hpap as [Hp1 [Hpq Hp2]%list.Forall_cons].
  apply runs_bind. eapply runs_mono; [exact (compare_paths_ok m p s q sq Hc' Hp Hq Hpq)|].
  cbn beta. intros a m1 Hcmp. apply runs_bind. eapply runs_mono; [exact Hcmp|]. clear Hcmp. cbn beta. intros b m' Hcmp.
  assert (∀ (l : list (Z * Z)), Forall (λ c, apart p.1 256 c 256) l.*1 → Forall (λ c, apart q.1 256 c 256) l.*1 →
    Forall (λ ba : Z * Z, apart p.1 256 ba.1 256 ∧ apart q.1 256 ba.1 256) l) as Hboth.
  { intros l H1 H2. rewrite Forall_fmap, list.Forall_forall in H1, H2. apply list.Forall_forall.
    intros ba Hba. split; [by apply (H1 ba)|by apply (H2 ba)]. }
  destruct (match no_slash (strip sq dir) with [] => _ | _ => _ end) as [[b' s'] sq'] eqn:Em.
  destruct Hcmp as (-> & Hp' & Hq' & Hs').
  assert (same_outside (in_blocks (p.1 :: (adone ++ q :: arest).*1)) m0 m') as Hsm.
  { eapply same_outside_trans; [exact Hs|]. eapply same_outside_mono; [|exact Hs'].
    intros x (e & He & Hx). exists e. split; [|done]. rewrite fmap_app. set_solver. }
  pose proof (apart_frame _ _ _ _ _ _ Hs' (Hboth adone Hp1 Hq1) Hd) as Hd'.
  pose proof (apart_frame _ _ _ _ _ _ Hs' (Hboth arest Hp2 Hq2) Hr) as Hr'.
  assert (search dir s (sq :: trest) = if b' then (true, s', sq' :: trest)
    else let '(b, s'', ts) := search dir s' trest in (b, s'', sq' :: ts)) as Esearch.
  { cbn [search]. destruct (no_slash (strip sq dir)); simplify_eq; [done|].
    case_bool_decide; simplify_eq; done. }
  rewrite Esearch. destruct b'; apply runs_ret.
  - unfold searched. cbn [fst snd]. split_and!; try done. apply Forall2_app; [done|]. by constructor.
  - exists (Z.of_nat (length arest)). cbn [length]. split; [lia|].
    exists (adone ++ [q]), arest, (tdone ++ [sq']), trest, s'. rewrite <- !app_assoc.
    split_and!; try done.
    + rewrite length_app. cbn. lia.
    + apply Forall2_app; [done|]. by repeat constructor; apply Hq'.
    + destruct (search dir s' trest) as [[? ?] ?]. by rewrite <- app_assoc.
Qed.

Lemma duplicate_loop_ok pathes0 m p s ads texts :
  nth (length ads) pathes0 0 = 0 →
  separate (p.1 :: ads.*1) → Forall (λ ba, 0 < ba.1) ads → (length ads ≤ 50)%nat →
  context m → (∀ x, in_blocks (p.1 :: ads.*1) x → ¬ context_bytes x) →
  holds m p s → Forall2 (holds m) ads texts →
  runs (loop (duplicate_round empty d p.2 (path_array pathes0 ads)) 0) m (searched m p ads (search dir s texts)).
Proof.
  intros H0 Hsep Hpos Hlen Hc Hctx Hp Ht.
  apply (runs_loop_ghost _ (searching m p ads (search dir s texts))) with (n := Z.of_nat (length ads)); [|..|lia].
  - intros n i m' H. by apply (duplicate_round_ok pathes0 m).
  - exists [], ads, [], texts, s. split_and!; try done. by destruct (search dir s texts) as [[? ?] ?].
Qed.

End search.

(** ** The records of the archive, one after the other *)

(** A record of [pre ++ rest] at [start]: NULL before the first, otherwise the
    last of [pre]. *)
Definition at_record (start : Z) (pre : list tar_entry) (r : Z) : Prop :=
  pre = [] ∧ r = 0 ∨ ∃ l e, pre = l ++ [e] ∧ r = start + records_length l.

Section records.
Context (t : Z).

Lemma prefix_loop_ok m a rest : archive m a rest → apart t 256 a (archive_length rest) →
  runs (loop (prefix_lookup_round t) (0, a)) m (λ r m',
    same_outside (in_range t 256) m m' ∧ r = match rest with [] => 0 | _ => a end).
Proof.
  intros Ha Hap.
  apply runs_loop_ghost with (n := 2) (I := λ n v m', m' = m ∧ v.2 = a ∧ 0 ≤ v.1 ≤ 2 ∧
    (v.1 = 0 ∨ rest = []) ∧ n = 2 - v.1); [|split_and!; cbn; auto; lia|lia].
  intros n [zc x] m' (-> & Ex & Hzc & Hor & ->). cbn [fst snd] in *. subst x.
  unfold prefix_lookup_round. case_if; [|apply runs_ret; destruct Hor as [->| ->]; [lia|done]].
  destruct rest as [|e rest]; cbn [archive archive_length] in *;
    unfold runs, mbind, M_bind, gets, modify; cbn [bind_result fst snd].
  - rewrite (is_zeroed_true m a) by done. cbn [mret M_ret].
    exists (2 - (zc + 1)). cbn [fst snd]. split_and!; auto; lia.
  - destruct Ha as [He _]. rewrite (entry_not_zeroed m a e He). cbn [bind_result fst snd mret M_ret].
    split; [|done]. eapply copy_record_name_ok; [done|].
    pose proof (record_length_bounds e). pose proof (archive_length_pos rest).
    unfold apart, content_length in *. lia.
Qed.

(** [tar_file_prefix_lookup] returns the record behind the one it is given. *)
Lemma prefix_lookup_ok s start pre rest r :
  tar_fs_start_address s = start → archive (bytes s) start (pre ++ rest) →
  0 < start ∧ start + archive_length (pre ++ rest) < 2 ^ 62 →
  apart t 256 start (archive_length (pre ++ rest)) → at_record start pre r →
  runs (tar_file_prefix_lookup t r) s (λ r' s', ∃ m, s' = set_bytes m s ∧
    same_outside (in_range t 256) (bytes s) m ∧
    r' = match rest with [] => 0 | _ => start + records_length pre end).
Proof.
  intros Es Ha Hb Hap Hr. rewrite archive_length_app in Hb, Hap.
  pose proof (archive_split _ _ _ _ Ha) as Har. pose proof (sum_nonneg pre).
  pose proof (archive_length_pos rest). unfold tar_file_prefix_lookup.
  apply runs_bind, runs_ok with (1 := eq_refl). rewrite Es. apply runs_bind.
  apply runs_mono with (P := λ x s', s' = s ∧ x = start + records_length pre).
  - destruct Hr as [[-> ->]|(l & e & -> & ->)].
    + cbn [Z.eqb]. apply runs_ret. cbn. split; [done|lia].
    + pose proof (sum_nonneg l). rewrite (proj2 (Z.eqb_neq _ _)) by lia. apply runs_zoom.
      rewrite <- app_assoc in Ha. apply archive_split in Ha as [He _].
      rewrite records_length_app in *. cbn [records_length foldr] in *.
      eapply runs_ok; [apply (next_record_ok _ _ e He); lia|]. split; [by destruct s|lia].
  - intros x s' [-> ->]. apply runs_zoom. eapply runs_mono; [eapply prefix_loop_ok; [exact Har|]|].
    + unfold apart in *. lia.
    + cbn beta. intros r' m [Hs ->]. by exists m.
Qed.

End records.

(** ** Writing the names out *)

Lemma lines_app l k : lines (l ++ k) = lines l ++ lines k.
Proof. unfold lines. by rewrite map_app, concat_app. Qed.

Lemma lines_cons s l : lines (s :: l) = s ++ 10 :: lines l.
Proof. unfold lines. cbn. by rewrite <- app_assoc. Qed.

Lemma bytes_at_nil m p : bytes_at m p [].
Proof. intros i c Hi. by destruct i. Qed.

Lemma bytes_at_snoc m p l c : 0 ≤ c < 256 → bytes_at m p l →
  bytes_at (<[p + Z.of_nat (length l) := c]> m) p (l ++ [c]).
Proof.
  intros Hc H. apply bytes_at_app. split.
  - intros i x Hi. pose proof (lookup_lt_Some _ _ _ Hi). rewrite byte_insert, decide_False by lia. by apply H.
  - intros i x Hi. destruct i as [|i]; [|by destruct i]. cbn in Hi. simplify_eq.
    rewrite byte_insert, decide_True by lia. by apply u8_small.
Qed.

Lemma name_out_ok m a s b k : cstr_at m a s → Forall (λ c, 0 ≤ c < 256) s →
  apart a (Z.of_nat (length s) + 1) b (Z.of_nat (length s)) →
  0 ≤ k → k + Z.of_nat (length s) < 2 ^ 62 →
  runs (loop name_out_round (a, b, k)) m (λ r m',
    r = (b + Z.of_nat (length s), k + Z.of_nat (length s)) ∧ bytes_at m' b s ∧
    same_outside (in_range b (Z.of_nat (length s))) m m').
Proof.
  intros Hs Hbyte Hap Hk Hl. unfold apart in Hap.
  apply runs_loop_ghost with (n := Z.of_nat (length s)) (I := λ n v m', ∃ pre r, s = pre ++ r ∧
    v = (a + Z.of_nat (length pre), b + Z.of_nat (length pre), k + Z.of_nat (length pre)) ∧
    n = Z.of_nat (length r) ∧ bytes_at m' b pre ∧ same_outside (in_range b (Z.of_nat (length s))) m m'); [| |lia].
  2: { exists [], s. cbn. rewrite !Z.add_0_r. split_and!; done. }
  intros n v m' (pre & r & Es & -> & -> & Hpre & Hsame). unfold name_out_round.
  assert (cstr_at m' (a + Z.of_nat (length pre)) r) as Hr.
  { apply (cstr_at_tail m' a s); [|by exists pre]. eapply cstr_at_frame; [exact Hsame| |exact Hs].
    intros x Hx. unfold in_range. lia. }
  assert (length s = length pre + length r)%nat as El by by rewrite Es, length_app.
  apply runs_bind, runs_gets. rewrite (head_zero _ _ _ Hr). destruct (cstr_at_head _ _ _ Hr) as [-> _].
  destruct r as [|c r].
  - rewrite bool_decide_true by done. apply runs_ret. rewrite app_nil_r in Es. subst pre. done.
  - rewrite bool_decide_false by done. cbn [negb]. apply runs_bind, runs_modify, runs_ret.
    cbn [length] in *. exists (Z.of_nat (length r)). split; [lia|].
    exists (pre ++ [c]), r. rewrite <- app_assoc, length_app, u64_small by lia. cbn [length app].
    rewrite Es in Hbyte. apply list.Forall_app in Hbyte as [_ [Hc _]%list.Forall_cons].
    split_and!; [done|repeat (f_equal; try lia)|done|by apply bytes_at_snoc|].
    eapply same_outside_trans; [exact Hsame|]. apply same_outside_insert. unfold in_range. lia.
Qed.

(** The characters of a path in memory are bytes. *)
Lemma holds_bytes m ba s : holds m ba s → Forall (λ c, 0 ≤ c < 256) s.
Proof.
  intros (_ & _ & [Hb _]). apply Forall_lookup_2. intros i c Hi.
  apply bytes_at_app in Hb as [Hb _]. rewrite <- (Hb i c Hi). apply byte_range.
Qed.

Definition writing (m0 : gmap Z Z) (b : Z) (ads : list (Z * Z)) (texts : list (list Z))
    (n : Z) (v : Z * Z * Z) (m : gmap Z Z) : Prop :=
  ∃ adone arest tdone trest, ads = adone ++ arest ∧ texts = tdone ++ trest ∧
    length adone = length tdone ∧ Forall2 (holds m) arest trest ∧ n = Z.of_nat (length arest) ∧
    v = (Z.of_nat (length adone), b + Z.of_nat (length (lines tdone)), Z.of_nat (length (lines tdone))) ∧
    bytes_at m b (lines tdone) ∧ same_outside (in_range b (Z.of_nat (length (lines texts)))) m0 m.

Lemma names_out_round_ok pathes0 m0 b ads texts n v m :
  nth (length ads) pathes0 0 = 0 →
  Forall (λ ba, 0 < ba.1) ads → (length ads ≤ 50)%nat → Z.of_nat (length (lines texts)) < 2 ^ 62 →
  (∀ x, in_range b (Z.of_nat (length (lines texts))) x → ¬ in_blocks ads.*1 x) →
  writing m0 b ads texts n v m →
  runs (names_out_round (path_array pathes0 ads) v) m (λ r m', match r with
    | inl v' => ∃ n', 0 ≤ n' < n ∧ writing m0 b ads texts n' v' m'
    | inr k => k = Z.of_nat (length (lines texts)) ∧ bytes_at m' b (lines texts) ∧
        same_outside (in_range b k) m0 m'
    end).
Proof.
  intros H0 Hpos Hlen Hmax Hdis (adone & arest & tdone & trest & -> & -> & Hl & Hr & -> & -> & Hb & Hs).
  unfold names_out_round. rewrite Nat2Z.id, path_array_nth by done.
  destruct Hr as [|q sq arest trest Hq Hr].
  { rewrite andb_false_r. apply runs_ret. rewrite app_nil_r in *. by split_and!. }
  apply list.Forall_app in Hpos as [_ [Hq0 _]%list.Forall_cons].
  rewrite length_app in Hlen. cbn [length] in Hlen. pose proof (holds_bytes _ _ _ Hq) as Hqb.
  destruct Hq as (Hq1 & Hq2 & Hq).
  rewrite (proj2 (Z.ltb_lt _ _)), (proj2 (Z.eqb_neq _ _)) by lia. cbn [negb andb].
  rewrite lines_app, lines_cons in Hmax, Hdis, Hs |- *. rewrite !length_app in Hmax, Hdis, Hs |- *. cbn [length] in Hmax, Hdis, Hs |- *.
  assert (∀ ba x, ba ∈ adone ++ q :: arest → in_range ba.1 256 x → ¬ in_range b
    (Z.of_nat (length (lines tdone) + (length sq + S (length (lines trest))))) x) as Hd'.
  { intros ba x Hba Hx Hbx. apply (Hdis x Hbx). exists ba.1. split; [by apply list_elem_of_fmap_2|done]. }
  set (k := Z.of_nat (length (lines tdone))) in *.
  apply runs_bind. eapply runs_mono; [apply (name_out_ok m q.2 sq (b + k) k Hq Hqb); [|lia..]|].
  { unfold apart. destruct (decide (q.2 + (Z.of_nat (length sq) + 1) ≤ b + k)); [by left|].
    destruct (decide (b + k + Z.of_nat (length sq) ≤ q.2)); [by right|]. exfalso.
    apply (Hd' q (Z.max q.2 (b + k))); [|unfold in_range; lia..]. apply elem_of_app. right. left. }
  cbn beta. intros r m1 (-> & Hb1 & Hs1). cbn [fst snd]. apply runs_bind, runs_modify, runs_ret.
  assert (same_outside (in_range b (Z.of_nat (length (lines tdone) + (length sq + S (length (lines trest)))))) m
    (<[b + k + Z.of_nat (length sq) := 10]> m1)) as Hs2.
  { eapply same_outside_trans; [eapply same_outside_mono; [|exact Hs1]|apply same_outside_insert];
      [intros x|]; unfold in_range; lia. }
  exists (Z.of_nat (length arest)). cbn [length]. split; [lia|].
  exists (adone ++ [q]), arest, (tdone ++ [sq]), trest. rewrite <- !app_assoc, !length_app. cbn [length app].
  split_and!; [done|done|lia| |done| | |].
  - eapply Forall2_holds_frame; [exact Hs2| |exact Hr]. intros x ba Hx Hba Hr'.
    apply (Hd' ba x); [|done|done]. apply elem_of_app. right. by right.
  - rewrite lines_app, lines_cons, !length_app, u64_small by (unfold k in *; cbn [length lines map concat]; lia).
    cbn [length lines map concat]. unfold k. repeat (f_equal; try lia).
  - rewrite lines_app, lines_cons. change (lines []) with (@nil Z). rewrite (app_assoc _ sq).
    replace (b + k + Z.of_nat (length sq)) with (b + Z.of_nat (length (lines tdone ++ sq))) by (rewrite length_app; lia).
    apply bytes_at_snoc; [lia|]. apply bytes_at_app. split; [|exact Hb1].
    eapply bytes_at_frame; [exact Hs1| |exact Hb]. intros x Hx. unfold in_range. lia.
  - rewrite !lines_app, !lines_cons, !length_app. cbn [length]. by eapply same_outside_trans.
Qed.

Lemma names_out_ok pathes0 m b ads texts :
  nth (length ads) pathes0 0 = 0 →
  Forall2 (holds m) ads texts → Forall (λ ba, 0 < ba.1) ads → (length ads ≤ 50)%nat →
  (∀ x, in_range b (Z.of_nat (length (lines texts))) x → ¬ in_blocks ads.*1 x) →
  runs (loop (names_out_round (path_array pathes0 ads)) (0, b, 0)) m (λ k m',
    k = Z.of_nat (length (lines texts)) ∧ bytes_at m' b (lines texts) ∧ same_outside (in_range b k) m m').
Proof.
  intros H0 Ht Hpos Hlen Hdis.
  assert (length (lines texts) ≤ 256 * length ads)%nat as Hmax.
  { clear -Ht. induction Ht as [|q sq ads texts (Hq0 & Hq & _) _ IH]; [cbn; lia|].
    rewrite lines_cons, length_app. cbn [length]. lia. }
  apply (runs_loop_ghost _ (writing m b ads texts)) with (n := Z.of_nat (length ads)); [|..|lia].
  - intros n v m' H. apply (names_out_round_ok pathes0 m); done || lia.
  - exists [], ads, [], texts. cbn [length lines map concat Z.of_nat]. rewrite Z.add_0_r. split_and!; try done.
Qed.

(** ** The root directory *)

(** A name with a first component, as in a tar archive of relative paths. *)
Definition relative (n : list Z) : Prop := match n with [] => False | c :: _ => c ≠ 47 end.

(** The members of a list in the order of their first occurrences. *)
Fixpoint distinct (seen l : list (list Z)) : list (list Z) :=
  match l with
  | [] => []
  | x :: l' => if decide (x ∈ seen) then distinct seen l' else x :: distinct (seen ++ [x]) l'
  end.

Lemma component_idem s : component (component s) = component s.
Proof. induction s as [|c s IH]; cbn; [done|]. destruct (c =? 47) eqn:E; cbn; [done|]. by rewrite E, IH. Qed.

Lemma relative_component s : relative s → relative (component s).
Proof. destruct s as [|c s]; [done|]. cbn. intros H. by rewrite (proj2 (Z.eqb_neq _ _) H). Qed.

Lemma relative_no_slash s : relative s → no_slash s = s ∧ s ≠ [].
Proof. destruct s as [|c s]; [done|]. cbn. intros H. by rewrite (proj2 (Z.eqb_neq _ _) H). Qed.

Section root.
Context (dir : list Z) (Hdir : no_slash dir = []).

Lemma strip_root s : strip s dir = no_slash s.
Proof. unfold strip. by rewrite Hdir. Qed.

(** A search passes a relative path by cutting both. *)
Lemma search_cons p q qs : relative p → relative q →
  search dir p (q :: qs) =
    if bool_decide (component p = component q) then (true, component p, component q :: qs)
    else let '(b, p', qs') := search dir (component p) qs in (b, p', component q :: qs').
Proof.
  intros Hp Hq. cbn [search]. destruct (relative_no_slash p Hp) as [Ep _].
  destruct (relative_no_slash q Hq) as [Eq Hne]. rewrite strip_root, Eq, Eq, Ep.
  destruct q as [|c q]; [done|]. by rewrite !cut_at_self.
Qed.

(** Names that are components already stay as they are. *)
Lemma search_components p qs : relative p → Forall (λ q, relative q ∧ component q = q) qs →
  search dir p qs = (bool_decide (component p ∈ qs), match qs with [] => p | _ => component p end, qs).
Proof.
  intros Hp H. revert p Hp. induction H as [|q qs [Hq Eq] H IH]; intros p Hp; [done|].
  rewrite search_cons, Eq by done. case_bool_decide as E.
  - rewrite bool_decide_true by (rewrite E; left). done.
  - rewrite IH by (by apply relative_component). rewrite component_idem.
    rewrite (bool_decide_ext (component p ∈ q :: qs) (component p ∈ qs)).
    + by destruct qs.
    + rewrite elem_of_cons. naive_solver.
Qed.

Lemma collect_components names qs : Forall relative names → qs ≠ [] →
  Forall (λ q, relative q ∧ component q = q) qs →
  (length (qs ++ distinct qs (map component names)) ≤ 50)%nat →
  collect dir names qs = Some (qs ++ distinct qs (map component names)).
Proof.
  intros Hn. revert qs. induction Hn as [|n names Hp Hn IH]; intros qs Hne Hqs Hlen; cbn [collect map distinct].
  { by rewrite app_nil_r. }
  destruct (relative_no_slash n Hp) as [En Hnn]. rewrite strip_root, En.
  destruct n as [|c n]; [done|]. set (p := c :: n) in *. cbn [map distinct] in Hlen.
  rewrite (search_components p qs Hp Hqs).
  case_decide as Hin.
  - rewrite bool_decide_true by done. by apply IH.
  - rewrite bool_decide_false by done. rewrite length_app in Hlen. cbn [length] in Hlen.
    rewrite (proj2 (Nat.ltb_lt _ _)) by lia. destruct qs as [|q qs]; [done|].
    rewrite IH; [by rewrite <- app_assoc|by destruct qs|..].
    + apply list.Forall_app. split; [done|]. repeat constructor; [by apply relative_component|apply component_idem].
    + rewrite <- app_assoc, length_app. cbn [app length] in *. lia.
Qed.

(** Two names or more in the archive: the listing of the root directory is the
    distinct first components of the names. *)
Lemma root_listing names : Forall relative names → (2 ≤ length names)%nat →
  (length (distinct [] (map component names)) ≤ 50)%nat →
  collect dir names [] = Some (distinct [] (map component names)).
Proof.
  intros Hn H2 Hlen. destruct names as [|n1 [|n2 names]]; cbn [length] in H2; [lia|lia|].
  apply list.Forall_cons in Hn as [H1 [Hn2 Hn]%list.Forall_cons].
  cbn [collect]. destruct (relative_no_slash n1 H1) as [E1 Hne1]. destruct (relative_no_slash n2 Hn2) as [E2 Hne2].
  rewrite !strip_root, E1, E2.
  destruct n1 as [|c1 n1]; [done|]. destruct n2 as [|c2 n2]; [done|].
  set (p1 := c1 :: n1) in *. set (p2 := c2 :: n2) in *. 
  change (search dir p1 []) with (false, p1, @nil (list Z)). cbn [app length Nat.ltb Nat.leb].
  rewrite search_cons by done. cbn [search map distinct] in *. rewrite decide_False in * by apply not_elem_of_nil.
  cbn [app] in *. assert (relative (component p1) ∧ component (component p1) = component p1) as Hc1.
  { split; [by apply relative_component|apply component_idem]. }
  assert (component p2 ∈ [component p1] ↔ component p2 = component p1) as Hiff.
  { rewrite elem_of_cons. split; [intros [?|Hx]; [done|by apply elem_of_nil in Hx]|by left]. }
  case_bool_decide as E; case_decide as E'; try (exfalso; tauto).
  - rewrite collect_components; [done|done|done|by repeat constructor; apply Hc1|done].
  - rewrite collect_components; [done|done|done| |done].
    repeat constructor; try apply Hc1; [by apply relative_component|apply component_idem].
Qed.

End root.

(** ** Other directories *)

(** The stored paths have lost the directory already, and [remove_prefix] is
    applied to them once more: unless one starts with the directory again, no
    duplicate is found and nothing is cut.  A directory is listed with the whole
    relative path of every name under it. *)
Lemma search_none dir p qs : Forall (λ q, strip q dir = []) qs → search dir p qs = (false, p, qs).
Proof.
  induction 1 as [|q qs Hq _ IH]; cbn [search]; [done|]. by rewrite Hq, IH.
Qed.

Lemma subdirectory_listing dir names qs :
  Forall (λ q, strip q dir = []) qs → Forall (λ n, strip (strip n dir) dir = []) names →
  (length (qs ++ filter (λ p, p ≠ []) (map (λ n, strip n dir) names)) ≤ 50)%nat →
  collect dir names qs = Some (qs ++ filter (λ p, p ≠ []) (map (λ n, strip n dir) names)).
Proof.
  intros Hqs Hn. revert qs Hqs. induction Hn as [|n names Hs Hn IH]; intros qs Hqs Hlen; cbn [collect map] in *.
  { by rewrite app_nil_r. }
  destruct (strip n dir) as [|c p] eqn:E.
  - rewrite filter_cons_False in * by (by intros []). by apply IH.
  - rewrite filter_cons_True in * by done. rewrite (search_none dir (c :: p) qs Hqs).
    rewrite length_app in Hlen. cbn [length] in Hlen. rewrite (proj2 (Nat.ltb_lt _ _)) by lia.
    rewrite IH; [by rewrite <- app_assoc| |rewrite <- app_assoc, length_app; cbn [length app]; lia].
    apply list.Forall_app. split; [done|]. by repeat constructor.
Qed.

(** In the directory "d", "d/b/x" and "d/b/y" are listed as "b/x" and "b/y". *)
Example subdirectory_duplicates :
  collect [100] [[100; 47; 98; 47; 120]; [100; 47; 98; 47; 121]] [] = Some [[98; 47; 120]; [98; 47; 121]].
Proof. reflexivity. Qed.

(** The comparison stops at the first difference: "d/a" is listed in "dx". *)
Example other_directory_listed : collect [100; 120] [[100; 47; 97]] [] = Some [[97]].
Proof. reflexivity. Qed.

(** A directory written with a slash at its end lists nothing. *)
Example trailing_slash_empty : collect [100; 47] [[100; 47; 97]] [] = Some [].
Proof. reflexivity. Qed.
