(* ===== verification/ListingCorrect.v ===== *)
(** * [ustar_read_dir] with the heap

    Each name is copied to a block of the heap: the blocks are apart from each
    other and from all memory in use, so that the functions of [Listing] apply.
    The tar file system keeps the contract of [Fs] for directories. *)

From S2P Require Import Prelude Machine Util Heap VmmCorrect KheapCorrect Fs Ustar UstarCorrect Listing.

(** ** Memory that is in use *)

(** The local array of 50 paths is not initialised, and its first entry that is
    NULL ends the searches: the entries up to the one behind [n] names have to be
    NULL. *)
Definition clear_up_to (pathes0 : list Z) (n : nat) : Prop :=
  length pathes0 = 50%nat ∧ Forall (λ x, x = 0) (take (S n) pathes0).

#[global] Instance clear_up_to_dec pathes0 n : Decision (clear_up_to pathes0 n).
Proof. unfold clear_up_to. apply _. Defined.

Lemma clear_up_to_nth pathes0 n i : clear_up_to pathes0 n → (i ≤ n)%nat → nth i pathes0 0 = 0.
Proof.
  intros [_ H] Hi. rewrite nth_lookup. destruct (pathes0 !! i) as [x|] eqn:E; [|done].
  rewrite list.Forall_forall in H. apply H. apply (list_elem_of_lookup_2 _ i).
  by rewrite lookup_take_lt by lia.
Qed.

Section owned.
Context `{HO : HeapOps, HV : HeapView, HL : !HeapLaws}.

(** Blocks in use have no byte in common. *)
Lemma blocks_disjoint s B p q x : heap_ok s B → p ∈ B → q ∈ B → p ≠ q →
  heap_data s p x → heap_data s q x → False.
Proof.
  intros HB Hp Hq Hne Hx Hx'. set (v := if byte (ram s) x =? 0 then 1 else 0).
  destruct (heap_write_ok s B p (<[x := v]> (ram s)) HB Hp) as (_ & [_ Hk] & _).
  { intros y Hy. rewrite byte_insert, decide_False; [done|]. by intros ->. }
  destruct (Hk q x ltac:(set_solver) Hx') as [_ E]. cbn [ram set_ram] in E.
  rewrite byte_insert, decide_True in E by done. subst v.
  destruct (byte (ram s) x =? 0) eqn:E0; bool_to_prop; [rewrite E0 in E; discriminate E|].
  apply E0. by rewrite <- E.
Qed.

(** An address below the direct map, or of a block in use. *)
Definition owned (h : kstate) (B : gset Z) (x : Z) : Prop :=
  x ≤ hhdm_offset h ∨ ∃ b, b ∈ B ∧ heap_data h b (cell (hhdm_offset h) x).

(** A new block has no address in use. *)
Lemma alloc_owned h B n : heap_ok h B → 0 ≤ n ≤ 2 ^ 32 →
  safe (heap_alloc n) h (λ p h', 0 < p ∧ heap_ok h' ({[p]} ∪ B) ∧
    (∀ x, owned h B x → owned h' ({[p]} ∪ B) x ∧ ¬ in_range p n x) ∧
    (∀ x, in_range p n x → owned h' ({[p]} ∪ B) x)).
Proof.
  intros HB Hn. eapply safe_mono; [by apply (heap_alloc_ok h B)|].
  intros p h' (Hp & Hfresh & HB' & _ & [E Hk] & Hhh & _ & Hd).
  split_and!; [lia|done| |].
  - intros x [Hx|(b & Hb & Hx)].
    + unfold in_range. split; [left; by rewrite E|lia].
    + destruct (Hk b _ Hb Hx) as [Hx' _]. rewrite <- E in Hx'.
      split; [right; exists b; split; [set_solver|done]|].
      intros Hr. unfold in_range in Hr. specialize (Hd (x - p) ltac:(lia)).
      replace (p + (x - p)) with x in Hd by lia.
      apply (blocks_disjoint h' ({[p]} ∪ B) p b (cell (hhdm_offset h') x)); try done; set_solver.
  - intros x Hr. unfold in_range in Hr. right. exists p. split; [set_solver|].
    specialize (Hd (x - p) ltac:(lia)). by replace (p + (x - p)) with x in Hd by lia.
Qed.

(** ** Collecting the names *)

Context (t empty : Z) (pathes0 : list Z) (g : volume) (d : Z) (dir : list Z) (s0 : ustate) (B0 : gset Z).

(** Memory of others: what was in use at the start, but for the local array. *)
#[local] Definition scratch (x : Z) : Prop := in_range t 256 x ∨ ¬ owned (heap s0) B0 x.

(** What [ustar_read_dir] finds: the archive and the strings it reads, all in
    memory in use. *)
Record readable : Prop := {
  rd_start : tar_fs_start_address s0 = v_start g;
  rd_archive : archive (bytes s0) (v_start g) (v_files g);
  rd_bounds : 0 < v_start g ∧ v_start g + archive_length (v_files g) < 2 ^ 62;
  rd_apart : apart t 256 (v_start g) (archive_length (v_files g));
  rd_context : context empty d dir (bytes s0);
  rd_context_apart : ∀ x, context_bytes empty d dir x → ¬ in_range t 256 x;
  rd_heap : heap_ok (heap s0) B0;
  rd_owned : ∀ x, ustar_private g x ∨ context_bytes empty d dir x ∨ in_range t 256 x →
    owned (heap s0) B0 x;
}.

(** The state between two rounds: the blocks [ads] hold the paths [texts]. *)
Record stored (ads : list (Z * Z)) (texts : list (list Z)) (s : ustate) : Prop := {
  st_table : tar_fs_start_address s = tar_fs_start_address s0 ∧ descriptors s = descriptors s0 ∧
    open_files s = open_files s0;
  st_heap : ∃ B, heap_ok (heap s) B ∧ B0 ⊆ B ∧
    (∀ x, owned (heap s0) B0 x → owned (heap s) B x) ∧
    (∀ x, in_blocks ads.*1 x → owned (heap s) B x);
  st_bytes : same_outside scratch (bytes s0) (bytes s);
  st_new : ∀ x, in_blocks ads.*1 x → ¬ owned (heap s0) B0 x;
  st_pos : Forall (λ ba, 0 < ba.1) ads;
  st_separate : separate ads.*1;
  st_holds : Forall2 (holds (bytes s)) ads texts;
  st_length : (length ads ≤ 50)%nat;
}.

Lemma stored_archive ads texts s : readable → stored ads texts s →
  archive (bytes s) (v_start g) (v_files g).
Proof.
  intros R S. eapply archive_frame; [apply (st_bytes _ _ _ S)| |apply (rd_archive R)].
  intros x Hx [Ht|Hn].
  - pose proof (rd_apart R). unfold apart, in_range in *. lia.
  - apply Hn, (rd_owned R). left. done.
Qed.

Lemma stored_context ads texts s : readable → stored ads texts s → context empty d dir (bytes s).
Proof.
  intros R S. eapply context_frame; [apply (st_bytes _ _ _ S)| |apply (rd_context R)].
  intros x [Ht|Hn] Hx; [by apply (rd_context_apart R x)|]. apply Hn, (rd_owned R). auto.
Qed.

(** The local array may be overwritten. *)
Lemma stored_scratch ads texts s m : readable → stored ads texts s →
  same_outside (in_range t 256) (bytes s) m → stored ads texts (set_bytes m s).
Proof.
  intros R [] Hs. split; cbn [bytes heap set_bytes tar_fs_start_address descriptors open_files]; try done.
  - eapply same_outside_trans; [done|]. eapply same_outside_mono; [|done]. intros x. by left.
  - eapply Forall2_holds_frame; [done| |done]. intros x ba Hx Hba Hr.
    apply (st_new0 x); [exists ba.1; split; [by apply list_elem_of_fmap_2|done]|].
    apply (rd_owned R). auto.
Qed.

(** A new block is taken for a name; it is not listed yet. *)
Record block_for (ads : list (Z * Z)) (p : Z) (s : ustate) : Prop := {
  bf_pos : 0 < p;
  bf_heap : ∃ B, heap_ok (heap s) B ∧ B0 ⊆ B ∧
    (∀ x, owned (heap s0) B0 x → owned (heap s) B x) ∧
    (∀ x, in_blocks (p :: ads.*1) x → owned (heap s) B x);
  bf_new : ∀ x, in_range p 256 x → ¬ owned (heap s0) B0 x;
  bf_separate : separate (p :: ads.*1);
}.

Lemma in_blocks_apart bs p : (∀ x, in_blocks bs x → ¬ in_range p 256 x) → Forall (λ c, apart p 256 c 256) bs.
Proof.
  intros H. apply list.Forall_forall. intros c Hc. unfold apart.
  destruct (decide (p + 256 ≤ c)); [by left|]. destruct (decide (c + 256 ≤ p)); [by right|]. exfalso.
  destruct (decide (p ≤ c)); [apply (H c)|apply (H p)]; try (exists c; split; [done|]); unfold in_range; lia.
Qed.

Lemma name_block_ok ads texts s : stored ads texts s →
  safe (on_heap (heap_alloc 256)) s (λ p s', block_for ads p s' ∧ stored ads texts s' ∧ bytes s' = bytes s).
Proof.
  intros S. destruct (st_heap _ _ _ S) as (B & HB & HB0 & Hown & Hads). apply safe_zoom.
  eapply safe_mono; [by apply (alloc_owned (heap s) B 256)|].
  cbn beta. intros p h (Hp & HB' & Hold & Hnew).
  assert (∃ B', heap_ok h B' ∧ B0 ⊆ B' ∧ (∀ x, owned (heap s0) B0 x → owned h B' x) ∧
    (∀ x, in_blocks (p :: ads.*1) x → owned h B' x)) as Hheap.
  { exists ({[p]} ∪ B). split_and!; [done|set_solver| |].
    - intros x Hx. by apply Hold, Hown.
    - intros x [Hx|Hx]%in_blocks_cons; [by apply Hnew|]. by apply Hold, Hads. }
  split_and!; [|..|done].
  - split; [done|done|..].
    + intros x Hx Ho. by apply (Hold x (Hown x Ho)).
    + split; [|apply S]. apply in_blocks_apart. intros x Hx. by apply Hold, Hads.
  - destruct S. split; try done. cbn [heap set_heap]. destruct Hheap as (B' & ? & ? & ? & Hb).
    exists B'. split_and!; try done. intros x Hx. apply Hb, in_blocks_cons. by right.
Qed.

Lemma block_for_bytes ads p s m : block_for ads p s → block_for ads p (set_bytes m s).
Proof. intros []. by split. Qed.

Lemma blocks_frame (bs : list Z) m m' ads texts :
  same_outside (in_blocks bs) m m' → (∀ b, b ∈ bs → Forall (λ c, apart b 256 c 256) ads.*1) →
  Forall2 (holds m) ads texts → Forall2 (holds m') ads texts.
Proof.
  intros Hs Hap. eapply Forall2_holds_frame; [done|]. intros x ba (b & Hb & Hx) Hba.
  specialize (Hap b Hb). rewrite Forall_fmap, list.Forall_forall in Hap. specialize (Hap ba Hba).
  cbn in Hap. unfold apart, in_range in *. lia.
Qed.

(** Writes to the new block and the listed ones keep the state, with what the
    blocks hold now. *)
Lemma stored_blocks ads texts texts' p s m : stored ads texts s → block_for ads p s →
  same_outside (in_blocks (p :: ads.*1)) (bytes s) m → Forall2 (holds m) ads texts' →
  stored ads texts' (set_bytes m s).
Proof.
  intros [] [] Hs Ht. split; try done.
  eapply same_outside_trans; [done|]. eapply same_outside_mono; [|done].
  intros x [Hx|Hx]%in_blocks_cons; right; auto.
Qed.

Lemma stored_push ads texts p a text s : stored ads texts s → block_for ads p s →
  holds (bytes s) (p, a) text → (length ads < 50)%nat →
  stored (ads ++ [(p, a)]) (texts ++ [text]) s.
Proof.
  intros [] [] Hh Hl.
  assert (∀ x, in_blocks (ads ++ [(p, a)]).*1 x → in_blocks (p :: ads.*1) x) as Hin.
  { intros x (b & Hb & Hx). exists b. split; [|done]. rewrite fmap_app in Hb. set_solver. }
  split; try done.
  - destruct bf_heap0 as (B & ? & ? & ? & Hb). exists B. split_and!; auto.
  - intros x [Hx|Hx]%Hin%in_blocks_cons; auto.
  - apply list.Forall_app. split; [done|]. by repeat constructor.
  - rewrite fmap_app. destruct bf_separate0. by apply separate_snoc.
  - apply Forall2_app; [done|]. by repeat constructor; apply Hh.
  - rewrite length_app. cbn. lia.
Qed.

(** The name of a record in its block. *)
Lemma fill_name_ok ads texts p s r e : readable → stored ads texts s → block_for ads p s →
  (r, e) ∈ records (v_start g) (v_files g) →
  let m := slash_loop 255 (copy_record_name p r (memset (bytes s) p 0 256)) p in
  cstr_at m p (path_of e) ∧ (length (path_of e) ≤ 99)%nat ∧
  same_outside (in_blocks (p :: ads.*1)) (bytes s) m ∧ stored ads texts (set_bytes m s).
Proof.
  intros R S F Hr m. pose proof (stored_archive _ _ _ R S) as Ha.
  destruct (record_at _ _ _ _ _ Ha Hr) as [He Hrange].
  assert (apart p 256 r 512) as Hap.
  { assert (Forall (λ c, apart p 256 c 256) [r; r + 256]) as Hf.
    { apply in_blocks_apart. intros x (b & Hb & Hx) Hp. apply (bf_new _ _ _ F x Hp), (rd_owned R). left.
      pose proof (record_length_bounds e). unfold ustar_private, in_range, content_length in *.
      rewrite !elem_of_cons in Hb. destruct Hb as [->|[->|Hb]]; [lia|lia|by apply elem_of_nil in Hb]. }
    apply list.Forall_cons in Hf as [H1 [H2 _]%list.Forall_cons]. unfold apart in *. lia. }
  pose proof (same_outside_memset (bytes s) p 0 256 ltac:(lia)) as Hms.
  assert (entry_at (memset (bytes s) p 0 256) r e) as He'.
  { assert (∀ x, r ≤ x < r + record_length e → ¬ in_range p 256 x) as Hx.
    { intros x Hx Hp. apply (bf_new _ _ _ F x Hp), (rd_owned R). left.
      unfold ustar_private, in_range. lia. }
    eapply entry_at_frame; [exact Hms|exact Hx|done]. }
  destruct (copy_record_name_ok p _ r e He' Hap) as [Hc Hs]. fold m in Hc, Hs. clearbody m.
  assert (same_outside (in_range p 256) (bytes s) m) as Hm by exact (same_outside_trans _ _ _ _ Hms Hs).
  assert (same_outside (in_blocks [p]) (bytes s) m) as Hm1.
  { eapply same_outside_mono; [|exact Hm]. intros x Hx. exists p. split; [left|exact Hx]. }
  assert (same_outside (in_blocks (p :: ads.*1)) (bytes s) m) as Hm2.
  { eapply same_outside_mono; [|exact Hm]. intros x Hx. apply in_blocks_cons. by left. }
  split_and!; [done|unfold path_of; rewrite length_map; apply He|done|].
  apply (stored_blocks ads texts _ p); [done..|]. eapply blocks_frame; [exact Hm1| |apply S].
  intros b [->|Hb]%elem_of_cons; [apply F|by apply elem_of_nil in Hb].
Qed.

(** Between two rounds: the records of [rest] are still to come. *)
Definition gathering (final : list (list Z)) (v : Z * list Z * Z) (s : ustate) : Prop :=
  ∃ pre rest ads texts, v_files g = pre ++ rest ∧ at_record (v_start g) pre v.1.1 ∧
    v.1.2 = path_array pathes0 ads ∧ v.2 = Z.of_nat (length ads) ∧
    collect dir (map path_of rest) texts = Some final ∧ stored ads texts s.

(** The search, and the path listed unless one was found. *)
Lemma list_path_ok ads texts p a text rest final record s :
  readable → clear_up_to pathes0 (length final) →
  stored ads texts s → block_for ads p s → holds (bytes s) (p, a) text →
  (let '(b, p', listed) := search dir text texts in
   if b : bool then collect dir rest listed
   else if (length texts <? 50)%nat then collect dir rest (listed ++ [p']) else None) = Some final →
  runs (duplicate ← on_bytes (loop (duplicate_round empty d a (path_array pathes0 ads)) 0);
        if (duplicate : bool) then mret (inl (record, path_array pathes0 ads, Z.of_nat (length ads)))
        else if Z.of_nat (length ads) <? 50 then
          mret (inl (record, <[Z.to_nat (Z.of_nat (length ads)) := a]> (path_array pathes0 ads),
                     u32 (Z.of_nat (length ads) + 1)))
        else fault) s (λ v s', ∃ ads' texts', stored ads' texts' s' ∧ collect dir rest texts' = Some final ∧
    v = (inl (record, path_array pathes0 ads', Z.of_nat (length ads')) : (Z * list Z * Z) + list Z)).
Proof.
  intros R H0 S F Hh Hcol. pose proof (st_holds _ _ _ S) as Ht.
  pose proof (Forall2_length Ht) as Hlen.
  assert (∀ x, in_blocks (p :: ads.*1) x → ¬ context_bytes empty d dir x) as Hctx.
  { intros x Hx Hc. assert (¬ owned (heap s0) B0 x) as Hn.
    { apply in_blocks_cons in Hx as [Hx|Hx]; [by apply F|by apply S]. }
    apply Hn, (rd_owned R). auto. }
  apply runs_bind, runs_zoom.
  eapply runs_mono; [apply (duplicate_loop_ok empty d dir pathes0 (bytes s) (p, a) text ads texts)|]; try apply S; try done.
  { apply (clear_up_to_nth pathes0 (length final)); [done|]. rewrite Hlen, <- (search_length dir text).
    destruct (search dir text texts) as [[[] ?] ?]; [by apply collect_length in Hcol|].
    destruct (length texts <? 50)%nat; [|done]. apply collect_length in Hcol.
    rewrite length_app in Hcol. cbn. lia. }
  { apply F. }
  { by eapply stored_context. }
  cbn beta. intros b m (-> & Hp & Hads & Hs). destruct (search dir text texts) as [[b p'] listed].
  cbn [fst snd] in *. pose proof (stored_blocks _ _ _ _ _ _ S F Hs Hads) as S'.
  pose proof (block_for_bytes _ _ _ m F) as F'.
  destruct b; [apply runs_ret; by exists ads, listed|].
  rewrite <- Hlen in Hcol. destruct (length ads <? 50)%nat eqn:E; [|done]. apply Nat.ltb_lt in E.
  rewrite (proj2 (Z.ltb_lt _ _)) by lia. apply runs_ret.
  exists (ads ++ [(p, a)]), (listed ++ [p']). split_and!; [by apply stored_push|done|].
  rewrite Nat2Z.id. change a with (p, a).2 at 1. rewrite path_array_insert by (rewrite (proj1 H0); done).
  rewrite length_app, u32_small by lia. cbn [length]. do 3 f_equal. lia.
Qed.

Lemma records_mid a pre e rest : (a + records_length pre, e) ∈ records a (pre ++ e :: rest).
Proof.
  revert a. induction pre as [|x pre IH]; intros a; cbn [app records records_length foldr].
  { rewrite Z.add_0_r. left. }
  right. specialize (IH (a + record_length x)). by rewrite <- Z.add_assoc in IH.
Qed.

(** The rounds end: the record moves on. *)
Definition remaining (v : Z * list Z * Z) (_ : ustate) : Z :=
  v_start g + archive_length (v_files g) - v.1.1.

Lemma at_record_remaining pre rest r : v_files g = pre ++ rest → 0 < v_start g →
  at_record (v_start g) pre r → r < v_start g + records_length pre ∧
  v_start g + records_length pre ≤ v_start g + archive_length (v_files g).
Proof.
  intros -> Hpos Hr. rewrite archive_length_app. pose proof (archive_length_pos rest).
  pose proof (sum_nonneg pre). split; [|lia]. destruct Hr as [[_ ->]|(l & e & -> & ->)]; [lia|].
  rewrite records_length_app. cbn. pose proof (record_length_bounds e). unfold content_length in *. lia.
Qed.

Lemma bytes_set_bytes m s : bytes (set_bytes m s) = m.
Proof. done. Qed.

(** A record's name is in its block: its path is listed unless its first
    component is. *)
Lemma list_filled_ok ads texts p s r e rest final :
  readable → clear_up_to pathes0 (length final) → stored ads texts s → block_for ads p s →
  cstr_at (bytes s) p (path_of e) → (length (path_of e) ≤ 99)%nat →
  collect dir (map path_of (e :: rest)) texts = Some final →
  runs (path ← on_bytes (remove_prefix empty p d);
        c ← on_bytes (gets (λ m, byte m path));
        if c =? 0 then mret (inl (r, path_array pathes0 ads, Z.of_nat (length ads)))
        else
          duplicate ← on_bytes (loop (duplicate_round empty d path (path_array pathes0 ads)) 0);
          if (duplicate : bool) then mret (inl (r, path_array pathes0 ads, Z.of_nat (length ads)))
          else if Z.of_nat (length ads) <? 50 then
            mret (inl (r, <[Z.to_nat (Z.of_nat (length ads)) := path]> (path_array pathes0 ads),
                       u32 (Z.of_nat (length ads) + 1)))
          else fault) s (λ v s', ∃ ads' texts', stored ads' texts' s' ∧
    collect dir (map path_of rest) texts' = Some final ∧
    v = (inl (r, path_array pathes0 ads', Z.of_nat (length ads')) : (Z * list Z * Z) + list Z)).
Proof.
  intros R H0 S F Hc Hl Hcol. pose proof (stored_context _ _ _ R S) as [Hd He]. cbn [map collect] in Hcol.
  assert (set_bytes (bytes s) s = s) as E by (by destruct s).
  apply runs_bind, runs_zoom.
  eapply runs_mono; [apply (remove_prefix_ok _ empty p (path_of e) d dir); [done..|lia]|].
  cbn beta. intros a m' (-> & Ca & Htail). rewrite E. apply runs_bind, runs_zoom, runs_gets.
  rewrite E, (head_zero _ _ _ Ca). destruct (strip (path_of e) dir) as [|c text] eqn:Estrip.
  { rewrite bool_decide_true by done. apply runs_ret. by exists ads, texts. }
  rewrite bool_decide_false by done. destruct Htail as [Htail|[_ Hnil]]; [|discriminate Hnil].
  pose proof (tail_of_length _ _ _ _ Htail).
  apply (list_path_ok ads texts p a (c :: text)); [done..| |exact Hcol].
  split_and!; cbn [fst snd]; [lia|lia|exact Ca].
Qed.

(** The name is put in the block first. *)
Lemma list_name_ok ads texts p s r e rest final :
  readable → clear_up_to pathes0 (length final) → stored ads texts s → block_for ads p s →
  (r, e) ∈ records (v_start g) (v_files g) →
  collect dir (map path_of (e :: rest)) texts = Some final →
  runs (on_bytes (modify (λ m, memset m p 0 256));;
        on_bytes (modify (copy_record_name p r));;
        on_bytes (modify (λ m, slash_loop 255 m p));;
        path ← on_bytes (remove_prefix empty p d);
        c ← on_bytes (gets (λ m, byte m path));
        if c =? 0 then mret (inl (r, path_array pathes0 ads, Z.of_nat (length ads)))
        else
          duplicate ← on_bytes (loop (duplicate_round empty d path (path_array pathes0 ads)) 0);
          if (duplicate : bool) then mret (inl (r, path_array pathes0 ads, Z.of_nat (length ads)))
          else if Z.of_nat (length ads) <? 50 then
            mret (inl (r, <[Z.to_nat (Z.of_nat (length ads)) := path]> (path_array pathes0 ads),
                       u32 (Z.of_nat (length ads) + 1)))
          else fault) s (λ v s', ∃ ads' texts', stored ads' texts' s' ∧
    collect dir (map path_of rest) texts' = Some final ∧
    v = (inl (r, path_array pathes0 ads', Z.of_nat (length ads')) : (Z * list Z * Z) + list Z)).
Proof.
  intros R H0 S F Hre Hcol. pose proof (fill_name_ok ads texts p s r e R S F Hre) as Hfill. cbn zeta in Hfill.
  do 3 (apply runs_bind, runs_zoom, runs_modify). rewrite !bytes_set_bytes, !set_bytes_twice.
  revert Hfill. generalize (slash_loop 255 (copy_record_name p r (memset (bytes s) p 0 256)) p).
  intros m (Hc & Hl & _ & S3). eapply list_filled_ok; [exact R|exact H0|exact S3| |exact Hc|exact Hl|exact Hcol].
  by apply block_for_bytes.
Qed.

Lemma collect_round_ok final v s : readable → clear_up_to pathes0 (length final) → gathering final v s →
  safe (collect_round t empty d v) s (λ r s', match r with
    | inl v' => gathering final v' s' ∧ 0 ≤ remaining v' s' < remaining v s
    | inr pathes => ∃ ads, pathes = path_array pathes0 ads ∧ stored ads final s'
    end).
Proof.
  intros R H0. destruct v as [[record pathes] len].
  intros (pre & rest & ads & texts & Hes & Hrec & Ep & El & Hcol & S). cbn [fst snd] in *. subst pathes len.
  pose proof (stored_archive _ _ _ R S) as Ha. pose proof (rd_bounds R) as Hb. pose proof (rd_apart R) as Hap.
  destruct (st_table _ _ _ S) as (Est & _). rewrite (rd_start R) in Est.
  destruct (at_record_remaining pre rest record Hes ltac:(lia) Hrec) as [Hlt Hle].
  unfold collect_round. apply safe_bind, runs_safe. rewrite Hes in Ha, Hb, Hap.
  eapply runs_mono; [by apply (prefix_lookup_ok t s (v_start g) pre rest record)|].
  cbn beta. intros r s1 (m1 & -> & Hs1 & ->). pose proof (stored_scratch _ _ _ _ R S Hs1) as S1.
  destruct rest as [|e rest].
  { cbn in Hcol. simplify_eq. cbn [Z.eqb]. apply safe_ret. by exists ads. }
  pose proof (sum_nonneg pre). set (r := v_start g + records_length pre) in *.
  rewrite (proj2 (Z.eqb_neq r 0)) by lia.
  apply safe_bind. eapply safe_mono; [by apply (name_block_ok ads texts)|].
  cbn beta. intros p s2 (F & S2 & _). apply runs_safe.
  eapply runs_mono; [eapply (list_name_ok ads texts p s2 r e rest final); [done..| |done]|].
  { rewrite Hes. apply records_mid. }
  cbn beta. intros v s' (ads' & texts' & S' & Hcol' & ->).
  unfold remaining. cbn [fst snd]. split; [|lia].
  exists (pre ++ [e]), rest, ads', texts'. cbn [fst snd]. split_and!; try done.
  - by rewrite <- app_assoc.
  - right. by exists pre, e.
Qed.

Lemma collect_loop_ok final : readable → clear_up_to pathes0 (length final) → listing dir (v_files g) = Some final →
  safe (loop (collect_round t empty d) (0, pathes0, 0)) s0 (λ pathes s',
    ∃ ads, pathes = path_array pathes0 ads ∧ stored ads final s').
Proof.
  intros R H0 Hl. apply safe_loop with (I := gathering final) (m := remaining).
  - intros v s H. by apply collect_round_ok.
  - exists [], (v_files g), [], []. split_and!; try done; [by left|].
    assert (∀ (P : Prop) x, in_blocks [] x → P) as Hnil by (intros P x (b & Hb & _); by apply elem_of_nil in Hb).
    split; try done; [| |cbn; lia].
    + exists B0. split_and!; [apply R|done|done|]. intros x Hx. by apply (Hnil _ x).
    + intros x Hx. by apply (Hnil _ x).
  - unfold remaining. cbn [fst snd]. pose proof (rd_bounds R). pose proof (archive_length_pos (v_files g)). lia.
Qed.

(** The whole function: the listing in the buffer, and its length. *)
Lemma read_dir_ok final buf n off : readable → clear_up_to pathes0 (length final) → listing dir (v_files g) = Some final →
  (∀ x, in_range buf (Z.of_nat (length (lines final))) x → owned (heap s0) B0 x) →
  safe (ustar_read_dir t empty pathes0 d buf n off) s0 (λ k s',
    k = Z.of_nat (length (lines final)) ∧ bytes_at (bytes s') buf (lines final) ∧
    (∃ B, heap_ok (heap s') B ∧ B0 ⊆ B) ∧
    s' = set_bytes (bytes s') (set_heap (heap s') s0) ∧
    same_outside (λ x, scratch x ∨ in_range buf k x) (bytes s0) (bytes s')).
Proof.
  intros R H0 Hl Hbuf. unfold ustar_read_dir. apply safe_bind.
  eapply safe_mono; [by apply collect_loop_ok|]. cbn beta. intros pathes s (ads & -> & S).
  apply safe_zoom, runs_safe. eapply runs_mono; [apply (names_out_ok pathes0 _ buf ads final); try apply S|].
  { apply (clear_up_to_nth pathes0 (length final)); [done|]. by rewrite (Forall2_length (st_holds _ _ _ S)). }
  { intros x Hx Hb. by apply (st_new _ _ _ S x), Hbuf. }
  cbn beta. intros k m (-> & Hb & Hs). cbn [bytes heap set_bytes]. split_and!; [done|done| | |].
  - destruct (st_heap _ _ _ S) as (B & ? & ? & _). by exists B.
  - destruct (st_table _ _ _ S) as (E1 & E2 & E3). destruct s, s0. cbn in *. by subst.
  - eapply same_outside_trans; [eapply same_outside_mono; [|apply S]|eapply same_outside_mono; [|exact Hs]]; auto.
Qed.

End owned.


(** ** The tar file system lists directories *)

Section directories.
Context `{HO : HeapOps, HV : HeapView, HL : !HeapLaws}.
Context (t empty : Z) (pathes0 : list Z).

(** Memory no allocation returns: below the direct map, or in a block. *)
Definition used (s : ustate) (x : Z) : Prop := ∀ B, heap_ok (heap s) B → owned (heap s) B x.

(** The empty literal is in place, and neither the archive nor the local arrays are free memory. *)
Record listable (g : volume) (s : ustate) : Prop := {
  ls_literal : cstr_at (bytes s) empty [] ∧ ¬ in_range t 256 empty;
  ls_used : ∀ x, ustar_private g x ∨ x = empty ∨ in_range t 256 x → used s x;
}.

Lemma ustar_read_dir_ok g s q dir buf n off names :
  ustar_inv t g s → listable g s → cstr_at (bytes s) q dir →
  (∀ x, q ≤ x ≤ q + Z.of_nat (length dir) → used s x ∧ ¬ in_range t 256 x) →
  (∀ x, in_range buf (Z.of_nat (length (lines names))) x → used s x ∧ ¬ ustar_private g x) →
  listing dir (v_files g) = Some names → clear_up_to pathes0 (length names) →
  safe (ustar_read_dir t empty pathes0 q buf n off) s (λ k s',
    ustar_inv t g s' ∧ k = Z.of_nat (length (lines names)) ∧ bytes_at (bytes s') buf (lines names) ∧
    (∀ j, ustar_opened s' j = ustar_opened s j) ∧
    ∀ x, used s x → ¬ in_range t 256 x → ¬ in_range buf k x → byte (bytes s') x = byte (bytes s) x).
Proof.
  intros I [[Hlit Hlt] Hused] Hq Hqu Hbuf Hl H0. destruct (ui_heap _ _ _ I) as (B & HB & Hin).
  assert (readable t empty g q dir s B) as R.
  { split; try apply I; [by split|..|done|].
    - intros x [Hx| ->]; [|done]. unfold in_range in Hx. apply Hqu. lia.
    - intros x [Hx|[[Hx| ->]|Hx]]; [apply Hused; auto|unfold in_range in Hx; apply Hqu; [lia|done]|apply Hused; auto..]. }
  eapply safe_mono; [apply (read_dir_ok t empty pathes0 g q dir s B names buf n off R H0 Hl)|].
  { intros x Hx. by apply Hbuf. }
  cbn beta. intros k s' (-> & Hb & (B' & HB' & Hsub) & E & Hs).
  pose proof (ustar_inv_heap t g s (heap s') B' I HB') as Ih.
  destruct (ustar_inv_bytes t g (set_heap (heap s') s) (bytes s') _ (Ih ltac:(eauto)) Hs) as [I' Ho].
  { intros x [[Ht|Hn]|Hx] Hp.
    - pose proof (ui_apart _ _ _ I). unfold apart, ustar_private, in_range in *. lia.
    - apply Hn. apply Hused; auto.
    - by apply (Hbuf x Hx). }
  rewrite <- E in I', Ho. split_and!; try done. intros x Hx Ht Hnb. apply Hs.
  intros [[?|Hn]|?]; [done| |done]. by apply Hn, Hx.
Qed.

(** [C11] Listing the root directory of an archive of two or more relative names
    with [n <= 50] different first components, when the first [n + 1] of the 50
    entries of the local array of paths, which the code does not initialise,
    happen to be NULL: [ustar_read_dir] returns, or panics when the heap is
    exhausted.  The buffer holds the distinct first components of the names in the
    order of their first occurrences, one a line, and the result is the length of
    that text, whatever size the caller gave; backslashes count as slashes.  The
    open files stay as they are, and of the memory in use only the buffer and a
    local array are written. *)
Theorem ustar_read_dir_root (g : volume) (s : ustate) (q buf n off : Z) (dir : list Z) :
  ustar_inv t g s → listable g s → cstr_at (bytes s) q dir → no_slash dir = [] →
  (∀ x, q ≤ x ≤ q + Z.of_nat (length dir) → used s x ∧ ~ in_range t 256 x) →
  Forall (λ e, relative (path_of e)) (v_files g) → (2 ≤ length (v_files g))%nat →
  let names := distinct [] (map component (map path_of (v_files g))) in
  (length names ≤ 50)%nat → clear_up_to pathes0 (length names) →
  (∀ x, in_range buf (Z.of_nat (length (lines names))) x → used s x ∧ ~ ustar_private g x) →
  safe (ustar_read_dir t empty pathes0 q buf n off) s (λ k s',
    ustar_inv t g s' ∧ k = Z.of_nat (length (lines names)) ∧ bytes_at (bytes s') buf (lines names) ∧
    (∀ j, ustar_opened s' j = ustar_opened s j) ∧
    ∀ x, used s x → ~ in_range t 256 x → ~ in_range buf k x → byte (bytes s') x = byte (bytes s) x).
Proof.
  intros I L Hq Hd Hqu Hrel H2 names H50 H0 Hbuf.
  apply (ustar_read_dir_ok g s q dir buf n off names); try done.
  apply (root_listing dir Hd); [by apply Forall_map|by rewrite length_map|done].
Qed.

#[local] Existing Instance ustar_ops.
#[local] Existing Instance ustar_view.

#[global] Instance ustar_dir_view : @FsDirView ustate (ustar_view t) := {|
  fs_list (g : @fs_volume ustate (ustar_view t)) dir :=
    names ← listing dir (v_files (g : volume));
    if decide (clear_up_to pathes0 (length names)) then Some (lines names) else None;
  fs_in_use := used;
  fs_constant x := x = empty;
  fs_listable := listable;
|}.

#[global] Instance ustar_dir_laws : @FsDirLaws ustate (ustar_ops t empty pathes0) (ustar_view t) ustar_dir_view.
Proof.
  split.
  - intros g s q dir buf n off out I L Hq _ Hqu Hbuf Hout. cbn in Hout |- *.
    destruct (listing dir (v_files g)) as [names|] eqn:El; [|discriminate Hout].
    cbn in Hout. case_decide as H0; [|discriminate Hout]. injection Hout as <-.
    exact (ustar_read_dir_ok g s q dir buf n off names I L Hq Hqu Hbuf El H0).
  - intros g s m [[Hl Ht] Hu] Hm. split; [|done]. split; [|done]. split; [|done].
    apply cstr_at_nil. cbn. rewrite Hm by done. by apply cstr_at_nil.
Qed.

End directories.

(** ** Instances *)

Lemma used_low s x : x ≤ hhdm_offset (heap s) → used s x.
Proof. intros H B _. by left. Qed.

Lemma demo_offset : (4294967296 <? hhdm_offset demo_space) = true.
Proof. vm_compute. reflexivity. Qed.

Lemma demo_used x : x ≤ 4294967296 → used demo_ustate x.
Proof.
  intros Hx. apply used_low. change (heap demo_ustate) with demo_space.
  pose proof (proj1 (Z.ltb_lt _ _) demo_offset). lia.
Qed.

Lemma demo_region x : ustar_private demo_volume x ∨ x = 900 ∨ in_range demo_names 256 x → x ≤ 4294967296.
Proof.
  unfold ustar_private, in_range, demo_names.
  change (archive_length (v_files demo_volume)) with 2560. change (v_start demo_volume) with 4096. lia.
Qed.

Lemma demo_listable : listable demo_names 900 demo_volume demo_ustate.
Proof.
  split.
  - split; [apply cstr_at_nil; vm_compute; reflexivity|unfold in_range, demo_names; lia].
  - intros x Hx. apply demo_used. exact (demo_region x Hx).
Qed.

(** The local array: three entries are NULL, the others are left over. *)
Definition demo_pathes : list Z := [0; 0; 0] ++ replicate 47 200.

Lemma ustar_read_dir_root_witness :
  safe (ustar_read_dir demo_names 900 demo_pathes 250 300 1023 0) demo_ustate (λ k s',
    ustar_inv demo_names demo_volume s' ∧ k = Z.of_nat (length (lines [[104; 105]; [100]])) ∧
    bytes_at (bytes s') 300 (lines [[104; 105]; [100]]) ∧
    (∀ j, ustar_opened s' j = ustar_opened demo_ustate j) ∧
    ∀ x, used demo_ustate x → ~ in_range demo_names 256 x → ~ in_range 300 k x →
      byte (bytes s') x = byte demo_bytes x).
Proof.
  apply (ustar_read_dir_root demo_names 900 demo_pathes demo_volume demo_ustate 250 300 1023 0 []
    demo_ustar_inv demo_listable).
  - apply cstr_at_nil. vm_compute. reflexivity.
  - reflexivity.
  - intros x Hx. cbn in Hx. split; [apply demo_used; lia|unfold in_range, demo_names; lia].
  - repeat constructor; discriminate.
  - cbn. lia.
  - apply Nat.leb_le. vm_compute. reflexivity.
  - split; [reflexivity|]. repeat constructor.
  - intros x Hx. change (300 ≤ x < 300 + 5) in Hx. split; [apply demo_used; lia|].
    unfold ustar_private, in_range. cbn. lia.
Defined.

(** Left over in the third entry, the address of another string is listed as if it
    were a name of the archive: 9 bytes instead of 5. *)
Example stale_path_listed :
  match ustar_read_dir demo_names 900 ([0; 0; 200] ++ replicate 47 0) 250 300 1023 0 demo_ustate with
  | Ok (k, s') => (k, map (byte (bytes s')) (seqZ 300 k)) = (9, [104; 105; 10; 100; 10; 100; 47; 97; 10])
  | _ => False
  end.
Proof. vm_compute. reflexivity. Qed.
