(* ===== verification/Vfs.v ===== *)
(** * [src/kernel/fs/vfs.c] and [vfs.h]

    The file system switch: the table of mount points, the choice of a mount
    point by the longest common prefix, the table of open files, and the calls
    into a file system through its table of functions.

    The file system is any [F] with the operations of [Fs].  The blocks that
    [vfs_mount] and [vfs_open] allocate are modelled by what they hold: a mount
    point and its operations are only reached through [mounted_devices], and the
    block of [vfs_open] is copied into the table.  [filename] and [file_buffer]
    of a descriptor are never written nor read.  [vfs_read_dir] also prints: it
    runs on the switch and the console. *)

From S2P Require Import Prelude Machine Util Formatter Fs.

Definition VFS_TYPE_LENGTH : Z := 32.
Definition VFS_NAME_LENGTH : Z := 512.
Definition MAX_MOUNTPOINTS : Z := 12.
Definition MAX_OPENED_FILES : Z := 512.

(** A table of function pointers; [None] is NULL. *)
Record fs_operations_t {F : Type} := FsOperations {
  op_open : option (Z → Z → M F Z);
  op_close : option (Z → M F Z);
  op_read : option (Z → Z → Z → Z → M F Z);
  op_write : option (Z → Z → Z → M F Z);
  op_get_file_size : option (Z → M F Z);
  op_read_dir : option (Z → Z → Z → Z → M F Z);
}.
Arguments fs_operations_t : clear implicits.

Record mountpoint_t {F : Type} := Mountpoint {
  mp_id : Z;                   (* uint8_t *)
  mp_type : list Z;            (* char[32] *)
  mp_mountpoint : list Z;      (* char[512] *)
  mp_device : Z;
  mp_operations : fs_operations_t F;
}.
Arguments mountpoint_t : clear implicits.

Record file_descriptor_t := Descriptor {
  fs_file_id : Z;              (* uint64_t *)
  mountpoint_id : Z;           (* int *)
  buf_read_pos : Z;
  buf_write_pos : Z;
  fd_file_size : Z;
}.

Record vstate {F : Type} := VState {
  fs : F;
  next_mountpoint_id : Z;
  mounted_devices : list (option (mountpoint_t F));   (* 12 pointers *)
  mounted_devices_num : Z;
  vfs_opened_files : list file_descriptor_t;          (* 512 of them *)
}.
Arguments vstate : clear implicits.

(** [sizeof] of the structures [vfs_mount] allocates, and of the pointer
    [vfs_open] takes the size of. *)
Definition sizeof_mountpoint_t : Z := 568.
Definition sizeof_fs_operations_t : Z := 64.
Definition sizeof_pointer : Z := 8.

(** The value -1 of an unsigned file id. *)
Definition CLOSED : Z := 2 ^ 64 - 1.

Section vfs.
Context {F : Type} `{FO : !FsOps F}.

Definition set_fs (x : F) (s : vstate F) : vstate F :=
  VState F x (next_mountpoint_id s) (mounted_devices s) (mounted_devices_num s) (vfs_opened_files s).
Definition set_files (x : list file_descriptor_t) (s : vstate F) : vstate F :=
  VState F (fs s) (next_mountpoint_id s) (mounted_devices s) (mounted_devices_num s) x.
Definition set_mounts (id : Z) (l : list (option (mountpoint_t F))) (n : Z) (s : vstate F) : vstate F :=
  VState F (fs s) id l n (vfs_opened_files s).

Definition on_fs {A} (c : M F A) : M (vstate F) A := zoom fs set_fs c.
Definition memory : M (vstate F) (gmap Z Z) := gets (λ s, fs_bytes (fs s)).

(** Call through a function pointer. *)
Definition call {A} (f : option A) : M (vstate F) A :=
  match f with Some g => mret g | None => fault end.

(** [vfs_opened_files[i]] and its update, undefined outside the array *)
Definition opened_file (i : Z) : M (vstate F) file_descriptor_t := λ s,
  if (0 <=? i) && (i <? Z.of_nat (length (vfs_opened_files s)))
  then match vfs_opened_files s !! Z.to_nat i with Some d => Ok (d, s) | None => Fault end
  else Fault.
Definition set_opened_file (i : Z) (d : file_descriptor_t) : M (vstate F) unit := λ s,
  if (0 <=? i) && (i <? Z.of_nat (length (vfs_opened_files s)))
  then Ok (tt, set_files (<[Z.to_nat i := d]> (vfs_opened_files s)) s) else Fault.

(** ** Mounting *)

(** [kstrcpy] from a string [src] into an array of its own that holds [old];
    the lengths of the lists bound the copy. *)
Fixpoint strcpy_array (src old : list Z) : list Z :=
  match src, old with
  | c :: src', _ :: old' => c :: (if c =? 0 then old' else strcpy_array src' old')
  | _, _ => old
  end.
(** The string at address [p] of memory, for a copy of at most [n] characters. *)
Definition chars_at (m : gmap Z Z) (p n : Z) : list Z := map (byte m) (seqZ p n).

(** The structures [kalloc] returns are zero-filled. *)
Definition null_operations : fs_operations_t F := FsOperations F None None None None None None.

(** [ustar] is the address of the literal "ustar". *)
Definition vfs_mount (ustar device target fs_type : Z) : M (vstate F) unit :=
  on_fs (fs_kalloc sizeof_mountpoint_t);;
  on_fs (fs_kalloc sizeof_fs_operations_t);;
  id ← gets next_mountpoint_id;
  m ← memory;
  let type := strcpy_array (chars_at m fs_type VFS_TYPE_LENGTH)
                (replicate (Z.to_nat VFS_TYPE_LENGTH) 0) in
  let mountpoint := strcpy_array (chars_at m target VFS_NAME_LENGTH)
                (replicate (Z.to_nat VFS_NAME_LENGTH) 0) in
  is_ustar ← on_fs (zoom fs_bytes fs_set_bytes (kstrcmp fs_type ustar 5));
  let operations :=
    if (is_ustar : bool) then
      FsOperations F (Some fs_open) (Some fs_close) (Some fs_read) None
        (Some fs_get_file_size) (Some fs_read_dir)
    else null_operations in
  n ← gets mounted_devices_num;
  l ← gets mounted_devices;
  if n <? Z.of_nat (length l) then
    modify (set_mounts (u64 (id + 1))
      (<[Z.to_nat n := Some (Mountpoint F (u8 id) type mountpoint device operations)]> l)
      (u8 (n + 1)))
  else fault.

(** ** The mount point of a path *)

(** The [while] loop, over the local copy of the mount point's name: [Some j] is
    the place of the first difference, [None] the end of the array (or of the
    address space). *)
Fixpoint match_loop (m : gmap Z Z) (mountpoint : list Z) (c j : Z) : option Z :=
  match mountpoint with
  | [] => None
  | x :: mountpoint' =>
      if c =? 0 then None
      else if byte m c =? x then match_loop m mountpoint' (u64 (c + 1)) (j + 1)
      else Some j
  end.

(** [for (u_int8_t i = 0; i < mounted_devices_num; i++)]; [junk i] is what the
    local array holds when round [i] starts. *)
Definition mountpoint_round (junk : Z → list Z) (path : Z) (v : Z * Z * Z) :
    M (vstate F) ((Z * Z * Z) + Z) :=
  let '(i, longest, id) := v in
  n ← gets mounted_devices_num;
  if i <? n then
    l ← gets mounted_devices;
    match l !! Z.to_nat i with
    | None => fault
    | Some None => mret (inl (u8 (i + 1), longest, id))
    | Some (Some mp) =>
        m ← memory;
        let mountpoint := strcpy_array (mp_mountpoint mp) (junk i) in
        match match_loop m mountpoint path 0 with
        | Some j =>
            if j >? longest then mret (inl (u8 (i + 1), j, i))
            else mret (inl (u8 (i + 1), longest, id))
        | None => mret (inl (u8 (i + 1), longest, id))
        end
    end
  else mret (inr id).

Definition vfs_get_mountpoint (junk : Z → list Z) (path : Z) : M (vstate F) (option (mountpoint_t F)) :=
  id ← loop (mountpoint_round junk path) (0, 0, 0);
  l ← gets mounted_devices;
  match l !! Z.to_nat id with Some p => mret p | None => fault end.

(** The pointer to the mount point with an id; a NULL is dereferenced by every
    caller. *)
Definition get_mountpoint_by_id (id : Z) : M (vstate F) (mountpoint_t F) :=
  l ← gets mounted_devices;
  let i := u64 (id - 1) in
  if i <? Z.of_nat (length l) then
    match l !! Z.to_nat i with Some (Some mp) => mret mp | _ => fault end
  else fault.

(** The characters are compared with [empty], the address of the literal, and not
    with its terminator; the array of the mount point is undefined behind its
    end. *)
Fixpoint rel_path_loop (empty : Z) (m_path : list Z) (m : gmap Z Z) (path : Z) : result Z :=
  match m_path with
  | [] => Fault
  | x :: m_path' =>
      if negb (u64 (schar x) =? empty) && negb (u64 (schar (byte m path)) =? empty) then
        if x =? byte m path then rel_path_loop empty m_path' m (path + 1) else Ok path
      else Ok path
  end.
Definition get_rel_path (empty : Z) (mp : mountpoint_t F) (path : Z) : M (vstate F) Z :=
  λ s, bind_result (rel_path_loop empty (mp_mountpoint mp) (fs_bytes (fs s)) path)
         (λ p, Ok (p, s)).

(** ** Open files *)

Definition free_round (i : Z) : M (vstate F) (Z + option Z) :=
  if i <? MAX_OPENED_FILES then
    d ← opened_file i;
    if fs_file_id d =? 0 then mret (inr (Some i)) else mret (inl (i + 1))
  else mret (inr None).

Definition vfs_open (empty : Z) (junk : Z → list Z) (path flags : Z) : M (vstate F) Z :=
  mountpoint ← vfs_get_mountpoint junk path;
  match mountpoint with
  | None => mret (-1)
  | Some mountpoint =>
      rel_path ← get_rel_path empty mountpoint path;
      open ← call (op_open (mp_operations mountpoint));
      fs_specific_id ← on_fs (open rel_path flags);
      let fs_specific_id := s32 fs_specific_id in
      if fs_specific_id =? -1 then mret (-1)
      else
        slot ← loop free_round 0;
        match slot with
        | None => mret (-1)
        | Some vfs_id =>
            on_fs (fs_kalloc sizeof_pointer);;
            get_file_size ← call (op_get_file_size (mp_operations mountpoint));
            size ← on_fs (get_file_size (u64 fs_specific_id));
            set_opened_file vfs_id
              (Descriptor (u64 fs_specific_id) (mp_id mountpoint) 0 0 (u64 size));;
            mret (s32 vfs_id)
        end
  end.

Definition vfs_close (file_descriptor_id : Z) : M (vstate F) Z :=
  d ← opened_file file_descriptor_id;
  if fs_file_id d =? CLOSED then mret 0
  else
    mountpoint ← get_mountpoint_by_id (u64 (mountpoint_id d));
    close ← call (op_close (mp_operations mountpoint));
    fs_close_result ← on_fs (close (fs_file_id d));
    if s32 fs_close_result =? 0 then
      d ← opened_file file_descriptor_id;
      set_opened_file file_descriptor_id
        (Descriptor CLOSED (mountpoint_id d) (buf_read_pos d) (buf_write_pos d) (fd_file_size d));;
      mret 0
    else mret (-1).

Definition vfs_read (file_descriptor_id buf nbytes : Z) : M (vstate F) Z :=
  d ← opened_file file_descriptor_id;
  if fs_file_id d =? CLOSED then mret 0
  else
    mountpoint ← get_mountpoint_by_id (u64 (mountpoint_id d));
    read ← call (op_read (mp_operations mountpoint));
    bytes_read ← on_fs (read (fs_file_id d) buf nbytes (buf_read_pos d));
    if bytes_read =? 0 then mret 0
    else
      d ← opened_file file_descriptor_id;
      set_opened_file file_descriptor_id
        (Descriptor (fs_file_id d) (mountpoint_id d) (u64 (buf_read_pos d + bytes_read))
           (buf_write_pos d) (fd_file_size d));;
      mret bytes_read.

(** The switch and the console together. *)
Definition on_switch {A} (c : M (vstate F) A) : M (vstate F * console) A :=
  zoom fst (λ v s, (v, snd s)) c.
Definition on_output {A} (c : M console A) : M (vstate F * console) A :=
  zoom snd (λ o s, (fst s, o)) c.

Definition vfs_read_dir (empty : Z) (junk : Z → list Z) (path buf nbytes offset : Z) :
    M (vstate F * console) Z :=
  on_output (kprintf [0] []);;
  mountpoint ← on_switch (vfs_get_mountpoint junk path);
  match mountpoint with
  | None => mret 0
  | Some mountpoint =>
      rel_path ← on_switch (get_rel_path empty mountpoint path);
      read_dir ← on_switch (call (op_read_dir (mp_operations mountpoint)));
      on_switch (on_fs (read_dir rel_path buf nbytes offset))
  end.

Definition vfs_write (file_descriptor_id buf nbytes : Z) : M (vstate F) Z :=
  d ← opened_file file_descriptor_id;
  if fs_file_id d =? CLOSED then mret (-1)
  else
    mountpoint ← get_mountpoint_by_id (u64 (mountpoint_id d));
    write ← call (op_write (mp_operations mountpoint));
    bytes_written ← on_fs (write (u64 (s32 (fs_file_id d))) buf nbytes);
    let bytes_written := s32 bytes_written in
    if bytes_written <? 0 then mret bytes_written
    else
      d ← opened_file file_descriptor_id;
      let pos := u64 (buf_write_pos d + nbytes) in
      set_opened_file file_descriptor_id
        (Descriptor (fs_file_id d) (mountpoint_id d) (buf_read_pos d) pos
           (if pos <? fd_file_size d then fd_file_size d else pos));;
      mret bytes_written.

(** ** System calls and start-up *)

Definition vfs_open_syscall (empty : Z) (junk : Z → list Z) (frame path flags unused unused2 : Z) :
    M (vstate F) Z := r ← vfs_open empty junk path (s32 flags); mret (u64 r).
Definition vfs_close_syscall (frame file_id unused1 unused2 unused3 : Z) : M (vstate F) Z :=
  r ← vfs_close (s32 file_id); mret (u64 r).
Definition vfs_read_syscall (frame file_id buf nbytes unused : Z) : M (vstate F) Z :=
  vfs_read (s32 file_id) buf nbytes.
Definition vfs_read_dir_syscall (empty : Z) (junk : Z → list Z) (frame path buf nbytes offset : Z) :
    M (vstate F * console) Z := vfs_read_dir empty junk path buf nbytes offset.

(** [address] is that of the first module the boot loader reports; the other
    arguments are the addresses of the literals. *)
Definition vfs_init (address ustar main_memory root : Z) : M (vstate F) unit :=
  on_fs (fs_set_start_address address);;
  vfs_mount ustar main_memory root ustar.

End vfs.
