(* ===== verification/VfsCorrect.v ===== *)
(** * Correctness of the file system switch

    Opening, reading and closing through [vfs.c], for every file system that
    keeps the contract of [Fs].  An open descriptor stands for the contents of a
    file and a position in it. *)

From S2P Require Import Prelude Machine Util Heap VmmCorrect KheapCorrect Fs Vfs Ustar UstarCorrect.

(** The path a file system is asked for: the root mount point removed. *)
Definition rel (path : list Z) : list Z :=
  match path with c :: r => if c =? 47 then r else path | [] => [] end.

Section correct.
Context {F : Type} `{FL : FsLaws F} (g : fs_volume).
(** The address of the literal [get_rel_path] compares with, and the contents of
    the local array of [vfs_get_mountpoint]. *)
Context (empty : Z) (junk : Z → list Z) (Hempty : 128 ≤ empty < 2 ^ 64 - 128).

Implicit Types s : vstate F.

Definition fs_functions : fs_operations_t F :=
  FsOperations F (Some fs_open) (Some fs_close) (Some fs_read) None
    (Some fs_get_file_size) (Some fs_read_dir).

Definition root_mount (mp : mountpoint_t F) : Prop :=
  mp_id mp = 1 ∧ mp_mountpoint mp = 47 :: replicate 511 0 ∧ mp_operations mp = fs_functions.

(** A slot of the table that was opened and not closed. *)
Definition in_use (d : file_descriptor_t) : bool :=
  (mountpoint_id d =? 1) && negb (fs_file_id d =? CLOSED).

Definition unused : file_descriptor_t := Descriptor 0 0 0 0 0.

(** One mount point, the root; a slot is unused, closed, or holds a file the file
    system has open, with a position inside it; no file is open in two slots. *)
Record vfs_inv (s : vstate F) : Prop := {
  vi_fs : fs_inv g (fs s);
  vi_mounts : ∃ mp, mounted_devices s = Some mp :: replicate 11 None ∧ root_mount mp;
  vi_num : mounted_devices_num s = 1;
  vi_len : length (vfs_opened_files s) = 512%nat;
  vi_slot : ∀ (i : nat) d, vfs_opened_files s !! i = Some d → in_use d = true →
    ∃ C, fs_opened (fs s) (fs_file_id d) = Some C ∧ 0 ≤ buf_read_pos d ≤ Z.of_nat (length C) ∧
      fd_file_size d = Z.of_nat (length C);
  vi_free : ∀ (i : nat) d, vfs_opened_files s !! i = Some d → in_use d = false →
    d = unused ∨ fs_file_id d = CLOSED;
  vi_inj : ∀ (i j : nat) d d', vfs_opened_files s !! i = Some d → vfs_opened_files s !! j = Some d' →
    in_use d = true → in_use d' = true → fs_file_id d = fs_file_id d' → i = j;
}.

(** What a descriptor stands for: a file's contents and a position. *)
Definition view (s : vstate F) (fd : Z) : option (list Z * Z) :=
  if fd <? 0 then None
  else d ← vfs_opened_files s !! Z.to_nat fd;
       if in_use d then C ← fs_opened (fs s) (fs_file_id d); Some (C, buf_read_pos d) else None.

(** *** Access to the tables *)

Lemma opened_file_ok s i d : 0 ≤ i → vfs_opened_files s !! Z.to_nat i = Some d →
  opened_file i s = Ok (d, s).
Proof.
  intros Hi H. pose proof (lookup_lt_Some _ _ _ H). unfold opened_file.
  by rewrite (proj2 (Z.leb_le _ _)), (proj2 (Z.ltb_lt _ _)), H by lia.
Qed.

Lemma set_opened_file_ok s i d : 0 ≤ i < Z.of_nat (length (vfs_opened_files s)) →
  set_opened_file i d s = Ok (tt, set_files (<[Z.to_nat i := d]> (vfs_opened_files s)) s).
Proof.
  intros Hi. unfold set_opened_file.
  by rewrite (proj2 (Z.leb_le _ _)), (proj2 (Z.ltb_lt _ _)) by lia.
Qed.

(** A descriptor with a view. *)
Record viewed (s : vstate F) (fd : Z) (d : file_descriptor_t) (C : list Z) : Prop := {
  vw_range : 0 ≤ fd < 512;
  vw_slot : vfs_opened_files s !! Z.to_nat fd = Some d;
  vw_mount : mountpoint_id d = 1;
  vw_open : fs_file_id d ≠ CLOSED;
  vw_file : fs_opened (fs s) (fs_file_id d) = Some C;
  vw_pos : 0 ≤ buf_read_pos d ≤ Z.of_nat (length C);
  vw_size : fd_file_size d = Z.of_nat (length C);
}.

Lemma view_slot s fd C pos : vfs_inv s → view s fd = Some (C, pos) →
  ∃ d, viewed s fd d C ∧ buf_read_pos d = pos.
Proof.
  intros I H. unfold view in H. destruct (fd <? 0) eqn:E0; [done|]. bool_to_prop.
  destruct (vfs_opened_files s !! Z.to_nat fd) as [d|] eqn:Ed; [|done]. cbn in H.
  destruct (in_use d) eqn:Eu; [|done]. destruct (vi_slot _ I _ _ Ed Eu) as (C' & HC & Hp & Hz).
  rewrite HC in H. cbn in H. injection H as -> Hpos.
  exists d. split; [|done]. pose proof (lookup_lt_Some _ _ _ Ed). rewrite (vi_len _ I) in *.
  unfold in_use in Eu. bool_to_prop. split; try done. lia.
Qed.

Lemma viewed_in_use s fd d C : viewed s fd d C → in_use d = true.
Proof.
  intros [_ _ Hm Ho _ _ _]. unfold in_use. rewrite Hm. by rewrite (proj2 (Z.eqb_neq _ _) Ho).
Qed.

Lemma viewed_view s fd d C : viewed s fd d C → view s fd = Some (C, buf_read_pos d).
Proof.
  intros V. unfold view. pose proof (vw_range _ _ _ _ V).
  rewrite (proj2 (Z.ltb_ge _ _)), (vw_slot _ _ _ _ V) by lia. cbn.
  by rewrite (viewed_in_use _ _ _ _ V), (vw_file _ _ _ _ V).
Qed.

Lemma mountpoint_of s : vfs_inv s →
  ∃ mp, get_mountpoint_by_id (u64 1) s = Ok (mp, s) ∧ mp_operations mp = fs_functions.
Proof.
  intros I. destruct (vi_mounts _ I) as (mp & Hm & _ & _ & Ho). exists mp. split; [|done].
  unfold get_mountpoint_by_id, mbind, M_bind, gets. cbn [bind_result fst snd]. by rewrite Hm.
Qed.

(** *** Changes of the file system that keep what is open *)

Lemma set_fs_inv s f : vfs_inv s → fs_inv g f →
  (∀ (i : nat) d, vfs_opened_files s !! i = Some d → in_use d = true →
     fs_opened f (fs_file_id d) = fs_opened (fs s) (fs_file_id d)) →
  vfs_inv (set_fs f s) ∧ ∀ fd, view (set_fs f s) fd = view s fd.
Proof.
  intros I Hf Hsame. split.
  - destruct I. split; try done. intros i d Hd Hu. cbn in Hd |- *. rewrite (Hsame i) by done.
    by apply (vi_slot0 i).
  - intros fd. unfold view. case_if; [done|]. cbn.
    destruct (vfs_opened_files s !! Z.to_nat fd) as [d|] eqn:Ed; [|done]. cbn.
    destruct (in_use d) eqn:Eu; [|done]. by rewrite (Hsame _ _ Ed Eu).
Qed.

(** Changing one slot. *)
Lemma view_set_files s fd d j : j ≠ fd → 0 ≤ fd →
  view (set_files (<[Z.to_nat fd := d]> (vfs_opened_files s)) s) j = view s j.
Proof.
  intros Hj Hfd. unfold view. destruct (j <? 0) eqn:E0; [done|]. bool_to_prop. cbn.
  by rewrite list_lookup_insert_ne by lia.
Qed.

Lemma set_files_inv s fd d : vfs_inv s → 0 ≤ fd →
  (in_use d = true → ∃ C, fs_opened (fs s) (fs_file_id d) = Some C ∧
     0 ≤ buf_read_pos d ≤ Z.of_nat (length C) ∧ fd_file_size d = Z.of_nat (length C)) →
  (in_use d = false → d = unused ∨ fs_file_id d = CLOSED) →
  (∀ (i : nat) d', vfs_opened_files s !! i = Some d' → in_use d' = true → in_use d = true →
     fs_file_id d' = fs_file_id d → i = Z.to_nat fd) →
  vfs_inv (set_files (<[Z.to_nat fd := d]> (vfs_opened_files s)) s).
Proof.
  intros I Hfd Hu Hf Hinj. split; try apply I.
  - cbn. rewrite length_insert. apply I.
  - intros i d' Hd' Hu'. cbn in Hd' |- *.
    apply list_lookup_insert_Some in Hd' as [(_ & <- & _)|[_ Hd']]; [by apply Hu|by apply (vi_slot _ I i)].
  - intros i d' Hd' Hu'. cbn in Hd'.
    apply list_lookup_insert_Some in Hd' as [(_ & <- & _)|[_ Hd']]; [by apply Hf|by apply (vi_free _ I i)].
  - intros i j d1 d2 H1 H2 U1 U2 Heq. cbn in H1, H2.
    apply list_lookup_insert_Some in H1 as [(<- & <- & _)|[_ H1]];
      apply list_lookup_insert_Some in H2 as [(<- & <- & _)|[_ H2]]; try done.
    + symmetry. by apply (Hinj j d2).
    + by apply (Hinj i d1).
    + by apply (vi_inj _ I i j d1 d2).
Qed.

(** *** Finding the mount point and the path *)

Lemma get_mountpoint_ok s path : vfs_inv s →
  runs (vfs_get_mountpoint junk path) s (λ r s', s' = s ∧ ∃ mp, r = Some mp ∧ root_mount mp).
Proof.
  intros I. destruct (vi_mounts _ I) as (mp & Hm & Hr). unfold vfs_get_mountpoint. apply runs_bind.
  apply runs_mono with (P := λ id s', id = 0 ∧ s' = s).
  2: { intros id s' [-> ->]. unfold runs, mbind, M_bind, gets. cbn [bind_result fst snd].
       rewrite Hm. cbn. split; [done|]. by exists mp. }
  apply (runs_loop (mountpoint_round junk path)
    (λ v s', s' = s ∧ v.2 = 0 ∧ 0 ≤ v.1.1 ≤ 1) (λ v _, 1 - v.1.1)); [|done|cbn; lia].
  intros [[i longest] id] s' (-> & Hid & Hi). cbn in Hid, Hi. subst id.
  unfold mountpoint_round, runs, mbind, M_bind, gets, memory. cbn [bind_result fst snd].
  rewrite (vi_num _ I). case_if; [|done]. cbn [bind_result fst snd]. rewrite Hm.
  replace i with 0 by lia. change (Z.to_nat 0) with 0%nat. cbn [lookup list_lookup].
  unfold gets. cbn [bind_result fst snd].
  match goal with |- context [match_loop ?m ?l ?c ?j] => destruct (match_loop m l c j) end;
    [case_if|]; cbn; lia || done.
Qed.

Lemma char_not_literal c : 0 ≤ c < 256 → (u64 (schar c) =? empty) = false.
Proof.
  intros Hc. apply Z.eqb_neq. unfold schar, u64, wrap, swrap. change (2 ^ (8 - 1)) with 128.
  change (2 ^ 8) with 256. change (2 ^ 64) with 18446744073709551616 in *.
  assert (-128 ≤ (c + 128) mod 256 - 128 < 128) by zify_div.
  set (y := (c + 128) mod 256 - 128) in *. clearbody y. zify_div.
Qed.

Lemma get_rel_path_ok s mp q path : root_mount mp → cstr_at (fs_bytes (fs s)) q path → path ≠ [47] →
  ∃ q', get_rel_path empty mp q s = Ok (q', s) ∧ cstr_at (fs_bytes (fs s)) q' (rel path) ∧
    q ≤ q' ∧ q' + Z.of_nat (length (rel path)) = q + Z.of_nat (length path).
Proof.
  intros (_ & Hmp & _) Hq Hne. unfold get_rel_path. rewrite Hmp. set (m := fs_bytes (fs s)) in *.
  destruct path as [|c r].
  { pose proof (cstr_at_end _ _ _ Hq) as H0. cbn [length] in H0. change (Z.of_nat 0) with 0 in H0.
    rewrite Z.add_0_r in H0. cbn [rel_path_loop].
    rewrite !char_not_literal by (lia || apply byte_range). cbn [negb andb]. rewrite H0.
    exists q. split_and!; [done|done|lia|done]. }
  destruct (cstr_at_char _ _ _ 0 c Hq eq_refl) as [Hc0 Hc].
  change (Z.of_nat 0) with 0 in Hc0. rewrite Z.add_0_r in Hc0.
  cbn [rel_path_loop]. rewrite !char_not_literal by (lia || apply byte_range). cbn [negb andb].
  rewrite Hc0. unfold rel in *. destruct (c =? 47) eqn:E.
  - rewrite Z.eqb_sym, E. destruct r as [|c' r]; [apply Z.eqb_eq in E; by rewrite E in Hne|].
    destruct (cstr_at_char _ _ _ 1 c' Hq eq_refl) as [Hc1 Hc'].
    change (Z.of_nat 1) with 1 in Hc1.
    change (replicate 511 0) with (0 :: replicate 510 0). cbn [rel_path_loop].
    rewrite !char_not_literal by (lia || apply byte_range). cbn [negb andb]. rewrite Hc1.
    rewrite (proj2 (Z.eqb_neq 0 c')) by done. exists (q + 1). split_and!; [done| |lia|cbn [length]; lia].
    destruct Hq as [Hb Hz]. split; [|by inversion Hz]. intros i x Hx.
    rewrite <- (Hb (S i) x Hx). f_equal. lia.
  - rewrite Z.eqb_sym, E. exists q. split_and!; [done|done|lia|done].
Qed.

(** The path of the root itself: the loop runs on behind its terminator, and off
    the end of the mount point's array when the memory there is clear. *)
Lemma rel_path_zeros n q m : (∀ x, q ≤ x < q + Z.of_nat n → byte m x = 0) →
  rel_path_loop empty (replicate n 0) m q = Fault.
Proof.
  revert q. induction n as [|n IH]; intros q H; [done|]. cbn [replicate rel_path_loop].
  rewrite (H q) by lia. rewrite !char_not_literal by lia. cbn [negb andb Z.eqb].
  apply IH. intros x Hx. apply H. lia.
Qed.

Lemma rel_root_faults s mp q : root_mount mp → byte (fs_bytes (fs s)) q = 47 →
  (∀ x, q < x < q + 512 → byte (fs_bytes (fs s)) x = 0) → get_rel_path empty mp q s = Fault.
Proof.
  intros (_ & Hmp & _) Hq H. unfold get_rel_path. rewrite Hmp. cbn [rel_path_loop]. rewrite Hq.
  rewrite !char_not_literal by lia. cbn [negb andb]. rewrite (proj2 (Z.eqb_eq 47 47)) by done.
  rewrite rel_path_zeros; [done|]. intros x Hx. apply H. lia.
Qed.

Lemma free_slot_ok s : vfs_inv s →
  runs (loop free_round 0) s (λ r s', s' = s ∧ match r with
    | Some fd => 0 ≤ fd < 512 ∧ (∃ d, vfs_opened_files s !! Z.to_nat fd = Some d ∧ fs_file_id d = 0) ∧
        ∀ (j : nat) d, (j < Z.to_nat fd)%nat → vfs_opened_files s !! j = Some d → fs_file_id d ≠ 0
    | None => ∀ (j : nat) d, vfs_opened_files s !! j = Some d → fs_file_id d ≠ 0
    end).
Proof.
  intros I. apply (runs_loop free_round (λ i s', s' = s ∧ 0 ≤ i ≤ 512 ∧
    ∀ (j : nat) d, (j < Z.to_nat i)%nat → vfs_opened_files s !! j = Some d → fs_file_id d ≠ 0)
    (λ i _, 512 - i)); [|split_and!; [done|lia|lia|lia]|lia].
  intros i s' (-> & Hi & Hj). unfold free_round, MAX_OPENED_FILES. case_if.
  2: { cbn. split; [done|]. intros j d Hd. apply (Hj j d); [|done].
       apply lookup_lt_Some in Hd. rewrite (vi_len _ I) in Hd. lia. }
  destruct (lookup_lt_is_Some_2 (vfs_opened_files s) (Z.to_nat i)) as [d Hd].
  { rewrite (vi_len _ I). lia. }
  apply runs_bind. eapply runs_ok; [apply opened_file_ok; [lia|done]|]. case_if.
  - cbn. split_and!; [done|lia|lia|by exists d|done].
  - cbn. split; [|lia]. split_and!; [done|lia|lia|]. intros j d' Hlt Hd'.
    destruct (decide (j = Z.to_nat i)) as [->|]; [congruence|apply (Hj j); [lia|done]].
Qed.

(** *** Opening *)

(** The slot [vfs_open] takes: the first one whose file id is 0. *)
Definition first_zero (s : vstate F) (fd : Z) : Prop :=
  0 ≤ fd < 512 ∧ (∃ d, vfs_opened_files s !! Z.to_nat fd = Some d ∧ fs_file_id d = 0) ∧
  ∀ (j : nat) d, (j < Z.to_nat fd)%nat → vfs_opened_files s !! j = Some d → fs_file_id d ≠ 0.

Lemma fresh_slot_inv s fd id C : vfs_inv s → 0 ≤ fd < 512 → 0 ≤ id < 2 ^ 31 →
  fs_opened (fs s) id = Some C →
  (∀ (i : nat) d, vfs_opened_files s !! i = Some d → in_use d = true → fs_file_id d ≠ id) →
  let s' := set_files (<[Z.to_nat fd := Descriptor id 1 0 0 (Z.of_nat (length C))]> (vfs_opened_files s)) s in
  vfs_inv s' ∧ view s' fd = Some (C, 0).
Proof.
  intros I Hfd Hid HC Hnew s'. split.
  - apply set_files_inv; [done|lia| | |].
    + intros _. exists C. cbn. split_and!; [done|lia|lia|done].
    + unfold in_use, CLOSED. cbn. rewrite (proj2 (Z.eqb_neq _ _)) by lia. done.
    + intros i d' Hd' Hu _ Heq. by destruct (Hnew i d' Hd' Hu).
  - unfold view. rewrite (proj2 (Z.ltb_ge _ _)) by lia. cbn.
    rewrite list_lookup_insert_eq by (rewrite (vi_len _ I); lia). cbn.
    unfold in_use, CLOSED. cbn. rewrite (proj2 (Z.eqb_neq _ _)) by lia. cbn. by rewrite HC.
Qed.

Lemma s32_id x : -2147483648 ≤ x < 2147483648 → s32 x = x.
Proof. intros. by apply (swrap_small 32). Qed.

Definition open_post (s : vstate F) (path : list Z) (fd : Z) (s' : vstate F) : Prop :=
  vfs_inv s' ∧ same_outside (fs_scratch g) (fs_bytes (fs s)) (fs_bytes (fs s')) ∧
  (∀ j, j ≠ fd → view s' j = view s j) ∧
  (fd = -1 ∨ first_zero s fd ∧ ∃ C, fs_find g (rel path) = Some C ∧ view s' fd = Some (C, 0)) ∧
  (fd = -1 → fs_find g (rel path) = None ∨
     (∀ j, 0 ≤ j < fs_capacity → is_Some (fs_opened (fs s) j)) ∨ ∀ fd, ¬ first_zero s fd).

(** From the file system's answer on. *)
Lemma open_slot s s1 path id mp C :
  vfs_inv s1 → vfs_opened_files s1 = vfs_opened_files s → root_mount mp →
  same_outside (fs_scratch g) (fs_bytes (fs s)) (fs_bytes (fs s1)) →
  (∀ j, view s1 j = view s j) → 0 ≤ id < 2 ^ 31 → fs_opened (fs s1) id = Some C →
  fs_find g (rel path) = Some C →
  (∀ (i : nat) d, vfs_opened_files s1 !! i = Some d → in_use d = true → fs_file_id d ≠ id) →
  safe (slot ← loop free_round 0;
        match slot with
        | None => mret (-1)
        | Some vfs_id =>
            on_fs (fs_kalloc sizeof_pointer);;
            get_file_size ← call (op_get_file_size (mp_operations mp));
            size ← on_fs (get_file_size (u64 id));
            set_opened_file vfs_id (Descriptor (u64 id) (mp_id mp) 0 0 (u64 size));;
            mret (s32 vfs_id)
        end) s1 (open_post s path).
Proof.
  intros I Hfiles Hr Hb Hv Hid HC Hfind Hnew. apply safe_bind, runs_safe.
  eapply runs_mono; [by apply free_slot_ok|]. intros [fd|] s2 [-> Hfd].
  2: { cbn. split_and!; try done; [by left|]. intros _. right. right.
       intros fd (_ & (d & Hd & Hz) & _). rewrite <- Hfiles in Hd. by apply (Hfd (Z.to_nat fd) d). }
  destruct Hfd as (Hrange & Hz & Hfirst). destruct Hr as (Hmid & _ & Hops).
  rewrite Hops, Hmid. cbn [op_get_file_size fs_functions call].
  apply safe_bind, safe_zoom. eapply safe_mono; [apply (fs_kalloc_ok g); [apply I|unfold sizeof_pointer; lia]|].
  cbn beta. intros p f (_ & Hf & Hfb & Hfo).
  destruct (set_fs_inv s1 f I Hf ltac:(intros; apply Hfo)) as [I2 Hv2].
  apply safe_bind, safe_ret. cbn beta. rewrite u64_small by lia.
  apply safe_bind, safe_zoom. unfold safe at 1. cbn [fs set_fs].
  assert (fs_opened f id = Some C) as HCf by by rewrite Hfo.
  rewrite (fs_size_ok g f id C Hf HCf).
  destruct (fs_opened_range g f id C Hf HCf) as [_ HClen]. rewrite u64_small by lia.
  apply safe_bind. change (set_fs f (set_fs f s1)) with (set_fs f s1). unfold safe at 1.
  rewrite set_opened_file_ok by (cbn; rewrite (vi_len _ I); lia).
  destruct (fresh_slot_inv (set_fs f s1) fd id C I2 Hrange Hid HCf Hnew) as [I3 Hview].
  rewrite s32_id by lia. split_and!.
  - exact I3.
  - cbn. by rewrite Hfb.
  - intros j Hj. rewrite view_set_files by lia. by rewrite Hv2, Hv.
  - right. split; [|by exists C]. split_and!; [lia|lia| |]; by rewrite <- Hfiles.
  - lia.
Qed.

Lemma vfs_open_ok s q path flags :
  vfs_inv s → cstr_at (fs_bytes (fs s)) q path → rel path ≠ [] → Z.of_nat (length path) < 2 ^ 32 →
  (∀ x, q ≤ x ≤ q + Z.of_nat (length path) → ¬ fs_scratch g x) →
  safe (vfs_open empty junk q flags) s (open_post s path).
Proof.
  intros I Hq Hne Hlen Hsc. unfold vfs_open. apply safe_bind, runs_safe.
  eapply runs_mono; [by apply get_mountpoint_ok|]. intros ? s1 (-> & mp & -> & Hr).
  destruct (get_rel_path_ok s mp q path Hr Hq ltac:(by intros ->)) as (q' & Hrel & Hq' & Hle & Hend).
  apply safe_bind. unfold safe at 1. rewrite Hrel. clear Hrel.
  replace (op_open (mp_operations mp)) with (Some (@fs_open F FO)) by (by destruct Hr as (_ & _ & ->)).
  apply safe_bind, safe_ret. cbn beta. apply safe_bind, safe_zoom.
  eapply safe_mono; [apply (fs_open_ok g _ q' (rel path)); try done; [apply I|lia|]|].
  { intros x Hx. apply Hsc. lia. }
  cbn beta. intros id f (Hf & Hb & Ho & Hid & Hnone & Hfail).
  destruct (set_fs_inv s f I Hf) as [I1 Hv1].
  { intros i d Hd Hu. apply Ho. destruct (vi_slot _ I i d Hd Hu) as (C & HC & _).
    destruct (fs_opened_range g (fs s) (fs_file_id d) C (vi_fs _ I) HC) as [? _].
    destruct Hid as [->|(_ & Hn & _)]; [lia|congruence]. }
  destruct Hid as [->|(Hid & Hfresh & C & Hfind & HC)].
  - change (s32 (-1) =? -1) with true. cbn. split_and!; try done; [by left|].
    intros _. destruct (Hfail eq_refl); auto.
  - rewrite s32_id by lia. rewrite (proj2 (Z.eqb_neq _ _)) by lia.
    apply (open_slot s (set_fs f s) path id mp C); try done.
    intros i d Hd Hu Heq. cbn in Hd. destruct (vi_slot _ I i d Hd Hu) as (C' & HC' & _). congruence.
Qed.

(** *** Reading and closing *)

Lemma vfs_read_ok s fd C pos buf n :
  vfs_inv s → view s fd = Some (C, pos) → 0 ≤ n < 2 ^ 63 →
  (∀ x, in_range buf n x → ¬ fs_private g x) →
  runs (vfs_read fd buf n) s (λ r s',
    let chunk := take (Z.to_nat n) (drop (Z.to_nat pos) C) in
    vfs_inv s' ∧ r = Z.of_nat (length chunk) ∧ bytes_at (fs_bytes (fs s')) buf chunk ∧
    same_outside (in_range buf r) (fs_bytes (fs s)) (fs_bytes (fs s')) ∧
    view s' fd = Some (C, pos + r) ∧ ∀ j, j ≠ fd → view s' j = view s j).
Proof.
  intros I Hv Hn Hbuf. destruct (view_slot s fd C pos I Hv) as (d & V & <-).
  pose proof (vw_range _ _ _ _ V) as Hfd. pose proof (vw_pos _ _ _ _ V) as Hpos.
  destruct (fs_opened_range g _ _ _ (vi_fs _ I) (vw_file _ _ _ _ V)) as [_ HClen].
  unfold vfs_read. apply runs_bind. eapply runs_ok; [apply opened_file_ok; [lia|apply V]|].
  rewrite (proj2 (Z.eqb_neq _ _) (vw_open _ _ _ _ V)), (vw_mount _ _ _ _ V).
  destruct (mountpoint_of s I) as (mp & Hmp & Hops).
  apply runs_bind. eapply runs_ok; [exact Hmp|]. rewrite Hops. apply runs_bind.
  apply runs_ret. apply runs_bind, runs_zoom.
  eapply runs_mono; [apply (fs_read_ok g _ _ C); [apply I|apply V|lia|lia|done]|].
  cbn beta zeta. intros r f (Hf & Hr & Hb & Hs & Ho).
  destruct (set_fs_inv s f I Hf ltac:(intros; apply Ho)) as [I1 Hv1].
  set (chunk := take _ _) in *.
  assert (0 ≤ r ≤ Z.of_nat (length C) - buf_read_pos d) as Hrr.
  { subst r chunk. rewrite length_take, length_drop. lia. }
  destruct (r =? 0) eqn:E0; bool_to_prop.
  { cbn [runs mret M_ret]. split_and!; try done.
    - by rewrite <- E0.
    - by rewrite <- E0.
    - rewrite Hv1, Hv. do 2 f_equal. lia. }
  apply runs_bind. eapply runs_ok; [apply opened_file_ok; [lia|apply V]|].
  rewrite u64_small by lia. apply runs_bind.
  eapply runs_ok; [apply set_opened_file_ok; cbn; rewrite (vi_len _ I); lia|]. apply runs_ret.
  set (d' := Descriptor _ _ _ _ _).
  assert (in_use d' = true) as Hu' by exact (viewed_in_use _ _ _ _ V).
  split_and!; try done.
  - apply (set_files_inv (set_fs f s)); [done|lia| | |].
    + intros _. exists C. cbn. rewrite Ho. split_and!; [apply V|lia|lia|apply V].
    + congruence.
    + intros i d'' Hd'' Hu'' _ Heq. apply (vi_inj _ I i _ d'' d); try done; apply V.
  - unfold view. rewrite (proj2 (Z.ltb_ge _ _)) by lia. cbn.
    rewrite list_lookup_insert_eq by (rewrite (vi_len _ I); lia). cbn. rewrite Hu', Ho.
    by rewrite (vw_file _ _ _ _ V).
  - intros j Hj. rewrite (view_set_files (set_fs f s)) by lia. by rewrite Hv1.
Qed.

Lemma vfs_close_ok s fd C pos :
  vfs_inv s → view s fd = Some (C, pos) →
  runs (vfs_close fd) s (λ r s',
    vfs_inv s' ∧ r = 0 ∧ fs_bytes (fs s') = fs_bytes (fs s) ∧
    view s' fd = None ∧ (∀ j, j ≠ fd → view s' j = view s j) ∧
    ∃ d, opened_file fd s' = Ok (d, s') ∧ fs_file_id d = CLOSED).
Proof.
  intros I Hv. destruct (view_slot s fd C pos I Hv) as (d & V & <-).
  pose proof (vw_range _ _ _ _ V) as Hfd.
  unfold vfs_close. apply runs_bind. eapply runs_ok; [apply opened_file_ok; [lia|apply V]|].
  rewrite (proj2 (Z.eqb_neq _ _) (vw_open _ _ _ _ V)), (vw_mount _ _ _ _ V).
  destruct (mountpoint_of s I) as (mp & Hmp & Hops).
  apply runs_bind. eapply runs_ok; [exact Hmp|]. rewrite Hops. apply runs_bind.
  apply runs_ret. apply runs_bind, runs_zoom.
  eapply runs_mono; [apply (fs_close_ok g _ _ C); [apply I|apply V]|].
  cbn beta. intros r f (Hf & -> & Hb & Hid & Ho). change (s32 0 =? 0) with true. cbv iota.
  apply runs_bind. eapply runs_ok; [apply opened_file_ok; [lia|apply V]|].
  apply runs_bind. eapply runs_ok; [apply set_opened_file_ok; cbn; rewrite (vi_len _ I); lia|].
  apply runs_ret. set (d' := Descriptor _ _ _ _ _).
  assert (in_use d' = false) as Hu' by (unfold in_use; cbn; apply andb_false_r).
  assert (∀ (i : nat) d0, i ≠ Z.to_nat fd → vfs_opened_files s !! i = Some d0 → in_use d0 = true →
    fs_opened f (fs_file_id d0) = fs_opened (fs s) (fs_file_id d0)) as Hsame.
  { intros i d0 Hi Hd0 Hu0. apply Ho. intros Heq. apply Hi.
    apply (vi_inj _ I i _ d0 d); try done; [apply V|exact (viewed_in_use _ _ _ _ V)]. }
  assert (∀ j, j ≠ fd → view (set_files (<[Z.to_nat fd:=d']> (vfs_opened_files s)) (set_fs f s)) j
    = view s j) as Hother.
  { intros j Hj. rewrite (view_set_files (set_fs f s)) by lia. unfold view.
    destruct (j <? 0) eqn:Ej; [done|]. bool_to_prop. cbn.
    destruct (vfs_opened_files s !! Z.to_nat j) as [dj|] eqn:Edj; [|done]. cbn.
    destruct (in_use dj) eqn:Euj; [|done]. by rewrite (Hsame (Z.to_nat j) dj) by (lia || done). }
  split_and!; try done.
  - split; try apply I; try done.
    + cbn. rewrite length_insert. apply I.
    + intros i d0 Hd0 Hu0. cbn in Hd0 |- *.
      apply list_lookup_insert_Some in Hd0 as [(_ & <- & _)|[Hi Hd0]]; [congruence|].
      rewrite (Hsame i d0) by done. by apply (vi_slot _ I i).
    + intros i d0 Hd0 Hu0. cbn in Hd0.
      apply list_lookup_insert_Some in Hd0 as [(_ & <- & _)|[Hi Hd0]]; [by right|by apply (vi_free _ I i)].
    + intros i j d1 d2 H1 H2 U1 U2 Heq. cbn in H1, H2.
      apply list_lookup_insert_Some in H1 as [(_ & <- & _)|[_ H1]]; [congruence|].
      apply list_lookup_insert_Some in H2 as [(_ & <- & _)|[_ H2]]; [congruence|].
      by apply (vi_inj _ I i j d1 d2).
  - unfold view. rewrite (proj2 (Z.ltb_ge _ _)) by lia. cbn.
    rewrite list_lookup_insert_eq by (rewrite (vi_len _ I); lia). cbn. by rewrite Hu'.
  - exists d'. split; [|done]. apply opened_file_ok; [lia|]. cbn.
    apply list_lookup_insert_eq. rewrite (vi_len _ I). lia.
Qed.

Lemma first_zero_unique s fd fd' : first_zero s fd → first_zero s fd' → fd = fd'.
Proof.
  intros (Hr & (d & Hd & Hz) & Hf) (Hr' & (d' & Hd' & Hz') & Hf').
  destruct (Z.lt_trichotomy fd fd') as [Hlt|[?|Hlt]]; [|done|].
  - by destruct (Hf' (Z.to_nat fd) d ltac:(lia) Hd).
  - by destruct (Hf (Z.to_nat fd') d' ltac:(lia) Hd').
Qed.

(** *** Start-up *)

Definition ustar_name : list Z := [117; 115; 116; 97; 114].

Lemma root_name m p : cstr_at m p [47] →
  strcpy_array (chars_at m p 512) (replicate 512 0) = 47 :: replicate 511 0.
Proof.
  intros H. destruct (cstr_at_char _ _ _ 0 47 H eq_refl) as [H0 _].
  pose proof (cstr_at_end _ _ _ H) as H1. cbn [length] in H1.
  unfold chars_at. rewrite (seqZ_cons p 512), (seqZ_cons (Z.succ p)) by lia. cbn [map].
  generalize (map (byte m) (seqZ (Z.succ (Z.succ p)) (Z.pred (Z.pred 512)))) as rest. intros rest.
  change (Z.of_nat 0) with 0 in H0. rewrite Z.add_0_r in H0.
  change (Z.succ p) with (p + 1). change (Z.of_nat 1) with 1 in H1.
  rewrite H0, H1. done.
Qed.

Definition vfs_start (f : F) : vstate F :=
  VState F f 1 (replicate 12 None) 0 (replicate 512 unused).

Lemma vfs_init_closed f address ustar main_memory root :
  fs_loaded g address f → cstr_at (fs_bytes f) ustar ustar_name → cstr_at (fs_bytes f) root [47] →
  safe (vfs_init address ustar main_memory root) (vfs_start f) (λ _ s',
    vfs_inv s' ∧ fs_bytes (fs s') = fs_bytes f ∧ (∀ fd, view s' fd = None) ∧ ∀ j, fs_opened (fs s') j = None).
Proof.
  intros Hl Hu Hroot. unfold vfs_init. apply safe_bind, safe_zoom, runs_safe.
  eapply runs_mono; [by apply (fs_start_ok g)|]. cbn beta. intros _ f1 (I1 & Hb1 & Ho1).
  unfold vfs_mount. apply safe_bind, safe_zoom.
  eapply safe_mono; [apply (fs_kalloc_ok g); [done|unfold sizeof_mountpoint_t; lia]|].
  cbn beta. intros _ f2 (_ & I2 & Hb2 & Ho2). apply safe_bind, safe_zoom.
  eapply safe_mono; [apply (fs_kalloc_ok g); [done|unfold sizeof_fs_operations_t; lia]|].
  cbn beta. intros _ f3 (_ & I3 & Hb3 & Ho3).
  assert (fs_bytes f3 = fs_bytes f) as Hb by (cbn in Hb1, Hb2, Hb3; congruence).
  apply safe_bind, safe_gets, safe_bind, safe_gets. cbv zeta. apply safe_bind, safe_zoom, safe_zoom.
  cbn [fs set_fs]. unfold safe at 1. rewrite Hb.
  rewrite (kstrcmp_cstr _ ustar ustar ustar_name ustar_name 5) by (done || cbn; lia).
  change (strncmp_spec ustar_name ustar_name 5) with true. cbv iota.
  destruct (fs_write_ok g f3 (fs_bytes f) (λ _, False) I3) as (I4 & Hb4 & Ho4).
  { intros x _. by rewrite Hb. }
  { done. }
  set (f4 := fs_set_bytes (fs_bytes f) f3) in *.
  apply safe_bind, safe_gets, safe_bind, safe_gets.
  unfold VFS_NAME_LENGTH. change (Z.to_nat 512) with 512%nat. rewrite root_name by done.
  cbn [mounted_devices_num mounted_devices vfs_start set_fs]. rewrite length_replicate.
  change (0 <? Z.of_nat 12) with true. cbv iota. apply safe_modify.
  split_and!; [|done| |].
  - split; cbn [fs mounted_devices mounted_devices_num vfs_opened_files set_mounts set_fs vfs_start].
    + done.
    + eexists. split; [reflexivity|]. done.
    + done.
    + by rewrite length_replicate.
    + intros i d [-> _]%lookup_replicate. done.
    + intros i d [-> _]%lookup_replicate. by left.
    + intros i j d d' [-> _]%lookup_replicate _. done.
  - intros fd. unfold view. case_if; [done|]. cbn [vfs_opened_files set_mounts set_fs vfs_start].
    destruct (replicate 512 unused !! Z.to_nat fd) as [d|] eqn:E1; [|done].
    by apply lookup_replicate in E1 as [-> _].
  - intros j. cbn [fs set_mounts set_fs vfs_start]. cbn in Ho2, Ho3. by rewrite Ho4, Ho3, Ho2, Ho1.
Qed.

Lemma vfs_init_ok f address ustar main_memory root :
  fs_loaded g address f → cstr_at (fs_bytes f) ustar ustar_name → cstr_at (fs_bytes f) root [47] →
  safe (vfs_init address ustar main_memory root) (vfs_start f) (λ _ s',
    vfs_inv s' ∧ fs_bytes (fs s') = fs_bytes f ∧ ∀ fd, view s' fd = None).
Proof.
  intros Hl Hu Hr. eapply safe_mono; [by apply vfs_init_closed|]. cbn beta. by intros _ s' (? & ? & ? & _).
Qed.

(** The states the programs leave, for concrete runs. *)
Lemma vfs_init_state f address ustar main_memory root :
  fs_loaded g address f → cstr_at (fs_bytes f) ustar ustar_name → cstr_at (fs_bytes f) root [47] →
  returns (vfs_init address ustar main_memory root (vfs_start f)) = true →
  let s' := run_state (vfs_init address ustar main_memory root) (vfs_start f) in
  vfs_inv s' ∧ fs_bytes (fs s') = fs_bytes f ∧ ∀ fd, view s' fd = None.
Proof.
  intros Hl Hu Hr H. by destruct (safe_run_state _ _ _ (vfs_init_ok f _ _ _ _ Hl Hu Hr) H).
Qed.

Lemma vfs_open_state s q path flags :
  vfs_inv s → cstr_at (fs_bytes (fs s)) q path → rel path ≠ [] → Z.of_nat (length path) < 2 ^ 32 →
  (∀ x, q ≤ x ≤ q + Z.of_nat (length path) → ¬ fs_scratch g x) →
  returns (vfs_open empty junk q flags s) = true →
  ∃ fd, open_post s path fd (run_state (vfs_open empty junk q flags) s).
Proof.
  intros I Hq Hne Hlen Hsc H. apply (safe_run_state _ _ (open_post s path)); [|done].
  by apply vfs_open_ok.
Qed.

(** *** Reading in pieces *)

(** Reads of the given sizes into the same buffer; the bytes of each. *)
Fixpoint read_chunks (fd buf : Z) (ns : list Z) : M (vstate F) (list (list Z)) :=
  match ns with
  | [] => mret []
  | n :: ns' =>
      r ← vfs_read fd buf n;
      m ← memory;
      rest ← read_chunks fd buf ns';
      mret (chars_at m buf r :: rest)
  end.

Lemma read_chunks_ok ns s fd C pos buf :
  vfs_inv s → view s fd = Some (C, pos) →
  Forall (λ n, 0 ≤ n < 2 ^ 63 ∧ ∀ x, in_range buf n x → ¬ fs_private g x) ns →
  runs (read_chunks fd buf ns) s (λ l s',
    vfs_inv s' ∧ concat l = take (Z.to_nat (foldr Z.add 0 ns)) (drop (Z.to_nat pos) C) ∧
    view s' fd = Some (C, pos + Z.of_nat (length (concat l))) ∧
    ∀ j, j ≠ fd → view s' j = view s j).
Proof.
  revert s pos. induction ns as [|n ns IH]; intros s pos I Hv Hns; cbn [read_chunks].
  { cbn. rewrite take_0, Z.add_0_r. done. }
  apply list.Forall_cons in Hns as [[Hn Hbuf] Hns]. apply runs_bind.
  eapply runs_mono; [by apply (vfs_read_ok s fd C pos)|]. cbn beta zeta.
  intros r s1 (I1 & Hr & Hb & _ & Hv1 & Ho1). apply runs_bind.
  eapply runs_ok; [reflexivity|]. apply runs_bind.
  eapply runs_mono; [by apply (IH s1 (pos + r))|]. cbn beta.
  intros l s2 (I2 & Hl & Hv2 & Ho2). apply runs_ret.
  assert (0 ≤ pos ≤ Z.of_nat (length C)) as Hpos.
  { destruct (view_slot s fd C pos I Hv) as (d & V & <-). apply V. }
  assert (0 ≤ foldr Z.add 0 ns) as Hsum.
  { clear -Hns. induction Hns as [|n ns [Hn _] _ IHn]; cbn; lia. }
  set (chunk := take (Z.to_nat n) (drop (Z.to_nat pos) C)) in *.
  assert (chars_at (fs_bytes (fs s1)) buf r = chunk) as ->.
  { unfold chars_at. rewrite Hr. by apply contents_bytes. }
  cbn [concat foldr].
  assert (chunk ++ concat l = take (Z.to_nat (n + foldr Z.add 0 ns)) (drop (Z.to_nat pos) C)) as Hcat.
  { rewrite Hl. subst chunk. rewrite (Z2Nat.inj_add n) by lia.
    rewrite <- take_take_drop. f_equal. rewrite drop_drop.
    destruct (decide (Z.to_nat n ≤ length C - Z.to_nat pos)%nat) as [Hle|Hgt].
    - rewrite length_take, length_drop, Nat.min_l in Hr by lia. do 2 f_equal. lia.
    - rewrite length_take, length_drop, Nat.min_r in Hr by lia.
      rewrite !drop_ge by lia. done. }
  split_and!; [done|done| |].
  - rewrite Hv2, length_app, Hr. do 2 f_equal. lia.
  - intros j Hj. by rewrite Ho2, Ho1.
Qed.

(** ** Theorems *)

(** [vfs_init] on a loaded volume returns, or panics when the heap is
    exhausted: the root is mounted, no descriptor is open, memory is unchanged,
    and the invariant of the switch holds. *)
Theorem vfs_init_correct (f : F) (address ustar main_memory root : Z) :
  fs_loaded g address f → cstr_at (fs_bytes f) ustar ustar_name → cstr_at (fs_bytes f) root [47] →
  safe (vfs_init address ustar main_memory root) (vfs_start f) (λ _ s',
    vfs_inv s' ∧ fs_bytes (fs s') = fs_bytes f ∧ ∀ fd, view s' fd = None).
Proof. apply vfs_init_ok. Qed.

(** [C24] [vfs_open] returns, or panics when the heap is exhausted, and keeps the
    invariant.  On success the descriptor is the first slot whose file id is 0,
    it stands for the contents of the file the path names below the root, at
    position 0, and no other descriptor changes; -1 is returned only when there
    is no such file, when the file system has no free id, or when no slot has
    file id 0. *)
Theorem vfs_open_correct (s : vstate F) (q : Z) (path : list Z) (flags : Z) :
  vfs_inv s → cstr_at (fs_bytes (fs s)) q path → rel path ≠ [] → Z.of_nat (length path) < 2 ^ 32 →
  (∀ x, q ≤ x ≤ q + Z.of_nat (length path) → ¬ fs_scratch g x) →
  safe (vfs_open empty junk q flags) s (λ fd s',
    vfs_inv s' ∧ same_outside (fs_scratch g) (fs_bytes (fs s)) (fs_bytes (fs s')) ∧
    (∀ j, j ≠ fd → view s' j = view s j) ∧
    (fd = -1 ∨ first_zero s fd ∧ ∃ C, fs_find g (rel path) = Some C ∧ view s' fd = Some (C, 0)) ∧
    (fd = -1 → fs_find g (rel path) = None ∨
       (∀ j, 0 ≤ j < fs_capacity → is_Some (fs_opened (fs s) j)) ∨ ∀ fd, ¬ first_zero s fd)).
Proof. apply vfs_open_ok. Qed.

(** [C16] Reads through a descriptor, of any sizes one after the other, return:
    put together they are the file's bytes from the descriptor's position on, as
    many as were asked for or as are left, and the position has moved behind
    them.  No other descriptor changes. *)
Theorem vfs_sequential_reads (ns : list Z) (s : vstate F) (fd : Z) (C : list Z) (pos buf : Z) :
  vfs_inv s → view s fd = Some (C, pos) →
  Forall (λ n, 0 ≤ n < 2 ^ 63 ∧ ∀ x, in_range buf n x → ¬ fs_private g x) ns →
  runs (read_chunks fd buf ns) s (λ l s',
    vfs_inv s' ∧ concat l = take (Z.to_nat (foldr Z.add 0 ns)) (drop (Z.to_nat pos) C) ∧
    view s' fd = Some (C, pos + Z.of_nat (length (concat l))) ∧
    ∀ j, j ≠ fd → view s' j = view s j).
Proof. apply read_chunks_ok. Qed.

(** [vfs_close] on an open descriptor returns 0, closes it and no other; a
    second [vfs_close] returns 0 and does nothing, and [vfs_read] then returns 0. *)
Theorem vfs_close_correct (s : vstate F) (fd : Z) (C : list Z) (pos buf n : Z) :
  vfs_inv s → view s fd = Some (C, pos) →
  runs (vfs_close fd) s (λ r s',
    vfs_inv s' ∧ r = 0 ∧ fs_bytes (fs s') = fs_bytes (fs s) ∧ view s' fd = None ∧
    (∀ j, j ≠ fd → view s' j = view s j) ∧
    vfs_close fd s' = Ok (0, s') ∧ vfs_read fd buf n s' = Ok (0, s')).
Proof.
  intros I Hv. eapply runs_mono; [by apply (vfs_close_ok s fd C pos)|]. cbn beta.
  intros r s' (I' & -> & Hb & Hn & Ho & d & Hd & Hc). split_and!; try done.
  all: unfold vfs_close, vfs_read, mbind, M_bind; rewrite Hd; cbn [bind_result fst snd]; by rewrite Hc.
Qed.

(** A descriptor whose file id is 0 is lost: when it is open and the first
    one with that id, the next [vfs_open] that succeeds returns the same
    descriptor, now standing for the other file. *)
Theorem vfs_open_overwrites (s : vstate F) (fd : Z) (C : list Z) (pos q : Z) (path : list Z) :
  vfs_inv s → view s fd = Some (C, pos) → first_zero s fd →
  cstr_at (fs_bytes (fs s)) q path → rel path ≠ [] → Z.of_nat (length path) < 2 ^ 32 →
  (∀ x, q ≤ x ≤ q + Z.of_nat (length path) → ¬ fs_scratch g x) →
  safe (vfs_open empty junk q 0) s (λ r s', r = -1 ∨
    r = fd ∧ ∃ C', fs_find g (rel path) = Some C' ∧ view s' fd = Some (C', 0)).
Proof.
  intros I Hv Hz Hq Hne Hlen Hsc. eapply safe_mono; [by apply vfs_open_ok|].
  intros r s' (_ & _ & _ & [->|[Hr Hview]] & _); [by left|right].
  by rewrite <- (first_zero_unique s fd r Hz Hr) in *.
Qed.

(** [vfs_write] has no function to call: on every open descriptor it jumps
    through a null pointer. *)
Theorem vfs_write_faults (s : vstate F) (fd : Z) (C : list Z) (pos buf n : Z) :
  vfs_inv s → view s fd = Some (C, pos) → vfs_write fd buf n s = Fault.
Proof.
  intros I Hv. destruct (view_slot s fd C pos I Hv) as (d & V & _).
  destruct (mountpoint_of s I) as (mp & Hmp & Hops). pose proof (vw_range _ _ _ _ V).
  unfold vfs_write, mbind, M_bind. rewrite (opened_file_ok s fd d) by (lia || apply V).
  cbn [bind_result fst snd]. rewrite (proj2 (Z.eqb_neq _ _) (vw_open _ _ _ _ V)), (vw_mount _ _ _ _ V).
  cbn [bind_result fst snd]. rewrite Hmp. cbn [bind_result fst snd]. by rewrite Hops.
Qed.

(** A descriptor that was never opened is not rejected: reading it, or
    closing it, looks up the mount point in front of the table. *)
Theorem vfs_unopened_faults (s : vstate F) (fd buf n : Z) :
  vfs_inv s → 0 ≤ fd < 512 → vfs_opened_files s !! Z.to_nat fd = Some unused →
  vfs_read fd buf n s = Fault ∧ vfs_close fd s = Fault.
Proof.
  intros I Hfd Hd. destruct (vi_mounts _ I) as (mp & Hm & _).
  assert (get_mountpoint_by_id (u64 (mountpoint_id unused)) s = Fault) as Hnone.
  { unfold get_mountpoint_by_id, mbind, M_bind, gets. cbn [bind_result fst snd]. by rewrite Hm. }
  split; unfold vfs_read, vfs_close, mbind, M_bind;
    rewrite (opened_file_ok s fd unused) by (lia || done); cbn [bind_result fst snd];
    change (fs_file_id unused =? CLOSED) with false; cbv iota beta; by rewrite Hnone.
Qed.

End correct.

(** ** Instances with the tar file system *)

#[local] Instance demo_ops : FsOps ustate := ustar_ops demo_names 900 (replicate 50 0).
#[local] Instance demo_view : FsView ustate := ustar_view demo_names.
#[local] Instance demo_laws : FsLaws ustate := ustar_laws demo_names 900 (replicate 50 0).

Definition demo_vol : fs_volume := demo_volume.

(** The literals "ustar" and "/", the paths "/hi" and "/d/a", a message "no", what
    rubs out a character, and a line feed. *)
Definition demo_fs_bytes : gmap Z Z :=
  put 100 (ustar_name ++ [0]) (put 120 [47; 0]
    (put 140 [47; 104; 105; 0] (put 150 [47; 100; 47; 97; 0] (put 170 [110; 111; 0]
      (put 180 [8; 32; 8; 0] (put 190 [10; 0] demo_bytes)))))).
Definition demo_fs : ustate := UState demo_space demo_fs_bytes 0 ∅ (replicate 512 0).
Definition demo_local : Z → list Z := λ _, replicate 512 0.
Definition demo_vfs : vstate ustate := run_state (vfs_init 4096 100 110 120) (vfs_start demo_fs).
Definition demo_open : vstate ustate := run_state (vfs_open 900 demo_local 140 0) demo_vfs.

Lemma demo_fs_loaded : fs_loaded demo_vol 4096 demo_fs.
Proof.
  split; [done| |vm_compute; done|left; vm_compute; done|done|exists ∅; exact demo_heap_ok].
  apply archive_check_ok. vm_compute. reflexivity.
Qed.

Lemma demo_vfs_returns : returns (vfs_init 4096 100 110 120 (vfs_start demo_fs)) = true.
Proof. vm_compute. reflexivity. Qed.

Lemma demo_literals :
  cstr_at (fs_bytes demo_fs) 100 ustar_name ∧ cstr_at (fs_bytes demo_fs) 120 [47].
Proof. split; apply cstr_check_ok; vm_compute; reflexivity. Qed.

Lemma demo_vfs_inv : vfs_inv demo_vol demo_vfs ∧ fs_bytes (fs demo_vfs) = demo_fs_bytes ∧
  ∀ fd, view demo_vfs fd = None.
Proof.
  exact (vfs_init_state demo_vol demo_fs 4096 100 110 120 demo_fs_loaded
    (proj1 demo_literals) (proj2 demo_literals) demo_vfs_returns).
Qed.

Lemma vfs_init_correct_witness :
  safe (vfs_init 4096 100 110 120) (vfs_start demo_fs) (λ _ s',
    vfs_inv demo_vol s' ∧ fs_bytes (fs s') = demo_fs_bytes ∧ ∀ fd, view s' fd = None).
Proof.
  apply (vfs_init_correct demo_vol demo_fs 4096 100 110 120 demo_fs_loaded
    (proj1 demo_literals) (proj2 demo_literals)).
Defined.

Lemma demo_empty : 128 ≤ 900 < 2 ^ 64 - 128.
Proof. lia. Qed.

Lemma demo_paths : cstr_at (fs_bytes (fs demo_vfs)) 140 [47; 104; 105] ∧
  cstr_at (fs_bytes (fs demo_vfs)) 150 [47; 100; 47; 97].
Proof.
  destruct demo_vfs_inv as (_ & -> & _). split; apply cstr_check_ok; vm_compute; reflexivity.
Qed.

Lemma demo_message : cstr_at (fs_bytes (fs demo_vfs)) 170 [110; 111].
Proof. destruct demo_vfs_inv as (_ & -> & _). apply cstr_check_ok. vm_compute. reflexivity. Qed.

Lemma below_names q n : 0 ≤ q → q + n < demo_names → ∀ x, q ≤ x ≤ q + n → ¬ fs_scratch demo_vol x.
Proof. intros Hq Hn x Hx. cbn. unfold ustar_scratch, in_range. lia. Qed.

Lemma below_archive buf n : buf + n ≤ 4096 → ∀ x, in_range buf n x → ¬ fs_private demo_vol x.
Proof. intros Hn x Hx. cbn. unfold ustar_private, in_range in *. cbn. lia. Qed.

Lemma demo_open_returns : returns (vfs_open 900 demo_local 140 0 demo_vfs) = true.
Proof. vm_compute. reflexivity. Qed.

Lemma demo_open_inv : vfs_inv demo_vol demo_open ∧
  same_outside (fs_scratch demo_vol) (fs_bytes (fs demo_vfs)) (fs_bytes (fs demo_open)).
Proof.
  destruct (vfs_open_state demo_vol 900 demo_local demo_empty demo_vfs 140 [47; 104; 105] 0
    (proj1 demo_vfs_inv) (proj1 demo_paths) ltac:(done) ltac:(done)
    (below_names 140 3 ltac:(done) ltac:(done)) demo_open_returns) as (fd & I & Hs & _).
  exact (conj I Hs).
Qed.

Lemma demo_open_path : cstr_at (fs_bytes (fs demo_open)) 150 [47; 100; 47; 97].
Proof.
  eapply cstr_at_frame; [apply demo_open_inv| |apply demo_paths]. apply below_names; done.
Qed.

Lemma demo_open_view : view demo_open 0 = Some ([72; 101; 108; 108; 111], 0).
Proof. vm_compute. reflexivity. Qed.

Lemma demo_open_zero : first_zero demo_open 0.
Proof.
  split; [done|]. split; [|intros j d Hj; lia]. eexists. split; [vm_compute; reflexivity|done].
Qed.

Lemma vfs_open_correct_witness :
  safe (vfs_open 900 demo_local 140 0) demo_vfs (λ fd s',
    vfs_inv demo_vol s' ∧ same_outside (fs_scratch demo_vol) (fs_bytes (fs demo_vfs)) (fs_bytes (fs s')) ∧
    (∀ j, j ≠ fd → view s' j = view demo_vfs j) ∧
    (fd = -1 ∨ first_zero demo_vfs fd ∧
       ∃ C, fs_find demo_vol (rel [47; 104; 105]) = Some C ∧ view s' fd = Some (C, 0)) ∧
    (fd = -1 → fs_find demo_vol (rel [47; 104; 105]) = None ∨
       (∀ j, 0 ≤ j < fs_capacity → is_Some (fs_opened (fs demo_vfs) j)) ∨
       ∀ fd, ¬ first_zero demo_vfs fd)).
Proof.
  exact (vfs_open_correct demo_vol 900 demo_local demo_empty demo_vfs 140 [47; 104; 105] 0
    (proj1 demo_vfs_inv) (proj1 demo_paths) ltac:(done) ltac:(done)
    (below_names 140 3 ltac:(done) ltac:(done))).
Defined.

Lemma vfs_sequential_reads_witness :
  runs (read_chunks 0 300 [2; 7]) demo_open (λ l s',
    vfs_inv demo_vol s' ∧
    concat l = take (Z.to_nat (foldr Z.add 0 [2; 7])) (drop (Z.to_nat 0) [72; 101; 108; 108; 111]) ∧
    view s' 0 = Some ([72; 101; 108; 108; 111], 0 + Z.of_nat (length (concat l))) ∧
    ∀ j, j ≠ 0 → view s' j = view demo_open j).
Proof.
  apply (vfs_sequential_reads demo_vol [2; 7] demo_open 0 [72; 101; 108; 108; 111] 0 300
    (proj1 demo_open_inv) demo_open_view).
  repeat constructor; try lia; apply below_archive; lia.
Defined.

Lemma vfs_close_correct_witness :
  runs (vfs_close 0) demo_open (λ r s',
    vfs_inv demo_vol s' ∧ r = 0 ∧ fs_bytes (fs s') = fs_bytes (fs demo_open) ∧ view s' 0 = None ∧
    (∀ j, j ≠ 0 → view s' j = view demo_open j) ∧
    vfs_close 0 s' = Ok (0, s') ∧ vfs_read 0 300 5 s' = Ok (0, s')).
Proof.
  exact (vfs_close_correct demo_vol demo_open 0 [72; 101; 108; 108; 111] 0 300 5
    (proj1 demo_open_inv) demo_open_view).
Defined.

Lemma vfs_open_overwrites_witness :
  safe (vfs_open 900 demo_local 150 0) demo_open (λ r s', r = -1 ∨
    r = 0 ∧ ∃ C', fs_find demo_vol (rel [47; 100; 47; 97]) = Some C' ∧ view s' 0 = Some (C', 0)).
Proof.
  exact (vfs_open_overwrites demo_vol 900 demo_local demo_empty demo_open 0
    [72; 101; 108; 108; 111] 0 150 [47; 100; 47; 97] (proj1 demo_open_inv) demo_open_view
    demo_open_zero demo_open_path ltac:(done) ltac:(done) (below_names 150 4 ltac:(done) ltac:(done))).
Defined.

Lemma vfs_write_faults_witness : vfs_write 0 300 5 demo_open = Fault.
Proof.
  exact (vfs_write_faults demo_vol demo_open 0 [72; 101; 108; 108; 111] 0 300 5
    (proj1 demo_open_inv) demo_open_view).
Defined.

Lemma vfs_unopened_faults_witness :
  vfs_read 7 300 5 demo_open = Fault ∧ vfs_close 7 demo_open = Fault.
Proof.
  apply (vfs_unopened_faults demo_vol demo_open 7 300 5 (proj1 demo_open_inv)); [done|].
  vm_compute. reflexivity.
Defined.
