(* ===== verification/Prompt.v ===== *)
(** * [src/kernel/terminal/prompt.c]

    The line editor of the prompt, the commands that start programs, and the lock
    on the standard input.

    [con] is what [kprintf] writes to, [ps] the processes, [kbd] the keyboard.
    The lock that [prompt_lockstdin] takes is a local variable, as in the process
    table.  A system call that the prompt makes with [do_syscall] is a call of
    its handler. *)

From S2P Require Import Prelude Machine Util Spinlock Heap Process Arrays Formatter Keyboard.

Definition PROMPT_BUFFER_SIZE : Z := 1024.

Record prompt := Prompt {
  line_len : Z;               (* uint8_t *)
  prompt_buffer : list Z;     (* char[1024] *)
  buffer_pointer : Z;         (* uint16_t *)
  line_num : Z;               (* uint8_t *)
  stdin_lock : bool;
  locker_id : Z;
  con : console;
  ps : pstate;
  kbd : keyboard_state;
}.

Definition set_line_len (x : Z) (s : prompt) : prompt :=
  Prompt x (prompt_buffer s) (buffer_pointer s) (line_num s) (stdin_lock s) (locker_id s) (con s) (ps s) (kbd s).
Definition set_buffer (x : list Z) (s : prompt) : prompt :=
  Prompt (line_len s) x (buffer_pointer s) (line_num s) (stdin_lock s) (locker_id s) (con s) (ps s) (kbd s).
Definition set_pointer (x : Z) (s : prompt) : prompt :=
  Prompt (line_len s) (prompt_buffer s) x (line_num s) (stdin_lock s) (locker_id s) (con s) (ps s) (kbd s).
Definition set_line_num (x : Z) (s : prompt) : prompt :=
  Prompt (line_len s) (prompt_buffer s) (buffer_pointer s) x (stdin_lock s) (locker_id s) (con s) (ps s) (kbd s).
Definition set_stdin (l : bool) (id : Z) (s : prompt) : prompt :=
  Prompt (line_len s) (prompt_buffer s) (buffer_pointer s) (line_num s) l id (con s) (ps s) (kbd s).
Definition set_con (x : console) (s : prompt) : prompt :=
  Prompt (line_len s) (prompt_buffer s) (buffer_pointer s) (line_num s) (stdin_lock s) (locker_id s) x (ps s) (kbd s).
Definition set_ps (x : pstate) (s : prompt) : prompt :=
  Prompt (line_len s) (prompt_buffer s) (buffer_pointer s) (line_num s) (stdin_lock s) (locker_id s) (con s) x (kbd s).
Definition set_kbd (x : keyboard_state) (s : prompt) : prompt :=
  Prompt (line_len s) (prompt_buffer s) (buffer_pointer s) (line_num s) (stdin_lock s) (locker_id s) (con s) (ps s) x.

Definition on_con {A} (c : M console A) : M prompt A := zoom con set_con c.
Definition on_ps {A} (c : M pstate A) : M prompt A := zoom ps set_ps c.
Definition on_kbd {A} (c : M keyboard_state A) : M prompt A := zoom kbd set_kbd c.
Definition print (fmt : list Z) (a : list arg) : M prompt unit := on_con (kprintf fmt a).

Definition put_buffer (i c : Z) : M prompt unit := put_at prompt_buffer set_buffer i c.

(** ** The lock on the standard input *)

(** A lock on the caller's stack, acquired and released around [c]. *)
Definition local_lock {S A} (c : M S A) : M S A :=
  λ s, bind_result (spinlock_acquire SPINLOCK_INIT) (λ l,
         bind_result (c s) (λ r,
           bind_result (spinlock_release l.2) (λ _, Ok r))).

Definition prompt_lockstdin (caller_id : Z) : M prompt Z :=
  local_lock (
    locked ← gets stdin_lock;
    if negb (locked : bool) then modify (set_stdin true caller_id);; mret 1
    else mret 0).

Definition prompt_unlockstdin (caller_id : Z) : M prompt unit :=
  local_lock (
    locked ← gets stdin_lock;
    owner ← gets locker_id;
    if (locked : bool) && (owner =? caller_id) then modify (set_stdin false 0) else mret tt).

Definition current_pid : M prompt Z :=
  on_ps (c ← process_get_current; p ← proc c; mret (pid p)).

Definition prompt_lockstdin_syscall : M prompt Z :=
  id ← current_pid;
  prompt_lockstdin id.

Definition prompt_unlockstdin_syscall : M prompt Z :=
  id ← current_pid;
  prompt_unlockstdin id;;
  print [10; 36; 58; 32; 0] [];;
  mret 0.

(** ** Editing *)

(** [char space[143] = {[0 ... 100] = ' '}] *)
Definition clear_spaces : list Z := replicate 101 32 ++ replicate 42 0.

Definition prompt_clear : M prompt unit :=
  for_each (seqZ 0 49) (λ _, print [27; 91; 70; 37; 115; 0] [ArgString clear_spaces]);;
  print [27; 91; 70; 0] [];;
  modify (set_line_num 1);;
  modify (set_line_len 0).

Definition prompt_char_handler (c : Z) : M prompt unit :=
  if c =? 10 then mret tt
  else
    n ← gets line_len;
    modify (set_line_len (u8 (n + 1)));;
    p ← gets buffer_pointer;
    put_buffer p c;;
    modify (set_pointer (u16 (p + 1)));;
    print [37; 99; 0] [ArgWord (schar c)].

Definition prompt_backspace_handler : M prompt unit :=
  n ← gets line_len;
  if n =? 0 then mret tt
  else
    modify (set_line_len (u8 (n - 1)));;
    p ← gets buffer_pointer;
    modify (set_pointer (u16 (p - 1)));;
    put_buffer (u16 (p - 1)) 0;;
    print [8; 32; 8; 0] [].

(** [for (int i = 0; i < PROMPT_BUFFER_SIZE; i++) buffer[i] = '\0';] *)
Definition clear_buffer : M prompt unit :=
  for_each (seqZ 0 PROMPT_BUFFER_SIZE) (λ i, put_buffer i 0).

(** ** Commands *)

(** [kstrcmp(buffer, word, n)]: the two strings in a memory of their own. *)
Definition word_address : Z := 4096.
Definition command_memory (b word : list Z) : gmap Z Z :=
  list_to_map (zip (seqZ 0 (Z.of_nat (length b))) b
    ++ zip (seqZ word_address (Z.of_nat (length word))) word).
Definition buffer_is (word : list Z) (n : Z) : M prompt bool := λ s,
  bind_result (kstrcmp 0 word_address n (command_memory (prompt_buffer s) word))
    (λ r, Ok (fst r, s)).

Definition word_clear : list Z := [99; 108; 101; 97; 114; 0].
Definition word_cat : list Z := [99; 97; 116; 0].
Definition word_gol : list Z := [103; 111; 108; 0].
Definition word_snake : list Z := [115; 110; 97; 107; 101; 0].
Definition word_ls : list Z := [108; 115; 0].

Section prompt.
Context `{HO : HeapOps}.
(** The addresses of [process_execution_wrapper], of the programs, of the
    process of the prompt and of [buffer]. *)
Context (wrapper cat_command gol_game_loop snake_game_loop ls_command prompt_process_address
  buffer_address : Z).

Definition start_program (word : list Z) (function arg : Z) : M prompt unit :=
  on_ps (process_create wrapper (removelast word) function arg);; mret tt.

(** The commands; true when a program was started. *)
Definition run_command : M prompt bool :=
  clear ← buffer_is word_clear 5;
  if (clear : bool) then prompt_clear;; mret false
  else
    cat ← buffer_is word_cat 3;
    if (cat : bool) then start_program word_cat cat_command buffer_address;; mret true
    else
      gol ← buffer_is word_gol 3;
      if (gol : bool) then start_program word_gol gol_game_loop 3;; mret true
      else
        snake ← buffer_is word_snake 5;
        if (snake : bool) then start_program word_snake snake_game_loop 3;; mret true
        else
          ls ← buffer_is word_ls 2;
          if (ls : bool) then start_program word_ls ls_command buffer_address;; mret true
          else
            b ← gets prompt_buffer;
            print [37; 115; 10; 0] [ArgString b];;
            mret false.

Definition prompt_enter_handler : M prompt unit :=
  print [10; 0] [];;
  len ← gets line_len;
  yield ← (if len >? 0 then
             n ← gets line_num;
             modify (set_line_num (u8 (n + 1)));;
             run_command
           else mret false);
  clear_buffer;;
  modify (set_line_len 0);;
  n ← gets line_num;
  modify (set_line_num (u8 (n + 1)));;
  modify (set_pointer 0);;
  if (yield : bool) then mret tt else print [36; 58; 32; 0] [].

Definition prompt_handler (c : Z) : M prompt unit :=
  if c =? 8 then prompt_backspace_handler
  else if c =? 10 then prompt_enter_handler
  else prompt_char_handler c.

(** One turn of the endless loop of [prompt_process], behind its first loop
    [clear_buffer]. *)
Definition prompt_round : M prompt unit :=
  locked ← gets stdin_lock;
  if (locked : bool) then mret tt
  else
    call_result ← on_kbd keyboard_getch_syscall;
    if negb (call_result =? u64 (-1)) then prompt_handler (u8 call_result) else mret tt.

Definition prompt_init : M prompt unit :=
  on_ps (process_create wrapper [112; 114; 111; 109; 112; 116] prompt_process_address 0);;
  print [36; 58; 32; 0] [].

End prompt.

(** ** Threads that lock the standard input

    [prompt_lockstdin] runs in the processes that call it, each with a lock of
    its own: another one may run between its test of [stdin_lock] and its
    assignments. *)

Inductive lock_pc := Calling | Tested | Won | Lost.
#[global] Instance lock_pc_eq_dec : EqDecision lock_pc.
Proof. solve_decision. Defined.

Record lock_config := LockConfig { shared_lock : bool; shared_id : Z; callers : gmap Z lock_pc }.

Inductive lock_step : lock_config → lock_config → Prop :=
| lock_test i l id ts :
    ts !! i = Some Calling →
    lock_step (LockConfig l id ts) (LockConfig l id (<[i := if l : bool then Lost else Tested]> ts))
| lock_set i l id ts :
    ts !! i = Some Tested →
    lock_step (LockConfig l id ts) (LockConfig true i (<[i := Won]> ts)).
