(* ===== verification/PromptCorrect.v ===== *)
(** * Correctness of the prompt

    The line editor against a list of characters, the dispatch of commands, the
    lock on the standard input against its owner, and what goes wrong when lines
    get long or programs race for the lock. *)

From S2P Require Import Prelude Machine Util Spinlock Heap Process VmmCorrect KheapCorrect.
From S2P Require Import SchedulerCorrect Arrays Formatter FormatterCorrect Keyboard Prompt.

(** ** Lines *)

(** What a key does to the line. *)
Definition edit (line : list Z) (c : Z) : list Z :=
  if c =? 8 then removelast line else line ++ [c].

(** What it prints. *)
Definition echo (line : list Z) (c : Z) : list (list Z) :=
  if c =? 8 then match line with [] => [] | _ => [[8; 32; 8]] end else [[c]].
Fixpoint echoes (line keys : list Z) : list (list Z) :=
  match keys with [] => [] | c :: keys' => echo line c ++ echoes (edit line c) keys' end.

(** A key that edits: a character other than the terminator and the line feed. *)
Definition edit_key (c : Z) : Prop := printable c ∧ c ≠ 10.

Definition buffer_of (line : list Z) : list Z := line ++ replicate (1024 - length line) 0.

(** The prompt holds [line]. *)
Record line_is (s : prompt) (line : list Z) : Prop := {
  ln_buffer : prompt_buffer s = buffer_of line;
  ln_pointer : buffer_pointer s = Z.of_nat (length line);
  ln_len : line_len s = Z.of_nat (length line);
  ln_short : (length line < 256)%nat;
  ln_chars : Forall printable line;
  ln_terminal : terminal (con s) = true;
}.

(** Everything but the line and the screen. *)
Definition same_system (s s' : prompt) : Prop :=
  stdin_lock s' = stdin_lock s ∧ locker_id s' = locker_id s ∧ ps s' = ps s ∧ kbd s' = kbd s.

(** *** Lemmas *)

Lemma print_ok fmt a u s : render fmt a = Some u → (length u < 1024)%nat → terminal (con s) = true →
  print fmt a s = Ok (tt, set_con (on_screen u (con s)) s).
Proof.
  intros Hr Hl Ht. unfold print, on_con, zoom, kprintf. rewrite (vkprintf_ok fmt a u) by done.
  unfold on_screen. rewrite Ht. done.
Qed.

Lemma render_char v : u8 (s32 v) ≠ 0 → render [37; 99; 0] [ArgWord v] = Some [u8 (s32 v)].
Proof.
  intros H. assert (directive 99 [ArgWord v] = Some ([u8 (s32 v)], [])) as E.
  { change (directive 99 [ArgWord v])
      with (if u8 (s32 v) =? 0 then None else Some ([u8 (s32 v)], @nil arg)).
    by rewrite (proj2 (Z.eqb_neq _ _) H). }
  change (render [37; 99; 0] [ArgWord v])
    with ('(t, a') ← directive 99 [ArgWord v]; u ← render [0] a'; Some (t ++ u)).
  by rewrite E.
Qed.

Lemma char_word c : 0 ≤ c < 256 → u8 (s32 (schar c)) = c.
Proof.
  intros H. unfold u8, s32, schar, wrap, swrap. change (2 ^ (8 - 1)) with 128. change (2 ^ 8) with 256.
  change (2 ^ (32 - 1)) with 2147483648. change (2 ^ 32) with 4294967296. zify_div.
Qed.

Lemma buffer_of_length line : (length line ≤ 1024)%nat → length (buffer_of line) = 1024%nat.
Proof. intros H. unfold buffer_of. rewrite length_app, length_replicate. lia. Qed.

Lemma put_buffer_ok i c s line : prompt_buffer s = buffer_of line → (length line ≤ 1024)%nat →
  0 ≤ i < 1024 → put_buffer i c s = Ok (tt, set_buffer (<[Z.to_nat i := c]> (prompt_buffer s)) s).
Proof. intros Hb Hl Hi. apply put_at_ok. rewrite Hb, buffer_of_length by done. lia. Qed.

Lemma buffer_snoc line c : (length line < 1024)%nat →
  <[length line := c]> (buffer_of line) = buffer_of (line ++ [c]).
Proof.
  intros Hl. unfold buffer_of. rewrite insert_app_r_alt, Nat.sub_diag by lia.
  replace (1024 - length line)%nat with (S (1024 - length (line ++ [c]))) by (rewrite length_app; cbn; lia).
  cbn. by rewrite <- app_assoc.
Qed.

Lemma buffer_unsnoc line c : (length line < 1024)%nat →
  <[length line := 0]> (buffer_of (line ++ [c])) = buffer_of line.
Proof.
  intros Hl. rewrite <- buffer_snoc by done. rewrite list_insert_insert_eq.
  unfold buffer_of. rewrite insert_app_r_alt, Nat.sub_diag by lia.
  destruct (1024 - length line)%nat eqn:E; [lia|]. done.
Qed.

Lemma char_handler_ok s line c : line_is s line → edit_key c → c ≠ 8 → (length line < 255)%nat →
  runs (prompt_char_handler c) s (λ _ s', line_is s' (line ++ [c]) ∧
    screen (con s') = screen (con s) ++ [[c]] ∧ same_system s s').
Proof.
  intros [Hb Hp Hn Hs Hc Ht] [[Hbyte H0] H10] H8 Hlen. unfold is_byte in Hbyte.
  unfold prompt_char_handler. rewrite (proj2 (Z.eqb_neq _ _) H10).
  apply runs_bind. eapply runs_ok; [reflexivity|]. apply runs_bind. eapply runs_ok; [reflexivity|].
  apply runs_bind. eapply runs_ok; [reflexivity|]. cbn [buffer_pointer set_line_len]. rewrite Hn, Hp.
  apply runs_bind. eapply runs_ok; [apply (put_buffer_ok _ _ _ line); [done|lia|lia]|].
  apply runs_bind. eapply runs_ok; [reflexivity|].
  rewrite u8_small, u16_small by lia.
  eapply runs_ok; [apply (print_ok _ _ [c]); [|cbn; lia|done]|].
  { by rewrite render_char, char_word by (rewrite ?char_word; lia). }
  cbn [prompt_buffer set_line_len]. rewrite Nat2Z.id, Hb, buffer_snoc by lia. split; [|done].
  split; cbn; rewrite ?length_app; cbn [length]; try done; try lia.
  apply list.Forall_app. split; [exact Hc|]. apply Forall_singleton. by split.
Qed.

Lemma backspace_ok s line : line_is s line →
  runs prompt_backspace_handler s (λ _ s', line_is s' (removelast line) ∧
    screen (con s') = screen (con s) ++ echo line 8 ∧ same_system s s').
Proof.
  intros L. pose proof L as [Hb Hp Hn Hs Hc Ht]. unfold prompt_backspace_handler.
  apply runs_bind. eapply runs_ok; [reflexivity|]. rewrite Hn.
  destruct line as [|c0 line0] using rev_ind; [by cbn; rewrite app_nil_r|].
  rename c0 into x. rewrite length_app in *. cbn [length] in *. rewrite (proj2 (Z.eqb_neq _ _)) by lia.
  rewrite removelast_last.
  apply runs_bind. eapply runs_ok; [reflexivity|]. apply runs_bind. eapply runs_ok; [reflexivity|].
  cbn [buffer_pointer set_line_len]. rewrite Hp, u16_small, u8_small by lia.
  apply runs_bind. eapply runs_ok; [reflexivity|]. apply runs_bind.
  eapply runs_ok; [apply (put_buffer_ok _ _ _ (line0 ++ [x])); [done|rewrite length_app; cbn; lia|lia]|].
  eapply runs_ok; [apply (print_ok _ _ [8; 32; 8]); [done|cbn; lia|done]|].
  cbn [prompt_buffer set_pointer set_line_len]. rewrite Hb.
  replace (Z.to_nat (Z.of_nat (length line0 + 1) - 1)) with (length line0) by lia.
  rewrite buffer_unsnoc by lia. apply list.Forall_app in Hc as [Hc _]. split.
  - split; cbn; try done; lia.
  - cbn. unfold echo. cbn [Z.eqb Pos.eqb]. by destruct line0.
Qed.

Lemma same_system_trans s1 s2 s3 : same_system s1 s2 → same_system s2 s3 → same_system s1 s3.
Proof. unfold same_system. intuition congruence. Qed.

(** ** The line feed *)

Inductive command := Clear | Start (function arg : Z) | Print.

Definition starts (line word : list Z) : bool := bool_decide (take (length word) line = word).

Section commands.
Context `{HO : HeapOps, HV : HeapView, HL : !HeapLaws}.
Context (wrapper cat_command gol_game_loop snake_game_loop ls_command prompt_process_address
  buffer_address : Z).

(** The first word that the line starts with. *)
Definition command_of (line : list Z) : command :=
  if starts line (removelast word_clear) then Clear
  else if starts line (removelast word_cat) then Start cat_command buffer_address
  else if starts line (removelast word_gol) then Start gol_game_loop 3
  else if starts line (removelast word_snake) then Start snake_game_loop 3
  else if starts line (removelast word_ls) then Start ls_command buffer_address
  else Print.

Abbreviation handler := (prompt_handler wrapper cat_command gol_game_loop snake_game_loop ls_command
  buffer_address).
Abbreviation enter := (prompt_enter_handler wrapper cat_command gol_game_loop snake_game_loop
  ls_command buffer_address).

(** *** Editing *)

Lemma edit_ok s line c : line_is s line → edit_key c → (length (edit line c) < 256)%nat →
  runs (handler c) s (λ _ s', line_is s' (edit line c) ∧
    screen (con s') = screen (con s) ++ echo line c ∧ same_system s s').
Proof.
  intros L Hk Hl. unfold prompt_handler, edit, echo in *. destruct (c =? 8) eqn:E8; bool_to_prop.
  - subst c. by apply backspace_ok.
  - rewrite (proj2 (Z.eqb_neq c 10)) by apply Hk. apply char_handler_ok; [done..|].
    rewrite length_app in Hl. cbn in Hl. lia.
Qed.

Lemma edits_ok keys s line : line_is s line → Forall edit_key keys →
  (∀ k : nat, (length (fold_left edit (take k keys) line) < 256)%nat) →
  runs (for_each keys handler) s (λ _ s', line_is s' (fold_left edit keys line) ∧
    screen (con s') = screen (con s) ++ echoes line keys ∧ same_system s s').
Proof.
  revert s line. induction keys as [|c keys IH]; intros s line L Hk Hl; cbn [for_each fold_left echoes].
  { cbn. rewrite app_nil_r. done. }
  apply list.Forall_cons in Hk as [Hc Hk]. apply runs_bind.
  eapply runs_mono; [apply (edit_ok s line c); [done..|apply (Hl 1%nat)]|]. cbn beta.
  intros _ s1 (L1 & Hs1 & Hsys1). eapply runs_mono.
  { apply (IH s1 (edit line c)); [done..|]. intros k. apply (Hl (S k)). }
  cbn beta. intros _ s2 (L2 & Hs2 & Hsys2). split_and!; [done| |by eapply same_system_trans].
  by rewrite Hs2, Hs1, app_assoc.
Qed.

(** *** Commands *)

Lemma zip_lookup (l : list Z) a i : 0 ≤ i < Z.of_nat (length l) →
  (list_to_map (zip (seqZ a (Z.of_nat (length l))) l) : gmap Z Z) !! (a + i) = l !! Z.to_nat i.
Proof.
  revert a i. induction l as [|x l IH]; intros a i Hi; cbn [length] in Hi; [lia|].
  rewrite seqZ_cons by (cbn [length]; lia). cbn [zip zip_with list_to_map foldr curry].
  replace (Z.pred (Z.of_nat (length (x :: l)))) with (Z.of_nat (length l)) by (cbn [length]; lia).
  destruct (decide (i = 0)) as [->|Hne].
  - rewrite Z.add_0_r. cbn. by rewrite lookup_insert_eq.
  - cbn. rewrite lookup_insert_ne by lia. replace (a + i) with (Z.succ a + (i - 1)) by lia.
    change (foldr _ ∅ _) with (list_to_map (zip (seqZ (Z.succ a) (Z.of_nat (length l))) l) : gmap Z Z).
    rewrite IH by lia. replace (Z.to_nat i) with (S (Z.to_nat (i - 1))) by lia. done.
Qed.

Lemma zip_lookup_out (l : list Z) a n : ¬ (a ≤ n < a + Z.of_nat (length l)) →
  (list_to_map (zip (seqZ a (Z.of_nat (length l))) l) : gmap Z Z) !! n = None.
Proof.
  intros Hn. apply not_elem_of_list_to_map_1. rewrite fst_zip by (rewrite length_seqZ; lia).
  rewrite elem_of_seqZ. lia.
Qed.

(** A string of bytes in the memory of a comparison. *)
Lemma command_memory_at b w : length b = 1024%nat → Forall is_byte b → Forall is_byte w →
  bytes_at (command_memory b w) 0 b ∧ bytes_at (command_memory b w) word_address w.
Proof.
  intros Hb Fb Fw. unfold command_memory. rewrite list_to_map_app.
  split; intros i c Hi; pose proof (lookup_lt_Some _ _ _ Hi) as Hlt; unfold byte.
  - assert ((list_to_map (zip (seqZ 0 (Z.of_nat (length b))) b) : gmap Z Z) !! (0 + Z.of_nat i) = Some c) as E.
    { rewrite zip_lookup by lia. by rewrite Nat2Z.id. }
    rewrite (lookup_union_Some_l _ _ _ _ E). cbn. apply u8_small.
    by apply (list.Forall_lookup_1 _ _ _ _ Fb Hi).
  - rewrite lookup_union_r by (apply zip_lookup_out; unfold word_address; lia).
    rewrite zip_lookup by lia. rewrite Nat2Z.id, Hi. cbn. apply u8_small.
    by apply (list.Forall_lookup_1 _ _ _ _ Fw Hi).
Qed.

Lemma bytes_at_prefix m p l k : bytes_at m p (l ++ k) → bytes_at m p l.
Proof. intros H i c Hi. apply H. by apply lookup_app_l_Some. Qed.

Lemma buffer_of_split line : (length line < 1024)%nat →
  ∃ rest, buffer_of line = line ++ 0 :: rest.
Proof.
  intros H. unfold buffer_of. destruct (1024 - length line)%nat as [|n] eqn:E; [lia|].
  by exists (replicate n 0).
Qed.

Lemma starts_strncmp line word : word ≠ [] →
  strncmp_spec line word (Z.of_nat (length word)) = starts line word.
Proof.
  intros Hw. unfold strncmp_spec, starts. rewrite (proj2 (Z.eqb_neq _ _)) by (destruct word; cbn; [done|lia]).
  rewrite Nat2Z.id, (take_ge word) by lia. done.
Qed.

Lemma buffer_is_ok s line w n : line_is s line → w ≠ [] → Forall printable w →
  n = Z.of_nat (length w) → (length w < 10)%nat →
  buffer_is (w ++ [0]) n s = Ok (starts line w, s).
Proof.
  intros [Hb _ _ Hs Hc _] Hw Fw -> Hl. unfold buffer_is.
  destruct (buffer_of_split line ltac:(lia)) as [rest Hrest].
  assert (Forall is_byte (buffer_of line)) as Fb.
  { unfold buffer_of. apply list.Forall_app. split; [|apply Forall_replicate; unfold is_byte; lia].
    eapply list.Forall_impl; [exact Hc|]. by intros c [? _]. }
  assert (Forall is_byte (w ++ [0])) as Fw0.
  { apply list.Forall_app. split; [|apply Forall_singleton; unfold is_byte; lia].
    eapply list.Forall_impl; [exact Fw|]. by intros c [? _]. }
  destruct (command_memory_at (buffer_of line) (w ++ [0]) (buffer_of_length line ltac:(lia)) Fb Fw0) as [H1 H2].
  rewrite Hb. rewrite (kstrcmp_cstr _ 0 word_address line w (Z.of_nat (length w))).
  - cbn [bind_result fst]. by rewrite starts_strncmp.
  - split; [|eapply list.Forall_impl; [exact Hc|]; by intros c [_ ?]].
    eapply (bytes_at_prefix _ _ _ rest). rewrite <- app_assoc. cbn [app]. by rewrite <- Hrest.
  - split; [done|]. eapply list.Forall_impl; [exact Fw|]; by intros c [_ ?].
  - lia.
  - lia.
  - lia.
Qed.

(** *** The screen is cleared *)

Lemma render_clear : render [27; 91; 70; 37; 115; 0] [ArgString clear_spaces]
  = Some ([27; 91; 70] ++ replicate 101 32).
Proof. vm_compute. reflexivity. Qed.

(** Printing only changes the screen. *)
Definition printed (s s' : prompt) (l : list (list Z)) : Prop :=
  ∃ c, s' = set_con c s ∧ terminal c = true ∧ screen c = screen (con s) ++ l.

(** What clearing the screen writes. *)
Definition blank_row : list Z := [27; 91; 70] ++ replicate 101 32.
Definition cleared : list (list Z) := replicate 49 blank_row ++ [[27; 91; 70]].

Lemma clear_ok s : terminal (con s) = true →
  runs prompt_clear s (λ _ s', ∃ c, s' = set_line_len 0 (set_line_num 1 (set_con c s)) ∧
    terminal c = true ∧ screen c = screen (con s) ++ cleared).
Proof.
  intros Ht. unfold prompt_clear. apply runs_bind. eapply runs_mono.
  { apply (runs_for_range 49 _ (λ i s', printed s s' (replicate (Z.to_nat i) blank_row))); [done| |].
    - intros i s1 Hi (c & -> & Hc & Hs).
      eapply runs_ok; [apply (print_ok _ _ _ _ render_clear); [cbn; lia|done]|].
      eexists _. split; [reflexivity|]. cbn [con set_con on_screen terminal screen]. split; [done|].
      rewrite Hs, <- app_assoc, Z2Nat.inj_add, Nat.add_1_r, (replicate_S_end _ blank_row) by lia. reflexivity.
    - exists (con s). split_and!; [by destruct s|done|by rewrite app_nil_r]. }
  cbn beta. intros _ s1 (c & -> & Hc & Hs). apply runs_bind.
  eapply runs_ok; [apply (print_ok _ _ [27; 91; 70]); [done|cbn; lia|done]|].
  apply runs_bind. eapply runs_ok; [reflexivity|]. eapply runs_ok; [reflexivity|].
  eexists _. split; [reflexivity|]. cbn [con set_con on_screen terminal screen]. split; [done|].
  rewrite Hs, <- app_assoc. reflexivity.
Qed.

Lemma clear_buffer_ok s : length (prompt_buffer s) = 1024%nat →
  runs clear_buffer s (λ _ s', s' = set_buffer (buffer_of []) s).
Proof.
  intros Hl. eapply runs_mono.
  { apply (runs_for_range PROMPT_BUFFER_SIZE _ (λ i s', ∃ b, s' = set_buffer b s ∧
      length b = 1024%nat ∧ ∀ k, 0 ≤ k < i → at_index b k = 0)); [done| |].
    - intros i s1 Hi (b & -> & Hb & Hz). unfold PROMPT_BUFFER_SIZE in Hi.
      eapply runs_ok; [apply put_at_ok; cbn; lia|]. eexists. split; [reflexivity|]. cbn [prompt_buffer set_buffer].
      split; [by rewrite length_insert|]. intros k Hk. rewrite at_index_insert by lia.
      case_decide; [done|]. apply Hz. lia.
    - exists (prompt_buffer s). split_and!; [by destruct s|done|lia]. }
  cbn beta. intros _ s1 (b & -> & Hb & Hz). f_equal.
  rewrite (list_by_index b (λ _, 0) 1024) by (done || lia). vm_compute. reflexivity.
Qed.

(** The end of the handler: an empty line, and the prompt sign unless a program
    was started. *)
Lemma finish_ok (yield : bool) s : length (prompt_buffer s) = 1024%nat → terminal (con s) = true →
  runs (clear_buffer;;
        modify (set_line_len 0);;
        n ← gets line_num;
        modify (set_line_num (u8 (n + 1)));;
        modify (set_pointer 0);;
        if yield then mret tt else print [36; 58; 32; 0] []) s
    (λ _ s', line_is s' [] ∧ same_system s s' ∧
       screen (con s') = screen (con s) ++ if yield then [] else [[36; 58; 32]]).
Proof.
  intros Hl Ht. apply runs_bind. eapply runs_mono; [by apply clear_buffer_ok|]. cbn beta. intros _ s1 ->.
  do 4 (apply runs_bind; eapply runs_ok; [reflexivity|]).
  destruct yield.
  - apply runs_ret. rewrite app_nil_r. split; [|done]. split; cbn; try done. lia.
  - eapply runs_ok; [apply (print_ok _ _ [36; 58; 32]); [done|cbn; lia|done]|].
    split; [|done]. split; cbn; try done. lia.
Qed.

(** Everything but the screen, the line and the processes. *)
Definition command_post (s : prompt) (line : list Z) (l : list Z) (yield : bool) (s' : prompt) : Prop :=
  prompt_buffer s' = prompt_buffer s ∧ terminal (con s') = true ∧
  stdin_lock s' = stdin_lock s ∧ locker_id s' = locker_id s ∧ kbd s' = kbd s ∧
  match command_of line with
  | Clear => yield = false ∧ ps s' = ps s ∧ screen (con s') = screen (con s) ++ cleared
  | Start f a => yield = true ∧ con s' = con s ∧ ∃ p, created (ps s) (ps s') l wrapper f a p
  | Print => yield = false ∧ ps s' = ps s ∧ screen (con s') = screen (con s) ++ [line ++ [10]]
  end.

Lemma start_program_ok s l word f a : proc_inv (ps s) l →
  Z.of_nat (length l) + 1 < 2 ^ 32 → (∀ x px, procs (ps s) !! x = Some px → x ∈ l) →
  safe (start_program wrapper word f a) s (λ _ s', ∃ q p, s' = set_ps q s ∧ created (ps s) q l wrapper f a p).
Proof.
  intros I Hl Hall. unfold start_program. apply safe_bind, safe_zoom.
  eapply safe_mono; [by apply process_create_ok|]. cbn beta. intros p q H. apply safe_ret. by exists q, p.
Qed.

Lemma run_command_ok s line l : line_is s line → proc_inv (ps s) l →
  Z.of_nat (length l) + 1 < 2 ^ 32 → (∀ x px, procs (ps s) !! x = Some px → x ∈ l) →
  safe (run_command wrapper cat_command gol_game_loop snake_game_loop ls_command buffer_address) s
    (command_post s line l).
Proof.
  intros L I Hl Hall. unfold run_command.
  assert (∀ w n (k : bool → M prompt bool) Q, w = removelast w ++ [0] → removelast w ≠ [] →
    Forall printable (removelast w) → n = Z.of_nat (length (removelast w)) →
    (length (removelast w) < 10)%nat →
    safe (k (starts line (removelast w))) s Q → safe (buffer_is w n ≫= k) s Q) as Hstep.
  { intros w n k Q Ew Hw Fw Hn Hlw H. apply safe_bind. unfold safe at 1.
    pose proof (buffer_is_ok s line (removelast w) n L Hw Fw Hn Hlw) as E. rewrite <- Ew in E.
    rewrite E. exact H. }
  assert (∀ w f a, command_of line = Start f a →
    safe (start_program wrapper w f a;; mret true) s (command_post s line l)) as Hstart.
  { intros w f a Hc. apply safe_bind. eapply safe_mono; [by apply (start_program_ok s l)|].
    cbn beta. intros _ s1 (q & p & -> & Hcr). apply safe_ret. unfold command_post. rewrite Hc.
    split; [reflexivity|]. split; [apply L|]. do 5 (split; [reflexivity|]). exists p. exact Hcr. }
  assert (Forall printable (removelast word_clear) ∧ Forall printable (removelast word_cat) ∧
    Forall printable (removelast word_gol) ∧ Forall printable (removelast word_snake) ∧
    Forall printable (removelast word_ls)) as (F1 & F2 & F3 & F4 & F5).
  { split_and!; repeat constructor; unfold is_byte; lia. }
  apply (Hstep word_clear 5); [reflexivity|discriminate|done|reflexivity|cbn; lia|]. destruct (starts line (removelast word_clear)) eqn:E1.
  { apply safe_bind, runs_safe. eapply runs_mono; [apply clear_ok, L|]. cbn beta.
    intros _ s1 (c & -> & Ht & Hs). apply safe_ret. unfold command_post, command_of. rewrite E1.
    split; [reflexivity|]. split; [exact Ht|]. do 5 (split; [reflexivity|]). exact Hs. }
  apply (Hstep word_cat 3); [reflexivity|discriminate|done|reflexivity|cbn; lia|]. destruct (starts line (removelast word_cat)) eqn:E2.
  { apply Hstart. unfold command_of. by rewrite E1, E2. }
  apply (Hstep word_gol 3); [reflexivity|discriminate|done|reflexivity|cbn; lia|]. destruct (starts line (removelast word_gol)) eqn:E3.
  { apply Hstart. unfold command_of. by rewrite E1, E2, E3. }
  apply (Hstep word_snake 5); [reflexivity|discriminate|done|reflexivity|cbn; lia|]. destruct (starts line (removelast word_snake)) eqn:E4.
  { apply Hstart. unfold command_of. by rewrite E1, E2, E3, E4. }
  apply (Hstep word_ls 2); [reflexivity|discriminate|done|reflexivity|cbn; lia|]. destruct (starts line (removelast word_ls)) eqn:E5.
  { apply Hstart. unfold command_of. by rewrite E1, E2, E3, E4, E5. }
  destruct L as [Hb Hp Hn Hs Hc Ht]. apply safe_bind, safe_gets, safe_bind.
  destruct (buffer_of_split line ltac:(lia)) as [rest Hrest].
  unfold safe at 1. rewrite (print_ok _ _ (line ++ [10])); [|rewrite Hb|rewrite length_app; cbn; lia|done].
  - apply safe_ret. unfold command_post, command_of. rewrite E1, E2, E3, E4, E5.
    split; [reflexivity|]. split; [exact Ht|]. do 5 (split; [reflexivity|]). reflexivity.
  - change (render [37; 115; 10; 0] [ArgString (buffer_of line)])
      with ('(t, a') ← directive 115 [ArgString (buffer_of line)]; u ← render [10; 0] a'; Some (t ++ u)).
    change (directive 115 [ArgString (buffer_of line)])
      with (t ← text (buffer_of line); Some (t, @nil arg)).
    rewrite Hrest, text_terminated by done. done.
Qed.

Lemma enter_ok s line l : line_is s line → proc_inv (ps s) l →
  Z.of_nat (length l) + 1 < 2 ^ 32 → (∀ x px, procs (ps s) !! x = Some px → x ∈ l) →
  safe enter s (λ _ s', line_is s' [] ∧ stdin_lock s' = stdin_lock s ∧ locker_id s' = locker_id s ∧
    kbd s' = kbd s ∧
    match line with
    | [] => ps s' = ps s ∧ screen (con s') = screen (con s) ++ [[10]; [36; 58; 32]]
    | _ =>
      match command_of line with
      | Clear => ps s' = ps s ∧
          screen (con s') = screen (con s) ++ [[10]] ++ cleared ++ [[36; 58; 32]]
      | Start f a => screen (con s') = screen (con s) ++ [[10]] ∧
          ∃ p, created (ps s) (ps s') l wrapper f a p
      | Print => ps s' = ps s ∧
          screen (con s') = screen (con s) ++ [[10]; line ++ [10]; [36; 58; 32]]
      end
    end).
Proof.
  intros L I Hl Hall. pose proof L as [Hb Hp Hn Hs Hc Ht]. unfold prompt_enter_handler.
  assert (length (prompt_buffer s) = 1024%nat) as Hbl by (rewrite Hb; apply buffer_of_length; lia).
  apply safe_bind. unfold safe at 1. rewrite (print_ok _ _ [10]) by (done || cbn; lia).
  set (s1 := set_con _ s). apply safe_bind, safe_gets. change (line_len s1) with (line_len s). rewrite Hn.
  apply safe_bind. destruct line as [|x line'].
  { change (Z.of_nat (length []) >? 0) with false. cbv iota. apply safe_ret, runs_safe.
    cbn beta. eapply runs_mono; [exact (finish_ok false s1 Hbl Ht)|]. cbn beta. intros _ s2 (L2 & (H1 & H2 & H3 & H4) & Hs2).
    split_and!; try done. rewrite Hs2. cbn. by rewrite <- app_assoc. }
  set (line := x :: line') in *. rewrite (proj2 (Z.gtb_lt _ _)) by (cbn [length line]; lia).
  apply safe_bind, safe_gets, safe_bind, safe_modify.
  set (s2 := set_line_num _ s1).
  assert (line_is s2 line) as L2 by (by split).
  eapply safe_mono; [by apply (run_command_ok s2 line l)|].
  intros y s3 (Hb3 & Ht3 & Hl3 & Hi3 & Hk3 & Hcase). apply runs_safe.
  eapply runs_mono; [refine (finish_ok y s3 _ Ht3); rewrite Hb3; exact Hbl|]. cbn beta.
  intros _ s4 (L4 & (H1 & H2 & H3 & H4) & Hs4). 
  split; [exact L4|]. split; [by rewrite H1, Hl3|]. split; [by rewrite H2, Hi3|].
  split; [by rewrite H4, Hk3|].
  destruct (command_of line).
  - destruct Hcase as (-> & Hps & Hscr). split; [by rewrite H3, Hps|]. rewrite Hs4, Hscr.
    cbn [con s2 s1 set_line_num set_con on_screen screen]. by rewrite <- !app_assoc.
  - destruct Hcase as (-> & Hcon & p & Hcr). rewrite Hs4, Hcon, H3, app_nil_r. split; [done|].
    exists p. exact Hcr.
  - destruct Hcase as (-> & Hps & Hscr). split; [by rewrite H3, Hps|]. rewrite Hs4, Hscr. cbn.
    by rewrite <- !app_assoc.
Qed.

End commands.

(** ** The lock on the standard input *)

(** Who holds it. *)
Definition owner (s : prompt) : option Z := if stdin_lock s then Some (locker_id s) else None.

Inductive request := Lock (id : Z) | Unlock (id : Z).

(** The specification: the first one gets it, only the holder gives it back. *)
Definition owner_step (o : option Z) (r : request) : option Z * Z :=
  match r, o with
  | Lock id, None => (Some id, 1)
  | Lock _, Some _ => (o, 0)
  | Unlock id, Some h => (if h =? id then None else o, 0)
  | Unlock _, None => (None, 0)
  end.

Definition do_request (r : request) : M prompt Z :=
  match r with
  | Lock id => prompt_lockstdin id
  | Unlock id => prompt_unlockstdin id;; mret 0
  end.

Fixpoint do_requests (rs : list request) : M prompt (list Z) :=
  match rs with
  | [] => mret []
  | r :: rs' => x ← do_request r; xs ← do_requests rs'; mret (x :: xs)
  end.
Fixpoint owner_steps (o : option Z) (rs : list request) : option Z * list Z :=
  match rs with
  | [] => (o, [])
  | r :: rs' =>
      let '(o1, x) := owner_step o r in
      let '(o2, xs) := owner_steps o1 rs' in (o2, x :: xs)
  end.

Lemma local_lock_ok {S A} (c : M S A) s : local_lock c s = c s.
Proof.
  unfold local_lock. change SPINLOCK_INIT with 0. rewrite spinlock_acquire_free.
  cbn [bind_result snd]. by destruct (c s) as [[a s']| | |].
Qed.

Lemma do_request_ok r s : ∃ l id, do_request r s = Ok (snd (owner_step (owner s) r), set_stdin l id s) ∧
  owner (set_stdin l id s) = fst (owner_step (owner s) r).
Proof.
  destruct s as [a b c d l id e f g]. unfold owner.
  destruct r as [i|i]; cbn [do_request]; unfold prompt_lockstdin, prompt_unlockstdin, mbind, M_bind;
    rewrite local_lock_ok; destruct l; cbn.
  - by exists true, id.
  - by exists true, i.
  - destruct (id =? i); cbn; [by exists false, 0|by exists true, id].
  - by exists false, id.
Qed.

(** The system calls on the lock, for the process that runs. *)
Definition runs_as (id : Z) (s : prompt) : Prop :=
  ∃ p, procs (ps s) !! current_process (ps s) = Some p ∧ pid p = id.

Lemma current_pid_ok id s : runs_as id s → current_pid s = Ok (id, s).
Proof.
  intros (p & Hp & Hid). unfold current_pid, on_ps, zoom, process_get_current, proc, mbind, M_bind, gets.
  cbn [bind_result fst snd]. rewrite Hp. cbn [bind_result fst snd mret M_ret]. rewrite Hid.
  by destruct s.
Qed.

Lemma lock_syscall_ok id s : runs_as id s → stdin_lock s = false →
  prompt_lockstdin_syscall s = Ok (1, set_stdin true id s).
Proof.
  intros Hp Hl. unfold prompt_lockstdin_syscall, mbind, M_bind. rewrite (current_pid_ok id) by done.
  cbn [bind_result fst snd]. unfold prompt_lockstdin. rewrite local_lock_ok.
  unfold mbind, M_bind, gets. cbn [bind_result fst snd]. by rewrite Hl.
Qed.

Lemma unlock_syscall_ok id s : runs_as id s → terminal (con s) = true →
  runs prompt_unlockstdin_syscall s (λ r s', r = 0 ∧ ∃ l i,
    s' = set_con (on_screen [10; 36; 58; 32] (con s)) (set_stdin l i s) ∧
    owner (set_stdin l i s) = fst (owner_step (owner s) (Unlock id))).
Proof.
  intros Hp Ht. unfold prompt_unlockstdin_syscall. apply runs_bind.
  eapply runs_ok; [by apply current_pid_ok|]. apply runs_bind.
  destruct (do_request_ok (Unlock id) s) as (l & h & E & Ho).
  cbn [do_request] in E. unfold mbind, M_bind in E.
  destruct (prompt_unlockstdin id s) as [[u q]| | |] eqn:Eu; cbn in E; try done.
  injection E as Eq. subst q. eapply runs_ok; [exact Eu|]. apply runs_bind.
  eapply runs_ok; [by apply (print_ok _ _ [10; 36; 58; 32]); [done|cbn; lia|]|]. apply runs_ret.
  split; [done|]. by exists l, h.
Qed.

(** ** Theorems *)

(** [C29] The line editor refines a list of characters: from a line the prompt
    holds, any keys other than the terminator and the line feed leave it holding
    the edited line, with exactly the echo on the screen, as long as the line
    stays below 256 characters; a backspace on an empty line does nothing. *)
Theorem prompt_edits_line `{HO : HeapOps} (wrapper cat gol snake ls buf : Z) (keys : list Z)
    (s : prompt) (line : list Z) :
  line_is s line → Forall edit_key keys →
  (∀ k : nat, (length (fold_left edit (take k keys) line) < 256)%nat) →
  runs (for_each keys (prompt_handler wrapper cat gol snake ls buf)) s (λ _ s',
    line_is s' (fold_left edit keys line) ∧
    screen (con s') = screen (con s) ++ echoes line keys ∧ same_system s s').
Proof. apply edits_ok. Qed.

(** [C30] The line feed runs the command the line starts with, the first of clear,
    cat, gol, snake, ls, and otherwise prints the line: the screen is cleared, or
    a program becomes a new ready process with the program's address and argument;
    the prompt sign appears unless a program was started, and the line is empty
    again.  The handler returns, or panics when memory for the process runs out. *)
Theorem prompt_enter_correct `{HO : HeapOps, HV : HeapView, HL : !HeapLaws}
    (wrapper cat gol snake ls buf : Z) (s : prompt) (line l : list Z) :
  line_is s line → proc_inv (ps s) l →
  Z.of_nat (length l) + 1 < 2 ^ 32 → (∀ x px, procs (ps s) !! x = Some px → x ∈ l) →
  safe (prompt_enter_handler wrapper cat gol snake ls buf) s (λ _ s',
    line_is s' [] ∧ stdin_lock s' = stdin_lock s ∧ locker_id s' = locker_id s ∧ kbd s' = kbd s ∧
    match line with
    | [] => ps s' = ps s ∧ screen (con s') = screen (con s) ++ [[10]; [36; 58; 32]]
    | _ =>
      match command_of cat gol snake ls buf line with
      | Clear => ps s' = ps s ∧
          screen (con s') = screen (con s) ++ [[10]] ++ cleared ++ [[36; 58; 32]]
      | Start f a => screen (con s') = screen (con s) ++ [[10]] ∧
          ∃ p, created (ps s) (ps s') l wrapper f a p
      | Print => ps s' = ps s ∧
          screen (con s') = screen (con s) ++ [[10]; line ++ [10]; [36; 58; 32]]
      end
    end).
Proof. apply enter_ok. Qed.

(** Locking the standard input refines a single owner: for any sequence of
    requests, one after the other, a lock succeeds exactly when nobody holds the
    input, an unlock by somebody else has no effect, and nothing else of the
    prompt changes. *)
Theorem stdin_lock_refines_owner (rs : list request) (s : prompt) :
  ∃ l id, do_requests rs s = Ok (snd (owner_steps (owner s) rs), set_stdin l id s) ∧
    owner (set_stdin l id s) = fst (owner_steps (owner s) rs).
Proof.
  revert s. induction rs as [|r rs IH]; intros s; cbn [do_requests owner_steps].
  { exists (stdin_lock s), (locker_id s). by destruct s. }
  destruct (do_request_ok r s) as (l & id & E & Ho). unfold mbind, M_bind. rewrite E.
  cbn [bind_result fst snd]. destruct (IH (set_stdin l id s)) as (l2 & id2 & E2 & Ho2).
  rewrite E2. cbn [bind_result fst snd]. rewrite Ho in *.
  destruct (owner_step (owner s) r) as [o x]. cbn [fst snd] in *.
  destruct (owner_steps o rs) as [o2 xs]. cbn [fst snd] in *. exists l2, id2. split; [done|].
  by destruct s.
Qed.

(** The lock does not exclude processes that run concurrently, since each
    guards its test with a lock of its own: two processes can both be told that
    they hold the standard input. *)
Theorem stdin_lock_race : ∃ c,
  rtc lock_step (LockConfig false 0 (<[1 := Calling]> {[2 := Calling]})) c ∧
  callers c !! 1 = Some Won ∧ callers c !! 2 = Some Won ∧ shared_id c = 2.
Proof.
  eexists. split_and!.
  - eapply rtc_l; [apply (lock_test 1); reflexivity|].
    eapply rtc_l; [apply (lock_test 2); reflexivity|].
    eapply rtc_l; [apply (lock_set 1); reflexivity|].
    eapply rtc_l; [apply (lock_set 2); reflexivity|]. apply rtc_refl.
  - reflexivity.
  - reflexivity.
  - reflexivity.
Qed.

(** [C40] The length of the line is a byte: the 256th character makes it 0, and the
    line feed then drops the whole line, whatever command it holds. *)
Theorem prompt_long_line_dropped `{HO : HeapOps} (wrapper cat gol snake ls buf : Z) (s : prompt)
    (line : list Z) (c : Z) :
  line_is s line → length line = 255%nat → edit_key c → c ≠ 8 →
  runs (prompt_handler wrapper cat gol snake ls buf c;; prompt_handler wrapper cat gol snake ls buf 10) s
    (λ _ s', line_is s' [] ∧ same_system s s' ∧
       screen (con s') = screen (con s) ++ [[c]; [10]; [36; 58; 32]]).
Proof.
  intros [Hb Hp Hn Hs Hc Ht] Hlen [[Hbyte H0] H10] H8. unfold is_byte in Hbyte. apply runs_bind.
  unfold prompt_handler. rewrite (proj2 (Z.eqb_neq _ _) H8), (proj2 (Z.eqb_neq _ _) H10).
  unfold prompt_char_handler. rewrite (proj2 (Z.eqb_neq _ _) H10). rewrite Hlen in *.
  do 3 (apply runs_bind; eapply runs_ok; [reflexivity|]). cbn [buffer_pointer set_line_len]. rewrite Hn, Hp.
  change (u8 (Z.of_nat 255 + 1)) with 0. apply runs_bind.
  eapply runs_ok; [apply (put_buffer_ok _ _ _ line); [done|lia|lia]|].
  apply runs_bind. eapply runs_ok; [reflexivity|]. cbn [prompt_buffer set_line_len]. rewrite Hb.
  replace (Z.to_nat (Z.of_nat 255)) with (length line) by lia. rewrite buffer_snoc by lia.
  eapply runs_ok; [apply (print_ok _ _ [c]); [|cbn; lia|done]|].
  { by rewrite render_char, char_word by (rewrite ?char_word; lia). }
  change (10 =? 8) with false. change (10 =? 10) with true. cbv iota. unfold prompt_enter_handler.
  apply runs_bind. eapply runs_ok; [apply (print_ok _ _ [10]); [done|cbn; lia|done]|].
  apply runs_bind. eapply runs_ok; [reflexivity|].
  cbn [line_len set_con set_pointer set_buffer set_line_len]. change (0 >? 0) with false. cbv iota.
  apply runs_bind, runs_ret. cbn beta.
  match goal with |- runs _ ?st _ => set (s2 := st) end.
  assert (length (prompt_buffer s2) = 1024%nat) as Hbl.
  { cbn [prompt_buffer s2]. apply buffer_of_length. rewrite length_app. cbn. lia. }
  eapply runs_mono; [exact (finish_ok false s2 Hbl Ht)|]. cbn beta.
  intros _ s3 (L3 & Hsys & Hs3). split; [done|]. split; [exact Hsys|]. rewrite Hs3. cbn.
  by rewrite <- !app_assoc.
Qed.

(** ** Instances *)

Definition demo_prompt (line : list Z) (q : pstate) : prompt :=
  Prompt (Z.of_nat (length line)) (buffer_of line) (Z.of_nat (length line)) 1 false 0 demo_console q
    keyboard_initial.

Lemma demo_line line q : (length line < 256)%nat → Forall printable line → line_is (demo_prompt line q) line.
Proof. intros Hl Hp. by split. Qed.

Lemma prompt_edits_line_witness :
  runs (for_each [108; 115; 8; 8; 8; 99] (prompt_handler 1 2 3 4 5 6)) (demo_prompt [] no_procs) (λ _ s',
    line_is s' (fold_left edit [108; 115; 8; 8; 8; 99] []) ∧
    screen (con s') = [] ++ echoes [] [108; 115; 8; 8; 8; 99] ∧ same_system (demo_prompt [] no_procs) s').
Proof.
  apply (prompt_edits_line 1 2 3 4 5 6 [108; 115; 8; 8; 8; 99] (demo_prompt [] no_procs) []).
  - apply demo_line; [cbn; lia|constructor].
  - repeat constructor; unfold is_byte; lia.
  - intros k. do 7 (destruct k as [|k]; [cbn; lia|]). cbn. lia.
Defined.

Lemma prompt_enter_correct_witness :
  safe (prompt_enter_handler 1 2 3 4 5 6) (demo_prompt [103; 111; 108] no_procs) (λ _ s',
    line_is s' [] ∧ stdin_lock s' = false ∧ locker_id s' = 0 ∧ kbd s' = keyboard_initial ∧
    screen (con s') = [] ++ [[10]] ∧ ∃ p, created no_procs (ps s') [] 1 3 3 p).
Proof.
  apply (prompt_enter_correct 1 2 3 4 5 6 (demo_prompt [103; 111; 108] no_procs) [103; 111; 108] []).
  - apply demo_line; [cbn; lia|repeat constructor; unfold is_byte; lia].
  - split; [reflexivity|apply NoDup_nil_2| |done]. exists ∅. split; [exact demo_heap_ok|].
    intros p Hp. by apply elem_of_nil in Hp.
  - done.
  - intros x px Hx. cbn in Hx. by rewrite lookup_empty in Hx.
Defined.

Lemma prompt_long_line_dropped_witness :
  runs (prompt_handler 1 2 3 4 5 6 97;; prompt_handler 1 2 3 4 5 6 10)
    (demo_prompt ([108; 115] ++ replicate 253 32) no_procs) (λ _ s',
      line_is s' [] ∧ same_system (demo_prompt ([108; 115] ++ replicate 253 32) no_procs) s' ∧
      screen (con s') = [] ++ [[97]; [10]; [36; 58; 32]]).
Proof.
  apply (prompt_long_line_dropped 1 2 3 4 5 6 (demo_prompt ([108; 115] ++ replicate 253 32) no_procs)
    ([108; 115] ++ replicate 253 32) 97).
  - apply demo_line; [cbn; lia|]. apply list.Forall_app. split; [repeat constructor; unfold is_byte; lia|].
    apply Forall_replicate. split; [unfold is_byte; lia|done].
  - reflexivity.
  - split; [split; [unfold is_byte; lia|done]|done].
  - done.
Defined.
