(* ===== verification/GameOfLife.v ===== *)
(** * [src/programs/gameoflife/gameoflife.c] and [gameoflife.h]

    The cells as the array of bytes the program keeps, the generation step with
    its two work lists, the cursor and the keys, and the drawing.

    The neighbour search reads one byte behind the array; [past] is that byte.
    A write behind the array is a fault. *)

From S2P Require Import Prelude Arrays.

Definition GOL_WIDTH : Z := 40.
Definition GOL_HEIGHT : Z := 70.
Definition GOL_CELLS : Z := GOL_WIDTH * GOL_HEIGHT.
Definition GOL_BORDER : Z := 42.
Definition GOL_CELL : Z := 35.
Definition GOL_EMPTY : Z := 32.
Definition GOL_CURSOR : Z := 88.

Definition GOL_CI (i j : Z) : Z := i * GOL_HEIGHT + j.

(** [cells[i] = v] *)
Definition put_cell (i v : Z) : M (list Z) unit := put_at (λ c, c) (λ c _, c) i v.

Definition gol_init_cells : M (list Z) unit :=
  for_each (seqZ 0 GOL_CELLS) (λ i, put_cell i 0).

(** ** Neighbours *)

Definition neighbor_indices (i j : Z) : list Z :=
  map u16 [i * GOL_HEIGHT + (j - 1); i * GOL_HEIGHT + (j + 1);
    (i - 1) * GOL_HEIGHT + j; (i + 1) * GOL_HEIGHT + j;
    (i - 1) * GOL_HEIGHT + (j - 1); (i - 1) * GOL_HEIGHT + (j + 1);
    (i + 1) * GOL_HEIGHT + (j - 1); (i + 1) * GOL_HEIGHT + (j + 1)].

(** [cells[index]], with the byte behind the array *)
Definition read_cell (past : Z) (cells : list Z) (index : Z) : Z :=
  if index =? GOL_CELLS then past else at_index cells index.

Definition count_neighbor (past : Z) (cells : list Z) (count index : Z) : Z :=
  if (index <? 0) || (index >? GOL_CELLS) then count
  else if negb (read_cell past cells index =? 0) then u8 (count + 1) else count.

Definition gol_get_alive_neighbors (past : Z) (cells : list Z) (i j : Z) : Z :=
  foldl (count_neighbor past cells) 0 (neighbor_indices i j).

(** ** A generation *)

Record marks := Marks {
  toBeKilled : list Z; inx1 : Z;
  toBeRevived : list Z; inx2 : Z;
}.
Definition set_killed (x : list Z) (s : marks) : marks := Marks x (inx1 s) (toBeRevived s) (inx2 s).
Definition set_inx1 (x : Z) (s : marks) : marks := Marks (toBeKilled s) x (toBeRevived s) (inx2 s).
Definition set_revived (x : list Z) (s : marks) : marks := Marks (toBeKilled s) (inx1 s) x (inx2 s).
Definition set_inx2 (x : Z) (s : marks) : marks := Marks (toBeKilled s) (inx1 s) (toBeRevived s) x.

(** The body of the double loop. *)
Definition mark_cell (past : Z) (cells : list Z) (i j : Z) : M marks unit :=
  let index := u16 (GOL_CI i j) in
  let neighbor_count := gol_get_alive_neighbors past cells (u8 i) (u8 j) in
  if negb (at_index cells index =? 0) then
    if (neighbor_count <? 2) || (neighbor_count >? 3) then
      k ← gets inx1;
      put_at toBeKilled set_killed k index;;
      modify (set_inx1 (u16 (k + 1)))
    else mret tt
  else if neighbor_count =? 3 then
    k ← gets inx2;
    put_at toBeRevived set_revived k index;;
    modify (set_inx2 (u16 (k + 1)))
  else mret tt.

Definition mark_cells (past : Z) (cells : list Z) : M marks unit :=
  for_each (seqZ 0 GOL_WIDTH) (λ i, for_each (seqZ 0 GOL_HEIGHT) (λ j, mark_cell past cells i j)).

Definition no_marks : marks :=
  Marks (replicate (Z.to_nat GOL_CELLS) 0) 0 (replicate (Z.to_nat GOL_CELLS) 0) 0.

Definition gol_update (past : Z) : M (list Z) unit := λ cells,
  bind_result (mark_cells past cells no_marks) (λ r,
    let m := snd r in
    (for_each (seqZ 0 (inx1 m)) (λ i, put_cell (at_index (toBeKilled m) i) 0);;
     for_each (seqZ 0 (inx2 m)) (λ i, put_cell (at_index (toBeRevived m) i) 1)) cells).

(** ** Drawing *)

(** The character at row [i], column [j]. *)
Definition gol_char (cells : list Z) (row column i j : Z) : Z :=
  if (i =? 0) || (i =? GOL_WIDTH - 1) || (j =? 0) || (j =? GOL_HEIGHT - 1) then GOL_BORDER
  else if (negb (row =? 0) || negb (column =? 0)) && (row =? i) && (column =? j) then GOL_CURSOR
  else if negb (at_index cells (u16 (GOL_CI i j)) =? 0) then GOL_CELL
  else GOL_EMPTY.

(** The lines handed to [kprintf], each with its line feed. *)
Definition gol_draw (cells : list Z) (row column : Z) : list (list Z) :=
  map (λ i, map (gol_char cells row column i) (seqZ 0 GOL_HEIGHT) ++ [10]) (seqZ 0 GOL_WIDTH).

(** ** Keys and the game loop *)

Record gol := Gol {
  gol_cells : list Z;
  gol_row : Z;            (* gol_cursor[0] *)
  gol_column : Z;         (* gol_cursor[1] *)
  gol_state : Z;          (* 0 = config, 1 = run, 2 = quit *)
}.
Definition set_cells (x : list Z) (g : gol) : gol := Gol x (gol_row g) (gol_column g) (gol_state g).
Definition set_cursor (r c : Z) (g : gol) : gol := Gol (gol_cells g) r c (gol_state g).
Definition set_state (x : Z) (g : gol) : gol := Gol (gol_cells g) (gol_row g) (gol_column g) x.

Definition on_cells {A} (c : M (list Z) A) : M gol A := zoom gol_cells set_cells c.

Definition gol_key_handler (ch : Z) : M gol unit := λ g,
  let key := u8 ch in
  let '(Gol cells row column state) := g in
  (if key =? 119 (* w *) then
     let r := u8 (row - 1) in
     modify (set_cursor (if r >? GOL_WIDTH then GOL_WIDTH else r) column)
   else if key =? 115 (* s *) then
     let r := u8 (row + 1) in
     modify (set_cursor (if r <? 0 then 0 else r) column)
   else if key =? 97 (* a *) then
     let c := u8 (column - 1) in
     modify (set_cursor row (if c <? 0 then 0 else c))
   else if key =? 100 (* d *) then
     let c := u8 (column + 1) in
     modify (set_cursor row (if c >? GOL_HEIGHT then GOL_HEIGHT else c))
   else if key =? 101 (* e *) then
     on_cells (put_cell (GOL_CI row column)
       (if at_index cells (GOL_CI row column) =? 0 then 1 else 0))
   else if key =? 102 (* f *) then
     if state =? 0 then
       modify (set_state 1);; modify (set_cursor 0 0)
     else if state =? 1 then
       modify (set_state 0);;
       modify (set_cursor (GOL_WIDTH / 2) (GOL_HEIGHT / 2));;
       on_cells gol_init_cells
     else mret tt
   else if key =? 113 (* q *) then modify (set_state 2)
   else mret tt) g.

(** One turn of the game loop once 50 ticks have passed; the key is what
    [keyboard_getch] returns, [None] is the end of the loop, [Some] the lines
    drawn. *)
Definition gol_tick (past ch : Z) : M gol (option (list (list Z))) :=
  gol_key_handler ch;;
  state ← gets gol_state;
  (if state =? 1 then on_cells (gol_update past) else mret tt);;
  if state =? 2 then mret None
  else
    g ← gets (λ g, g);
    mret (Some (gol_draw (gol_cells g) (gol_row g) (gol_column g))).

Definition gol_start : gol :=
  Gol (replicate (Z.to_nat GOL_CELLS) 0) (GOL_WIDTH / 2) (GOL_HEIGHT / 2) 0.

(** The turns for a sequence of keys, up to the end of the loop. *)
Fixpoint gol_play (past : Z) (keys : list Z) : M gol (list (list (list Z))) :=
  match keys with
  | [] => mret []
  | ch :: keys' =>
      r ← gol_tick past ch;
      match r with
      | None => mret []
      | Some frame => frames ← gol_play past keys'; mret (frame :: frames)
      end
  end.
