(* ===== verification/GameOfLifeCorrect.v ===== *)
(** * Correctness of the game of life

    A generation as the program computes it, with its two work lists, against
    the rule stated cell by cell, and against Conway's rule on the grid; the
    invariant of the game; what the keys can do outside the grid. *)

From S2P Require Import Prelude Arrays GameOfLife.

(** ** The rule *)

Fixpoint count_if {A} (p : A → bool) (l : list A) : Z :=
  match l with [] => 0 | x :: l' => (if p x then 1 else 0) + count_if p l' end.

(** A cell by its index in the array: rows follow each other, and the byte behind
    the array counts. *)
Definition alive (past : Z) (cells : list Z) (n : Z) : bool :=
  (0 <=? n) && (n <=? GOL_CELLS) && negb (read_cell past cells n =? 0).

Definition offsets : list Z := [-1; 1; -70; 70; -71; -69; 69; 71].

Definition neighbors (past : Z) (cells : list Z) (n : Z) : Z :=
  count_if (λ d, alive past cells (n + d)) offsets.

(** Who dies, who is born, and the value of a cell in the next generation. *)
Definition dies (past : Z) (cells : list Z) (n : Z) : bool :=
  negb (at_index cells n =? 0) && ((neighbors past cells n <? 2) || (neighbors past cells n >? 3)).
Definition born (past : Z) (cells : list Z) (n : Z) : bool :=
  (at_index cells n =? 0) && (neighbors past cells n =? 3).
Definition next_cell (past : Z) (cells : list Z) (n : Z) : Z :=
  if born past cells n then 1 else if dies past cells n then 0 else at_index cells n.

(** Conway's rule on the grid of 40 rows and 70 columns, all dead outside. *)
Definition grid (cells : list Z) (i j : Z) : bool :=
  (0 <=? i) && (i <? GOL_WIDTH) && (0 <=? j) && (j <? GOL_HEIGHT) &&
  negb (at_index cells (GOL_CI i j) =? 0).
Definition around : list (Z * Z) :=
  [(0, -1); (0, 1); (-1, 0); (1, 0); (-1, -1); (-1, 1); (1, -1); (1, 1)].
Definition conway (cells : list Z) (i j : Z) : bool :=
  let k := count_if (λ d, grid cells (i + fst d) (j + snd d)) around in
  if grid cells i j then (2 <=? k) && (k <=? 3) else k =? 3.

(** ** Lemmas *)

Lemma count_if_bounds {A} (p : A → bool) l : 0 ≤ count_if p l ≤ Z.of_nat (length l).
Proof. induction l as [|x l IH]; cbn [count_if length]; [lia|]. case_if; lia. Qed.

Lemma count_fold past cells l c :
  0 ≤ c → c + Z.of_nat (length l) < 256 → Forall (λ x, -60000 ≤ x < 10000) l →
  foldl (count_neighbor past cells) c (map u16 l) = c + count_if (alive past cells) l.
Proof.
  revert c. induction l as [|x l IH]; intros c Hc Hl Hx; cbn [map foldl count_if length] in *; [lia|].
  apply list.Forall_cons in Hx as [Hx Hxs].
  assert (count_neighbor past cells c (u16 x) = c + (if alive past cells x then 1 else 0)) as ->.
  { unfold count_neighbor, alive, GOL_CELLS, GOL_WIDTH, GOL_HEIGHT in *. destruct (Z.lt_ge_cases x 0).
    - replace (u16 x) with (x + 65536) by (unfold u16, wrap; zify_div).
      rewrite (proj2 (Z.leb_gt 0 x)) by lia. cbn [andb]. rewrite Z.gtb_ltb.
      rewrite (proj2 (Z.ltb_lt _ (x + 65536))) by lia. rewrite orb_true_r. lia.
    - rewrite u16_small by lia. rewrite (proj2 (Z.leb_le 0 x)), (proj2 (Z.ltb_ge x 0)) by lia.
      cbn [orb andb]. rewrite Z.gtb_ltb. destruct (Z.le_gt_cases x (40 * 70)).
      + rewrite (proj2 (Z.ltb_ge _ x)), (proj2 (Z.leb_le x _)) by lia. cbn [andb].
        case_if; [rewrite u8_small by lia|]; lia.
      + rewrite (proj2 (Z.ltb_lt _ x)), (proj2 (Z.leb_gt x _)) by lia. cbn [andb]. lia. }
  rewrite IH; [|case_if; lia|case_if; lia|done]. lia.
Qed.

Lemma alive_neighbors past cells i j : 0 ≤ i < GOL_WIDTH → 0 ≤ j < GOL_HEIGHT →
  gol_get_alive_neighbors past cells i j = neighbors past cells (GOL_CI i j).
Proof.
  unfold GOL_WIDTH, GOL_HEIGHT. intros Hi Hj. unfold gol_get_alive_neighbors, neighbor_indices.
  rewrite count_fold; [|lia|cbn; lia|].
  - unfold neighbors, offsets. cbn [count_if]. unfold GOL_CI, GOL_HEIGHT.
    repeat match goal with |- context [alive past cells (i * 70 + j + ?d)] =>
      replace (i * 70 + j + d) with (i * 70 + (j + d)) by lia end.
    replace (i * 70 + (j - 1)) with (i * 70 + (j + -1)) by lia.
    replace ((i - 1) * 70 + j) with (i * 70 + (j + -70)) by lia.
    replace ((i + 1) * 70 + j) with (i * 70 + (j + 70)) by lia.
    replace ((i - 1) * 70 + (j - 1)) with (i * 70 + (j + -71)) by lia.
    replace ((i - 1) * 70 + (j + 1)) with (i * 70 + (j + -69)) by lia.
    replace ((i + 1) * 70 + (j - 1)) with (i * 70 + (j + 69)) by lia.
    replace ((i + 1) * 70 + (j + 1)) with (i * 70 + (j + 71)) by lia. lia.
  - unfold GOL_HEIGHT. repeat constructor; lia.
Qed.

(** *** Marking *)

(** A work list holds what was chosen among the first [k] cells. *)
Definition chosen (p : Z → bool) (k : Z) : list Z := base.filter (λ n, p n = true) (seqZ 0 k).

Record listed (p : Z → bool) (k : Z) (a : list Z) (inx : Z) : Prop := {
  li_length : length a = Z.to_nat GOL_CELLS;
  li_count : inx = Z.of_nat (length (chosen p k));
  li_items : take (Z.to_nat inx) a = chosen p k;
}.

Lemma chosen_succ p k : 0 ≤ k → chosen p (k + 1) = chosen p k ++ (if p k then [k] else []).
Proof.
  intros Hk. unfold chosen. rewrite seqZ_app by lia. rewrite list.filter_app. f_equal.
  rewrite seqZ_cons by lia. rewrite list.filter_cons, Z.add_0_l. change (seqZ _ (Z.pred 1)) with (@nil Z).
  destruct (p k) eqn:E; by case_decide.
Qed.

Lemma chosen_length p k : 0 ≤ k → Z.of_nat (length (chosen p k)) ≤ k.
Proof.
  intros Hk. unfold chosen. pose proof (list.length_filter (λ n, p n = true) (seqZ 0 k)) as H.
  rewrite length_seqZ in H. lia.
Qed.

Lemma listed_skip p k a inx : 0 ≤ k → p k = false → listed p k a inx → listed p (k + 1) a inx.
Proof. intros Hk Hp [H1 H2 H3]. split; [done|..]; by rewrite chosen_succ, Hp, app_nil_r. Qed.

Lemma listed_add p k a inx : 0 ≤ k < GOL_CELLS → p k = true → listed p k a inx →
  0 ≤ inx < GOL_CELLS ∧ listed p (k + 1) (<[Z.to_nat inx := k]> a) (inx + 1).
Proof.
  intros Hk Hp [H1 H2 H3]. pose proof (chosen_length p k).
  unfold GOL_CELLS, GOL_WIDTH, GOL_HEIGHT in *. split; [lia|]. split.
  - by rewrite length_insert.
  - rewrite chosen_succ, Hp, length_app by lia. cbn. lia.
  - rewrite chosen_succ, Hp by lia. replace (Z.to_nat (inx + 1)) with (S (Z.to_nat inx)) by lia.
    rewrite (take_S_r _ _ k) by (apply list_lookup_insert_eq; lia).
    by rewrite take_insert_ge, H3 by lia.
Qed.

Section update.
Context (past : Z) (cells : list Z) (Hlen : length cells = Z.to_nat GOL_CELLS).

Definition marked (k : Z) (m : marks) : Prop :=
  listed (dies past cells) k (toBeKilled m) (inx1 m) ∧
  listed (born past cells) k (toBeRevived m) (inx2 m).

Lemma mark_cell_ok i j m : 0 ≤ i < GOL_WIDTH → 0 ≤ j < GOL_HEIGHT → marked (GOL_CI i j) m →
  runs (mark_cell past cells i j) m (λ _ m', marked (GOL_CI i j + 1) m').
Proof.
  intros Hi Hj [Hd Hb]. unfold mark_cell.
  assert (0 ≤ GOL_CI i j < GOL_CELLS) as Hn.
  { unfold GOL_CI, GOL_CELLS, GOL_WIDTH, GOL_HEIGHT in *. lia. }
  assert (GOL_CELLS = 2800) as EC by done.
  rewrite u16_small by lia. rewrite (u8_small i), (u8_small j) by (unfold GOL_WIDTH, GOL_HEIGHT in *; lia).
  rewrite alive_neighbors by done. set (n := GOL_CI i j) in *.
  assert (runs (mret tt) m (λ _ m', dies past cells n = false → born past cells n = false →
    marked (n + 1) m')) as Hskip.
  { intros D B. split; by apply listed_skip; [lia|..]. }
  destruct (at_index cells n =? 0) eqn:E0; cbn [negb].
  - assert (dies past cells n = false) as D by (unfold dies; by rewrite E0).
    destruct (neighbors past cells n =? 3) eqn:E.
    + assert (born past cells n = true) as B by (unfold born; by rewrite E0).
      destruct (listed_add _ _ _ _ Hn B Hb) as [Hk Hb'].
      apply runs_bind. eapply runs_ok; [reflexivity|]. apply runs_bind.
      eapply runs_ok; [apply put_at_ok; rewrite (li_length _ _ _ _ Hb); lia|].
      eapply runs_ok; [reflexivity|]. rewrite u16_small by lia.
      split; [by apply listed_skip; [lia|..]|done].
    + apply Hskip; [done|]. unfold born. by rewrite E0.
  - assert (born past cells n = false) as B by (unfold born; by rewrite E0).
    destruct ((neighbors past cells n <? 2) || (neighbors past cells n >? 3)) eqn:E.
    + assert (dies past cells n = true) as D by (unfold dies; by rewrite E0).
      destruct (listed_add _ _ _ _ Hn D Hd) as [Hk Hd'].
      apply runs_bind. eapply runs_ok; [reflexivity|]. apply runs_bind.
      eapply runs_ok; [apply put_at_ok; rewrite (li_length _ _ _ _ Hd); lia|].
      eapply runs_ok; [reflexivity|]. rewrite u16_small by lia.
      split; [done|by apply listed_skip; [lia|..]].
    + apply Hskip; [|done]. unfold dies. by rewrite E0.
Qed.

Lemma mark_cells_ok : runs (mark_cells past cells) no_marks (λ _ m, marked GOL_CELLS m).
Proof.
  unfold mark_cells. apply (runs_for_range GOL_WIDTH _ (λ i m, marked (i * GOL_HEIGHT) m)); [done| |].
  - intros i m Hi H. replace ((i + 1) * GOL_HEIGHT) with (i * GOL_HEIGHT + GOL_HEIGHT) by lia.
    apply (runs_for_range GOL_HEIGHT _ (λ j m, marked (i * GOL_HEIGHT + j) m)); [done| |by rewrite Z.add_0_r].
    intros j m' Hj H'. rewrite Z.add_assoc. by apply mark_cell_ok.
  - unfold no_marks. split; split; cbn; by rewrite ?length_replicate.
Qed.

(** *** Writing *)

(** The cells at the listed places get a value. *)
Lemma write_marks_ok p a inx v c : listed p GOL_CELLS a inx → length c = Z.to_nat GOL_CELLS →
  runs (for_each (seqZ 0 inx) (λ i, put_cell (at_index a i) v)) c (λ _ c',
    length c' = length c ∧
    ∀ n, 0 ≤ n < GOL_CELLS → at_index c' n = if p n then v else at_index c n).
Proof.
  intros [Hl Hc Ht] Hlc. eapply runs_mono.
  { apply (runs_for_range inx _ (λ i c', length c' = length c ∧ ∀ n, 0 ≤ n →
      at_index c' n = if decide (n ∈ take (Z.to_nat i) (chosen p GOL_CELLS)) then v else at_index c n)).
    - lia.
    - intros i c' Hi [Hl' H'].
      destruct (lookup_lt_is_Some_2 (chosen p GOL_CELLS) (Z.to_nat i)) as [x Hx]; [lia|].
      assert (at_index a i = x) as ->.
      { unfold at_index. rewrite nth_lookup. rewrite <- Ht, lookup_take_lt in Hx by lia. by rewrite Hx. }
      assert (0 ≤ x < GOL_CELLS) as Hrange.
      { apply list_elem_of_lookup_2, list_elem_of_filter in Hx as [_ Hx]. apply elem_of_seqZ in Hx. lia. }
      eapply runs_ok; [apply put_at_ok; cbn; unfold GOL_CELLS, GOL_WIDTH, GOL_HEIGHT in *; lia|].
      split; [by rewrite length_insert|]. intros n Hn.
      rewrite at_index_insert by (unfold GOL_CELLS, GOL_WIDTH, GOL_HEIGHT in *; lia). rewrite H' by lia.
      replace (Z.to_nat (i + 1)) with (S (Z.to_nat i)) by lia. rewrite (take_S_r _ _ x) by done.
      repeat case_decide; set_solver.
    - split; [done|]. intros n Hn. rewrite decide_False; [done|]. cbn. set_solver. }
  cbn beta. intros _ c' [Hl' H']. split; [done|]. intros n Hn. rewrite H' by lia.
  rewrite take_ge by lia. destruct (p n) eqn:E.
  - rewrite decide_True; [done|]. apply list_elem_of_filter. split; [done|]. apply elem_of_seqZ. lia.
  - rewrite decide_False; [done|]. intros [Hp _]%list_elem_of_filter. congruence.
Qed.

Lemma gol_update_ok : runs (gol_update past) cells (λ _ c',
  length c' = Z.to_nat GOL_CELLS ∧
  ∀ n, 0 ≤ n < GOL_CELLS → at_index c' n = next_cell past cells n).
Proof.
  destruct (runs_inv _ _ _ mark_cells_ok) as (u & m & Hm & Hd & Hb).
  unfold runs at 1, gol_update. rewrite Hm. cbn [bind_result snd].
  change (runs (for_each (seqZ 0 (inx1 m)) (λ i, put_cell (at_index (toBeKilled m) i) 0);;
    for_each (seqZ 0 (inx2 m)) (λ i, put_cell (at_index (toBeRevived m) i) 1)) cells (λ _ c',
    length c' = Z.to_nat GOL_CELLS ∧
    ∀ n, 0 ≤ n < GOL_CELLS → at_index c' n = next_cell past cells n)).
  apply runs_bind. eapply runs_mono; [by apply (write_marks_ok (dies past cells))|]. cbn beta.
  intros _ c1 [L1 H1]. eapply runs_mono; [apply (write_marks_ok (born past cells)); [done|congruence]|].
  cbn beta. intros _ c2 [L2 H2]. split; [congruence|]. intros n Hn.
  rewrite H2, H1 by done. unfold next_cell. done.
Qed.

End update.

Lemma gol_init_cells_ok c : length c = Z.to_nat GOL_CELLS →
  runs gol_init_cells c (λ _ c', c' = replicate (Z.to_nat GOL_CELLS) 0).
Proof.
  intros Hl. eapply runs_mono.
  { apply (runs_for_range GOL_CELLS _ (λ i c', length c' = Z.to_nat GOL_CELLS ∧
      ∀ k, 0 ≤ k < i → at_index c' k = 0)); [done| |split; [done|lia]].
    intros i c' Hi [Hl' H']. assert (Z.of_nat (length c') = GOL_CELLS) as E by (rewrite Hl'; done).
    eapply runs_ok; [apply put_at_ok; lia|]. split; [by rewrite length_insert|].
    intros k Hk. rewrite at_index_insert by lia. case_decide; [done|]. apply H'. lia. }
  cbn beta. intros _ c' [Hl' H']. rewrite (list_by_index c' (λ _, 0) GOL_CELLS) by done.
  vm_compute. reflexivity.
Qed.

(** *** Rows and columns *)

(** Away from the left and right edge, a neighbour by index is a neighbour on the
    grid. *)
Lemma alive_grid past cells i j di dj : length cells = Z.to_nat GOL_CELLS →
  0 ≤ i < GOL_WIDTH → 1 ≤ j ≤ GOL_HEIGHT - 2 → (i ≠ GOL_WIDTH - 1 ∨ j ≠ 1) →
  -1 ≤ di ≤ 1 → -1 ≤ dj ≤ 1 →
  alive past cells (GOL_CI i j + (di * GOL_HEIGHT + dj)) = grid cells (i + di) (j + dj).
Proof.
  intros Hl Hi Hj Hne Hdi Hdj. unfold alive, grid, read_cell, GOL_CI, GOL_CELLS in *.
  change GOL_WIDTH with 40 in *. change GOL_HEIGHT with 70 in *.
  replace (i * 70 + j + (di * 70 + dj)) with ((i + di) * 70 + (j + dj)) by lia.
  set (a := i + di) in *. set (b := j + dj) in *.
  rewrite (proj2 (Z.leb_le 0 b)), (proj2 (Z.ltb_lt b 70)) by lia.
  destruct (Z.lt_ge_cases a 0); [by rewrite !(proj2 (Z.leb_gt 0 _)) by lia|].
  rewrite !(proj2 (Z.leb_le 0 _)) by lia. cbn [andb]. destruct (Z.lt_ge_cases a 40).
  - rewrite (proj2 (Z.ltb_lt a 40)), (proj2 (Z.leb_le _ (40 * 70))) by lia. cbn [andb].
    by rewrite (proj2 (Z.eqb_neq _ (40 * 70))) by lia.
  - rewrite (proj2 (Z.ltb_ge a 40)), (proj2 (Z.leb_gt _ (40 * 70))) by lia. done.
Qed.

Lemma neighbors_grid past cells i j : length cells = Z.to_nat GOL_CELLS →
  0 ≤ i < GOL_WIDTH → 1 ≤ j ≤ GOL_HEIGHT - 2 → (i ≠ GOL_WIDTH - 1 ∨ j ≠ 1) →
  neighbors past cells (GOL_CI i j) = count_if (λ d, grid cells (i + fst d) (j + snd d)) around.
Proof.
  intros Hl Hi Hj Hne. unfold neighbors, offsets, around. cbn [count_if fst snd].
  rewrite <- !(alive_grid past cells i j) by (done || lia). done.
Qed.

(** ** Theorems *)

(** A generation: on every grid [gol_update] returns, and the array it
    leaves is the next generation, cell by cell.  Marking who dies and who is born
    in two lists and writing them afterwards is the simultaneous rule. *)
Theorem gol_update_correct (past : Z) (cells : list Z) :
  length cells = Z.to_nat GOL_CELLS →
  runs (gol_update past) cells (λ _ cells',
    cells' = map (next_cell past cells) (seqZ 0 GOL_CELLS)).
Proof.
  intros Hl. eapply runs_mono; [by apply gol_update_ok|]. cbn beta.
  intros _ c' [Hl' H]. by apply list_by_index.
Qed.

(** [C32] It is Conway's rule on the grid, for every cell that is not in the first
    or last column and is not the second cell of the last row. *)
Theorem gol_update_conway (past : Z) (cells : list Z) (i j : Z) :
  length cells = Z.to_nat GOL_CELLS → 0 ≤ i < GOL_WIDTH → 1 ≤ j ≤ GOL_HEIGHT - 2 →
  (i ≠ GOL_WIDTH - 1 ∨ j ≠ 1) →
  runs (gol_update past) cells (λ _ cells', grid cells' i j = conway cells i j).
Proof.
  intros Hl Hi Hj Hne. eapply runs_mono; [by apply gol_update_ok|]. cbn beta.
  intros _ c' [Hl' H]. unfold conway. rewrite <- (neighbors_grid past) by done.
  assert (0 ≤ GOL_CI i j < GOL_CELLS) as Hn by (unfold GOL_CI, GOL_CELLS, GOL_WIDTH, GOL_HEIGHT in *; lia).
  assert (∀ c, grid c i j = negb (at_index c (GOL_CI i j) =? 0)) as Hg.
  { intros c. unfold grid. rewrite !(proj2 (Z.leb_le 0 _)), !(proj2 (Z.ltb_lt _ _)) by lia. done. }
  rewrite !Hg, H by done. unfold next_cell, born, dies. set (k := neighbors past cells (GOL_CI i j)).
  destruct (at_index cells (GOL_CI i j) =? 0) eqn:E; cbn [negb andb].
  - destruct (k =? 3); cbn; [done|by rewrite E].
  - rewrite Z.gtb_ltb. destruct (k <? 2) eqn:E2, (3 <? k) eqn:E3; cbn [orb Z.eqb negb];
      rewrite ?E; cbn [negb]; bool_to_prop; symmetry.
    1,2,3: apply andb_false_iff; rewrite !Z.leb_gt; lia.
    apply andb_true_iff. rewrite !Z.leb_le. lia.
Qed.

(** The state of the game: 2800 cells, each dead (0) or alive (1), a cursor of
    two bytes, one of three modes. *)
Record gol_ok (g : gol) : Prop := {
  go_length : length (gol_cells g) = Z.to_nat GOL_CELLS;
  go_cells : Forall (λ c, c = 0 ∨ c = 1) (gol_cells g);
  go_row : 0 ≤ gol_row g < 256;
  go_column : 0 ≤ gol_column g < 256;
  go_state : 0 ≤ gol_state g ≤ 2;
}.

Lemma at_index_01 l n : Forall (λ c, c = 0 ∨ c = 1) l → at_index l n = 0 ∨ at_index l n = 1.
Proof.
  intros H. unfold at_index. rewrite nth_lookup. destruct (l !! Z.to_nat n) as [c|] eqn:E; [|by left].
  cbn. by apply (list.Forall_lookup_1 _ _ _ _ H E).
Qed.

Lemma insert_01 l (i : nat) v : Forall (λ c, c = 0 ∨ c = 1) l → v = 0 ∨ v = 1 →
  Forall (λ c, c = 0 ∨ c = 1) (<[i := v]> l).
Proof. intros. by apply list.Forall_insert. Qed.

(** A key keeps the state in order, unless it toggles a cell outside the grid. *)
Lemma gol_key_ok ch g : gol_ok g →
  match gol_key_handler ch g with
  | Ok (_, g') => gol_ok g'
  | Fault => u8 ch = 101 ∧ GOL_CELLS ≤ GOL_CI (gol_row g) (gol_column g)
  | _ => False
  end.
Proof.
  destruct g as [cells row column state]. intros [Hl Hc Hr Hcol Hs]. cbn in Hl, Hc, Hr, Hcol, Hs.
  unfold gol_key_handler. generalize (u8 ch) as key. intros key.
  pose proof (u8_range (row - 1)). pose proof (u8_range (row + 1)).
  pose proof (u8_range (column - 1)). pose proof (u8_range (column + 1)).
  destruct (key =? 119); [by split; cbn; try done; case_if; unfold GOL_WIDTH in *; lia|].
  destruct (key =? 115); [by split; cbn; try done; case_if; lia|].
  destruct (key =? 97); [by split; cbn; try done; case_if; lia|].
  destruct (key =? 100); [by split; cbn; try done; case_if; unfold GOL_HEIGHT in *; lia|].
  destruct (key =? 101) eqn:Ee.
  { bool_to_prop. unfold on_cells, zoom, put_cell, put_at. cbn [gol_cells]. rewrite Hl.
    rewrite (proj2 (Z.leb_le _ _)) by (unfold GOL_CI, GOL_HEIGHT; lia). cbn [andb]. case_if.
    - cbn. split; cbn; try done; [by rewrite length_insert|]. apply insert_01; [done|]. case_if; auto.
    - cbn. split; [done|]. done. }
  destruct (key =? 102).
  { destruct (state =? 0); [by split; cbn; try done; lia|].
    destruct (state =? 1); [|by split].
    unfold mbind, M_bind, modify. cbn [bind_result fst snd set_state set_cursor gol_cells gol_row gol_column gol_state].
    unfold on_cells, zoom. cbn [gol_cells set_cursor set_state].
    destruct (runs_inv _ _ _ (gol_init_cells_ok cells Hl)) as (u & c' & -> & ->).
    cbn [bind_result fst snd set_cells]. split; cbn [gol_cells gol_row gol_column gol_state]; try done; try lia.
    - by apply Forall_replicate; left. }
  destruct (key =? 113); by split; cbn; try done; lia.
Qed.

(** [C33] The type invariant of the game: whatever key a turn reads, the turn
    returns with 2800 cells that are each 0 or 1, a cursor of two bytes and a mode
    below 3; the only other outcome is a fault, when the key toggles the cell
    under a cursor that has left the grid. *)
Theorem gol_tick_invariant (past ch : Z) (g : gol) : gol_ok g →
  match gol_tick past ch g with
  | Ok (r, g') => gol_ok g' ∧ (r = None ↔ gol_state g' = 2)
  | Fault => u8 ch = 101 ∧ GOL_CELLS ≤ GOL_CI (gol_row g) (gol_column g)
  | _ => False
  end.
Proof.
  intros H. pose proof (gol_key_ok ch g H) as Hk. unfold gol_tick. unfold mbind at 1, M_bind at 1.
  destruct (gol_key_handler ch g) as [[u g1]| | |]; cbn [bind_result fst snd]; try done.
  unfold mbind at 1, M_bind at 1, gets at 1. cbn [bind_result fst snd].
  unfold mbind at 1, M_bind at 1. destruct (gol_state g1 =? 1) eqn:E1; bool_to_prop.
  - unfold on_cells, zoom.
    destruct (runs_inv _ _ _ (gol_update_ok past (gol_cells g1) (go_length _ Hk))) as (v & c' & -> & Hl & Hc).
    cbn [bind_result fst snd]. rewrite E1. change (1 =? 2) with false. cbv iota.
    unfold mbind, M_bind, gets, mret, M_ret. cbn [bind_result fst snd]. split; [|cbn [set_cells gol_state]; split; [done|lia]].
    destruct Hk. split; cbn; try done. apply list.Forall_lookup_2. intros i x Hx.
    specialize (Hc (Z.of_nat i)). unfold at_index in Hc. rewrite Nat2Z.id, nth_lookup, Hx in Hc. cbn in Hc.
    apply lookup_lt_Some in Hx. rewrite Hc by lia. unfold next_cell. repeat case_if; auto.
    by apply at_index_01.
  - cbn [mret M_ret bind_result fst snd]. unfold mbind, M_bind, gets, mret, M_ret.
    destruct (gol_state g1 =? 2) eqn:E2; bool_to_prop; cbn [bind_result fst snd]; done.
Qed.

(** The cursor is not kept on the grid: from the start of the game, twenty
    steps down and a toggle write behind the array of cells. *)
Theorem gol_cursor_leaves_grid (past : Z) :
  gol_play past (replicate 20 115 ++ [101]) gol_start = Fault.
Proof. vm_compute. reflexivity. Qed.

(** ** Instances *)

(** A blinker in the middle of an empty grid. *)
Definition blinker : list Z :=
  <[Z.to_nat (GOL_CI 20 30) := 1]> (<[Z.to_nat (GOL_CI 20 31) := 1]>
    (<[Z.to_nat (GOL_CI 20 32) := 1]> (replicate 2800 0))).

Lemma blinker_length : length blinker = Z.to_nat GOL_CELLS.
Proof. vm_compute. reflexivity. Qed.

Lemma gol_update_correct_witness :
  runs (gol_update 0) blinker (λ _ cells',
    cells' = map (next_cell 0 blinker) (seqZ 0 GOL_CELLS)).
Proof. exact (gol_update_correct 0 blinker blinker_length). Defined.

Lemma gol_update_conway_witness :
  runs (gol_update 0) blinker (λ _ cells', grid cells' 19 31 = conway blinker 19 31).
Proof.
  apply (gol_update_conway 0 blinker 19 31 blinker_length); unfold GOL_WIDTH, GOL_HEIGHT; lia.
Defined.

Lemma gol_tick_invariant_witness :
  match gol_tick 0 102 (Gol blinker 20 30 0) with
  | Ok (r, g') => gol_ok g' ∧ (r = None ↔ gol_state g' = 2)
  | Fault => u8 102 = 101 ∧ GOL_CELLS ≤ GOL_CI 20 30
  | _ => False
  end.
Proof.
  apply (gol_tick_invariant 0 102 (Gol blinker 20 30 0)).
  split; [exact blinker_length| |cbn; lia..].
  repeat apply insert_01; auto. by apply Forall_replicate; left.
Defined.
