(* ===== verification/Snake.v ===== *)
(** * [src/programs/snake/snake.c] and [snake.h]

    The board as an array of cell types, the snake as an array of positions with
    the index of its head, the random numbers, the step and the keys. *)

From S2P Require Import Prelude Arrays.

Definition SNAKE_WIDTH : Z := 70.
Definition SNAKE_HEIGHT : Z := 40.
Definition SNAKE_MAX_SIZE : Z := SNAKE_WIDTH * SNAKE_HEIGHT.
Definition SNAKE_BORDER : Z := 42.
Definition SNAKE_EMPTY : Z := 32.
Definition SNAKE_BLOCK : Z := 35.
Definition SNAKE_HEAD : Z := 64.
Definition SNAKE_BODY : Z := 42.
Definition SNAKE_FRUIT : Z := 36.

Definition SNAKE_CI (i j : Z) : Z := i * SNAKE_WIDTH + j.

(** [enum cell_type], as the numbers the board holds *)
Definition Empty : Z := 0.
Definition Block : Z := 1.
Definition Snake_Body : Z := 2.
Definition Snake_Head : Z := 3.
Definition Fruit : Z := 4.

Inductive snake_dir := Up | Down | Right | Left | Stop.
#[global] Instance snake_dir_eq_dec : EqDecision snake_dir.
Proof. solve_decision. Defined.

Record game := Game {
  cells : list Z;
  snake : list Z;
  direction : snake_dir;
  state : Z;              (* 0: menu, 1: run, 2: quit *)
  head : Z;
  fruit : Z;
  seed : Z;               (* the static variable of [snake_rand] *)
}.

Definition set_cells (x : list Z) (g : game) : game :=
  Game x (snake g) (direction g) (state g) (head g) (fruit g) (seed g).
Definition set_snake (x : list Z) (g : game) : game :=
  Game (cells g) x (direction g) (state g) (head g) (fruit g) (seed g).
Definition set_direction (x : snake_dir) (g : game) : game :=
  Game (cells g) (snake g) x (state g) (head g) (fruit g) (seed g).
Definition set_state (x : Z) (g : game) : game :=
  Game (cells g) (snake g) (direction g) x (head g) (fruit g) (seed g).
Definition set_head (x : Z) (g : game) : game :=
  Game (cells g) (snake g) (direction g) (state g) x (fruit g) (seed g).
Definition set_fruit (x : Z) (g : game) : game :=
  Game (cells g) (snake g) (direction g) (state g) (head g) x (seed g).
Definition set_seed (x : Z) (g : game) : game :=
  Game (cells g) (snake g) (direction g) (state g) (head g) (fruit g) x.

Definition get_cell (i : Z) : M game Z := get_at cells i.
Definition put_cell (i v : Z) : M game unit := put_at cells set_cells i v.
Definition get_snake (i : Z) : M game Z := get_at snake i.
Definition put_snake (i v : Z) : M game unit := put_at snake set_snake i v.

(** ** Random numbers *)

(** The seed has 16 bits, so that of the product only the low 16 bits are kept. *)
Definition snake_rand (min max : Z) : M game Z :=
  s ← gets seed;
  let s := u16 (Z.land (s * 1103515245 + 12345) 0x7fffffff) in
  modify (set_seed s);;
  mret (s16 (min + s mod (max - min + 1))).

Definition snake_new_fruit_pos : M game Z :=
  i ← snake_rand 1 (SNAKE_HEIGHT - 1);
  j ← snake_rand 1 (SNAKE_WIDTH - 1);
  mret (s16 (i * SNAKE_WIDTH + j)).

(** ** Start *)

Definition snake_init_cells : M game unit :=
  for_each (seqZ 0 (SNAKE_WIDTH * SNAKE_HEIGHT)) (λ i, put_cell i Empty);;
  put_cell (SNAKE_HEIGHT * SNAKE_WIDTH / 2 - 10) Snake_Head;;
  put_cell 1010 Fruit.

Definition snake_init_snake : M game unit :=
  for_each (seqZ 0 SNAKE_MAX_SIZE) (λ i, put_snake i 0);;
  put_snake 0 (SNAKE_HEIGHT * SNAKE_WIDTH / 2 - 10).

Definition snake_restart : M game unit :=
  modify (set_state 0);;
  snake_init_snake;;
  snake_init_cells;;
  modify (set_head 0);;
  modify (set_direction Stop);;
  modify (set_fruit 1010).

(** ** Drawing *)

(** The character for a cell; a value that is no cell type leaves what the line
    held. *)
Definition snake_char (board : list Z) (old i j : Z) : Z :=
  if (i =? 0) || (i =? SNAKE_HEIGHT - 1) || (j =? 0) || (j =? SNAKE_WIDTH - 1) then SNAKE_BORDER
  else
    let c := at_index board (s16 (SNAKE_CI i j)) in
    if c =? Empty then SNAKE_EMPTY
    else if c =? Block then SNAKE_BLOCK
    else if c =? Snake_Head then SNAKE_HEAD
    else if c =? Snake_Body then SNAKE_BODY
    else if c =? Fruit then SNAKE_FRUIT
    else old.

(** The lines handed to [kprintf]; [line] is reused from row to row. *)
Fixpoint draw_rows (board line rows : list Z) : list (list Z) :=
  match rows with
  | [] => []
  | i :: rows' =>
      let line' := map (λ j, snake_char board (at_index line j) i j) (seqZ 0 SNAKE_WIDTH) in
      (line' ++ [10]) :: draw_rows board line' rows'
  end.
Definition snake_draw (board : list Z) : list (list Z) :=
  draw_rows board (replicate (Z.to_nat SNAKE_WIDTH) 0) (seqZ 0 SNAKE_HEIGHT).

(** ** A step *)

(** [while (h > 0) { h -= 70; i++; }] *)
Definition row_round {S} (v : Z * Z) : M S ((Z * Z) + (Z * Z)) :=
  let '(h, i) := v in
  if h >? 0 then mret (inl (s16 (h - 70), s16 (i + 1))) else mret (inr (h, i)).

Definition snake_cal_next (dir : snake_dir) : M game Z :=
  hd ← gets head;
  h ← get_snake hd;
  r ← loop row_round (h, 0);
  let i := s16 (snd r - 1) in
  let j := s16 (fst r + SNAKE_WIDTH) in
  mret (match dir with
  | Left => let j := if j - 1 <? 0 then SNAKE_WIDTH else j in s16 (i * SNAKE_WIDTH + j - 1)
  | Right => let j := if j + 1 >? SNAKE_WIDTH then 0 else j in s16 (i * SNAKE_WIDTH + j + 1)
  | Up => let i := if i - 1 <? 0 then SNAKE_HEIGHT else i in s16 ((i - 1) * SNAKE_WIDTH + j)
  | Down => let i := if i + 1 >? SNAKE_HEIGHT then 0 else i in s16 ((i + 1) * SNAKE_WIDTH + j)
  | Stop => 0
  end).

(** [while (h < *head) { snake[h] = snake[h+1]; h += 1; }] *)
Definition shift_round (h : Z) : M game (Z + unit) :=
  hd ← gets head;
  if h <? hd then
    x ← get_snake (h + 1);
    put_snake h x;;
    mret (inl (s16 (h + 1)))
  else mret (inr tt).

(** The new snake: restart, growth or a move. *)
Definition snake_move (next_cell : Z) : M game unit :=
  c ← get_cell next_cell;
  if (c =? Snake_Body) || (c =? Block) then snake_restart
  else if c =? Fruit then
    p ← snake_new_fruit_pos;
    modify (set_fruit p);;
    hd ← gets head;
    modify (set_head (s16 (hd + 1)));;
    hd ← gets head;
    put_snake hd next_cell
  else
    loop shift_round 0;;
    hd ← gets head;
    put_snake hd next_cell.

(** The board is painted anew. *)
Definition snake_paint : M game unit :=
  for_each (seqZ 0 (SNAKE_HEIGHT * SNAKE_WIDTH)) (λ i, put_cell i Empty);;
  hd ← gets head;
  for_each (seqZ 0 hd) (λ i, index ← get_snake i; put_cell index Snake_Body);;
  index ← get_snake hd;
  put_cell index Snake_Head;;
  f ← gets fruit;
  put_cell f Fruit.

Definition snake_update : M game unit :=
  dir ← gets direction;
  next_cell ← snake_cal_next dir;
  snake_move next_cell;;
  snake_paint.

(** ** Keys and the game loop *)

Definition turn (new opposite : snake_dir) : M game unit :=
  dir ← gets direction;
  if decide (dir = opposite) then mret tt else modify (set_direction new).

Definition snake_key_handler (ch : Z) : M game unit :=
  let key := u8 ch in
  if key =? 119 (* w *) then turn Up Down
  else if key =? 115 (* s *) then turn Down Up
  else if key =? 97 (* a *) then turn Left Right
  else if key =? 100 (* d *) then turn Right Left
  else if key =? 102 (* f *) then
    st ← gets state;
    if st =? 0 then modify (set_state 1);; modify (set_direction Up)
    else if st =? 1 then snake_restart
    else mret tt
  else if key =? 113 (* q *) then modify (set_state 2)
  else mret tt.

(** One turn of the game loop once 70 ticks have passed: [None] is the end of the
    loop, [Some] the lines drawn. *)
Definition snake_tick (ch : Z) : M game (option (list (list Z))) :=
  snake_key_handler ch;;
  st ← gets state;
  (if st =? 1 then snake_update else mret tt);;
  if st =? 2 then mret None
  else board ← gets cells; mret (Some (snake_draw board)).

(** The locals of [snake_game_loop] before its initialisation, and the
    initialisation. *)
Definition zero_game (s : Z) : game :=
  Game (replicate (Z.to_nat SNAKE_MAX_SIZE) 0) (replicate (Z.to_nat SNAKE_MAX_SIZE) 0) Up 0 0 1010 s.
Definition snake_start : M game unit :=
  snake_init_snake;;
  snake_init_cells;;
  f ← gets fruit;
  put_cell f Fruit.

(** The turns for a sequence of keys, up to the end of the loop. *)
Fixpoint snake_play (keys : list Z) : M game (list (list (list Z))) :=
  match keys with
  | [] => mret []
  | ch :: keys' =>
      r ← snake_tick ch;
      match r with
      | None => mret []
      | Some frame => frames ← snake_play keys'; mret (frame :: frames)
      end
  end.
