(* ===== verification/SnakeCorrect.v ===== *)
(** * Correctness of the snake game

    The arrays and indices of the program against the game they stand for: a list
    of positions from the tail to the head, a fruit, and a board that shows them. *)

From S2P Require Import Prelude Arrays Snake.

(** ** The game *)

(** The positions of the snake, the head last. *)
Definition segments (g : game) : list Z := map (at_index (snake g)) (seqZ 0 (head g + 1)).
Definition body (g : game) : list Z := map (at_index (snake g)) (seqZ 0 (head g)).
Definition head_pos (g : game) : Z := at_index (snake g) (head g).

(** What the board shows at a place. *)
Definition picture (g : game) (n : Z) : Z :=
  if n =? fruit g then Fruit
  else if n =? head_pos g then Snake_Head
  else if decide (n ∈ body g) then Snake_Body
  else Empty.

Definition on_board (n : Z) : Prop := 0 ≤ n < SNAKE_MAX_SIZE.

(** The place the head moves to, in terms of the index of its place. *)
Definition step_from (dir : snake_dir) (h : Z) : Z :=
  match dir with
  | Left => h - 1
  | Right => if h mod SNAKE_WIDTH =? 0 then h - (SNAKE_WIDTH - 1) else h + 1
  | Up => if h =? 0 then SNAKE_MAX_SIZE
          else if h <=? SNAKE_WIDTH then h + (SNAKE_MAX_SIZE - SNAKE_WIDTH) else h - SNAKE_WIDTH
  | Down => h + SNAKE_WIDTH
  | Stop => 0
  end.

(** The place where a game starts, and the first fruit. *)
Definition start_pos : Z := 1390.
Definition first_fruit : Z := 1010.

Record snake_ok (g : game) : Prop := {
  so_cells : length (cells g) = Z.to_nat SNAKE_MAX_SIZE;
  so_snake : length (snake g) = Z.to_nat SNAKE_MAX_SIZE;
  so_head : on_board (head g);
  so_segments : ∀ k, 0 ≤ k ≤ head g → on_board (at_index (snake g) k);
  so_fruit : on_board (fruit g);
  so_seed : 0 ≤ seed g < 65536;
  so_state : 0 ≤ state g ≤ 2;
  so_board : ∀ n, on_board n → at_index (cells g) n = picture g n;
}.

(** ** Lemmas *)

Lemma s16_small x : -32768 ≤ x < 32768 → s16 x = x.
Proof. by apply (swrap_small 16). Qed.

Ltac board := unfold on_board, SNAKE_MAX_SIZE, SNAKE_WIDTH, SNAKE_HEIGHT in *.

(** *** Random numbers *)

Lemma snake_rand_ok lo hi g : 0 ≤ lo ≤ hi → hi < 1000 →
  runs (snake_rand lo hi) g (λ r g', lo ≤ r ≤ hi ∧ ∃ s, g' = set_seed s g ∧ 0 ≤ s < 65536).
Proof.
  intros Hlo Hhi. unfold snake_rand, runs, mbind, M_bind, gets, modify. cbn [bind_result fst snd mret M_ret].
  set (s := u16 _). pose proof (u16_range (Z.land (seed g * 1103515245 + 12345) 2147483647)) as Hs.
  fold s in Hs. pose proof (Z.mod_pos_bound s (hi - lo + 1) ltac:(lia)).
  rewrite s16_small by lia. split; [lia|]. by exists s.
Qed.

Lemma new_fruit_ok g :
  runs snake_new_fruit_pos g (λ r g', 71 ≤ r < SNAKE_MAX_SIZE ∧ ∃ s, g' = set_seed s g ∧ 0 ≤ s < 65536).
Proof.
  unfold snake_new_fruit_pos. apply runs_bind.
  eapply runs_mono; [apply snake_rand_ok; unfold SNAKE_HEIGHT; lia|]. cbn beta.
  intros i g1 (Hi & s1 & -> & _). apply runs_bind.
  eapply runs_mono; [apply snake_rand_ok; unfold SNAKE_WIDTH; lia|]. cbn beta.
  intros j g2 (Hj & s2 & -> & Hs2). apply runs_ret. board.
  rewrite s16_small by lia. split; [lia|]. by exists s2.
Qed.

(** *** The next place *)

Lemma row_loop_ok {S} h (s : S) : 0 ≤ h < 32000 →
  runs (loop row_round (h, 0)) s (λ r s', s' = s ∧ r = (h - 70 * ((h + 69) / 70), (h + 69) / 70)).
Proof.
  intros Hh. apply (runs_loop row_round (λ v s', s' = s ∧ ∃ k, v = (h - 70 * k, k) ∧ 0 ≤ k ∧
    70 * k ≤ h + 69) (λ v _, Z.max 0 (fst v))).
  - intros v s' (-> & k & -> & Hk & Hb). unfold row_round. case_if.
    + cbn. rewrite !s16_small by lia. split; [|lia]. split; [done|]. exists (k + 1).
      split_and!; [f_equal; lia|lia|lia].
    + cbn. split; [done|]. assert (k = (h + 69) / 70) as -> by zify_div. done.
  - split; [done|]. exists 0. split_and!; [f_equal; lia|lia|lia].
  - cbn. lia.
Qed.

Lemma cal_next_ok dir g : snake_ok g →
  snake_cal_next dir g = Ok (step_from dir (head_pos g), g).
Proof.
  intros I. pose proof (so_head _ I). pose proof (so_segments _ I (head g) ltac:(board; lia)) as Hh.
  assert (runs (snake_cal_next dir) g (λ r g', r = step_from dir (head_pos g) ∧ g' = g)) as R.
  { unfold snake_cal_next. apply runs_bind. eapply runs_ok; [reflexivity|]. apply runs_bind.
    eapply runs_ok; [apply get_at_ok; rewrite (so_snake _ I); board; lia|].
    apply runs_bind. eapply runs_mono; [apply row_loop_ok; board; lia|].
    cbn beta. intros ? ? (-> & ->). apply runs_ret. split; [|done]. cbn [fst snd].
    fold (head_pos g) in *. set (h := head_pos g) in *. clearbody h. board.
    assert (h + 69 - 70 * ((h + 69) / 70) = (h + 69) mod 70) as Hmod by zify_div.
    assert (0 ≤ (h + 69) / 70 ≤ 40) by zify_div.
    pose proof (Z.mod_pos_bound (h + 69) 70 ltac:(lia)).
    rewrite !(s16_small (_ - 1)), !(s16_small (_ + 70)) by lia.
    destruct dir; cbn [step_from]; board; repeat case_if; rewrite ?s16_small by zify_div; zify_div. }
  destruct (runs_inv _ _ _ R) as (r & g' & E & -> & ->). done.
Qed.

(** *** Painting the board *)

Lemma put_cell_ok i v g : length (cells g) = Z.to_nat SNAKE_MAX_SIZE → on_board i →
  put_cell i v g = Ok (tt, set_cells (<[Z.to_nat i := v]> (cells g)) g).
Proof. intros Hl Hi. apply put_at_ok. rewrite Hl. board. lia. Qed.

Lemma get_snake_ok i g : length (snake g) = Z.to_nat SNAKE_MAX_SIZE → on_board i →
  get_snake i g = Ok (at_index (snake g) i, g).
Proof. intros Hl Hi. apply get_at_ok. rewrite Hl. board. lia. Qed.

Lemma put_snake_ok i v g : length (snake g) = Z.to_nat SNAKE_MAX_SIZE → on_board i →
  put_snake i v g = Ok (tt, set_snake (<[Z.to_nat i := v]> (snake g)) g).
Proof. intros Hl Hi. apply put_at_ok. rewrite Hl. board. lia. Qed.

(** A board that differs from that of [g] only in its cells. *)
Definition repainted (g : game) (f : Z → Z) (g' : game) : Prop :=
  ∃ c, g' = set_cells c g ∧ length c = Z.to_nat SNAKE_MAX_SIZE ∧
    ∀ n, on_board n → at_index c n = f n.

Lemma repaint_cell g f g' i v : repainted g f g' → on_board i →
  runs (put_cell i v) g' (λ _ g'', repainted g (λ n, if n =? i then v else f n) g'').
Proof.
  intros (c & -> & Hl & Hc) Hi. eapply runs_ok; [by apply put_cell_ok|].
  eexists. split; [reflexivity|]. cbn [cells set_cells]. split; [by rewrite length_insert|].
  intros n Hn. rewrite at_index_insert by (rewrite ?Hl; board; lia).
  case_decide as E; [subst; by rewrite Z.eqb_refl|]. rewrite (proj2 (Z.eqb_neq _ _) E). by apply Hc.
Qed.

Lemma repainted_ext g f f' g' : repainted g f g' → (∀ n, on_board n → f n = f' n) → repainted g f' g'.
Proof. intros (c & -> & Hl & Hc) H. exists c. split_and!; [done|done|]. intros n Hn. by rewrite Hc, H. Qed.

Lemma clear_cells_ok g : length (cells g) = Z.to_nat SNAKE_MAX_SIZE →
  runs (for_each (seqZ 0 SNAKE_MAX_SIZE) (λ i, put_cell i Empty)) g (λ _ g', repainted g (λ _, Empty) g').
Proof.
  intros Hl. eapply runs_mono.
  { apply (runs_for_range SNAKE_MAX_SIZE _ (λ i g',
      repainted g (λ n, if n <? i then Empty else at_index (cells g) n) g')); [done| |].
    - intros i g' Hi H. eapply runs_mono; [by eapply (repaint_cell g)|]. cbn beta.
      intros _ g'' H''. eapply repainted_ext; [exact H''|]. intros n Hn. cbn beta.
      destruct (n =? i) eqn:E1, (n <? i) eqn:E2, (n <? i + 1) eqn:E3; bool_to_prop; lia || done.
    - exists (cells g). split_and!; [by destruct g|done|]. intros n Hn.
      by rewrite (proj2 (Z.ltb_ge n 0)) by (board; lia). }
  cbn beta. intros _ g' H. eapply repainted_ext; [exact H|]. intros n Hn. cbn beta.
  by rewrite (proj2 (Z.ltb_lt _ _)) by (board; lia).
Qed.

Lemma body_succ g k : 0 ≤ k →
  map (at_index (snake g)) (seqZ 0 (k + 1)) = map (at_index (snake g)) (seqZ 0 k) ++ [at_index (snake g) k].
Proof. intros Hk. rewrite seqZ_app by lia. rewrite map_app. done. Qed.

(** The parts of the invariant that do not speak of the board. *)
Record placed (g : game) : Prop := {
  pl_cells : length (cells g) = Z.to_nat SNAKE_MAX_SIZE;
  pl_snake : length (snake g) = Z.to_nat SNAKE_MAX_SIZE;
  pl_head : on_board (head g);
  pl_segments : ∀ k, 0 ≤ k ≤ head g → on_board (at_index (snake g) k);
  pl_fruit : on_board (fruit g);
  pl_seed : 0 ≤ seed g < 65536;
  pl_state : 0 ≤ state g ≤ 2;
}.

Lemma snake_paint_ok g : placed g → runs snake_paint g (λ _ g', repainted g (picture g) g').
Proof.
  intros P. pose proof (pl_head _ P) as Hh. unfold snake_paint.
  change (SNAKE_HEIGHT * SNAKE_WIDTH) with SNAKE_MAX_SIZE.
  apply runs_bind. eapply runs_mono; [apply clear_cells_ok, P|]. cbn beta. intros _ g1 H1.
  apply runs_bind. destruct H1 as (c1 & -> & L1 & C1). eapply runs_ok; [reflexivity|]. cbn [head set_cells].
  apply runs_bind. eapply runs_mono.
  { apply (runs_for_range (head g) _ (λ i g', repainted g (λ n,
      if decide (n ∈ map (at_index (snake g)) (seqZ 0 i)) then Snake_Body else Empty) g')); [board; lia| |].
    - intros i g' Hi (c & -> & Hl & Hc). apply runs_bind.
      eapply runs_ok; [apply get_snake_ok; [apply P|board; lia]|]. cbn [snake set_cells].
      eapply runs_mono; [eapply (repaint_cell g); [by exists c|apply P; lia]|]. cbn beta.
      intros _ g'' H''. eapply repainted_ext; [exact H''|]. intros n Hn. cbn beta.
      rewrite body_succ by lia. destruct (n =? at_index (snake g) i) eqn:E; bool_to_prop.
      + rewrite decide_True; [done|]. subst n. apply elem_of_app. right. by left.
      + rewrite Hc by done. apply decide_ext. rewrite elem_of_app, list_elem_of_singleton. naive_solver.
    - exists c1. split_and!; [done|done|]. intros n Hn. rewrite C1 by done. change (seqZ 0 0) with (@nil Z). by rewrite decide_False by (apply not_elem_of_nil). }
  cbn beta. intros _ g2 (c2 & -> & L2 & C2). apply runs_bind.
  eapply runs_ok; [apply get_snake_ok; [apply P|done]|]. cbn [snake set_cells]. fold (head_pos g).
  apply runs_bind. eapply runs_mono; [eapply (repaint_cell g); [by exists c2|apply P; board; lia]|].
  cbn beta. intros _ g3 (c3 & -> & L3 & C3). apply runs_bind. eapply runs_ok; [reflexivity|]. cbn [fruit set_cells].
  eapply runs_mono; [eapply (repaint_cell g); [by exists c3|apply P]|]. cbn beta.
  intros _ g4 H4. eapply repainted_ext; [exact H4|]. intros n Hn. cbn beta.
  rewrite C3, C2 by done. done.
Qed.

(** A painted game is in order. *)
Lemma painted_ok g g' : placed g → repainted g (picture g) g' →
  snake_ok g' ∧ segments g' = segments g ∧ fruit g' = fruit g ∧ direction g' = direction g ∧
  state g' = state g.
Proof. intros P (c & -> & Hl & Hc). split; [|done]. destruct P. by split. Qed.

(** *** Starting anew *)

Lemma init_snake_ok g : length (snake g) = Z.to_nat SNAKE_MAX_SIZE →
  runs snake_init_snake g (λ _ g', ∃ l, g' = set_snake l g ∧
    length l = Z.to_nat SNAKE_MAX_SIZE ∧ at_index l 0 = start_pos).
Proof.
  intros Hl. unfold snake_init_snake. apply runs_bind. eapply runs_mono.
  { apply (runs_for_range SNAKE_MAX_SIZE _ (λ i g', ∃ l, g' = set_snake l g ∧
      length l = Z.to_nat SNAKE_MAX_SIZE)); [done| |].
    - intros i g' Hi (l & -> & L). eapply runs_ok; [by apply put_snake_ok|].
      eexists. split; [reflexivity|]. cbn. by rewrite length_insert.
    - exists (snake g). split; [by destruct g|done]. }
  cbn beta. intros _ g1 (l & -> & L). eapply runs_ok; [apply put_snake_ok; [done|board; lia]|].
  eexists. split; [reflexivity|]. cbn [snake set_snake]. split; [by rewrite length_insert|].
  rewrite at_index_insert by (rewrite ?L; board; lia). done.
Qed.

Lemma init_cells_ok g : length (cells g) = Z.to_nat SNAKE_MAX_SIZE →
  runs snake_init_cells g (λ _ g', repainted g (λ n,
    if n =? first_fruit then Fruit else if n =? start_pos then Snake_Head else Empty) g').
Proof.
  intros Hl. unfold snake_init_cells. change (SNAKE_WIDTH * SNAKE_HEIGHT) with SNAKE_MAX_SIZE.
  apply runs_bind. eapply runs_mono; [by apply clear_cells_ok|]. cbn beta. intros _ g1 H1.
  apply runs_bind. eapply runs_mono; [eapply (repaint_cell g); [exact H1|unfold on_board; done]|].
  cbn beta. intros _ g2 H2.
  eapply runs_mono; [eapply (repaint_cell g); [exact H2|board; cbn; lia]|]. done.
Qed.

Lemma single_segment g : head g = 0 → at_index (snake g) 0 = start_pos → segments g = [start_pos].
Proof. intros Hh H. unfold segments. rewrite Hh. change (seqZ 0 (0 + 1)) with [0]. cbn [map]. by rewrite H. Qed.

Lemma snake_restart_ok g : length (cells g) = Z.to_nat SNAKE_MAX_SIZE →
  length (snake g) = Z.to_nat SNAKE_MAX_SIZE → 0 ≤ seed g < 65536 →
  runs snake_restart g (λ _ g', snake_ok g' ∧ segments g' = [start_pos] ∧ fruit g' = first_fruit ∧
    direction g' = Stop ∧ state g' = 0).
Proof.
  intros Hc Hl Hs. unfold snake_restart. apply runs_bind. eapply runs_ok; [reflexivity|].
  apply runs_bind. eapply runs_mono; [by apply init_snake_ok|]. cbn beta. intros _ g1 (l & -> & L & L0).
  apply runs_bind. eapply runs_mono; [by apply init_cells_ok|]. cbn beta. intros _ g2 (c & -> & C & Hp).
  apply runs_bind. eapply runs_ok; [reflexivity|]. apply runs_bind. eapply runs_ok; [reflexivity|].
  eapply runs_ok; [reflexivity|]. split; [|by split; [apply single_segment|]].
  split; cbn -[at_index picture]; try done.
  - intros k Hk. replace k with 0 by lia. rewrite L0. done.
  - intros n Hn. rewrite Hp by done. unfold picture, head_pos, body. cbn -[at_index]. rewrite L0. done.
Qed.

(** *** The start of the game *)

Lemma snake_start_ok s : 0 ≤ s < 65536 →
  runs snake_start (zero_game s) (λ _ g, snake_ok g ∧ state g = 0).
Proof.
  intros Hs. unfold snake_start. apply runs_bind. eapply runs_mono; [by apply init_snake_ok|]. cbn beta.
  intros _ g1 (l & -> & L & L0). apply runs_bind. eapply runs_mono; [by apply init_cells_ok|].
  cbn beta. intros _ g2 H2. apply runs_bind. eapply runs_ok; [reflexivity|].
  replace (fruit g2) with first_fruit by (by destruct H2 as (c & -> & _)).
  eapply runs_mono; [eapply repaint_cell; [exact H2|done]|]. cbn beta. intros _ g3 (c & -> & C & Hp).
  split; [|reflexivity]. split; cbn -[at_index picture]; try done.
  - intros k Hk. replace k with 0 by lia. by rewrite L0.
  - intros n Hn. rewrite Hp by done. unfold picture, head_pos, body. cbn -[at_index]. rewrite L0.
    unfold first_fruit, start_pos in *. by destruct (n =? 1010).
Qed.

Definition first_board (s : Z) : game := run_state snake_start (zero_game s).

Lemma first_board_ok s : 0 ≤ s < 65536 →
  snake_start (zero_game s) = Ok (tt, first_board s) ∧ snake_ok (first_board s) ∧ state (first_board s) = 0.
Proof.
  intros Hs. destruct (runs_inv _ _ _ (snake_start_ok s Hs)) as ([] & g & E & H).
  unfold first_board, run_state. rewrite E. exact (conj eq_refl H).
Qed.

(** *** Moving *)

Lemma shift_ok g : length (snake g) = Z.to_nat SNAKE_MAX_SIZE → on_board (head g) →
  runs (loop shift_round 0) g (λ _ g', ∃ l, g' = set_snake l g ∧ length l = length (snake g) ∧
    ∀ k, 0 ≤ k → at_index l k = at_index (snake g) (if k <? head g then k + 1 else k)).
Proof.
  intros Hl Hh. apply (runs_loop shift_round (λ h g', 0 ≤ h ≤ head g ∧ ∃ l, g' = set_snake l g ∧
    length l = length (snake g) ∧
    ∀ k, 0 ≤ k → at_index l k = at_index (snake g) (if k <? h then k + 1 else k)) (λ h _, head g - h)).
  - intros h g' (Hr & l & -> & L & Hk). unfold shift_round. apply runs_bind. eapply runs_ok; [reflexivity|].
    cbn [head set_snake]. case_if.
    + apply runs_bind. eapply runs_ok; [apply get_snake_ok; [by rewrite <- Hl|board; lia]|].
      apply runs_bind. eapply runs_ok; [apply put_snake_ok; [by rewrite <- Hl|board; lia]|].
      apply runs_ret. board. rewrite s16_small by lia. split; [|lia]. split; [lia|].
      eexists. split; [reflexivity|]. cbn [snake set_snake]. split; [by rewrite length_insert|].
      intros k Hk0. rewrite at_index_insert by lia. rewrite !Hk by lia.
      rewrite (proj2 (Z.ltb_ge (h + 1) h)) by lia. case_decide as Ek.
      * subst k. by rewrite (proj2 (Z.ltb_lt h (h + 1))) by lia.
      * destruct (k <? h) eqn:E1, (k <? h + 1) eqn:E2; bool_to_prop; lia || done.
    + apply runs_ret. exists l. split_and!; [done|done|]. intros k Hk0. rewrite Hk by done.
      by replace h with (head g) by lia.
  - split; [board; lia|]. exists (snake g). split_and!; [by destruct g|done|].
    intros k Hk. by rewrite (proj2 (Z.ltb_ge k 0)) by lia.
  - board. lia.
Qed.

Lemma seqZ_one a : seqZ a 1 = [a].
Proof. done. Qed.

Lemma moved_segments g l p : 0 ≤ head g < Z.of_nat (length l) →
  (∀ k, 0 ≤ k → at_index l k = at_index (snake g) (if k <? head g then k + 1 else k)) →
  map (at_index (<[Z.to_nat (head g) := p]> l)) (seqZ 0 (head g + 1)) = tail (segments g) ++ [p].
Proof.
  intros Hh Hk. rewrite seqZ_app, map_app by lia. f_equal.
  - unfold segments. rewrite (seqZ_cons 0 (head g + 1)) by lia. cbn [map tail].
    replace (Z.pred (head g + 1)) with (head g) by lia.
    replace (seqZ (Z.succ 0) (head g)) with (map (Z.add 1) (seqZ 0 (head g)))
      by exact (fmap_add_seqZ 1 0 (head g)).
    rewrite map_map. apply list_fmap_ext. intros i x Hx.
    apply lookup_seqZ in Hx as [-> Hi]. cbn. rewrite at_index_insert, decide_False by lia.
    rewrite Hk by lia. rewrite (proj2 (Z.ltb_lt _ _)) by lia. f_equal. lia.
  - rewrite seqZ_one. cbn [map]. rewrite at_index_insert by lia. by rewrite decide_True by lia.
Qed.

Lemma grown_segments g p : 0 ≤ head g + 1 < Z.of_nat (length (snake g)) → 0 ≤ head g →
  map (at_index (<[Z.to_nat (head g + 1) := p]> (snake g))) (seqZ 0 (head g + 1 + 1)) = segments g ++ [p].
Proof.
  intros Hh H0. rewrite (seqZ_app 0 (head g + 1)), map_app by lia. f_equal.
  - unfold segments. apply list_fmap_ext. intros i x Hx. apply lookup_seqZ in Hx as [-> Hi].
    by rewrite at_index_insert, decide_False by lia.
  - rewrite seqZ_one. cbn [map]. rewrite at_index_insert by lia. by rewrite decide_True by lia.
Qed.

Lemma get_cell_ok i g : snake_ok g → on_board i → get_cell i g = Ok (picture g i, g).
Proof.
  intros I Hi. rewrite <- (so_board _ I i Hi). apply get_at_ok. rewrite (so_cells _ I). board. lia.
Qed.

Lemma snake_placed g : snake_ok g → placed g.
Proof. intros []. by split. Qed.

(** The rules: the head reaches [p]. *)
Definition after_step (g : game) (p : Z) (g' : game) : Prop :=
  if decide (p = fruit g) then
    segments g' = segments g ++ [p] ∧ 71 ≤ fruit g' < SNAKE_MAX_SIZE ∧
    direction g' = direction g ∧ state g' = state g
  else if decide (p ≠ head_pos g ∧ p ∈ body g) then
    segments g' = [start_pos] ∧ fruit g' = first_fruit ∧ direction g' = Stop ∧ state g' = 0
  else
    segments g' = tail (segments g) ++ [p] ∧ fruit g' = fruit g ∧
    direction g' = direction g ∧ state g' = state g.

Lemma insert_on_board l i p k : 0 ≤ i < Z.of_nat (length l) → 0 ≤ k → on_board p →
  (k ≠ i → on_board (at_index l k)) → on_board (at_index (<[Z.to_nat i := p]> l) k).
Proof. intros Hi Hk Hp H. rewrite at_index_insert by done. case_decide; auto. Qed.

Lemma snake_move_ok g p : snake_ok g → on_board p → head g + 1 < SNAKE_MAX_SIZE →
  runs (snake_move p) g (λ _ g', placed g' ∧ after_step g p g').
Proof.
  intros I Hp Hhd. pose proof (so_head _ I) as Hh. pose proof (so_snake _ I) as Hl.
  assert (Z.of_nat (length (snake g)) = SNAKE_MAX_SIZE) as HL by (rewrite Hl; done).
  unfold snake_move. apply runs_bind. eapply runs_ok; [by apply get_cell_ok|]. unfold picture.
  destruct (p =? fruit g) eqn:Ef; bool_to_prop.
  { change ((Fruit =? Snake_Body) || (Fruit =? Block)) with false. change (Fruit =? Fruit) with true. cbv iota.
    apply runs_bind. eapply runs_mono; [apply new_fruit_ok|]. cbn beta. intros f g1 (Hf & s & -> & Hs).
    apply runs_bind. eapply runs_ok; [reflexivity|]. apply runs_bind. eapply runs_ok; [reflexivity|].
    apply runs_bind. eapply runs_ok; [reflexivity|]. apply runs_bind. eapply runs_ok; [reflexivity|].
    cbn [head set_head set_fruit set_seed snake cells]. board. rewrite s16_small by lia.
    eapply runs_ok; [apply put_snake_ok; [done|board; lia]|]. split.
    - split; cbn [head set_head set_fruit set_seed set_snake snake cells fruit seed state]; board; try lia; try apply I.
      + by rewrite length_insert.
      + intros k Hk. apply insert_on_board; [board; lia|lia|done|]. intros Hne. apply I. lia.
    - unfold after_step. rewrite decide_True by done. board.
      cbn [fruit set_snake set_head set_fruit set_seed]. split_and!; try done; [|lia|lia].
      apply (grown_segments g p); lia. }
  destruct (p =? head_pos g) eqn:Eh; bool_to_prop.
  2: destruct (decide (p ∈ body g)) as [Hb|Hb].
  2: { change ((Snake_Body =? Snake_Body) || (Snake_Body =? Block)) with true. cbv iota.
       eapply runs_mono; [apply snake_restart_ok; apply I|]. cbn beta. intros _ g' [I' H].
       split; [by apply snake_placed|]. unfold after_step. by rewrite decide_False, decide_True by done. }
  all: match goal with |- context [(?c =? Snake_Body) || _] =>
    change ((c =? Snake_Body) || (c =? Block)) with false; change (c =? Fruit) with false end; cbv iota.
  all: apply runs_bind; eapply runs_mono; [by apply shift_ok|]; cbn beta; intros _ g1 (l & -> & L & Hk).
  all: apply runs_bind; eapply runs_ok; [reflexivity|]; cbn [head set_snake].
  all: eapply runs_ok; [apply put_snake_ok; [cbn; congruence|done]|]; split.
  1,3: split; cbn [head set_snake snake cells fruit seed state]; try apply I;
    [rewrite length_insert; congruence|]; intros k Hkr; apply insert_on_board; [board; lia|lia|done|];
    intros Hne; rewrite Hk by lia; apply I; case_if; lia.
  all: unfold after_step; rewrite decide_False, decide_False by naive_solver;
    split_and!; try done; apply (moved_segments g); [cbn [snake set_snake]; board; lia|done].
Qed.

(** ** Theorems *)

(** [C34] A step of the game refines the game of lists: when the place in front of
    the head is on the board, [snake_update] returns; on the fruit the snake grows
    by that place and a new fruit appears, on its own body the game starts anew,
    otherwise the whole snake moves on by one place; and the board shows exactly
    the new snake and fruit. *)
Theorem snake_update_refines (g : game) :
  snake_ok g → head g + 1 < SNAKE_MAX_SIZE → on_board (step_from (direction g) (head_pos g)) →
  runs snake_update g (λ _ g',
    snake_ok g' ∧ after_step g (step_from (direction g) (head_pos g)) g').
Proof.
  intros I Hhd Hp. unfold snake_update. apply runs_bind. eapply runs_ok; [reflexivity|].
  apply runs_bind. eapply runs_ok; [by apply cal_next_ok|].
  apply runs_bind. eapply runs_mono; [by apply snake_move_ok|]. cbn beta. intros _ g1 [P H].
  eapply runs_mono; [by apply snake_paint_ok|]. cbn beta. intros _ g2 Hg2.
  destruct (painted_ok _ _ P Hg2) as (I2 & Hs & Hf & Hd & Hst). split; [done|].
  unfold after_step in *. by rewrite Hs, Hf, Hd, Hst.
Qed.

(** The edges are not all guarded: when the place in front of the head is not
    on the board, as below its last row, [snake_update] accesses the arrays outside
    their bounds. *)
Theorem snake_update_faults (g : game) :
  snake_ok g → ~ on_board (step_from (direction g) (head_pos g)) → snake_update g = Fault.
Proof.
  intros I Hp. unfold snake_update, mbind, M_bind, gets. cbn [bind_result fst snd].
  rewrite cal_next_ok by done. cbn [bind_result fst snd]. unfold snake_move, get_cell, get_at, mbind, M_bind.
  rewrite (so_cells _ I). destruct ((0 <=? _) && _) eqn:E; [|done]. bool_to_prop. destruct Hp. board. lia.
Qed.

(** Every random fruit lies on the board, and below its first row. *)
Theorem snake_fruit_on_board (g : game) :
  runs snake_new_fruit_pos g (λ r g', 71 ≤ r < SNAKE_MAX_SIZE ∧
    ∃ s, g' = set_seed s g ∧ 0 ≤ s < 65536).
Proof. apply new_fruit_ok. Qed.

(** ** Instances *)

Definition new_game : game := first_board 0.

Lemma new_game_ok : snake_ok new_game.
Proof. apply first_board_ok. lia. Qed.

Lemma new_game_head : head_pos new_game = 1390 ∧ head new_game = 0 ∧ direction new_game = Up.
Proof. vm_compute. done. Qed.

Lemma snake_update_refines_witness :
  runs snake_update new_game (λ _ g',
    snake_ok g' ∧ after_step new_game (step_from (direction new_game) (head_pos new_game)) g').
Proof.
  apply (snake_update_refines new_game new_game_ok).
  - vm_compute. reflexivity.
  - destruct new_game_head as (-> & _ & ->). split; vm_compute; congruence.
Defined.

(** The head on the last row, going down. *)
Definition low_game : game :=
  Game (<[Z.to_nat 1010 := Fruit]> (<[Z.to_nat 2765 := Snake_Head]> (replicate 2800 Empty)))
    (<[0%nat := 2765]> (replicate 2800 0)) Down 1 0 1010 0.

Lemma low_game_ok : snake_ok low_game.
Proof.
  split; try (vm_compute; done).
  - intros k Hk. cbn in Hk. replace k with 0 by lia. vm_compute. split; congruence.
  - intros n Hn. unfold low_game, picture, head_pos, body. cbn [cells fruit snake head].
    rewrite !at_index_insert by (rewrite ?length_insert, ?length_replicate; board; lia).
    change (map _ (seqZ 0 0)) with (@nil Z). change (at_index _ 0) with 2765.
    replace (at_index (replicate 2800 Empty) n) with Empty.
    2: { unfold at_index. rewrite nth_lookup. destruct (replicate 2800 Empty !! _) eqn:E; [|done].
         by apply lookup_replicate in E as [-> _]. }
    destruct (n =? 1010) eqn:E1; bool_to_prop; [by rewrite decide_True|rewrite decide_False by done].
    destruct (n =? 2765) eqn:E2; bool_to_prop; [by rewrite decide_True|by rewrite decide_False by done].
Qed.

Lemma snake_update_faults_witness : snake_update low_game = Fault.
Proof.
  apply (snake_update_faults low_game low_game_ok). vm_compute. intros [_ H]. congruence.
Defined.
