(* ===== verification/Syscall.v ===== *)
(** * [src/kernel/userland/sys.c], [src/programs/cat.c] and [src/programs/ls.c]

    The table of system calls, their dispatch, and the two programs that work on
    files through it.

    [World] is what the handlers work on: the file system switch, whose memory
    holds the strings and buffers of the programs, and the prompt with the
    console, the processes and the keyboard.  The addresses of locals and
    literals are parameters. *)

From S2P Require Import Prelude Machine Util Heap Process Formatter Keyboard Fs Vfs Prompt.

Section syscall.
Context {F : Type} `{FO : !FsOps F}.
(** The literal of [get_rel_path] and the locals of [vfs_get_mountpoint]. *)
Context (empty : Z) (junk : Z → list Z).
(** [print_syscall] returns no value: what the register is left with. *)
Context (no_result : Z).

Record world := World { w_vfs : vstate F; w_prompt : prompt }.
Definition set_vfs (x : vstate F) (w : world) : world := World x (w_prompt w).
Definition set_prompt (x : prompt) (w : world) : world := World (w_vfs w) x.
Definition in_vfs {A} (c : M (vstate F) A) : M world A := zoom w_vfs set_vfs c.
Definition in_prompt {A} (c : M prompt A) : M world A := zoom w_prompt set_prompt c.
(** A call that works on the switch and prints. *)
Definition in_vfs_con {A} (c : M (vstate F * console) A) : M world A :=
  zoom (λ w, (w_vfs w, con (w_prompt w)))
    (λ x w, World (fst x) (set_con (snd x) (w_prompt w))) c.

(** The memory of the programs. *)
Definition w_bytes (w : world) : gmap Z Z := fs_bytes (fs (w_vfs w)).
Definition set_w_bytes (m : gmap Z Z) (w : world) : world :=
  set_vfs (set_fs (fs_set_bytes m (fs (w_vfs w))) (w_vfs w)) w.

(** The string at an address, with its terminator.  A memory of [n] bytes has a
    zero among any [n + 1] of them. *)
Fixpoint string_from (n : nat) (m : gmap Z Z) (p : Z) : list Z :=
  match n with
  | O => []
  | S n' => byte m p :: if byte m p =? 0 then [] else string_from n' m (p + 1)
  end.
Definition string_at (m : gmap Z Z) (p : Z) : list Z := string_from (S (size m)) m p.

(** ** Handlers *)

Definition handler : Type := Z → Z → Z → Z → Z → M world Z.

(** [for (uint64_t i = 0; i < size; i++) d[i] = s[i];] *)
Definition _syscall_memcpy : handler := λ frame dest src size unused,
  modify (λ w, set_w_bytes (memcpy (w_bytes w) dest src size) w);; mret size.

Definition print_handler : handler := λ frame str a1 a2 a3,
  m ← gets w_bytes;
  in_prompt (on_con (print_syscall (string_at m str)));;
  mret no_result.

Definition no_handlers : list (option handler) := replicate 32 None.

Record sys := Sys {
  syscall_handlers : list (option handler);     (* 32 of them *)
  world_of : world;
  eoi_ports : list (Z * Z);                     (* port writes of [pic_eoi] *)
}.
Definition set_world (x : world) (s : sys) : sys := Sys (syscall_handlers s) x (eoi_ports s).
Definition in_world {A} (c : M world A) : M sys A := zoom world_of set_world c.

Definition syscall_install_handler (offset : Z) (h : handler) : M sys unit := λ s,
  if (0 <=? offset) && (offset <? Z.of_nat (length (syscall_handlers s)))
  then Ok (tt, Sys (<[Z.to_nat offset := Some h]> (syscall_handlers s)) (world_of s) (eoi_ports s))
  else Fault.

Definition syscall_init : M sys unit :=
  syscall_install_handler 0 _syscall_memcpy;;
  syscall_install_handler 1 (λ f a b c d, in_vfs (vfs_open_syscall empty junk f a b c d));;
  syscall_install_handler 2 (λ f a b c d, in_vfs (vfs_close_syscall f a b c d));;
  syscall_install_handler 3 (λ f a b c d, in_vfs (vfs_read_syscall f a b c d));;
  syscall_install_handler 4 print_handler;;
  syscall_install_handler 5 (λ _ _ _ _ _, in_prompt (on_kbd keyboard_getch_syscall));;
  syscall_install_handler 6 (λ _ _ _ _ _, in_prompt prompt_lockstdin_syscall);;
  syscall_install_handler 7 (λ _ _ _ _ _, in_prompt prompt_unlockstdin_syscall).

(** [pic_eoi(128)]: the vector is above the slave's first one. *)
Definition syscall_eoi : M sys unit :=
  modify (λ s, Sys (syscall_handlers s) (world_of s) (eoi_ports s ++ [(0xA0, 0x20); (0x20, 0x20)])).

(** The index is not checked: outside the table, and where no handler is
    installed, the call is undefined. *)
Definition syscall_handler (frame : Z) (c : execution_context) : M sys execution_context :=
  t ← gets syscall_handlers;
  if (0 <=? rdi c) && (rdi c <? Z.of_nat (length t)) then
    match t !! Z.to_nat (rdi c) with
    | Some (Some h) =>
        r ← in_world (h frame (rsi c) (rdx c) (rcx c) (r8 c));
        syscall_eoi;;
        mret (Context (rbp c) (r15 c) (r14 c) (r13 c) (r12 c) (r11 c) (r10 c) (r9 c) (r8 c)
          (rsi c) (rdi c) (rdx c) (rcx c) (rbx c) r (int_number c) (error_code c)
          (iret_rip c) (iret_cs c) (iret_flags c) (iret_rsp c) (iret_ss c))
    | _ => fault
    end
  else fault.

(** [do_syscall]: the arguments are in the registers when interrupt 128 fires;
    [regs] holds the others, [frame] is where the context is pushed. *)
Definition do_syscall (frame : Z) (regs : execution_context) (num a0 a1 a2 a3 : Z) : M sys Z :=
  c ← syscall_handler frame
        (Context (rbp regs) (r15 regs) (r14 regs) (r13 regs) (r12 regs) (r11 regs) (r10 regs)
          (r9 regs) a3 a0 num a1 a2 (rbx regs) (rax regs) 128 0
          (iret_rip regs) (iret_cs regs) (iret_flags regs) (iret_rsp regs) (iret_ss regs));
  mret (rax c).

Definition syscall_memcpy (frame : Z) (regs : execution_context) (dest src size : Z) : M sys Z :=
  do_syscall frame regs 0 dest src size 0.

(** ** The programs *)

Context (frame : Z) (regs : execution_context).
Abbreviation call := (do_syscall frame regs).

(** A byte of a local array of the program. *)
Definition put_byte (a c : Z) : M sys unit :=
  in_world (modify (λ w, set_w_bytes (<[a := c]> (w_bytes w)) w)).

(** [while (1) { success = do_syscall(6, ...); if (success) break; }] *)
Definition lock_round (_ : unit) : M sys (unit + unit) :=
  success ← call 6 0 0 0 0;
  if negb (success =? 0) then mret (inr tt) else mret (inl tt).

(** One poll of the keyboard in the loop that reads the path; [inr] is the line
    feed.  [path] has 512 bytes, [p] is the array for the echo, [erase] the
    literal that rubs out a character. *)
Definition path_round (path p erase index : Z) : M sys (Z + Z) :=
  read_char ← call 5 0 0 0 0;
  if negb (read_char =? u64 (-1)) then
    if read_char =? 10 then mret (inr index)
    else if (read_char =? 8) && (index >? 0) then
      let index := u16 (index - 1) in
      (if index <? 512 then put_byte (path + index) 0 else fault);;
      call 4 erase 0 0 0;;
      mret (inl index)
    else
      put_byte p (u8 read_char);;
      put_byte (p + 1) 0;;
      (if index <? 512 then put_byte (path + index) (u8 read_char) else fault);;
      call 4 p 0 0 0;;
      mret (inl (u16 (index + 1)))
  else mret (inl index).

(** The loop with what the keyboard delivers before each poll. *)
Definition deliver (k : option Z) : M sys unit :=
  in_world (in_prompt (on_kbd (match k with Some c => modify (set_char c true) | None => mret tt end))).
Fixpoint read_path (path p erase : Z) (ks : list (option Z)) (index : Z) : M sys Z :=
  match ks with
  | [] => hang
  | k :: ks' =>
      deliver k;;
      r ← path_round path p erase index;
      match r with inl index' => read_path path p erase ks' index' | inr i => mret i end
  end.

(** The loop of [cat] over the file. *)
Definition cat_round (id buffer : Z) (_ : unit) : M sys (unit + unit) :=
  read ← call 3 id buffer 511 0;
  (if read <? 512 then put_byte (buffer + read) 0 else fault);;
  call 4 buffer 0 0 0;;
  if negb (read =? 0) then mret (inl tt) else mret (inr tt).

(** [cat] from the call that opens the file on. *)
Definition cat_file (path buffer failed : Z) : M sys unit :=
  r ← call 1 path 0 0 0;
  let id := s32 r in
  if id <? 0 then
    call 4 failed 0 0 0;;
    call 7 0 0 0 0;;
    mret tt
  else
    loop (cat_round (u64 id) buffer) tt;;
    call 2 (u64 id) 0 0 0;;
    call 7 0 0 0 0;;
    mret tt.

Definition cat_command (path p erase newline buffer failed : Z) (ks : list (option Z)) : M sys unit :=
  loop lock_round tt;;
  read_path path p erase ks 0;;
  call 4 newline 0 0 0;;
  cat_file path buffer failed.

(** [buffer] of [ls] has 1024 bytes. *)
Definition ls_dir (path buffer : Z) : M sys unit :=
  put_byte buffer 10;;
  read ← in_world (in_vfs_con (vfs_read_dir_syscall empty junk 0 path (buffer + 1) 1023 0));
  (if read <? 1024 then put_byte (buffer + read) 0 else fault);;
  call 4 buffer 0 0 0;;
  call 7 0 0 0 0;;
  mret tt.

Definition ls_command (path p erase buffer : Z) (ks : list (option Z)) : M sys unit :=
  loop lock_round tt;;
  read_path path p erase ks 0;;
  ls_dir path buffer.

End syscall.
