(* ===== verification/SyscallCorrect.v ===== *)
(** * Correctness of the system calls and of [cat]

    The dispatch of every number, the copy call, and [cat] on its path as the composition of
    the file system switch, the print call and the prompt's lock: for every file
    system that keeps the contract of [Fs] it prints the file. *)

From S2P Require Import Prelude Machine Util Heap Process VmmCorrect KheapCorrect SchedulerCorrect.
From S2P Require Import Formatter FormatterCorrect Keyboard Fs Ustar UstarCorrect Vfs VfsCorrect.
From S2P Require Import Prompt PromptCorrect Syscall.

Lemma s32_u64 x : -2147483648 ≤ x < 2147483648 → s32 (u64 x) = x.
Proof.
  intros H. unfold s32, u64, swrap, wrap. change (2 ^ (32 - 1)) with 2147483648.
  change (2 ^ 32) with 4294967296. change (2 ^ 64) with 18446744073709551616. zify_div.
Qed.

Section correct.
Context {F : Type} `{FL : FsLaws F} (g : fs_volume).
Context (empty : Z) (junk : Z → list Z) (Hempty : 128 ≤ empty < 2 ^ 64 - 128).
Context (no_result frame : Z) (regs : execution_context).

Implicit Types s : sys (F := F).
Abbreviation call := (do_syscall frame regs).

(** The installed table. *)
Definition installed : list (option (handler (F := F))) :=
  [Some _syscall_memcpy;
   Some (λ f a b c d, in_vfs (vfs_open_syscall empty junk f a b c d));
   Some (λ f a b c d, in_vfs (vfs_close_syscall f a b c d));
   Some (λ f a b c d, in_vfs (vfs_read_syscall f a b c d));
   Some (print_handler no_result);
   Some (λ _ _ _ _ _, in_prompt (on_kbd keyboard_getch_syscall));
   Some (λ _ _ _ _ _, in_prompt prompt_lockstdin_syscall);
   Some (λ _ _ _ _ _, in_prompt prompt_unlockstdin_syscall)] ++ replicate 24 None.

Definition eoi_done (s : sys (F := F)) : sys (F := F) :=
  Sys (syscall_handlers s) (world_of s) (eoi_ports s ++ [(0xA0, 0x20); (0x20, 0x20)]).

(** ** Dispatch *)

Lemma call_ok s num a0 a1 a2 a3 (h : handler (F := F)) : syscall_handlers s !! Z.to_nat num = Some (Some h) → 0 ≤ num →
  call num a0 a1 a2 a3 s
  = bind_result (h frame a0 a1 a2 a3 (world_of s)) (λ r, Ok (fst r, eoi_done (set_world (snd r) s))).
Proof.
  intros Hh Hn. pose proof (lookup_lt_Some _ _ _ Hh).
  unfold do_syscall, syscall_handler, mbind, M_bind, gets. cbn [bind_result fst snd rdi rsi rdx rcx r8].
  assert ((0 <=? num) && (num <? Z.of_nat (length (syscall_handlers s))) = true) as ->.
  { apply andb_true_iff. rewrite Z.leb_le, Z.ltb_lt. lia. }
  match goal with |- context [?t !! Z.to_nat num] =>
    replace (t !! Z.to_nat num) with (Some (Some h)) by (symmetry; exact Hh) end.
  unfold in_world, zoom. by destruct (h frame a0 a1 a2 a3 (world_of s)) as [[r w]| | |].
Qed.

(** The same as a rule. *)
Lemma call_safe s num a0 a1 a2 a3 (h : handler (F := F)) (Q : Z → sys → Prop) :
  syscall_handlers s !! Z.to_nat num = Some (Some h) → 0 ≤ num →
  safe (h frame a0 a1 a2 a3) (world_of s) (λ r w, Q r (eoi_done (set_world w s))) →
  safe (call num a0 a1 a2 a3) s Q.
Proof.
  intros Hh Hn H. unfold safe in *. rewrite (call_ok s num a0 a1 a2 a3 h Hh Hn).
  by destruct (h frame a0 a1 a2 a3 (world_of s)) as [[r w]| | |].
Qed.

Lemma call_runs s num a0 a1 a2 a3 (h : handler (F := F)) (Q : Z → sys → Prop) :
  syscall_handlers s !! Z.to_nat num = Some (Some h) → 0 ≤ num →
  runs (h frame a0 a1 a2 a3) (world_of s) (λ r w, Q r (eoi_done (set_world w s))) →
  runs (call num a0 a1 a2 a3) s Q.
Proof.
  intros Hh Hn H. unfold runs in *. rewrite (call_ok s num a0 a1 a2 a3 h Hh Hn).
  by destruct (h frame a0 a1 a2 a3 (world_of s)) as [[r w]| | |].
Qed.

(** ** Strings in memory *)

Lemma string_from_ok m p t n : cstr_at m p t → (length t < n)%nat → string_from n m p = t ++ [0].
Proof.
  revert p n. induction t as [|c t IH]; intros p n Ht Hn; (destruct n as [|n]; [cbn in Hn; lia|]);
    cbn [string_from app].
  - pose proof (cstr_at_end _ _ _ Ht) as H0. cbn [length] in H0. change (Z.of_nat 0) with 0 in H0.
    rewrite Z.add_0_r in H0. by rewrite H0.
  - destruct (cstr_at_char _ _ _ 0 c Ht eq_refl) as [H0 Hc]. change (Z.of_nat 0) with 0 in H0.
    rewrite Z.add_0_r in H0. rewrite H0, (proj2 (Z.eqb_neq _ _) Hc). f_equal.
    apply IH; [|cbn in Hn; lia]. destruct Ht as [Hb Hz]. split; [|by inversion Hz].
    intros i x Hx. rewrite <- (Hb (S i) x Hx). f_equal. lia.
Qed.

Lemma string_short m p t : cstr_at m p t → (length t ≤ base.size m)%nat.
Proof.
  intros [Hb Hz].
  assert (list_to_set (C := gset Z) (seqZ p (Z.of_nat (length t))) ⊆ dom m) as Hsub.
  { intros x Hx. apply elem_of_list_to_set, elem_of_seqZ in Hx. apply elem_of_dom.
    destruct (m !! x) as [v|] eqn:E; [done|]. exfalso.
    destruct (lookup_lt_is_Some_2 t (Z.to_nat (x - p))) as [c Hc]; [lia|].
    pose proof (Hb (Z.to_nat (x - p)) c ltac:(by apply lookup_app_l_Some)) as Hbx.
    replace (p + Z.of_nat (Z.to_nat (x - p))) with x in Hbx by lia.
    unfold byte in Hbx. rewrite E in Hbx. cbn in Hbx.
    apply (list.Forall_lookup_1 _ _ _ _ Hz Hc). by rewrite <- Hbx. }
  apply subseteq_size in Hsub. rewrite size_list_to_set in Hsub by apply NoDup_seqZ.
  rewrite length_seqZ in Hsub. rewrite size_dom in Hsub. lia.
Qed.

Lemma string_at_ok m p t : cstr_at m p t → string_at m p = t ++ [0].
Proof. intros H. apply string_from_ok; [done|]. pose proof (string_short m p t H). lia. Qed.

(** ** The print call *)

Definition plain (t : list Z) : Prop := Forall printable t ∧ Forall (λ c, c ≠ 37) t.

Definition on_console (t : list Z) (w : world (F := F)) : world (F := F) :=
  set_prompt (set_con (on_screen t (con (w_prompt w))) (w_prompt w)) w.

Lemma print_handler_ok f a1 a2 a3 p t w : cstr_at (w_bytes w) p t → plain t → (length t < 1024)%nat →
  terminal (con (w_prompt w)) = true →
  print_handler no_result f p a1 a2 a3 w = Ok (no_result, on_console t w).
Proof.
  intros Ht [Hp Hn] Hl Hterm. unfold print_handler, mbind, M_bind, gets. cbn [bind_result fst snd].
  rewrite (string_at_ok _ _ _ Ht). unfold in_prompt, on_con, zoom, print_syscall, kprintf.
  rewrite (vkprintf_ok _ _ t) by (done || by apply render_plain).
  unfold on_console, on_screen. by rewrite Hterm.
Qed.

(** ** [cat] *)

(** The system calls are installed, files and prompt are in order, and a process
    with the id [id] is running. *)
Record ready (id : Z) (s : sys (F := F)) : Prop := {
  rd_table : syscall_handlers s = installed;
  rd_vfs : vfs_inv g (w_vfs (world_of s));
  rd_terminal : terminal (con (w_prompt (world_of s))) = true;
  rd_process : ∃ p, procs (ps (w_prompt (world_of s))) !!
    current_process (ps (w_prompt (world_of s))) = Some p ∧ pid p = id;
}.

Abbreviation files s := (w_vfs (world_of s)).
Abbreviation shell s := (w_prompt (world_of s)).
Abbreviation shown s := (screen (con (w_prompt (world_of s)))).

(** A step that touches the files, and of the prompt only what the console shows. *)
Lemma ready_step id s v c e : ready id s → vfs_inv g v → terminal c = true →
  ready id (Sys (syscall_handlers s) (World v (set_con c (shell s))) e).
Proof. intros [Ht Hv Hc Hp] Hv' Hc'. by split. Qed.

Lemma set_con_id (p : prompt) : set_con (con p) p = p.
Proof. by destruct p. Qed.

(** Writing a byte that is not the file system's. *)
Lemma put_byte_ok id s a c : ready id s → ¬ fs_private g a →
  runs (put_byte a c) s (λ _ s', ready id s' ∧ shell s' = shell s ∧
    (∀ fd, view (files s') fd = view (files s) fd) ∧
    w_bytes (world_of s') = <[a := c]> (w_bytes (world_of s))).
Proof.
  intros R Ha. unfold runs, put_byte, in_world, zoom, modify. cbn [bind_result fst snd].
  destruct (fs_write_ok g (fs (files s)) (<[a := c]> (w_bytes (world_of s))) (λ x, x = a))
    as (If & Hb & Ho).
  { apply (rd_vfs _ _ R). }
  { intros x Hx. unfold w_bytes. rewrite byte_insert. by rewrite decide_False by congruence. }
  { by intros x ->. }
  destruct (set_fs_inv g (files s) _ (rd_vfs _ _ R) If ltac:(intros; apply Ho)) as [I' Hv'].
  split_and!; try done.
  - destruct R. by split.
Qed.

(** Printing a string of memory. *)
Lemma print_call_ok id s p t a1 a2 a3 : ready id s → cstr_at (w_bytes (world_of s)) p t → plain t →
  (length t < 1024)%nat →
  runs (call 4 p a1 a2 a3) s (λ _ s', ready id s' ∧ files s' = files s ∧
    shown s' = shown s ++ [t] ∧ ∃ c, shell s' = set_con c (shell s)).
Proof.
  intros R Ht Hp Hl. apply (call_runs s 4 _ _ _ _ (print_handler no_result)); [by rewrite (rd_table _ _ R)|done|].
  unfold runs. rewrite (print_handler_ok _ _ _ _ p t) by (done || apply R).
  split_and!; try done; [|by eexists]. apply (ready_step id s (files s) _ _ R); apply R.
Qed.

Definition chunk (C : list Z) (pos : Z) : list Z := take 511 (drop (Z.to_nat pos) C).

Lemma plain_chunk C pos : plain C → plain (chunk C pos).
Proof. intros [H1 H2]. unfold chunk. split; by apply Forall_take, Forall_drop. Qed.

(** One turn of the loop: a piece of the file is read, terminated and printed. *)
Lemma cat_round_ok id s fd C pos buffer : ready id s → view (files s) fd = Some (C, pos) → plain C →
  (∀ x, in_range buffer 512 x → ¬ fs_private g x) →
  runs (cat_round frame regs (u64 fd) buffer tt) s (λ r s', ready id s' ∧
    r = (if decide (chunk C pos = []) then inr tt else inl tt) ∧
    view (files s') fd = Some (C, pos + Z.of_nat (length (chunk C pos))) ∧
    (∀ j, j ≠ fd → view (files s') j = view (files s) j) ∧
    shown s' = shown s ++ [chunk C pos] ∧ ∃ c, shell s' = set_con c (shell s)).
Proof.
  intros R Hv HC Hbuf. unfold cat_round.
  assert (0 ≤ fd < 512) as Hfd by (destruct (view_slot g _ _ _ _ (rd_vfs _ _ R) Hv) as (d & V & _); apply V).
  apply runs_bind.
  apply (call_runs s 3 _ _ _ _ (λ f a b c d, in_vfs (vfs_read_syscall f a b c d)));
    [by rewrite (rd_table _ _ R)|done|].
  apply runs_zoom. unfold vfs_read_syscall. rewrite s32_u64 by lia.
  eapply runs_mono; [apply (vfs_read_ok g _ fd C pos); [apply R|done|lia|]|].
  { intros x Hx. apply Hbuf. unfold in_range in *. lia. }
  cbn beta zeta. change (Z.to_nat 511) with 511%nat. fold (chunk C pos).
  intros r v (Iv & Hr & Hb & _ & Hvfd & Hvo).
  assert (length (chunk C pos) ≤ 511)%nat as Hcl by (unfold chunk; rewrite length_take; lia).
  match goal with |- runs _ ?st _ => set (s1 := st) end.
  assert (ready id s1) as R1 by (destruct R; by split).
  rewrite (proj2 (Z.ltb_lt r 512)) by lia. apply runs_bind.
  eapply runs_mono; [apply (put_byte_ok id s1 (buffer + r) 0 R1); apply Hbuf; unfold in_range; lia|].
  cbn beta. intros _ s2 (R2 & Hsh2 & Hv2 & Hb2).
  assert (cstr_at (w_bytes (world_of s2)) buffer (chunk C pos)) as Hstr.
  { destruct (plain_chunk C pos HC) as [Hpr _]. split; [|eapply list.Forall_impl; [exact Hpr|]; by intros c [_ ?]].
    rewrite Hb2. intros i c Hi. rewrite byte_insert.
    destruct (decide (i < length (chunk C pos))%nat) as [Hlt|Hge].
    - rewrite lookup_app_l in Hi by done. rewrite decide_False by lia. by apply Hb.
    - rewrite lookup_app_r in Hi by lia. apply list_lookup_singleton_Some in Hi as [Hi <-].
      rewrite decide_True by lia. done. }
  apply runs_bind.
  eapply runs_mono; [apply (print_call_ok id s2 buffer (chunk C pos)); [done|done|by apply plain_chunk|lia]|].
  cbn beta. intros _ s3 (R3 & Hf3 & Hs3 & c & Hsh3).
  assert (runs (if negb (r =? 0) then mret (inl tt) else mret (inr tt)) s3
    (λ x s', x = (if decide (chunk C pos = []) then inr tt else inl tt) ∧ s' = s3)) as Hend.
  { rewrite Hr. destruct (chunk C pos) as [|x l] eqn:E; cbn [length].
    - by rewrite decide_True.
    - rewrite decide_False by done. rewrite (proj2 (Z.eqb_neq _ _)) by lia. done. }
  eapply runs_mono; [exact Hend|]. cbn beta. intros x s4 [-> ->]. rewrite Hf3.
  split; [done|]. split; [done|]. split; [by rewrite Hv2, <- Hr|]. split.
  { intros j Hj. rewrite Hv2. by apply Hvo. }
  split; [by rewrite Hs3, Hsh2|]. exists c. by rewrite Hsh3, Hsh2.
Qed.

(** The whole file. *)
Lemma cat_loop_ok id s fd C buffer : ready id s → view (files s) fd = Some (C, 0) → plain C →
  Z.of_nat (length C) < 2 ^ 62 → (∀ x, in_range buffer 512 x → ¬ fs_private g x) →
  runs (loop (cat_round frame regs (u64 fd) buffer) tt) s (λ _ s', ready id s' ∧
    is_Some (view (files s') fd) ∧ (∀ j, j ≠ fd → view (files s') j = view (files s) j) ∧
    (∃ l, concat l = C ∧ Forall (λ t, (length t ≤ 511)%nat) l ∧ shown s' = shown s ++ l) ∧
    ∃ c, shell s' = set_con c (shell s)).
Proof.
  intros R Hv HC HCl Hbuf.
  apply (runs_loop_ghost _ (λ n _ s', ready id s' ∧ (∀ j, j ≠ fd → view (files s') j = view (files s) j) ∧
    (∃ c, shell s' = set_con c (shell s)) ∧
    ∃ pos l, view (files s') fd = Some (C, pos) ∧ 0 ≤ pos ≤ Z.of_nat (length C) ∧
      n = Z.of_nat (length C) - pos ∧ concat l = take (Z.to_nat pos) C ∧
      Forall (λ t, (length t ≤ 511)%nat) l ∧ shown s' = shown s ++ l)) with (n := Z.of_nat (length C)).
  - intros n [] s1 (R1 & Ho1 & (c & Hsh1) & pos & l & Hv1 & Hpos & -> & Hl & Hfl & Hs1).
    eapply runs_mono; [by apply (cat_round_ok id s1 fd C pos buffer)|]. cbn beta.
    intros r s2 (R2 & -> & Hv2 & Ho2 & Hs2 & c2 & Hsh2).
    assert (concat (l ++ [chunk C pos]) = take (Z.to_nat (pos + Z.of_nat (length (chunk C pos)))) C) as Hcat.
    { rewrite concat_app, Hl. cbn [concat]. rewrite app_nil_r. rewrite Z2Nat.inj_add, Nat2Z.id by lia.
      rewrite <- take_take_drop. f_equal. unfold chunk. rewrite length_take.
      destruct (decide (511 ≤ length (drop (Z.to_nat pos) C))%nat).
      - by rewrite Nat.min_l by lia.
      - rewrite Nat.min_r by lia. rewrite !take_ge by lia. done. }
    assert (Forall (λ t, (length t ≤ 511)%nat) (l ++ [chunk C pos])) as Hfl2.
    { apply list.Forall_app. split; [done|]. apply Forall_singleton. unfold chunk. rewrite length_take. lia. }
    assert (length (chunk C pos) = 511 `min` (length C - Z.to_nat pos))%nat as Hlen.
    { unfold chunk. by rewrite length_take, length_drop. }
    assert (∀ j, j ≠ fd → view (files s2) j = view (files s) j) as Ho.
    { intros j Hj. by rewrite Ho2, Ho1. }
    assert (shown s2 = shown s ++ (l ++ [chunk C pos])) as Hshown by (by rewrite Hs2, Hs1, app_assoc).
    assert (∃ c, shell s2 = set_con c (shell s)) as Hshell by (exists c2; by rewrite Hsh2, Hsh1).
    destruct (decide (chunk C pos = [])) as [E|E].
    + split; [done|]. split; [by rewrite Hv2|]. split; [done|]. split; [|done].
      exists (l ++ [chunk C pos]). split; [|done]. rewrite Hcat. apply take_ge.
      rewrite E in Hlen. cbn [length] in Hlen. lia.
    + assert (length (chunk C pos) ≠ 0)%nat by (by intros ?%nil_length_inv).
      eexists. split; [|split; [done|split; [done|split; [done|]]]].
      2: { eexists _, _. split; [exact Hv2|]. split; [lia|]. split; [reflexivity|]. done. }
      lia.
  - split; [done|]. split; [done|]. split; [by exists (con (shell s)); rewrite set_con_id|].
    exists 0, []. rewrite app_nil_r. split_and!; try done; lia.
  - lia.
Qed.

Lemma unlock_call_ok id s : ready id s →
  runs (call 7 0 0 0 0) s (λ _ s', ready id s' ∧ files s' = files s ∧
    shown s' = shown s ++ [[10; 36; 58; 32]] ∧
    owner (shell s') = fst (owner_step (owner (shell s)) (Unlock id))).
Proof.
  intros R. destruct (rd_process _ _ R) as (p & Hp & Hid).
  apply (call_runs s 7 _ _ _ _ (λ _ _ _ _ _, in_prompt prompt_unlockstdin_syscall));
    [by rewrite (rd_table _ _ R)|done|].
  apply runs_zoom. eapply runs_mono; [apply (unlock_syscall_ok id); [by exists p|apply R]|]. cbn beta.
  intros _ s1 (_ & l & h & -> & Ho). split_and!; try done.
  destruct R as [Ht Hv Hc Hpr]. by split.
Qed.

(** ** Theorems *)

(** [C31] The dispatch of system calls: [syscall_init] fills the table, after which
    every number below 8 runs its handler with the arguments in the registers and
    gets its result in [rax]; any other number is not rejected, it jumps through a
    null pointer or a word outside the table. *)
Theorem syscall_dispatch (w : world (F := F)) (e : list (Z * Z)) (num a0 a1 a2 a3 : Z) :
  let s := Sys installed w e in
  syscall_init empty junk no_result (Sys no_handlers w e) = Ok (tt, s) ∧
  call num a0 a1 a2 a3 s =
    if (0 <=? num) && (num <? 8) then
      match installed !! Z.to_nat num with
      | Some (Some h) =>
          bind_result (h frame a0 a1 a2 a3 w) (λ r, Ok (fst r, eoi_done (set_world (snd r) s)))
      | _ => Fault
      end
    else Fault.
Proof.
  cbv zeta. split; [reflexivity|]. destruct ((0 <=? num) && (num <? 8)) eqn:E; bool_to_prop.
  - assert (num ∈ seqZ 0 8) as Hin by (apply elem_of_seqZ; lia).
    repeat (apply elem_of_cons in Hin as [->|Hin]; [by apply call_ok|]). by apply elem_of_nil in Hin.
  - unfold do_syscall, syscall_handler, mbind, M_bind, gets. cbn [bind_result fst snd rdi syscall_handlers].
    destruct ((0 <=? num) && (num <? Z.of_nat (length installed))) eqn:E2; [|done]. bool_to_prop.
    assert (num ∈ seqZ 8 24) as Hin.
    { apply elem_of_seqZ. apply andb_false_iff in E. rewrite Z.leb_gt, Z.ltb_ge in E. cbn in *. lia. }
    repeat (apply elem_of_cons in Hin as [->|Hin]; [done|]). by apply elem_of_nil in Hin.
Qed.

(** The copy call returns the size and copies that many bytes between ranges
    that do not overlap, when the target is not the file system's; no other byte
    changes and no open file is affected. *)
Theorem syscall_memcpy_correct (id : Z) (s : sys (F := F)) (dest src n : Z) :
  ready id s → 0 ≤ n → (dest + n ≤ src ∨ src + n ≤ dest) →
  (∀ x, in_range dest n x → ~ fs_private g x) →
  runs (syscall_memcpy frame regs dest src n) s (λ r s', r = n ∧ ready id s' ∧ shell s' = shell s ∧
    (∀ fd, view (files s') fd = view (files s) fd) ∧
    ∀ x, byte (w_bytes (world_of s')) x =
      if decide (in_range dest n x) then byte (w_bytes (world_of s)) (src + (x - dest))
      else byte (w_bytes (world_of s)) x).
Proof.
  intros R Hn Hd Hp. apply (call_runs s 0 _ _ _ _ _syscall_memcpy); [by rewrite (rd_table _ _ R)|done|].
  unfold runs, _syscall_memcpy, mbind, M_bind, modify. cbn [bind_result fst snd mret M_ret].
  set (m := memcpy (w_bytes (world_of s)) dest src n).
  assert (∀ x, byte m x = if decide (in_range dest n x) then byte (w_bytes (world_of s)) (src + (x - dest))
    else byte (w_bytes (world_of s)) x) as Hm.
  { intros x. subst m. unfold memcpy. rewrite byte_memcpy_loop by lia. unfold in_range.
    rewrite Z2Nat.id by lia. done. }
  destruct (fs_write_ok g (fs (files s)) m (in_range dest n)) as (If & Hb & Ho); [apply R| |done|].
  { intros x Hx. rewrite Hm. by rewrite decide_False. }
  destruct (set_fs_inv g (files s) _ (rd_vfs _ _ R) If ltac:(intros; apply Ho)) as [I' Hv'].
  split_and!; try done.
  - destruct R. by split.
  - intros x. unfold w_bytes at 1. cbn. rewrite Hb. apply Hm.
Qed.

(** Nothing can be opened: every entry of the file system's table is taken, or
    every descriptor has been used. *)
Definition no_descriptor (v : vstate F) : Prop :=
  (∀ j, 0 ≤ j < fs_capacity → is_Some (fs_opened (fs v) j)) ∨ ∀ fd, ¬ first_zero v fd.

(** [cat] from the opening of the file on prints the file: with the system calls installed, on a path that
    names a file of the volume whose contents hold no terminator and no [%], it
    returns, or panics when the heap is exhausted.  What it shows is the contents, in pieces of
    at most 511 bytes, then the prompt sign; the descriptor it used is closed, the
    others are as they were, and the standard input is given back if this process
    held it.  Only when no descriptor can be had it shows its message instead. *)
Lemma cat_file_ok (id : Z) (s : sys (F := F)) (path buffer failed : Z) (name C msg : list Z) :
  ready id s → cstr_at (w_bytes (world_of s)) path name → rel name ≠ [] →
  Z.of_nat (length name) < 2 ^ 32 →
  (∀ x, path ≤ x ≤ path + Z.of_nat (length name) → ~ fs_scratch g x) →
  cstr_at (w_bytes (world_of s)) failed msg → plain msg → (length msg < 1024)%nat →
  (∀ x, failed ≤ x ≤ failed + Z.of_nat (length msg) → ~ fs_scratch g x) →
  (∀ x, in_range buffer 512 x → ~ fs_private g x) →
  fs_find g (rel name) = Some C → plain C →
  safe (cat_file frame regs path buffer failed) s (λ _ s', ready id s' ∧
    owner (shell s') = fst (owner_step (owner (shell s)) (Unlock id)) ∧
    ((∃ fd l, first_zero (files s) fd ∧ concat l = C ∧ Forall (λ t, (length t ≤ 511)%nat) l ∧
        shown s' = shown s ++ l ++ [[10; 36; 58; 32]] ∧
        view (files s') fd = None ∧ ∀ j, j ≠ fd → view (files s') j = view (files s) j) ∨
     (no_descriptor (files s) ∧ shown s' = shown s ++ [msg; [10; 36; 58; 32]] ∧
        ∀ j, j ≠ -1 → view (files s') j = view (files s) j))).
Proof.
  intros R Hpath Hne Hlen Hsc Hfail Hmsg Hml Hfsc Hbuf Hfind HC. unfold cat_file. apply safe_bind.
  apply (call_safe s 1 _ _ _ _ (λ f a b c d, in_vfs (vfs_open_syscall empty junk f a b c d)));
    [by rewrite (rd_table _ _ R)|done|].
  apply safe_zoom. unfold vfs_open_syscall. apply safe_bind.
  eapply safe_mono; [apply (vfs_open_ok g empty junk Hempty _ path name); [apply R|done..]|].
  intros fd v (Iv & Hsame & Hother & Hfd & Hwhy). apply safe_ret.
  match goal with |- safe _ ?st _ => set (s1 := st) end.
  assert (ready id s1) as R1 by (destruct R; by split).
  destruct Hfd as [->|(Hz & C' & HC' & Hview)].
  - change (s32 (u64 (-1)) <? 0) with true. cbv iota. apply safe_bind, runs_safe.
    eapply runs_mono; [apply (print_call_ok id s1 failed msg); [done| |done|done]|].
    { eapply cstr_at_frame; [exact Hsame|done|done]. }
    cbn beta. intros _ s2 (R2 & Hf2 & Hs2 & c & Hsh2). apply safe_bind, runs_safe.
    eapply runs_mono; [by apply unlock_call_ok|]. cbn beta. intros _ s3 (R3 & Hf3 & Hs3 & Ho3).
    apply safe_ret. split; [done|]. split; [by rewrite Ho3, Hsh2|]. right. split_and!.
    + destruct (Hwhy eq_refl) as [Hn|Hn]; [congruence|exact Hn].
    + rewrite Hs3, Hs2, <- app_assoc. done.
    + intros j Hj. rewrite Hf3, Hf2. by apply Hother.
  - pose proof Hz as (Hrange & _). rewrite s32_u64 by lia. rewrite (proj2 (Z.ltb_ge fd 0)) by lia.
    rewrite Hfind in HC'. injection HC' as <-. apply safe_bind, runs_safe.
    destruct (view_slot g v fd C 0 Iv Hview) as (d & V & _).
    destruct (fs_opened_range g _ _ _ (vi_fs _ _ Iv) (vw_file _ _ _ _ V)) as [_ HCl].
    eapply runs_mono; [by apply (cat_loop_ok id s1 fd C buffer)|]. cbn beta.
    intros _ s2 (R2 & [[C2 pos2] Hv2] & Ho2 & (l & Hl & Hfl & Hs2) & c & Hsh2).
    apply safe_bind, runs_safe.
    apply (call_runs s2 2 _ _ _ _ (λ f a b c d, in_vfs (vfs_close_syscall f a b c d)));
      [by rewrite (rd_table _ _ R2)|done|].
    apply runs_zoom. unfold vfs_close_syscall. rewrite s32_u64 by lia. apply runs_bind.
    eapply runs_mono; [apply (vfs_close_ok g _ fd C2 pos2); [apply R2|done]|]. cbn beta.
    intros r v3 (I3 & -> & _ & Hn3 & Ho3 & _). apply runs_ret.
    match goal with |- safe _ ?st _ => set (s3 := st) end.
    assert (ready id s3) as R3 by (destruct R2; by split).
    apply safe_bind, runs_safe. eapply runs_mono; [by apply unlock_call_ok|]. cbn beta.
    intros _ s4 (R4 & Hf4 & Hs4 & Ho4). apply safe_ret. split; [done|].
    split; [rewrite Ho4; change (shell s3) with (shell s2); by rewrite Hsh2|]. left. exists fd, l.
    split_and!; try done.
    + rewrite Hs4. change (shown s3) with (shown s2). by rewrite Hs2, <- app_assoc.
    + by rewrite Hf4.
    + intros j Hj. rewrite Hf4. change (files s3) with v3. rewrite Ho3, Ho2 by done. by apply Hother.
Qed.

End correct.

(** ** Instances with the tar file system *)

#[local] Existing Instance demo_ops.
#[local] Existing Instance demo_view.
#[local] Existing Instance demo_laws.

(** A running process, number 1, that holds the standard input. *)
Definition demo_shell : prompt :=
  Prompt 0 (buffer_of []) 0 1 true 1 demo_console
    (PState demo_space {[7 := demo_proc 1 RUNNING 1 50 0 100]} 7 7 3 20 0 true) keyboard_initial.
Definition demo_sys : sys := Sys (installed 900 demo_local 0) (World demo_vfs demo_shell) [].
Definition demo_regs : execution_context := context_at demo_space 0.

Lemma demo_ready : ready demo_vol 900 demo_local 0 1 demo_sys.
Proof.
  split; [reflexivity|exact (proj1 demo_vfs_inv)|reflexivity|].
  exists (demo_proc 1 RUNNING 1 50 0 100). split; [|reflexivity]. apply lookup_singleton_eq.
Qed.

Lemma plain_check t :
  forallb (λ c, (0 <=? c) && (c <? 256) && negb (c =? 0) && negb (c =? 37)) t = true → plain t.
Proof.
  intros H. rewrite forallb_forall in H.
  split; apply list.Forall_forall; intros c Hc; apply list_elem_of_In, H in Hc; bool_to_prop;
    unfold printable, is_byte; auto.
Qed.

Lemma syscall_memcpy_correct_witness :
  runs (syscall_memcpy 0 demo_regs 300 140 4) demo_sys (λ r s', r = 4 ∧
    ready demo_vol 900 demo_local 0 1 s' ∧ w_prompt (world_of s') = w_prompt (world_of demo_sys) ∧
    (∀ fd, view (w_vfs (world_of s')) fd = view (w_vfs (world_of demo_sys)) fd) ∧
    ∀ x, byte (w_bytes (world_of s')) x =
      if decide (in_range 300 4 x) then byte (w_bytes (world_of demo_sys)) (140 + (x - 300))
      else byte (w_bytes (world_of demo_sys)) x).
Proof.
  apply (syscall_memcpy_correct demo_vol 900 demo_local 0 0 demo_regs 1 demo_sys 300 140 4 demo_ready);
    [lia|lia|]. apply below_archive. lia.
Defined.
