(* ===== verification/Ls.v ===== *)
(** * [ls]: a directory through the file system switch

    [vfs_read_dir] asks the file system for the text of a directory; [ls] shows
    it.  Both are proved against the contract of [Fs] for directories; with the tar
    file system the text of the root directory is the list of the first
    components of the archive's names. *)

From S2P Require Import Prelude Machine Util Heap VmmCorrect KheapCorrect Process Formatter FormatterCorrect Keyboard Fs Vfs Ustar UstarCorrect VfsCorrect Prompt PromptCorrect Syscall SyscallCorrect Listing ListingCorrect.

Section ls.
Context {F : Type} `{FL : FsLaws F} `{FD : !FsDirView F, FDL : !FsDirLaws F} (g : fs_volume).
Context (empty : Z) (junk : Z → list Z) (Hempty : 128 ≤ empty < 2 ^ 64 - 128).
Context (no_result frame : Z) (regs : execution_context).

(** [vfs_read_dir] writes the empty string to the terminal and puts the text of
    the directory in the buffer. *)
Lemma vfs_read_dir_ok (s : vstate F) (o : console) q path buf n off out : terminal o = true →
  vfs_inv g s → fs_listable g (fs s) → cstr_at (fs_bytes (fs s)) q path → path ≠ [47] →
  Z.of_nat (length path) < 2 ^ 32 →
  (∀ x, q ≤ x ≤ q + Z.of_nat (length path) → fs_in_use (fs s) x ∧ ¬ fs_scratch g x) →
  (∀ x, in_range buf (Z.of_nat (length out)) x → fs_in_use (fs s) x ∧ ¬ fs_private g x) →
  fs_list g (rel path) = Some out →
  safe (vfs_read_dir empty junk q buf n off) (s, o) (λ k r, let s' := fst r in
    snd r = on_screen [] o ∧ vfs_inv g s' ∧ k = Z.of_nat (length out) ∧ bytes_at (fs_bytes (fs s')) buf out ∧
    (∀ fd, view s' fd = view s fd) ∧
    ∀ x, fs_in_use (fs s) x → ¬ fs_scratch g x → ¬ in_range buf k x →
      byte (fs_bytes (fs s')) x = byte (fs_bytes (fs s)) x).
Proof.
  intros Ho I L Hq Hne Hlen Hqu Hbuf Hout. unfold vfs_read_dir. apply safe_bind, safe_zoom.
  unfold safe at 1. cbn [snd]. unfold kprintf. rewrite (vkprintf_ok [0] [] []) by (done || cbn; lia).
  apply safe_bind, safe_zoom, runs_safe. cbn [fst].
  eapply runs_mono; [by apply (get_mountpoint_ok g)|]. intros ? s1 (-> & mp & -> & Hr).
  destruct (get_rel_path_ok empty junk Hempty s mp q path Hr Hq Hne) as (q' & Hrel & Hq' & Hle & Hend).
  apply safe_bind, safe_zoom. unfold safe at 1. cbn [fst]. rewrite Hrel. clear Hrel.
  replace (op_read_dir (mp_operations mp)) with (Some (@fs_read_dir F FO)) by (by destruct Hr as (_ & _ & ->)).
  apply safe_bind, safe_zoom, safe_ret. cbn beta. apply safe_zoom, safe_zoom. cbn [fst].
  eapply safe_mono; [apply (fs_read_dir_ok g (fs s) q' (rel path) buf n off out); try done; [apply I|lia|]|].
  { intros x Hx. apply Hqu. lia. }
  cbn beta. intros k f (If & -> & Hb & Hop & Hs).
  destruct (set_fs_inv g s f I If) as [I' Hv]; [by intros; apply Hop|]. split_and!; try done. cbn. unfold on_screen. by rewrite Ho.
Qed.

#[local] Abbreviation ready := (SyscallCorrect.ready g empty junk no_result).
#[local] Abbreviation files s := (w_vfs (world_of s)).
#[local] Abbreviation shell s := (w_prompt (world_of s)).
#[local] Abbreviation shown s := (screen (con (w_prompt (world_of s)))).
#[local] Abbreviation memory s := (w_bytes (world_of s)).

(** The byte put in front of the listing leaves it possible. *)
Lemma put_byte_listable id (s : sys (F := F)) a c : ready id s → ¬ fs_private g a → ¬ fs_constant a →
  fs_listable g (fs (files s)) →
  runs (put_byte a c) s (λ _ s', (ready id s' ∧ shell s' = shell s ∧
    (∀ fd, view (files s') fd = view (files s) fd) ∧ memory s' = <[a := c]> (memory s)) ∧
    fs_listable g (fs (files s')) ∧ ∀ x, fs_in_use (fs (files s)) x → fs_in_use (fs (files s')) x).
Proof.
  intros R Hp Hc L. pose proof (put_byte_ok g empty junk no_result id s a c R Hp) as H.
  apply runs_inv in H as (u & s' & E & H). eapply runs_ok; [exact E|]. split; [exact H|].
  unfold put_byte, in_world, zoom, modify in E. cbn [bind_result fst snd] in E. injection E as <- <-.
  apply (fs_listable_write g (fs (files s)) _ L). intros x Hx. rewrite byte_insert, decide_False; [done|].
  by intros ->.
Qed.

(** The text as it is terminated in the buffer: on its last byte. *)
Definition ls_text (out : list Z) : list Z := take (length out) (10 :: out).

Lemma listing_string m b out :
  byte m b = 10 → bytes_at m (b + 1) out → Forall (λ c, c ≠ 0) out →
  cstr_at (<[b + Z.of_nat (length out) := 0]> m) b (ls_text out).
Proof.
  intros H10 Hb Hz. assert (length (ls_text out) = length out) as El.
  { unfold ls_text. rewrite length_take. cbn. lia. }
  rewrite <- El. apply bytes_at_end.
  - assert (bytes_at m b (10 :: out)) as Ha.
    { apply (bytes_at_app m b [10] out). split; [|exact Hb].
      intros i c Hi. destruct i as [|i]; [|by destruct i]. cbn in Hi. simplify_eq. by rewrite Z.add_0_r. }
    rewrite <- (take_drop (length out) (10 :: out)) in Ha. by apply bytes_at_app in Ha as [Ha _].
  - unfold ls_text. apply Forall_take. by constructor.
Qed.

Lemma plain_ls_text out : plain out → plain (ls_text out).
Proof.
  intros [H1 H2]. unfold ls_text.
  split; apply Forall_take; (constructor; [cbn; unfold printable, is_byte; lia|done]).
Qed.

(** [ls] from the reading of the directory on: with the system calls
    installed and a text of at most 1023 bytes for the directory, without [%], it
    returns, or panics when the heap is exhausted.  What it shows is the empty
    write of [vfs_read_dir], a line feed and the text without its last byte (its last line feed), nothing at all for an
    empty text, and then the prompt sign; every open descriptor is as it was,
    and the standard input is given back if this process held it. *)
Lemma ls_dir_ok (id : Z) (s : sys (F := F)) (path buffer : Z) (name out : list Z) :
  ready id s → fs_listable g (fs (files s)) → cstr_at (memory s) path name → name ≠ [47] →
  Z.of_nat (length name) < 2 ^ 32 →
  (∀ x, path ≤ x ≤ path + Z.of_nat (length name) →
     fs_in_use (fs (files s)) x ∧ ~ fs_scratch g x ∧ x ≠ buffer) →
  (∀ x, in_range buffer 1024 x →
     fs_in_use (fs (files s)) x ∧ ~ fs_private g x ∧ ~ fs_scratch g x ∧ ~ fs_constant x) →
  fs_list g (rel name) = Some out → (length out < 1024)%nat → plain out →
  safe (ls_dir empty junk frame regs path buffer) s (λ _ s', ready id s' ∧
    shown s' = shown s ++ [[]; ls_text out; [10; 36; 58; 32]] ∧
    owner (shell s') = fst (owner_step (owner (shell s)) (Unlock id)) ∧
    ∀ j, view (files s') j = view (files s) j).
Proof.
  intros R L Hpath Hne Hlen Hpu Hbuf Hout Hmax Hplain. unfold ls_dir.
  destruct (Hbuf buffer) as (Hbu & Hbp & Hbs & Hbc); [unfold in_range; lia|].
  apply safe_bind, runs_safe. eapply runs_mono; [by apply (put_byte_listable id s buffer 10)|].
  cbn beta. intros _ s1 ((R1 & Hsh1 & Hv1 & Hm1) & L1 & Hu1). apply safe_bind, safe_zoom, safe_zoom.
  unfold vfs_read_dir_syscall.
  eapply safe_mono; [apply (vfs_read_dir_ok (files s1) (con (shell s1)) path name (buffer + 1) 1023 0 out); try done; [apply R1|apply R1|..]|].
  { change (fs_bytes (fs (files s1))) with (memory s1). rewrite Hm1. apply cstr_at_insert_other; [done|].
    unfold in_range. intros Hx. apply (Hpu buffer); [lia|done]. }
  { intros x Hx. destruct (Hpu x Hx) as (? & ? & _). auto. }
  { intros x Hx. unfold in_range in *. destruct (Hbuf x) as (? & ? & _); [lia|auto]. }
  cbn beta. intros k [v o] (Hcon & Iv & -> & Hb2 & Hv2 & Hs2). cbn [fst snd] in *. subst o.
  match goal with |- safe _ ?st _ => set (s2 := st) end.
  assert (ready id s2) as R2 by (destruct R1; by split).
  rewrite (proj2 (Z.ltb_lt _ _)) by lia. apply safe_bind, runs_safe.
  eapply runs_mono; [apply (put_byte_ok g empty junk no_result id s2); [done|]|].
  { apply Hbuf. unfold in_range. lia. }
  cbn beta. intros _ s3 (R3 & Hsh3 & Hv3 & Hm3). apply safe_bind, runs_safe.
  eapply runs_mono; [apply (print_call_ok g empty junk no_result frame regs id s3 buffer (ls_text out)); [done| |by apply plain_ls_text|]|].
  { rewrite Hm3. apply listing_string; [|exact Hb2|eapply list.Forall_impl; [exact (proj1 Hplain)|by intros c [_ ?]]].
    change (memory s2) with (fs_bytes (fs v)). rewrite Hs2; [|by apply Hu1|done|unfold in_range; lia].
    change (fs_bytes (fs (files s1))) with (memory s1). rewrite Hm1, byte_insert, decide_True by done. done. }
  { unfold ls_text. rewrite length_take. lia. }
  cbn beta. intros _ s4 (R4 & Hf4 & Hs4 & c & Hsh4). apply safe_bind, runs_safe.
  eapply runs_mono; [by apply (unlock_call_ok g empty junk no_result frame regs id s4)|].
  cbn beta. intros _ s5 (R5 & Hf5 & Hs5 & Ho5). apply safe_ret. split_and!; [done|..].
  - rewrite Hs5, Hs4, Hsh3. change (shell s2) with (set_con (on_screen [] (con (shell s1))) (shell s1)).
    cbn. by rewrite Hsh1, <- !app_assoc.
  - rewrite Ho5, Hsh4. cbn. rewrite Hsh3. rewrite <- Hsh1. reflexivity.
  - intros j. rewrite Hf5, Hf4, Hv3. change (files s2) with v. by rewrite Hv2, Hv1.
Qed.

End ls.

(** ** Instances with the tar file system *)

#[local] Existing Instance demo_ops.
#[local] Existing Instance demo_view.
#[local] Existing Instance demo_laws.
#[local] Instance demo_dir_view : FsDirView ustate := ustar_dir_view demo_names 900 (replicate 50 0).
#[local] Instance demo_dir_laws : FsDirLaws ustate := ustar_dir_laws demo_names 900 (replicate 50 0).

Lemma demo_vfs_offset : (4294967296 <? hhdm_offset (heap (fs demo_vfs))) = true.
Proof. vm_compute. reflexivity. Qed.

Lemma demo_vfs_used x : x ≤ 4294967296 → fs_in_use (fs demo_vfs) x.
Proof.
  intros Hx. apply used_low. pose proof (proj1 (Z.ltb_lt _ _) demo_vfs_offset). lia.
Qed.

Lemma demo_vfs_listable : fs_listable demo_vol (fs demo_vfs).
Proof.
  split.
  - split; [|unfold in_range, demo_names; lia]. apply cstr_at_nil. vm_compute. reflexivity.
  - intros x Hx. apply demo_vfs_used. exact (demo_region x Hx).
Qed.
