(* ===== verification/Shell.v ===== *)
(** * [cat] and [ls] as whole programs

    Both programs take the standard input, read a path from the keyboard with an
    echo, and work on the file or directory.  The loop that reads the path is
    proved to be a line editor on lists of characters; with the lemmas on the
    rest of the programs this gives what they do from the first to the last
    instruction. *)

From S2P Require Import Prelude Machine Util Heap VmmCorrect KheapCorrect Process Formatter FormatterCorrect Keyboard Fs Vfs Ustar UstarCorrect VfsCorrect Prompt PromptCorrect Syscall SyscallCorrect Listing ListingCorrect Ls.

(** ** The specification: a line editor

    A backspace takes the last character away; on an empty line it is a
    character like any other. *)

Definition rubs_out (line : list Z) (c : Z) : bool := (c =? 8) && bool_decide (line ≠ []).
Definition type_key (line : list Z) (c : Z) : list Z :=
  if rubs_out line c then removelast line else line ++ [c].
Definition echo (line : list Z) (c : Z) : list Z := if rubs_out line c then [8; 32; 8] else [c].

(** The line the keys type up to the first line feed. *)
Fixpoint typed (line : list Z) (ks : list (option Z)) : option (list Z) :=
  match ks with
  | [] => None
  | None :: ks' => typed line ks'
  | Some c :: ks' => if c =? 10 then Some line else typed (type_key line c) ks'
  end.

(** What is shown meanwhile. *)
Fixpoint echoes (line : list Z) (ks : list (option Z)) : list (list Z) :=
  match ks with
  | [] => []
  | None :: ks' => echoes line ks'
  | Some c :: ks' => if c =? 10 then [] else echo line c :: echoes (type_key line c) ks'
  end.

(** The line never gets longer than the array. *)
Fixpoint fits (line : list Z) (ks : list (option Z)) : bool :=
  match ks with
  | [] => true
  | None :: ks' => fits line ks'
  | Some c :: ks' =>
      if c =? 10 then true
      else (Z.of_nat (length (type_key line c)) <=? 512) && fits (type_key line c) ks'
  end.

Definition keys_plain (ks : list (option Z)) : Prop :=
  Forall (λ k, match k with Some c => plain [c] | None => True end) ks.

(** An array of 512 bytes holds the line and zeros behind it. *)
Definition line_in (m : gmap Z Z) (path : Z) (line : list Z) : Prop :=
  ∀ i, 0 ≤ i < 512 → byte m (path + i) = default 0 (line !! Z.to_nat i).

(** The test of the code on the index. *)
Lemma rubs_out_index line c : rubs_out line c = (c =? 8) && (Z.of_nat (length line) >? 0).
Proof.
  unfold rubs_out. f_equal. destruct line; [done|]. rewrite bool_decide_eq_true_2 by done.
  symmetry. apply Z.gtb_lt. cbn. lia.
Qed.

Lemma rubs_out_nonempty line c : rubs_out line c = true → line ≠ [].
Proof. unfold rubs_out. rewrite andb_true_iff, bool_decide_eq_true. tauto. Qed.

Lemma bind_faults {S A B} (c : M S A) (k : A → M S B) s a s' :
  c s = Ok (a, s') → k a s' = Fault → (c ≫= k) s = Fault.
Proof. unfold mbind, M_bind. by intros ->. Qed.

Lemma line_in_snoc m path line c : is_byte c → line_in m path line → (length line < 512)%nat →
  line_in (<[path + Z.of_nat (length line) := c]> m) path (line ++ [c]).
Proof.
  intros Hc H Hl i Hi. rewrite byte_insert. case_decide as E.
  - replace (Z.to_nat i) with (length line) by lia. rewrite list_lookup_middle by done.
    cbn. apply u8_small. exact Hc.
  - rewrite (H i Hi). destruct (decide (Z.to_nat i < length line)%nat).
    + by rewrite lookup_app_l.
    + rewrite !lookup_ge_None_2; [done|rewrite length_app; cbn; lia|lia].
Qed.

Lemma line_in_removelast m path line c : line_in m path (line ++ [c]) →
  line_in (<[path + Z.of_nat (length line) := 0]> m) path line.
Proof.
  intros H i Hi. rewrite byte_insert. case_decide as E.
  - by rewrite lookup_ge_None_2 by lia.
  - rewrite (H i Hi). destruct (decide (Z.to_nat i < length line)%nat).
    + by rewrite lookup_app_l.
    + rewrite !lookup_ge_None_2; [done|lia|rewrite length_app; cbn; lia].
Qed.

Lemma line_in_insert m path line a v : ¬ in_range path 512 a → line_in m path line →
  line_in (<[a := v]> m) path line.
Proof.
  intros Ha H i Hi. rewrite byte_insert, decide_False; [by apply H|]. unfold in_range in Ha. lia.
Qed.

Lemma line_in_cstr m path line : line_in m path line → (length line < 512)%nat →
  Forall (λ c, c ≠ 0) line → cstr_at m path line.
Proof.
  intros H Hl Hz. split; [|done]. intros i c Hi. pose proof (lookup_lt_Some _ _ _ Hi) as Hlt.
  rewrite length_app in Hlt. cbn in Hlt. rewrite H by lia. rewrite Nat2Z.id.
  destruct (decide (i < length line)%nat).
  - rewrite lookup_app_l in Hi by done. by rewrite Hi.
  - rewrite lookup_app_r in Hi by lia. apply list_lookup_singleton_Some in Hi as [_ <-].
    by rewrite lookup_ge_None_2 by lia.
Qed.

(** ** The loop that reads the path *)

Section reading.
Context {F : Type} `{FL : FsLaws F} (g : fs_volume).
Context (empty : Z) (junk : Z → list Z) (no_result frame : Z) (regs : execution_context).
(** What else the client wants kept: [J], by writes to the two arrays. *)
Context (J : F → Prop) (path p erase : Z).
Context (HJ : ∀ f a c, in_range path 512 a ∨ in_range p 2 a → J f →
  J (fs_set_bytes (<[a := c]> (fs_bytes f)) f)).
Context (Harrays : ∀ x, in_range path 512 x ∨ in_range p 2 x → ¬ fs_private g x).
Context (Hapart : ∀ x, in_range path 512 x → ¬ in_range p 2 x).
Context (Herase : ∀ x, in_range erase 4 x → ¬ in_range path 512 x ∧ ¬ in_range p 2 x).

Implicit Types s : sys (F := F).
#[local] Abbreviation ready := (SyscallCorrect.ready g empty junk no_result).
#[local] Abbreviation call := (do_syscall frame regs).
#[local] Abbreviation files s := (w_vfs (world_of s)).
#[local] Abbreviation shell s := (w_prompt (world_of s)).
#[local] Abbreviation shown s := (screen (con (w_prompt (world_of s)))).
#[local] Abbreviation memory s := (w_bytes (world_of s)).

Definition idle_keyboard (k : keyboard_state) : Prop := keyboard_lock k = 0 ∧ keyboard_has_char k = false.

(** What has changed since [s0], but for the path and the console. *)
Record since (id : Z) (s0 s : sys (F := F)) : Prop := {
  si_ready : ready id s;
  si_idle : idle_keyboard (kbd (shell s));
  si_owner : owner (shell s) = owner (shell s0);
  si_views : ∀ fd, view (files s) fd = view (files s0) fd;
  si_table : vfs_opened_files (files s) = vfs_opened_files (files s0);
  si_opened : ∀ j, fs_opened (fs (files s)) j = fs_opened (fs (files s0)) j;
  si_kept : J (fs (files s));
  si_erase : cstr_at (memory s) erase [8; 32; 8];
  si_frame : same_outside (λ x, in_range path 512 x ∨ in_range p 2 x) (memory s0) (memory s);
}.

(** A step that changes the prompt only. *)
Lemma since_prompt id s0 s c k e : since id s0 s → terminal c = true → idle_keyboard k →
  since id s0 (Sys (syscall_handlers s) (World (files s) (set_con c (set_kbd k (shell s)))) e).
Proof. intros [[] ? ? ? ? ? ? ? ?] Hc Hk. by split. Qed.

(** A byte of one of the arrays. *)
Lemma since_byte id s0 s a c : since id s0 s → in_range path 512 a ∨ in_range p 2 a →
  runs (put_byte a c) s (λ _ s', since id s0 s' ∧ shown s' = shown s ∧
    memory s' = <[a := c]> (memory s)).
Proof.
  intros [R Hk Ho Hv Ht Hop Hj He Hf] Ha.
  pose proof (put_byte_ok g empty junk no_result id s a c R (Harrays a Ha)) as H.
  apply runs_inv in H as (u & s' & E & R' & Hsh & Hv' & Hm). eapply runs_ok; [exact E|].
  unfold put_byte, in_world, zoom, modify in E. cbn [bind_result fst snd] in E. injection E as <- <-.
  split_and!; [|done..]. split; [done..| | | | | |].
  - intros fd. by rewrite Hv'.
  - exact Ht.
  - intros j. rewrite <- Hop. apply (fs_write_ok g (fs (files s)) _ (λ x, x = a) (vi_fs _ _ (rd_vfs _ _ _ _ _ _ R))).
    + intros x Hx. unfold w_bytes. rewrite byte_insert. by rewrite decide_False by congruence.
    + intros x ->. by apply Harrays.
  - apply HJ; done.
  - rewrite Hm. apply cstr_at_insert_other; [done|]. intros Hx. destruct (Herase a Hx); tauto.
  - intros x Hx. rewrite Hm, byte_insert, decide_False by (intros ->; done). by apply Hf.
Qed.

(** A string that is shown. *)
Lemma since_print id s0 s q t : since id s0 s → cstr_at (memory s) q t → plain t →
  (length t < 1024)%nat →
  runs (call 4 q 0 0 0) s (λ _ s', since id s0 s' ∧ shown s' = shown s ++ [t] ∧ memory s' = memory s).
Proof.
  intros Hs Hq Hp Hl. pose proof (si_ready _ _ _ Hs) as R.
  apply (call_runs frame regs s 4 _ _ _ _ (print_handler no_result)); [by rewrite (rd_table _ _ _ _ _ _ R)|done|].
  unfold runs. rewrite (print_handler_ok no_result _ _ _ _ q t) by (done || apply R).
  split_and!; [|done..].
  refine (since_prompt id s0 s (on_screen t (con (shell s))) (kbd (shell s)) _ Hs _ _); apply Hs || apply R.
Qed.

(** One poll of the keyboard: the key that was delivered, if any. *)
Definition delivered (k : option Z) (s : sys (F := F)) : sys (F := F) :=
  match k with
  | Some c => set_world (set_prompt (set_kbd (set_char c true (kbd (shell s))) (shell s)) (world_of s)) s
  | None => s
  end.

Lemma key_delivered k s : deliver k s = Ok (tt, delivered k s).
Proof. by destruct k, s as [? [? []]]. Qed.

Lemma since_poll id s0 s k : since id s0 s →
  runs (call 5 0 0 0 0) (delivered k s) (λ r s', since id s0 s' ∧ shown s' = shown s ∧
    memory s' = memory s ∧ r = default (u64 (-1)) k).
Proof.
  intros Hs. pose proof (si_ready _ _ _ Hs) as R. destruct (si_idle _ _ _ Hs) as [Hl Hn].
  apply (call_runs frame regs _ 5 _ _ _ _ (λ _ _ _ _ _, in_prompt (on_kbd keyboard_getch_syscall)));
    [replace (syscall_handlers (delivered k s)) with (syscall_handlers s) by (by destruct k);
     by rewrite (rd_table _ _ _ _ _ _ R)|done|].
  apply runs_zoom, runs_zoom. unfold keyboard_getch_syscall, keyboard_checkch.
  apply runs_bind, runs_gets. destruct k as [c|]; cbn [delivered].
  - cbn. eapply runs_ok; [by apply getch_free|]. split_and!; [|done..].
    refine (since_prompt id s0 s (con (shell s)) (Keyboard 0 false 0 (keyboard (kbd (shell s)))) _ Hs _ _);
      [apply R|done].
  - rewrite Hn. apply runs_ret. split_and!; [|done..].
    refine (since_prompt id s0 s (con (shell s)) (kbd (shell s)) _ Hs _ _); [apply R|done].
Qed.

(** A character is put behind the line and shown. *)
Lemma char_ok id s0 s line c : since id s0 s → line_in (memory s) path line →
  (length line < 512)%nat → plain [c] →
  runs (put_byte p (u8 c);; put_byte (p + 1) 0;;
        (if Z.of_nat (length line) <? 512 then put_byte (path + Z.of_nat (length line)) (u8 c) else fault);;
        call 4 p 0 0 0;;
        mret (inl (B := Z) (u16 (Z.of_nat (length line) + 1)))) s (λ r s', since id s0 s' ∧
    line_in (memory s') path (line ++ [c]) ∧ shown s' = shown s ++ [[c]] ∧
    r = inl (Z.of_nat (length (line ++ [c])))).
Proof.
  intros Hs Hline Hl Hc. assert (is_byte c ∧ c ≠ 0) as [Hb Hz] by (by destruct Hc as [[Hc _]%list.Forall_cons_1 _]).
  rewrite (u8_small c Hb), (proj2 (Z.ltb_lt _ _)) by lia.
  assert (¬ in_range path 512 p ∧ ¬ in_range path 512 (p + 1)) as [Hp0 Hp1].
  { split; intros Hx; apply (Hapart _ Hx); unfold in_range; lia. }
  apply runs_bind. eapply runs_mono; [apply (since_byte id s0 s p c Hs); unfold in_range; lia|].
  intros _ s1 (Hs1 & Hsh1 & Hm1). apply runs_bind.
  eapply runs_mono; [apply (since_byte id s0 s1 (p + 1) 0 Hs1); unfold in_range; lia|].
  intros _ s2 (Hs2 & Hsh2 & Hm2). apply runs_bind.
  eapply runs_mono; [apply (since_byte id s0 s2 (path + Z.of_nat (length line)) c Hs2); unfold in_range; lia|].
  intros _ s3 (Hs3 & Hsh3 & Hm3). apply runs_bind.
  eapply runs_mono; [apply (since_print id s0 s3 p [c] Hs3); [|done|cbn; lia]|].
  { rewrite Hm3, Hm2, Hm1. apply cstr_at_insert_other.
    - apply (bytes_at_end _ p [c]); [|by constructor]. intros i x Hi.
      apply list_lookup_singleton_Some in Hi as [-> <-]. rewrite Z.add_0_r, byte_insert, decide_True by done.
      by apply u8_small.
    - intros Hx. apply (Hapart (path + Z.of_nat (length line))); [unfold in_range; lia|exact Hx]. }
  intros _ s4 (Hs4 & Hsh4 & Hm4). apply runs_ret. split_and!; [done| | |].
  - rewrite Hm4, Hm3. apply line_in_snoc; [done| |done]. rewrite Hm2, Hm1.
    by apply line_in_insert, line_in_insert.
  - by rewrite Hsh4, Hsh3, Hsh2, Hsh1.
  - rewrite u16_small, length_app by lia. cbn. f_equal. lia.
Qed.

(** The last character is taken away. *)
Lemma rub_ok id s0 s line c : since id s0 s → line_in (memory s) path (line ++ [c]) →
  (length line < 512)%nat →
  runs (let index := u16 (Z.of_nat (length (line ++ [c])) - 1) in
        (if index <? 512 then put_byte (path + index) 0 else fault);;
        call 4 erase 0 0 0;;
        mret (inl (B := Z) index)) s (λ r s', since id s0 s' ∧
    line_in (memory s') path line ∧ shown s' = shown s ++ [[8; 32; 8]] ∧ r = inl (Z.of_nat (length line))).
Proof.
  intros Hs Hline Hl. rewrite length_app. cbn [length].
  replace (Z.of_nat (length line + 1) - 1) with (Z.of_nat (length line)) by lia.
  cbv zeta. rewrite u16_small, (proj2 (Z.ltb_lt _ _)) by lia.
  apply runs_bind. eapply runs_mono; [apply (since_byte id s0 s _ 0 Hs); unfold in_range; lia|].
  intros _ s1 (Hs1 & Hsh1 & Hm1). apply runs_bind.
  eapply runs_mono; [apply (since_print id s0 s1 erase [8; 32; 8] Hs1); [apply Hs1| |cbn; lia]|].
  { apply plain_check. reflexivity. }
  intros _ s2 (Hs2 & Hsh2 & Hm2). apply runs_ret. split_and!; [done| | |done].
  - rewrite Hm2, Hm1. by apply (line_in_removelast _ _ _ c).
  - by rewrite Hsh2, Hsh1.
Qed.

(** One poll is one step of the editor. *)
Lemma path_round_ok id s0 s line k : since id s0 s → line_in (memory s) path line →
  (length line ≤ 512)%nat → (∀ c, k = Some c → plain [c] ∧ (c = 10 ∨ (length (type_key line c) ≤ 512)%nat)) →
  runs (path_round frame regs path p erase (Z.of_nat (length line))) (delivered k s) (λ r s',
    since id s0 s' ∧
    match k with
    | None => r = inl (Z.of_nat (length line)) ∧ line_in (memory s') path line ∧ shown s' = shown s
    | Some c =>
        if c =? 10 then r = inr (Z.of_nat (length line)) ∧ line_in (memory s') path line ∧ shown s' = shown s
        else r = inl (Z.of_nat (length (type_key line c))) ∧
          line_in (memory s') path (type_key line c) ∧ shown s' = shown s ++ [echo line c]
    end).
Proof.
  intros Hs Hline Hl Hk. unfold path_round. apply runs_bind.
  eapply runs_mono; [by apply since_poll|]. intros r s1 (Hs1 & Hsh1 & Hm1 & ->).
  destruct k as [c|]; cbn [default from_option]; [change (Datatypes.id c) with c|by rewrite Z.eqb_refl; apply runs_ret; rewrite Hm1, Hsh1].
  destruct (Hk c eq_refl) as [Hp Hfit]. assert (is_byte c) as Hb by (by destruct Hp as [[[Hb _] _]%list.Forall_cons_1 _]).
  rewrite (proj2 (Z.eqb_neq c (u64 (-1)))) by (unfold is_byte in Hb; change (u64 (-1)) with 18446744073709551615; lia).
  cbn [negb]. destruct (c =? 10) eqn:E10; [by apply runs_ret; rewrite Hm1, Hsh1|]. bool_to_prop.
  destruct Hfit as [->|Hfit]; [done|].
  unfold type_key, echo in *. rewrite <- Hsh1. rewrite <- Hm1 in Hline.
  rewrite <- rubs_out_index. destruct (rubs_out line c) eqn:Er.
  - destruct line as [|x line _] using rev_ind; [by destruct (rubs_out_nonempty [] c Er)|]. rewrite removelast_last in *.
    rewrite length_app in Hl. cbn in Hl. eapply runs_mono; [apply (rub_ok id s0 s1 line x); [done..|lia]|].
    cbn beta. tauto.
  - rewrite length_app in Hfit. cbn in Hfit. eapply runs_mono; [apply (char_ok id s0 s1 line c); [done..|lia|done]|].
    cbn beta. tauto.
Qed.

(** The loop is the editor. *)
Lemma read_path_ok id s0 ks : keys_plain ks → ∀ s line name,
  since id s0 s → line_in (memory s) path line → (length line ≤ 512)%nat →
  fits line ks = true → typed line ks = Some name →
  runs (read_path frame regs path p erase ks (Z.of_nat (length line))) s (λ r s',
    since id s0 s' ∧ r = Z.of_nat (length name) ∧ line_in (memory s') path name ∧
    shown s' = shown s ++ echoes line ks).
Proof.
  induction 1 as [|k ks Hk _ IH]; intros s line name Hs Hline Hl Hfits Hname; [done|].
  cbn [read_path]. apply runs_bind. eapply runs_ok; [apply key_delivered|]. apply runs_bind.
  eapply runs_mono; [apply (path_round_ok id s0 s line k); [done..|]|].
  { intros c ->. split; [done|]. cbn in Hfits. destruct (c =? 10) eqn:E; bool_to_prop; [by left|]. right. lia. }
  cbn beta. intros r s1 [Hs1 H]. destruct k as [c|]; cbn [fits typed echoes] in *.
  - destruct (c =? 10).
    + destruct H as (-> & H & <-). apply runs_ret. rewrite app_nil_r. by simplify_eq.
    + apply andb_true_iff in Hfits as [Hfit Hfits]. bool_to_prop. destruct H as (-> & H & Hsh).
      eapply runs_mono; [apply (IH s1 (type_key line c) name); [done..|lia|done|done]|].
      cbn beta. intros r s2 (Hs2 & -> & Hl2 & ->). by rewrite Hsh, <- app_assoc.
  - destruct H as (-> & H & <-). by apply IH.
Qed.

(** The 513th character is written past the end of the array. *)
Lemma path_round_overruns id s0 s line c : since id s0 s → (length line ≤ 512)%nat → plain [c] →
  c ≠ 10 → (512 < length (type_key line c))%nat →
  path_round frame regs path p erase (Z.of_nat (length line)) (delivered (Some c) s) = Fault.
Proof.
  intros Hs Hl Hp Hc Hfit. assert (is_byte c) as Hb by (by destruct Hp as [[[Hb _] _]%list.Forall_cons_1 _]).
  destruct (runs_inv _ _ _ (since_poll id s0 s (Some c) Hs)) as (r & s1 & E1 & Hs1 & _ & _ & ->).
  unfold path_round. apply (bind_faults _ _ _ _ _ E1). cbn [default from_option].
  change (Datatypes.id c) with c.
  rewrite (proj2 (Z.eqb_neq c (u64 (-1)))) by (unfold is_byte in Hb; change (u64 (-1)) with 18446744073709551615; lia).
  rewrite (proj2 (Z.eqb_neq c 10)) by done. cbn [negb]. unfold type_key in Hfit.
  rewrite <- rubs_out_index. destruct (rubs_out line c) eqn:Er.
  { destruct line as [|x line _] using rev_ind; [cbn in Hfit; lia|].
    rewrite removelast_last in Hfit. rewrite length_app in Hl. cbn in Hl. lia. }
  destruct (runs_inv _ _ _ (since_byte id s0 s1 p (u8 c) Hs1 ltac:(unfold in_range; lia))) as (u & s2 & E2 & Hs2 & _).
  apply (bind_faults _ _ _ _ _ E2).
  destruct (runs_inv _ _ _ (since_byte id s0 s2 (p + 1) 0 Hs2 ltac:(unfold in_range; lia))) as (u3 & s3 & E3 & Hs3 & _).
  apply (bind_faults _ _ _ _ _ E3). rewrite length_app in Hfit. cbn in Hfit.
  by rewrite (proj2 (Z.ltb_ge _ _)) by lia.
Qed.

Lemma read_path_overruns id s0 ks : keys_plain ks → ∀ s line,
  since id s0 s → line_in (memory s) path line → (length line ≤ 512)%nat →
  fits line ks = false →
  read_path frame regs path p erase ks (Z.of_nat (length line)) s = Fault.
Proof.
  induction 1 as [|k ks Hk _ IH]; intros s line Hs Hline Hl Hfits; [done|].
  cbn [read_path]. apply (bind_faults _ _ _ _ _ (key_delivered k s)).
  destruct k as [c|]; cbn [fits] in Hfits.
  - destruct (c =? 10) eqn:E10; [done|]. bool_to_prop.
    destruct (decide (512 < length (type_key line c))%nat) as [Hlong|Hshort].
    { unfold mbind, M_bind. by rewrite (path_round_overruns id s0 s line c). }
    destruct (runs_inv _ _ _ (path_round_ok id s0 s line (Some c) Hs Hline Hl
      ltac:(intros ? [= <-]; split; [done|right; lia]))) as (r & s1 & E1 & Hs1 & H).
    apply (bind_faults _ _ _ _ _ E1). rewrite (proj2 (Z.eqb_neq _ _) E10) in H. destruct H as (-> & H & _).
    rewrite (proj2 (Z.leb_le _ _)) in Hfits by lia. apply IH; try done. lia.
  - destruct (runs_inv _ _ _ (path_round_ok id s0 s line None Hs Hline Hl ltac:(done)))
      as (r & s1 & E1 & Hs1 & -> & H & _). apply (bind_faults _ _ _ _ _ E1). by apply IH.
Qed.

(** ** Taking the standard input and reading the path *)

(** What the keyboard and the arrays of the program have to be. *)
Record starts (id : Z) (ks : list (option Z)) (s : sys (F := F)) : Prop := {
  st_ready : ready id s;
  st_free : stdin_lock (shell s) = false;
  st_idle : idle_keyboard (kbd (shell s));
  st_path : line_in (memory s) path [];
  st_erase : cstr_at (memory s) erase [8; 32; 8];
  st_kept : J (fs (files s));
  st_keys : keys_plain ks;
}.

Lemma take_input_ok id s : ready id s → stdin_lock (shell s) = false →
  loop (lock_round frame regs) tt s
  = Ok (tt, eoi_done (set_world (set_prompt (set_stdin true id (shell s)) (world_of s)) s)).
Proof.
  intros R Hf. eassert (runs (loop (lock_round frame regs) tt) s (λ _ s', s' = _)) as H.
  { apply (runs_loop_ghost _ (λ _ _ s', s' = s)) with (n := 0); [|done|lia]. intros ? [] ? ->.
    unfold lock_round. apply runs_bind.
    apply (call_runs frame regs s 6 _ _ _ _ (λ _ _ _ _ _, in_prompt prompt_lockstdin_syscall));
      [by rewrite (rd_table _ _ _ _ _ _ R)|done|].
    apply runs_zoom. eapply runs_ok; [apply (lock_syscall_ok id); [apply R|done]|]. apply runs_ret. reflexivity. }
  apply runs_inv in H as ([] & s' & E & ->). exact E.
Qed.

(** The state the lock loop leaves. *)
Lemma starts_since id ks s : starts id ks s →
  let s0 := eoi_done (set_world (set_prompt (set_stdin true id (shell s)) (world_of s)) s) in
  since id s0 s0.
Proof. intros [[] Hf Hi Hp He Hj Hk]. split; try done. Qed.

(** Both programs begin with this. *)
Lemma get_line_ok {B} (k : Z → M (sys (F := F)) B) id ks name s (Q : B → sys → Prop) :
  starts id ks s → fits [] ks = true → typed [] ks = Some name →
  (∀ s', ready id s' → owner (shell s') = Some id → (∀ fd, view (files s') fd = view (files s) fd) →
     vfs_opened_files (files s') = vfs_opened_files (files s) →
     (∀ j, fs_opened (fs (files s')) j = fs_opened (fs (files s)) j) →
     J (fs (files s')) → line_in (memory s') path name → shown s' = shown s ++ echoes [] ks →
     same_outside (λ x, in_range path 512 x ∨ in_range p 2 x) (memory s) (memory s') →
     safe (k (Z.of_nat (length name))) s' Q) →
  safe (loop (lock_round frame regs) tt;; i ← read_path frame regs path p erase ks 0; k i) s Q.
Proof.
  intros Hs Hfits Hname Hk. apply safe_bind. unfold safe at 1.
  rewrite (take_input_ok id s) by apply Hs. apply safe_bind, runs_safe.
  eapply runs_mono; [apply (read_path_ok id _ ks (st_keys _ _ _ Hs) _ [] name (starts_since id ks s Hs)); try done;
    [apply Hs|cbn; lia]|].
  cbn beta. intros r s' ([R Hi Ho Hv Ht Hop Hj He Hf] & -> & Hl & Hsh). by apply Hk.
Qed.

Lemma get_line_faults {B} (k : Z → M (sys (F := F)) B) id ks s :
  starts id ks s → fits [] ks = false →
  (loop (lock_round frame regs) tt;; i ← read_path frame regs path p erase ks 0; k i) s = Fault.
Proof.
  intros Hs Hfits. eapply bind_faults; [apply (take_input_ok id s); apply Hs|].
  pose proof (read_path_overruns id _ ks (st_keys _ _ _ Hs) _ [] (starts_since id ks s Hs)
    (st_path _ _ _ Hs) ltac:(cbn; lia) Hfits) as E. cbn [length] in E. change (Z.of_nat 0) with 0 in E.
  unfold mbind, M_bind. by rewrite E.
Qed.

End reading.

(** ** The programs *)

Lemma typed_plain ks : keys_plain ks → ∀ line name, typed line ks = Some name →
  Forall (λ c, c ≠ 0) line → Forall (λ c, c ≠ 0) name.
Proof.
  induction 1 as [|k ks Hk _ IH]; intros line name H Hl; [done|]. destruct k as [c|]; cbn [typed] in H; [|eauto].
  destruct (c =? 10); [by simplify_eq|]. apply (IH _ _ H). unfold type_key. case_match eqn:E.
  - destruct line as [|x line _] using rev_ind; [done|]. rewrite removelast_last.
    by apply list.Forall_app in Hl as [Hl _].
  - apply list.Forall_app. split; [done|]. constructor; [|done]. by destruct Hk as [[[_ Hk] _]%list.Forall_cons_1 _].
Qed.

Section programs.
Context {F : Type} `{FL : FsLaws F} (g : fs_volume).
Context (empty : Z) (junk : Z → list Z) (Hempty : 128 ≤ empty < 2 ^ 64 - 128).
Context (no_result frame : Z) (regs : execution_context).

#[local] Abbreviation ready := (SyscallCorrect.ready g empty junk no_result).
#[local] Abbreviation files s := (w_vfs (world_of s)).
#[local] Abbreviation shell s := (w_prompt (world_of s)).
#[local] Abbreviation shown s := (screen (con (w_prompt (world_of s)))).
#[local] Abbreviation memory s := (w_bytes (world_of s)).

(** The arrays and literals of a program do not overlap, and the file system
    uses none of them. *)
Record apart (path p buffer size : Z) (literal : Z → Prop) : Prop := {
  ap_private : ∀ x, in_range path 512 x ∨ in_range p 2 x ∨ in_range buffer size x → ¬ fs_private g x;
  ap_scratch : ∀ x, in_range path 512 x ∨ literal x → ¬ fs_scratch g x;
  ap_arrays : ∀ x, in_range path 512 x → ¬ in_range p 2 x ∧ ¬ in_range buffer size x;
  ap_literal : ∀ x, literal x → ¬ in_range path 512 x ∧ ¬ in_range p 2 x;
}.

(** [C10] The program [cat], from its first to its last instruction: the standard
    input is free, the array of the path is clear, and the keys type a line of at
    most 511 characters that is the path of a file without NUL and without [%] in
    its contents.  It returns, or panics when the heap is exhausted.  What it
    shows is the echo of the keys, a line feed, the contents in pieces of at most 511 bytes, then the prompt sign; the descriptor it
    used is closed, the others are as they were, and the standard input is free
    again.  Only when every entry of the file system's table is taken or every
    descriptor has been used it shows its message instead. *)
Theorem cat_command_correct (id : Z) (s : sys (F := F)) (path p erase newline buffer failed : Z)
    (ks : list (option Z)) (name C msg : list Z) :
  starts g empty junk no_result (λ _, True) path erase id ks s →
  apart path p buffer 512 (λ x, in_range erase 4 x ∨ in_range newline 2 x ∨
    in_range failed (Z.of_nat (length msg) + 1) x) →
  cstr_at (memory s) newline [10] → cstr_at (memory s) failed msg → plain msg → (length msg < 1024)%nat →
  fits [] ks = true → typed [] ks = Some name → (length name < 512)%nat →
  rel name ≠ [] → fs_find g (rel name) = Some C → plain C →
  safe (cat_command frame regs path p erase newline buffer failed ks) s (λ _ s', ready id s' ∧
    owner (shell s') = None ∧
    ((∃ fd l, first_zero (files s) fd ∧ concat l = C ∧ Forall (λ t, (length t ≤ 511)%nat) l ∧
        shown s' = shown s ++ echoes [] ks ++ [[10]] ++ l ++ [[10; 36; 58; 32]] ∧
        view (files s') fd = None ∧ ∀ j, j ≠ fd → view (files s') j = view (files s) j) ∨
     (no_descriptor (files s) ∧
        shown s' = shown s ++ echoes [] ks ++ [[10]] ++ [msg; [10; 36; 58; 32]] ∧
        ∀ j, j ≠ -1 → view (files s') j = view (files s) j))).
Proof.
  intros Hs [Hpr Hsc Har Hli] Hnl Hfail Hmsg Hml Hfits Hname Hlen Hne Hfind HC. unfold cat_command.
  apply (get_line_ok g empty junk no_result frame regs (λ _, True) path p erase) with id name; try done.
  { intros x [Hx|Hx]; apply Hpr; auto. }
  { intros x Hx. by apply Har. }
  { intros x Hx. apply Hli. auto. }
  intros s1 R1 Ho1 Hv1 Ht1 Hop1 _ Hl1 Hsh1 Hm1.
  assert (∀ q t, (∀ x, q ≤ x ≤ q + Z.of_nat (length t) → ¬ in_range path 512 x ∧ ¬ in_range p 2 x) →
    cstr_at (memory s) q t → cstr_at (memory s1) q t) as Hstr.
  { intros q t Ht. apply cstr_at_frame with (1 := Hm1). intros x Hx. pose proof (Ht x Hx). tauto. }
  apply safe_bind, runs_safe.
  eapply runs_mono; [apply (print_call_ok g empty junk no_result frame regs id s1 newline [10]); [done| | |cbn; lia]|].
  { apply Hstr; [|done]. intros x Hx. apply Hli. cbn in Hx. unfold in_range. right; left. lia. }
  { apply plain_check. reflexivity. }
  cbn beta. intros _ s2 (R2 & Hf2 & Hsh2 & c & Hc2).
  eapply safe_mono; [apply (cat_file_ok g empty junk Hempty no_result frame regs id s2 path buffer failed name C msg); try done|].
  { unfold w_bytes. rewrite Hf2. apply line_in_cstr; [done..|]. apply (typed_plain ks (st_keys _ _ _ _ _ _ _ _ _ _ Hs) [] name); done. }
  { lia. }
  { intros x Hx. apply Hsc. unfold in_range. lia. }
  { unfold w_bytes. rewrite Hf2. apply Hstr; [|done]. intros x Hx. apply Hli. unfold in_range. lia. }
  { intros x Hx. apply Hsc. unfold in_range. lia. }
  { intros x Hx. apply Hpr. auto. }
  cbn beta. intros _ s3 (R3 & Ho3 & H3). split; [done|]. split.
  { rewrite Ho3, Hc2. change (owner (set_con c (shell s1))) with (owner (shell s1)). rewrite Ho1. cbn.
    by rewrite Z.eqb_refl. }
  assert (∀ fd, first_zero (files s2) fd → first_zero (files s) fd) as Hzero.
  { intros fd. unfold first_zero. by rewrite Hf2, Ht1. }
  assert (no_descriptor (files s2) → no_descriptor (files s)) as Hnone.
  { rewrite Hf2. intros [H|H]; [left|right].
    - intros j Hj. rewrite <- Hop1. by apply H.
    - intros fd Hz. apply (H fd). unfold first_zero in *. by rewrite Ht1. }
  assert (∀ j, view (files s2) j = view (files s) j) as Hv2 by (intros j; by rewrite Hf2).
  rewrite Hsh2, Hsh1 in H3.
  destruct H3 as [(fd & l & Hz & Hl & Hll & Hsh & Hfd & Hv)|(Hno & Hsh & Hv)]; [left; exists fd, l|right];
    rewrite <- !app_assoc in Hsh; split_and!; auto; intros j Hj; by rewrite Hv.
Qed.


(** A path longer than its array of 512 bytes is written past the end. *)
Theorem cat_command_overruns (id : Z) (s : sys (F := F)) (path p erase newline buffer failed : Z)
    (ks : list (option Z)) :
  starts g empty junk no_result (λ _, True) path erase id ks s →
  apart path p buffer 512 (in_range erase 4) →
  fits [] ks = false →
  cat_command frame regs path p erase newline buffer failed ks s = Fault.
Proof.
  intros Hs [Hpr Hsc Har Hli] Hfits.
  apply (get_line_faults g empty junk no_result frame regs (λ _, True) path p erase) with id; try done.
  - intros x [Hx|Hx]; apply Hpr; auto.
  - intros x Hx. by apply Har.
Qed.

(** [C12] The program [ls], from its first to its last instruction: the standard
    input is free, the array of the path is clear, and the keys type the path, of
    at most 511 characters and not a single slash, of a directory the file system
    has a text for ([fs_list]; the memory it relies on is as [fs_listable] says),
    of at most 1023 bytes and without [%].  It returns, or panics
    when the heap is exhausted.  What it shows is the echo of the keys, the empty
    write of [vfs_read_dir], then a line feed and the text of the directory
    without its last byte (its last line feed), nothing at all for an empty text,
    and then the prompt sign; every open descriptor is as it was, and the
    standard input is free again. *)
Theorem ls_command_correct `{FD : !FsDirView F, FDL : !FsDirLaws F} (id : Z) (s : sys (F := F))
    (path p erase buffer : Z) (ks : list (option Z)) (name out : list Z) :
  starts g empty junk no_result (fs_listable g) path erase id ks s →
  apart path p buffer 1024 (in_range erase 4) →
  (∀ x, in_range path 512 x ∨ in_range p 2 x ∨ in_range buffer 1024 x →
     fs_in_use (fs (files s)) x ∧ ~ fs_scratch g x ∧ ~ fs_constant x) →
  fits [] ks = true → typed [] ks = Some name → (length name < 512)%nat → name ≠ [47] →
  fs_list g (rel name) = Some out → (length out < 1024)%nat → plain out →
  safe (ls_command empty junk frame regs path p erase buffer ks) s (λ _ s', ready id s' ∧
    owner (shell s') = None ∧
    shown s' = shown s ++ echoes [] ks ++ [[]; ls_text out; [10; 36; 58; 32]] ∧
    ∀ j, view (files s') j = view (files s) j).
Proof.
  intros Hs [Hpr Hsc Har Hli] Hmem Hfits Hname Hlen Hne Hout Hol Hplain. unfold ls_command.
  set (J f := fs_listable g f ∧ ∀ x, fs_in_use (fs (files s)) x → fs_in_use f x).
  assert (starts g empty junk no_result J path erase id ks s) as Hs' by (destruct Hs; by split).
  eapply (get_line_ok g empty junk no_result frame regs J path p erase);
    [| | |exact Hli|exact Hs'|exact Hfits|exact Hname|].
  { intros f a c Ha [Hf Hu]. destruct (fs_listable_write g f (<[a := c]> (fs_bytes f)) Hf) as [Hf' Hu'].
    - intros x Hx. rewrite byte_insert, decide_False; [done|]. intros ->. apply (Hmem x); tauto.
    - split; auto. }
  { intros x [Hx|Hx]; apply Hpr; auto. }
  { intros x Hx. by apply Har. }
  intros s1 R1 Ho1 Hv1 _ _ [Hj1 Hu1] Hl1 Hsh1 _.
  eapply safe_mono; [apply (ls_dir_ok g empty junk Hempty no_result frame regs id s1 path buffer name out); try done|].
  { apply line_in_cstr; [done..|]. apply (typed_plain ks (st_keys _ _ _ _ _ _ _ _ _ _ Hs) [] name); done. }
  { lia. }
  { intros x Hx. assert (in_range path 512 x) as Hin by (unfold in_range; lia).
    destruct (Hmem x ltac:(auto)) as (? & ? & _). split_and!; auto. intros ->.
    apply (Har buffer Hin). unfold in_range. lia. }
  { intros x Hx. destruct (Hmem x ltac:(auto)) as (? & ? & ?). split_and!; auto. }
  cbn beta. intros _ s2 (R2 & Hsh2 & Ho2 & Hv2). split_and!; [done|..].
  - rewrite Ho2, Ho1. cbn. by rewrite Z.eqb_refl.
  - by rewrite Hsh2, Hsh1, <- app_assoc.
  - intros j. by rewrite Hv2.
Qed.

End programs.

(** ** Instances with the tar file system *)

#[local] Existing Instance demo_ops.
#[local] Existing Instance demo_view.
#[local] Existing Instance demo_laws.
#[local] Existing Instance demo_dir_view.
#[local] Existing Instance demo_dir_laws.

(** The standard input is free; the arrays are at 1400, 3100 and 2000. *)
Definition demo_start : sys :=
  Sys (installed 900 demo_local 0) (World demo_vfs (set_stdin false 0 demo_shell)) [].

Lemma demo_start_ready : ready demo_vol 900 demo_local 0 1 demo_start.
Proof.
  split; [reflexivity|exact (proj1 demo_vfs_inv)|reflexivity|exact (rd_process _ _ _ _ _ _ demo_ready)].
Qed.

Lemma line_in_zeros m path : forallb (λ i, byte m (path + i) =? 0) (seqZ 0 512) = true → line_in m path [].
Proof.
  intros H i Hi. rewrite forallb_forall in H. apply Z.eqb_eq, H, list_elem_of_In, elem_of_seqZ. lia.
Qed.

Lemma keys_check ks : forallb (λ k, match k with
    | Some c => (0 <=? c) && (c <? 256) && negb (c =? 0) && negb (c =? 37) | None => true end) ks = true →
  keys_plain ks.
Proof.
  intros H. rewrite forallb_forall in H. apply list.Forall_forall. intros k Hk%list_elem_of_In%H.
  destruct k as [c|]; [|done]. apply plain_check. cbn. by rewrite Hk.
Qed.

Lemma demo_strings : cstr_at (w_bytes (world_of demo_start)) 180 [8; 32; 8] ∧
  cstr_at (w_bytes (world_of demo_start)) 190 [10].
Proof.
  change (w_bytes (world_of demo_start)) with (fs_bytes (fs demo_vfs)).
  destruct demo_vfs_inv as (_ & -> & _). split; apply cstr_check_ok; vm_compute; reflexivity.
Qed.

Lemma demo_starts J ks : J (fs demo_vfs) → keys_plain ks →
  starts demo_vol 900 demo_local 0 J 1400 180 1 ks demo_start.
Proof.
  intros HJ Hk. split; [exact demo_start_ready|reflexivity|by split| |apply demo_strings|exact HJ|exact Hk].
  apply line_in_zeros. change (w_bytes (world_of demo_start)) with (fs_bytes (fs demo_vfs)).
  destruct demo_vfs_inv as (_ & -> & _). vm_compute. reflexivity.
Qed.

Lemma demo_apart buffer size literal : 2000 ≤ buffer → 0 ≤ size → buffer + size ≤ 3100 →
  (∀ x, literal x → 100 ≤ x < 300) → apart demo_vol 1400 3100 buffer size literal.
Proof.
  intros Hb Hz Hs Hl. split.
  - intros x Hx. apply (below_archive 1400 2000); [lia|]. unfold in_range in *. lia.
  - intros x Hx. change (¬ in_range 1024 256 x). destruct Hx as [Hx|Hx%Hl]; unfold in_range in *; lia.
  - intros x Hx. unfold in_range in *. lia.
  - intros x Hx%Hl. unfold in_range. lia.
Qed.

Lemma demo_files : w_vfs (world_of demo_start) = demo_vfs.
Proof. unfold demo_start. cbn [w_vfs world_of]. reflexivity. Qed.

(** Something can be opened. *)
Lemma demo_unopened : fs_opened (fs demo_vfs) 0 = None.
Proof. vm_compute. reflexivity. Qed.

Lemma demo_unused : fs_file_id <$> (vfs_opened_files demo_vfs !! Z.to_nat 0) = Some 0.
Proof. vm_compute. reflexivity. Qed.

Lemma demo_descriptor : no_descriptor demo_vfs → False.
Proof.
  intros [H|H].
  - destruct (H 0 ltac:(change fs_capacity with 512; lia)) as [C HC]. rewrite demo_unopened in HC. done.
  - apply (H 0). split; [lia|]. split; [|intros j d Hj; change (Z.to_nat 0) with 0%nat in Hj; lia].
    destruct (proj1 (fmap_Some _ _ _) demo_unused) as (d & Hd & E). exists d. by split.
Qed.

(** "/h", a key that is rubbed out, "i" and a line feed. *)
Definition demo_keys : list (option Z) :=
  [Some 47; None; Some 104; Some 120; Some 8; None; Some 105; Some 10].

Lemma cat_command_correct_witness :
  safe (cat_command 0 demo_regs 1400 3100 180 190 2000 170 demo_keys) demo_start (λ _ s',
    ready demo_vol 900 demo_local 0 1 s' ∧ owner (w_prompt (world_of s')) = None ∧
    ∃ fd l, first_zero (w_vfs (world_of demo_start)) fd ∧ concat l = [72; 101; 108; 108; 111] ∧
        Forall (λ t, (length t ≤ 511)%nat) l ∧
        screen (con (w_prompt (world_of s'))) = screen (con (w_prompt (world_of demo_start))) ++
          [[47]; [104]; [120]; [8; 32; 8]; [105]] ++ [[10]] ++ l ++ [[10; 36; 58; 32]] ∧
        view (w_vfs (world_of s')) fd = None ∧
        ∀ j, j ≠ fd → view (w_vfs (world_of s')) j = view (w_vfs (world_of demo_start)) j).
Proof.
  eapply safe_mono; [apply (cat_command_correct demo_vol 900 demo_local demo_empty 0 0 demo_regs 1 demo_start
    1400 3100 180 190 2000 170 demo_keys [47; 104; 105] [72; 101; 108; 108; 111] [110; 111])|].
  - apply demo_starts; [done|]. apply keys_check. reflexivity.
  - apply demo_apart; [lia..|]. intros x Hx. unfold in_range in Hx. cbn in Hx. lia.
  - apply demo_strings.
  - exact demo_message.
  - apply plain_check. reflexivity.
  - cbn. lia.
  - reflexivity.
  - reflexivity.
  - cbn. lia.
  - discriminate.
  - vm_compute. reflexivity.
  - apply plain_check. reflexivity.
  - cbn beta. intros ? s' (R & Ho & [H|[H _]]); [exact (conj R (conj Ho H))|rewrite demo_files in H; destruct (demo_descriptor H)].
Defined.

(** 513 characters and a line feed. *)
Definition long_keys : list (option Z) := replicate 513 (Some 97) ++ [Some 10].

Lemma cat_command_overruns_witness :
  cat_command 0 demo_regs 1400 3100 180 190 2000 170 long_keys demo_start = Fault.
Proof.
  apply (cat_command_overruns demo_vol 900 demo_local 0 0 demo_regs 1 demo_start
    1400 3100 180 190 2000 170 long_keys).
  - apply demo_starts; [done|]. apply keys_check. vm_compute. reflexivity.
  - apply demo_apart; [lia..|]. intros x Hx. unfold in_range in Hx. lia.
  - vm_compute. reflexivity.
Defined.

(** A line feed at once: the root directory, "hi" and "d". *)
Lemma ls_command_correct_witness :
  safe (ls_command 900 demo_local 0 demo_regs 1400 3100 180 2000 [None; Some 10]) demo_start (λ _ s',
    ready demo_vol 900 demo_local 0 1 s' ∧ owner (w_prompt (world_of s')) = None ∧
    screen (con (w_prompt (world_of s'))) = screen (con (w_prompt (world_of demo_start))) ++
      [] ++ [[]; [10; 104; 105; 10; 100]; [10; 36; 58; 32]] ∧
    ∀ j, view (w_vfs (world_of s')) j = view (w_vfs (world_of demo_start)) j).
Proof.
  apply (ls_command_correct demo_vol 900 demo_local demo_empty 0 0 demo_regs 1 demo_start
    1400 3100 180 2000 [None; Some 10] [] [104; 105; 10; 100; 10]).
  - apply demo_starts; [exact demo_vfs_listable|]. apply keys_check. reflexivity.
  - apply demo_apart; [lia..|]. intros x Hx. unfold in_range in Hx. lia.
  - intros x Hx. split_and!; [apply demo_vfs_used; unfold in_range in Hx; lia| |].
    + change (~ in_range 1024 256 x). unfold in_range in *. lia.
    + change (~ x = 900). unfold in_range in *. lia.
  - reflexivity.
  - reflexivity.
  - cbn. lia.
  - discriminate.
  - vm_compute. reflexivity.
  - cbn. lia.
  - apply plain_check. reflexivity.
Defined.
