(* ===== verification/Games.v ===== *)
(** * The game processes: [gol_game_loop] and [snake_game_loop]

    The loops of [src/programs/gameoflife/gameoflife.c] and
    [src/programs/snake/snake.c] as the processes the prompt starts: each takes
    the standard input, plays a turn whenever enough time has passed, and gives
    the input back when the game is quit.

    What happens outside the process is a list of moments, one for each round of
    its loop: the character the keyboard interrupt has delivered before it, if
    any, and what the two calls of [timer_get_uptime] return. *)

From S2P Require Import Prelude Arrays Process Formatter Keyboard Prompt GameOfLife Snake.

Record moment := Moment { typed : option Z; at_test : Z; at_turn : Z }.

(** [while (1) { success = prompt_lockstdin_syscall(...); if (success) break; }] *)
Definition lock_round (_ : unit) : M prompt (unit + unit) :=
  success ← prompt_lockstdin_syscall;
  if negb (success =? 0) then mret (inr tt) else mret (inl tt).

Section game.
Context {G : Type} (tick : Z → M G (option (list (list Z)))) (wait : Z).

(** The prompt, the locals of the game, and [delta_time]. *)
Record session := Session { shell : prompt; board : G; delta_time : Z }.
Definition set_shell (x : prompt) (s : session) : session := Session x (board s) (delta_time s).
Definition set_board (x : G) (s : session) : session := Session (shell s) x (delta_time s).
Definition set_delta (x : Z) (s : session) : session := Session (shell s) (board s) x.
Definition on_shell {A} (c : M prompt A) : M session A := zoom shell set_shell c.
Definition on_board {A} (c : M G A) : M session A := zoom board set_board c.

Definition deliver (k : option Z) : M session unit :=
  match k with
  | Some c => on_shell (on_kbd (modify (set_char c true)))
  | None => mret tt
  end.

(** The lines of a frame, each handed to [kprintf]. *)
Definition show (lines : list (list Z)) : M session unit :=
  for_each lines (λ line, on_shell (print (line ++ [0]) [])).

(** A round of the loop; true when it was left. *)
Definition game_round (t : moment) : M session bool :=
  deliver (typed t);;
  d ← gets delta_time;
  if u64 (at_test t - d) <? wait then mret false
  else
    modify (set_delta (at_turn t));;
    on_shell prompt_clear;;
    ch ← on_shell (on_kbd keyboard_getch);
    r ← on_board (tick ch);
    match r with
    | None => mret true
    | Some lines => show lines;; mret false
    end.

(** The loop does not end before the moments do, unless it is left. *)
Fixpoint game_rounds (ts : list moment) : M session unit :=
  match ts with
  | [] => hang
  | t :: ts' => exit ← game_round t; if (exit : bool) then mret tt else game_rounds ts'
  end.

(** The part that both games share; [start] is what [timer_get_uptime] returns first. *)
Definition game_session (g : G) (start : Z) (ts : list moment) : M prompt G := λ s,
  bind_result (game_rounds ts (Session s g start)) (λ r, Ok (board r.2, shell r.2)).

End game.

(** ["Game of life started"], [""] *)
Definition gol_started : list Z :=
  [71; 97; 109; 101; 32; 111; 102; 32; 108; 105; 102; 101; 32; 115; 116; 97; 114; 116; 101; 100; 0].

Definition gol_game_loop (past start : Z) (ts : list moment) : M prompt unit :=
  loop lock_round tt;;
  on_con (klog (Some gol_started) [0] []);;
  game_session (gol_tick past) 50 gol_start start ts;;
  prompt_unlockstdin_syscall;;
  mret tt.

(** ["Snake Started"], [""] *)
Definition snake_started : list Z := [83; 110; 97; 107; 101; 32; 83; 116; 97; 114; 116; 101; 100; 0].

(** [seed] is the static variable of [snake_rand], as the game before left it; the
    result is its value at the end. *)
Definition snake_game_loop (seed start : Z) (ts : list moment) : M prompt Z :=
  loop lock_round tt;;
  on_con (klog (Some snake_started) [0] []);;
  g ← (λ s, bind_result (snake_start (zero_game seed)) (λ r, Ok (r.2, s)));
  g' ← game_session snake_tick 70 g start ts;
  prompt_unlockstdin_syscall;;
  mret (Snake.seed g').
