(* ===== verification/GamesCorrect.v ===== *)
(** * The game processes from start to end

    A game that is quit leaves the standard input free, has shown exactly the
    frames of its turns, each on a cleared screen, and has read one key per turn. *)

From S2P Require Import Prelude Arrays Machine Process VmmCorrect SchedulerCorrect.
From S2P Require Import Formatter FormatterCorrect Keyboard Prompt PromptCorrect.
From S2P Require Import GameOfLife GameOfLifeCorrect Snake SnakeCorrect Games.

(** ** What a session shows *)

(** The keys the turns read: a turn takes place when [wait] ticks have passed
    since the turn before, and finds the last character typed, or 0. *)
Fixpoint keys_read (wait box since : Z) (ts : list moment) : list Z :=
  match ts with
  | [] => []
  | t :: ts' =>
      let box := default box (typed t) in
      if u64 (at_test t - since) <? wait then keys_read wait box since ts'
      else box :: keys_read wait 0 (at_turn t) ts'
  end.

(** The part of a line that [kprintf] shows. *)
Fixpoint before_zero (l : list Z) : list Z :=
  match l with
  | [] => []
  | c :: l' => if c =? 0 then [] else c :: before_zero l'
  end.

(** The turns for a sequence of keys: the frames, and the game when it is quit. *)
Section play.
Context {G : Type} (tick : Z → M G (option (list (list Z)))).

Fixpoint plays (keys : list Z) (g : G) : option (list (list (list Z)) * G) :=
  match keys with
  | [] => None
  | ch :: keys' =>
      match tick ch g with
      | Ok (None, g') => Some ([], g')
      | Ok (Some frame, g') => '(frames, g'') ← plays keys' g'; Some (frame :: frames, g'')
      | _ => None
      end
  end.

End play.

Definition on_clean_screen (frame : list (list Z)) : list (list Z) := cleared ++ map before_zero frame.
Definition session_shows (frames : list (list (list Z))) : list (list Z) :=
  concat (map on_clean_screen frames) ++ cleared ++ [[10; 36; 58; 32]].

(** A process [id] may start a game. *)
Record idle (id : Z) (s : prompt) : Prop := {
  id_runs : runs_as id s;
  id_free : stdin_lock s = false;
  id_terminal : terminal (con s) = true;
  id_log : prod_mode (con s) = true ∨ length (prefix (con s)) = 32%nat;
  id_keyboard : keyboard_lock (kbd s) = 0;
}.

(** A line that is no directive. *)
Definition drawable (l : list Z) : Prop := Forall (λ c, is_byte c ∧ c ≠ 37) l ∧ (length l < 1024)%nat.

(** ** Lemmas *)

Lemma before_zero_printable l : Forall (λ c, is_byte c ∧ c ≠ 37) l →
  Forall printable (before_zero l) ∧ Forall (λ c, c ≠ 37) (before_zero l) ∧
  (length (before_zero l) ≤ length l)%nat ∧ ∃ r, l ++ [0] = before_zero l ++ 0 :: r.
Proof.
  induction 1 as [|c l [Hb Hc] _ (H1 & H2 & H3 & r & H4)].
  { split_and!; [constructor|constructor|done|by exists []]. }
  cbn [before_zero]. destruct (c =? 0) eqn:E; bool_to_prop.
  { subst. split_and!; [constructor|constructor|cbn; lia|by exists (l ++ [0])]. }
  split_and!; [by constructor|by constructor|cbn; lia|]. exists r. cbn. by rewrite H4.
Qed.

Lemma print_line l s : drawable l → terminal (con s) = true →
  print (l ++ [0]) [] s = Ok (tt, set_con (on_screen (before_zero l) (con s)) s).
Proof.
  intros [Hd Hl] Ht. destruct (before_zero_printable l Hd) as (H1 & H2 & H3 & r & H4).
  apply print_ok; [rewrite H4; by apply render_plain|lia|done].
Qed.

(** The state of a session: only console, keyboard and length of the line move. *)
Record playing (id : Z) (s0 s : prompt) (shown : list (list Z)) (box : Z) : Prop := {
  pl_ps : ps s = ps s0;
  pl_lock : stdin_lock s = true;
  pl_owner : locker_id s = id;
  pl_terminal : terminal (con s) = true;
  pl_screen : screen (con s) = screen (con s0) ++ shown;
  pl_keyboard : keyboard_lock (kbd s) = 0;
  pl_box : keyboard_buffer (kbd s) = box;
}.

Section session.
Context {G : Type} (tick : Z → M G (option (list (list Z)))) (wait : Z).
Context (Hdraw : ∀ ch g frame g', tick ch g = Ok (Some frame, g') → Forall drawable frame).
Context (id : Z) (s0 : prompt).

Lemma show_ok (frame : list (list Z)) s shown box : Forall drawable frame →
  playing id s0 (shell s) shown box →
  runs (show (G := G) frame) s (λ _ s', board s' = board s ∧ delta_time s' = delta_time s ∧
    playing id s0 (shell s') (shown ++ map before_zero frame) box).
Proof.
  intros Hf. revert s shown. induction Hf as [|l frame Hl _ IH]; intros s shown P.
  { apply runs_ret. cbn. by rewrite app_nil_r. }
  cbn [show for_each map]. apply runs_bind. apply runs_zoom.
  eapply runs_ok; [apply (print_line l); [done|apply P]|].
  eapply runs_mono; [apply (IH _ (shown ++ [before_zero l]))|].
  { destruct P as [H1 H2 H3 H4 H5 H6 H7]. split; try done. cbn. by rewrite H5, <- app_assoc. }
  cbn beta. intros _ s1 (Hb & Hd & P1). split_and!; [done|done|]. by rewrite <- app_assoc in P1.
Qed.

Lemma deliver_ok k s shown box : playing id s0 (shell s) shown box →
  runs (deliver (G := G) k) s (λ _ s', board s' = board s ∧ delta_time s' = delta_time s ∧
    playing id s0 (shell s') shown (default box k)).
Proof.
  intros P. destruct k as [c|]; cbn [deliver]; [|by apply runs_ret].
  apply runs_zoom, runs_zoom. eapply runs_ok; [reflexivity|].
  destruct P as [H1 H2 H3 H4 H5 H6 H7]. by repeat split.
Qed.

Lemma turn_ok {A} t (s : session (G := G)) shown box (k : Z → M session A) Q :
  playing id s0 (shell s) shown box →
  (∀ s' : session, board s' = board s → delta_time s' = at_turn t →
     playing id s0 (shell s') (shown ++ cleared) 0 → runs (k box) s' Q) →
  runs (modify (set_delta (at_turn t));; on_shell prompt_clear;;
        ch ← on_shell (on_kbd keyboard_getch); k ch) s Q.
Proof.
  intros P Hk. apply runs_bind. eapply runs_ok; [reflexivity|]. apply runs_bind, runs_zoom.
  eapply runs_mono; [apply clear_ok, P|]. cbn beta. intros _ p (c & -> & Hc & Hs).
  apply runs_bind, runs_zoom, runs_zoom. eapply runs_ok; [apply getch_free, P|].
  destruct P as [H1 H2 H3 H4 H5 H6 H7].
  match goal with |- runs (k ?b) _ _ => replace b with box by (rewrite <- H7; reflexivity) end.
  apply Hk; try done. split; try done. cbn in *. by rewrite Hs, H5, <- app_assoc.
Qed.

(** The loop, up to the moment the game is quit. *)
Lemma rounds_ok ts s shown box frames g : playing id s0 (shell s) shown box →
  plays tick (keys_read wait box (delta_time s) ts) (board s) = Some (frames, g) →
  runs (game_rounds tick wait ts) s (λ _ s', board s' = g ∧
    ∃ box', playing id s0 (shell s') (shown ++ concat (map on_clean_screen frames) ++ cleared) box').
Proof.
  revert s shown box frames. induction ts as [|t ts IH]; intros s shown box frames P Hp; [done|].
  cbn [game_rounds keys_read] in *. apply runs_bind. unfold game_round at 1. apply runs_bind.
  eapply runs_mono; [by apply deliver_ok|]. cbn beta. intros _ s1 (Hb & Hd & P1).
  apply runs_bind. eapply runs_ok; [reflexivity|]. rewrite Hd.
  destruct (u64 (at_test t - delta_time s) <? wait).
  { apply runs_ret. eapply IH; [done|]. by rewrite Hb, Hd. }
  eapply turn_ok; [done|]. intros s2 Hb2 Hd2 P2. cbn [plays] in Hp. rewrite <- Hb, <- Hb2 in Hp.
  apply runs_bind, runs_zoom. destruct (tick _ (board s2)) as [[[frame|] g1]| | |] eqn:Et; try done.
  - eapply runs_ok; [done|]. apply runs_bind.
    destruct (plays tick _ g1) as [[frames' g2]|] eqn:Ep; [|done]. injection Hp as <- <-.
    eapply runs_mono; [eapply show_ok; [by eapply Hdraw|done]|]. cbn beta.
    intros _ s3 (Hb3 & Hd3 & P3). apply runs_ret. eapply runs_mono.
    { eapply IH; [done|]. rewrite Hb3, Hd3. cbn. by rewrite Hd2. }
    cbn beta. intros _ s4 (Hg & box' & P4). split; [done|]. exists box'.
    cbn [map concat]. unfold on_clean_screen at 1. by rewrite <- !app_assoc in *.
  - injection Hp as <- <-. eapply runs_ok; [done|]. apply runs_ret, runs_ret. split; [done|].
    exists 0. done.
Qed.

End session.

Lemma lock_loop_ok id s : idle id s →
  runs (loop lock_round tt) s (λ _ s', s' = set_stdin true id s).
Proof.
  intros I. apply (runs_loop _ (λ _ s', s' = s) (λ _ _, 0)); [|done|lia].
  intros [] s1 ->. unfold lock_round. apply runs_bind.
  eapply runs_ok; [apply (lock_syscall_ok id); apply I|]. by apply runs_ret.
Qed.

Lemma started_ok id s name t : idle id s → text name = Some t → (length t ≤ 900)%nat →
  runs (on_con (klog (Some name) [0] [])) (set_stdin true id s) (λ _ s',
    playing id s s' [] (keyboard_buffer (kbd s))).
Proof.
  intros I Ht Hl. apply runs_zoom. cbn [con set_stdin].
  assert (∃ c, klog (Some name) [0] [] (con s) = Ok (tt, c) ∧ terminal c = true ∧
    screen c = screen (con s)) as (c & E & Hc & Hs).
  { destruct (prod_mode (con s)) eqn:Ep.
    - exists (con s). unfold klog. rewrite Ep. split_and!; [done|apply I|done].
    - destruct (klog_correct (Some name) [0] [] [] (log_prefix t) (con s)) as (pfx & -> & _);
        [done|destruct (id_log _ _ I); congruence|done|by exists t| |].
      + unfold log_prefix. rewrite length_app, length_take. cbn [length]. lia.
      + eexists. split; [reflexivity|]. split; [apply I|done]. }
  eapply runs_ok; [exact E|]. split; try done; [|apply I]. cbn. by rewrite Hs, app_nil_r.
Qed.

Lemma ended_ok id s0 s shown box : idle id s0 → playing id s0 s shown box →
  runs prompt_unlockstdin_syscall s (λ _ s', owner s' = None ∧ ps s' = ps s0 ∧
    screen (con s') = screen (con s0) ++ shown ++ [[10; 36; 58; 32]]).
Proof.
  intros I [H1 H2 H3 H4 H5 H6 H7]. eapply runs_mono.
  { apply (unlock_syscall_ok id); [|done]. unfold runs_as. rewrite H1. apply I. }
  cbn beta. intros _ s1 (_ & l & i & -> & Ho). unfold owner in Ho at 2. rewrite H2, H3 in Ho.
  cbn in Ho. rewrite Z.eqb_refl in Ho. split_and!; [done|done|].
  cbn [con set_con on_screen screen]. by rewrite H5, <- app_assoc.
Qed.

(** The lines of both games hold no directive. *)
Lemma gol_char_ok cells r c i j : gol_char cells r c i j ∈ [42; 35; 32; 88].
Proof. unfold gol_char. repeat case_match; set_solver. Qed.

Lemma drawn l : Forall (λ c, c ∈ [42; 35; 32; 88; 64; 36; 0]) l → (length l < 1000)%nat →
  drawable (l ++ [10]).
Proof.
  intros H Hl. split; [|rewrite length_app; cbn; lia]. apply list.Forall_app. split.
  - eapply list.Forall_impl; [exact H|]. intros c. unfold is_byte. set_unfold. lia.
  - repeat constructor; unfold is_byte; lia.
Qed.

Lemma gol_draws past ch g frame g' : gol_tick past ch g = Ok (Some frame, g') → Forall drawable frame.
Proof.
  unfold gol_tick, mbind, M_bind, gets, mret, M_ret. cbn [bind_result fst snd]. intros H.
  destruct (gol_key_handler ch g) as [[[] g1]| | |]; cbn [bind_result fst snd] in H; try done.
  match type of H with bind_result ?c _ = _ => destruct c as [[[] g2]| | |] end;
    cbn [bind_result fst snd] in H; try done.
  case_match; [done|]. injection H as <- _. unfold gol_draw. apply List.Forall_map, list.Forall_forall.
  intros i _. apply drawn; [|rewrite length_map; vm_compute; lia].
  apply List.Forall_map, list.Forall_forall. intros j _.
  pose proof (gol_char_ok (gol_cells g2) (gol_row g2) (gol_column g2) i j). set_solver.
Qed.

Lemma snake_char_ok b old i j : old ∈ [42; 35; 32; 88; 64; 36; 0] →
  snake_char b old i j ∈ [42; 35; 32; 88; 64; 36; 0].
Proof. intros H. unfold snake_char. cbv zeta. repeat case_match; try done; set_solver. Qed.

Lemma draw_rows_ok b rows line : Forall (λ c, c ∈ [42; 35; 32; 88; 64; 36; 0]) line →
  Forall drawable (draw_rows b line rows).
Proof.
  revert line. induction rows as [|i rows IH]; intros line Hl; [constructor|]. cbn [draw_rows].
  set (line' := map _ _).
  assert (Forall (λ c, c ∈ [42; 35; 32; 88; 64; 36; 0]) line') as Hl'.
  { subst line'. apply List.Forall_map, list.Forall_forall. intros j _. apply snake_char_ok.
    unfold at_index. rewrite nth_lookup.
    destruct (line !! Z.to_nat j) eqn:E; cbn [default]; [|set_solver]. by eapply list.Forall_lookup_1 in E; [|exact Hl]. }
  constructor; [|by apply IH]. apply drawn; [done|]. subst line'. rewrite length_map. vm_compute. lia.
Qed.

Lemma snake_draws ch g frame g' : snake_tick ch g = Ok (Some frame, g') → Forall drawable frame.
Proof.
  unfold snake_tick, mbind, M_bind, gets, mret, M_ret. cbn [bind_result fst snd]. intros H.
  destruct (snake_key_handler ch g) as [[[] g1]| | |]; cbn [bind_result fst snd] in H; try done.
  match type of H with bind_result ?c _ = _ => destruct c as [[[] g2]| | |] end;
    cbn [bind_result fst snd] in H; try done.
  case_match; [done|]. injection H as <- _. apply draw_rows_ok, Forall_replicate. set_solver.
Qed.

(** ** Theorems *)

Lemma session_ok {G} (tick : Z → M G (option (list (list Z)))) wait id s0 s box g start ts frames g' :
  (∀ ch g frame g', tick ch g = Ok (Some frame, g') → Forall drawable frame) →
  playing id s0 s [] box → plays tick (keys_read wait box start ts) g = Some (frames, g') →
  runs (game_session tick wait g start ts) s (λ r s', r = g' ∧
    ∃ box', playing id s0 s' (concat (map on_clean_screen frames) ++ cleared) box').
Proof.
  intros Hd P Hp. unfold game_session, runs.
  pose proof (rounds_ok tick wait Hd id s0 ts (Session s g start) [] box frames g' P Hp) as H.
  unfold runs in H. destruct (game_rounds tick wait ts _) as [[[] s1]| | |]; [|done..]. exact H.
Qed.

(** [C35] The process of the game of life, from the moment the prompt has started
    it: when its turns play up to the key that quits, it returns; it has shown
    exactly the frames of its turns, each on a cleared screen, and the prompt
    sign; the standard input is free again and no process has changed. *)
Theorem gol_game_correct (past start id : Z) (ts : list moment) (s : prompt)
    (frames : list (list (list Z))) (g : gol) :
  idle id s →
  plays (gol_tick past) (keys_read 50 (keyboard_buffer (kbd s)) start ts) gol_start = Some (frames, g) →
  runs (gol_game_loop past start ts) s (λ _ s', owner s' = None ∧ ps s' = ps s ∧
    screen (con s') = screen (con s) ++ session_shows frames).
Proof.
  intros I Hp. unfold gol_game_loop. apply runs_bind.
  eapply runs_mono; [by apply lock_loop_ok|]. cbn beta. intros _ s1 ->. apply runs_bind.
  eapply runs_mono; [eapply started_ok; [done|reflexivity|cbn; lia]|]. cbn beta. intros _ s2 P2.
  apply runs_bind. eapply runs_mono; [eapply session_ok; [apply gol_draws|done|done]|]. cbn beta.
  intros _ s3 (_ & box & P3). apply runs_bind. eapply runs_mono; [by eapply ended_ok|]. cbn beta.
  intros _ s4 (Ho & Hps & Hs). apply runs_ret. split_and!; [done|done|].
  rewrite Hs. unfold session_shows. by rewrite <- app_assoc.
Qed.

(** The same for the process of the snake game. *)
Theorem snake_game_correct (seed start id : Z) (ts : list moment) (s : prompt)
    (frames : list (list (list Z))) (g : game) :
  idle id s → 0 ≤ seed < 65536 →
  plays snake_tick (keys_read 70 (keyboard_buffer (kbd s)) start ts) (first_board seed) = Some (frames, g) →
  runs (snake_game_loop seed start ts) s (λ r s', r = Snake.seed g ∧ owner s' = None ∧ ps s' = ps s ∧
    screen (con s') = screen (con s) ++ session_shows frames).
Proof.
  intros I Hs0 Hp. unfold snake_game_loop. apply runs_bind.
  eapply runs_mono; [by apply lock_loop_ok|]. cbn beta. intros _ s1 ->. apply runs_bind.
  eapply runs_mono; [eapply started_ok; [done|reflexivity|cbn; lia]|]. cbn beta. intros _ s2 P2.
  apply runs_bind. eapply runs_ok; [by rewrite (proj1 (first_board_ok seed Hs0))|]. cbn [snd].
  apply runs_bind. eapply runs_mono; [eapply session_ok; [apply snake_draws|done|done]|]. cbn beta.
  intros g' s3 (-> & box & P3). apply runs_bind. eapply runs_mono; [by eapply ended_ok|]. cbn beta.
  intros _ s4 (Ho & Hps & Hs). apply runs_ret. split_and!; [done|done|done|].
  rewrite Hs. unfold session_shows. by rewrite <- app_assoc.
Qed.

(** ** Instances *)

(** Process 1 runs and the standard input is free. *)
Definition demo_player : prompt :=
  Prompt 0 (buffer_of []) 0 1 false 0 demo_console
    (PState demo_space {[7 := demo_proc 1 RUNNING 1 50 0 100]} 7 7 3 20 0 true) keyboard_initial.

Lemma demo_idle : idle 1 demo_player.
Proof.
  split; [|reflexivity|reflexivity|right; reflexivity|reflexivity].
  exists (demo_proc 1 RUNNING 1 50 0 100). split; [|reflexivity]. apply lookup_singleton_eq.
Qed.

(** A round that is too early, a key, and the end of the game. *)
Definition demo_moments : list moment :=
  [Moment None 10 10; Moment (Some 101) 80 81; Moment (Some 113) 260 260].

Lemma demo_gol_played :
  bool_decide (is_Some (plays (gol_tick 0) (keys_read 50 0 0 demo_moments) gol_start)) = true.
Proof. reflexivity. Qed.

Lemma gol_game_correct_witness : ∃ frames g,
  plays (gol_tick 0) (keys_read 50 0 0 demo_moments) gol_start = Some (frames, g) ∧
  runs (gol_game_loop 0 0 demo_moments) demo_player (λ _ s', owner s' = None ∧
    ps s' = ps demo_player ∧ screen (con s') = screen (con demo_player) ++ session_shows frames).
Proof.
  destruct (bool_decide_eq_true_1 _ demo_gol_played) as [[fr g] E].
  exists fr, g. split; [exact E|].
  exact (gol_game_correct 0 0 1 demo_moments demo_player fr g demo_idle E).
Defined.
