(* ===== verification/Entry.v ===== *)
(** * [src/kernel/interrupts/interrupt_vector.asm], [userland/syscall.asm] and
      the declarations of [idt.h]

    The entry points of interrupts and system calls, instruction by instruction,
    on a processor with its general registers and a stack in RAM; and the part of
    the processor that takes an interrupt before them and returns from it behind
    them. *)

From S2P Require Import Prelude Machine Process.

(** ** The processor *)

Inductive reg :=
  RAX | RBX | RCX | RDX | RDI | RSI | R8 | R9 | R10 | R11 | R12 | R13 | R14 | R15 | RBP | RSP.
#[global] Instance reg_eq_dec : EqDecision reg.
Proof. solve_decision. Defined.

Record cpu := Cpu {
  gpr : reg → Z;
  ip : Z;
  code_segment : Z;
  flags : Z;
  stack_segment : Z;
}.

Definition set_gpr (r : reg) (v : Z) (c : cpu) : cpu :=
  Cpu (λ r', if decide (r' = r) then v else gpr c r') (ip c) (code_segment c) (flags c) (stack_segment c).
Definition set_flags (v : Z) (c : cpu) : cpu :=
  Cpu (gpr c) (ip c) (code_segment c) v (stack_segment c).

(** Two states of the processor are the same when all registers are. *)
#[global] Instance cpu_equiv : Equiv cpu := λ c c',
  (∀ r, gpr c r = gpr c' r) ∧ ip c = ip c' ∧ code_segment c = code_segment c' ∧
  flags c = flags c' ∧ stack_segment c = stack_segment c'.

(** What the handlers work on has the RAM in which the stacks lie. *)
Class HasRam (W : Type) := {
  ram_of : W → kstate;
  with_ram : kstate → W → W;
  ram_of_with : ∀ m w, ram_of (with_ram m w) = m;
  with_ram_with : ∀ m m' w, with_ram m (with_ram m' w) = with_ram m w;
  with_ram_of : ∀ w, with_ram (ram_of w) w = w;
}.

#[global] Instance pstate_ram : HasRam pstate.
Proof. refine (Build_HasRam pstate mem set_mem _ _ _); [done|done|by intros []]. Defined.

Section entry.
Context {W : Type} `{HR : !HasRam W}.

Record mach := Mach { core : cpu; kern : W }.
Definition set_core (c : cpu) (s : mach) : mach := Mach c (kern s).
Definition set_kern (w : W) (s : mach) : mach := Mach (core s) w.

Definition get_reg (r : reg) : M mach Z := gets (λ s, gpr (core s) r).
Definition put_reg (r : reg) (v : Z) : M mach unit := modify (λ s, set_core (set_gpr r v (core s)) s).

Definition push (v : Z) : M mach unit :=
  rsp ← get_reg RSP;
  put_reg RSP (u64 (rsp - 8));;
  modify (λ s, set_kern (with_ram (store 8 (u64 (rsp - 8)) v (ram_of (kern s))) (kern s)) s).
Definition pop : M mach Z :=
  rsp ← get_reg RSP;
  put_reg RSP (u64 (rsp + 8));;
  gets (λ s, load 8 (ram_of (kern s)) rsp).

(** ** Instructions *)

(** A function in C: its argument, what it does, and the pointer it returns. *)
Definition function : Type := Z → M W Z.

Inductive instr :=
| Cli | Sti
| PushI (n : Z) | Push (r : reg) | Pop (r : reg)
| Mov (dst src : reg)
| AddRsp (n : Z)
| Call (f : function)
| Iretq.

(** [cli] and [sti] are bit 9 of the flags. *)
Definition IF : Z := 512.

(** What a function may leave in the registers it need not preserve, and the
    return address [call] pushes. *)
Context (junk : reg → Z) (return_address : Z).

Definition callee_saved (r : reg) : bool :=
  match r with RBX | RBP | RSP | R12 | R13 | R14 | R15 => true | _ => false end.

Definition call (f : function) : M mach unit :=
  arg ← get_reg RDI;
  push return_address;;
  r ← zoom kern set_kern (f arg);
  pop;;
  modify (λ s, set_core (Cpu (λ x, if callee_saved x then gpr (core s) x
                                   else if decide (x = RAX) then r else junk x)
    (ip (core s)) (code_segment (core s)) (flags (core s)) (stack_segment (core s))) s).

Definition iretq : M mach unit :=
  rip ← pop; cs ← pop; fl ← pop; rsp ← pop; ss ← pop;
  modify (λ s, set_core (Cpu (λ r, if decide (r = RSP) then rsp else gpr (core s) r) rip cs fl ss) s).

Definition exec (i : instr) : M mach unit :=
  match i with
  | Cli => modify (λ s, set_core (set_flags (Z.land (flags (core s)) (Z.lnot IF)) (core s)) s)
  | Sti => modify (λ s, set_core (set_flags (Z.lor (flags (core s)) IF) (core s)) s)
  | PushI n => push n
  | Push r => v ← get_reg r; push v
  | Pop r => v ← pop; put_reg r v
  | Mov dst src => v ← get_reg src; put_reg dst v
  | AddRsp n => v ← get_reg RSP; put_reg RSP (u64 (v + n))
  | Call f => call f
  | Iretq => iretq
  end.

Definition run (code : list instr) : M mach unit := for_each code exec.

(** ** The code *)

Definition saved_registers : list reg :=
  [RAX; RBX; RCX; RDX; RDI; RSI; R8; R9; R10; R11; R12; R13; R14; R15; RBP].

(** [push rax ... push rbp; mov rdi, rsp; call f; mov rsp, rax; pop rbp ... pop rax;
    add rsp, 16] *)
Definition save_and_call (f : function) : list instr :=
  map Push saved_registers ++ [Mov RDI RSP; Call f; Mov RSP RAX] ++
  map Pop (reverse saved_registers) ++ [AddRsp 16].

Section stubs.
Context (isr_handler irq_handler syscall_handler pic_eoi : function).

Definition isr_stub : list instr := save_and_call isr_handler ++ [Sti; Call pic_eoi; Iretq].
Definition irq_stub : list instr := save_and_call irq_handler ++ [Sti; Iretq].
Definition syscall_stub : list instr := save_and_call syscall_handler ++ [Sti; Iretq].

(** The entry points that [idt.h] declares. *)
Inductive entry_point := isr (n : Z) | isr_err (n : Z) | isr128 | irq (n : Z).

Definition entry_points : list entry_point :=
  map isr (seqZ 0 8) ++ [isr_err 8; isr 9; isr_err 10; isr_err 11; isr_err 12; isr_err 13; isr_err 14] ++
  map isr (seqZ 15 17) ++ [isr128] ++ map irq (seqZ 0 16).

(** The macros [isr], [isr_err], [irq], and [isr128]. *)
Definition code_of (e : entry_point) : list instr :=
  match e with
  | isr n => [Cli; PushI 0; PushI n] ++ isr_stub
  | isr_err n => [Cli; PushI n] ++ isr_stub
  | irq n => [Cli; PushI 0; PushI (32 + n)] ++ irq_stub
  | isr128 => [Cli; PushI 0; PushI 0x80] ++ syscall_stub
  end.

End stubs.

(** ** The processor takes an interrupt *)

(** In 64-bit mode, through an interrupt gate of [idt.c] (no stack table): the
    stack is the one of the task state segment when the privilege changes, it is
    aligned to 16 bytes, and the old stack, flags and instruction are pushed, with
    an error code for some exceptions. *)
Context (tss_rsp0 : W → Z).

Definition new_stack (s : mach) : Z :=
  let base := if Z.land (code_segment (core s)) 3 =? 0 then gpr (core s) RSP else tss_rsp0 (kern s) in
  base - base mod 16.

(** Trap, interrupt, nested task, resume and virtual mode are cleared. *)
Definition gate_flags (f : Z) : Z := Z.land f (Z.lnot 0x34300).

Definition take_interrupt (error : option Z) : M mach unit :=
  s ← gets (λ s, s);
  put_reg RSP (new_stack s);;
  push (stack_segment (core s));;
  push (gpr (core s) RSP);;
  push (flags (core s));;
  push (code_segment (core s));;
  push (ip (core s));;
  (match error with Some e => push e | None => mret tt end);;
  modify (λ s', set_core (Cpu (gpr (core s')) (ip (core s')) 0x28 (gate_flags (flags (core s')))
    (if Z.land (code_segment (core s)) 3 =? 0 then stack_segment (core s) else 0)) s').

(** An interrupt from the instruction it hits to the instruction it returns to. *)
Definition interrupt (error : option Z) (code : list instr) : M mach unit :=
  take_interrupt error;; run code.

(** [do_syscall] of [syscall.asm]: the moves of registers to themselves, [int 0x80]
    and [ret], which leaves the result in [rax]. *)
Definition do_syscall (code : list instr) : M mach Z :=
  for_each [RDI; RSI; RDX; RCX; R8] (λ r, exec (Mov r r));;
  interrupt None code;;
  exec (Mov RAX RAX);;
  get_reg RAX.

End entry.
Arguments mach : clear implicits.
Arguments instr : clear implicits.
