(* ===== verification/EntryCorrect.v ===== *)
(** * Correctness of the interrupt entry points

    What a handler finds in the frame it is given, and what the processor resumes
    with when it returns a frame: the registers of the interrupted code are saved
    and restored, whichever frame comes back and however much later. *)

From S2P Require Import Prelude Machine Process Entry.

(** ** Specification *)

(** The context of interrupted code, with what the entry point pushes. *)
Definition context_of (c : cpu) (number error : Z) : execution_context :=
  Context (gpr c RBP) (gpr c R15) (gpr c R14) (gpr c R13) (gpr c R12) (gpr c R11) (gpr c R10)
    (gpr c R9) (gpr c R8) (gpr c RSI) (gpr c RDI) (gpr c RDX) (gpr c RCX) (gpr c RBX) (gpr c RAX)
    number error (ip c) (code_segment c) (flags c) (gpr c RSP) (stack_segment c).

(** The processor that continues with a context. *)
Definition resume (x : execution_context) : cpu :=
  Cpu (λ r, match r with
    | RAX => rax x | RBX => rbx x | RCX => rcx x | RDX => rdx x | RDI => rdi x | RSI => rsi x
    | R8 => r8 x | R9 => r9 x | R10 => r10 x | R11 => r11 x | R12 => r12 x | R13 => r13 x
    | R14 => r14 x | R15 => r15 x | RBP => rbp x | RSP => iret_rsp x end)
    (iret_rip x) (iret_cs x) (iret_flags x) (iret_ss x).

#[global] Instance cpu_equivalence : Equivalence (≡@{cpu}).
Proof.
  split.
  - by intros c.
  - intros c c' (H1 & H2 & H3 & H4 & H5). by split_and!.
  - intros c1 c2 c3 (H1 & H2 & H3 & H4 & H5) (G1 & G2 & G3 & G4 & G5).
    split; [intros r; by rewrite H1, G1|]. by split_and!; etrans.
Qed.

Lemma resume_context_of c n e : resume (context_of c n e) ≡ c.
Proof. split_and!; try done. by intros []. Qed.

(** Registers hold 64 bits. *)
Definition word (v : Z) : Prop := 0 ≤ v < 2 ^ 64.
Record cpu_ok (c : cpu) : Prop := {
  ok_gpr : ∀ r, word (gpr c r);
  ok_ip : word (ip c);
  ok_cs : word (code_segment c);
  ok_flags : word (flags c);
  ok_ss : word (stack_segment c);
}.

(** Addresses that lie in one window onto RAM: the direct map or below it. *)
Definition window (h lo hi : Z) : Prop := 0 ≤ lo ∧ hi < 2 ^ 64 ∧ (h ≤ lo ∨ hi ≤ h).

Lemma window_cell h lo hi : window h lo hi → ∃ d, ∀ a, lo ≤ a < hi → cell h a = a - d.
Proof.
  intros (H0 & H1 & [H|H]).
  - exists h. intros a Ha. unfold cell. by rewrite (proj2 (Z.leb_le _ _)) by lia.
  - exists 0. intros a Ha. unfold cell. rewrite (proj2 (Z.leb_gt _ _)) by lia. lia.
Qed.

Section correct.
Context {W : Type} `{HR : !HasRam W}.
Context (junk : reg → Z) (return_address : Z) (tss_rsp0 : W → Z).

(** Memory of [s'] is that of [s] but for the bytes the pointers in [lo, hi) designate. *)
Definition only_stack (lo hi : Z) (m m' : kstate) : Prop :=
  m' = set_ram (ram m') m ∧
  same_outside (λ x, ∃ a, lo ≤ a < hi ∧ x = cell (hhdm_offset m) a) (ram m) (ram m').

(** [vs] were pushed from address [a] down since [s0]. *)
Record stacked (s0 s : mach W) (a : Z) (vs : list Z) : Prop := {
  st_rsp : gpr (core s) RSP = a - 8 * Z.of_nat (length vs);
  st_gpr : ∀ r, r ≠ RSP → gpr (core s) r = gpr (core s0) r;
  st_kern : kern s = with_ram (ram_of (kern s)) (kern s0);
  st_ram : only_stack (a - 8 * Z.of_nat (length vs)) a (ram_of (kern s0)) (ram_of (kern s));
  st_words : ∀ (i : nat) v, vs !! i = Some v →
    load 8 (ram_of (kern s)) (a - 8 * (Z.of_nat i + 1)) = v;
}.

Lemma only_stack_refl lo hi m : only_stack lo hi m m.
Proof. split; [by destruct m|apply same_outside_refl]. Qed.

Lemma set_ram_same m m' r x : m' = set_ram r m → set_ram x m' = set_ram x m.
Proof. by intros ->. Qed.

(** ** Pushing *)

Lemma push_ok s0 s a vs v : stacked s0 s a vs → word v →
  window (hhdm_offset (ram_of (kern s0))) (a - 8 * (Z.of_nat (length vs) + 1)) a →
  runs (push v) s (λ _ s', stacked s0 s' a (vs ++ [v])).
Proof.
  intros [Hr Hg Hk [Hm Ho] Hw] Hv Hwin. destruct (window_cell _ _ _ Hwin) as [d Hd].
  destruct Hwin as (H0 & H1 & _). set (n := Z.of_nat (length vs)) in *.
  set (b := a - 8 * (n + 1)).
  assert (hhdm_offset (ram_of (kern s)) = hhdm_offset (ram_of (kern s0))) as Eh by (by rewrite Hm).
  assert (u64 (gpr (core s) RSP - 8) = b) as Eb by (rewrite Hr, u64_small; unfold b; lia).
  eapply runs_ok; [reflexivity|]. cbn -[u64 store]. rewrite Eb.
  split; cbn -[store load decide]; rewrite ?ram_of_with, ?length_app; cbn [length].
  - rewrite decide_True by done. unfold b, n. lia.
  - intros r Hne. rewrite decide_False by done. by apply Hg.
  - rewrite Hk at 2. by rewrite with_ram_with.
  - split.
    + unfold store. cbn [ram set_ram]. by apply set_ram_same with (r := ram (ram_of (kern s))).
    + intros x Hx. cbn [store set_ram ram]. rewrite byte_wr, decide_False.
      * apply Ho. intros (y & Hy & ->). apply Hx. exists y. split; [unfold n in *; lia|done].
      * rewrite Eh, Hd by (unfold b; lia). intros Hr'. apply Hx. exists (x + d).
        rewrite Hd by (unfold b, n in *; lia). unfold b, n in *. lia.
  - intros i w Hi. unfold load, store. cbn [set_ram ram hhdm_offset]. rewrite Eh.
    rewrite (Hd b) by (unfold b; lia).
    apply lookup_app_Some in Hi as [Hi|[Hge Hi]].
    + pose proof (lookup_lt_Some _ _ _ Hi). rewrite Hd by (unfold n in *; lia).
      rewrite rd_wr_other by (unfold b, n in *; lia). rewrite <- (Hw i w Hi). unfold load.
      rewrite Eh, Hd by (unfold n in *; lia). done.
    + assert (i = length vs) as -> by (apply lookup_lt_Some in Hi; cbn in Hi; lia).
      rewrite Nat.sub_diag in Hi. injection Hi as <-. fold n. fold b.
      rewrite (Hd b) by (unfold b; lia). rewrite rd_wr_same. apply Z.mod_small. exact Hv.
Qed.

(** Instructions that leave the general registers and the memory alone. *)
Lemma stacked_core s0 s a vs c : stacked s0 s a vs → gpr c = gpr (core s) → stacked s0 (set_core c s) a vs.
Proof. intros [Hr Hg Hk Hm Hw] E. split; cbn; rewrite ?E; done. Qed.

Lemma push_regs_ok rs s0 s a vs : stacked s0 s a vs → cpu_ok (core s0) → RSP ∉ rs →
  window (hhdm_offset (ram_of (kern s0))) (a - 8 * Z.of_nat (length vs + length rs)) a →
  runs (run junk return_address (map Push rs)) s (λ _ s', stacked s0 s' a (vs ++ map (gpr (core s0)) rs)).
Proof.
  revert s vs. induction rs as [|r rs IH]; intros s vs S C Hn Hw.
  { apply runs_ret. by rewrite app_nil_r. }
  apply not_elem_of_cons in Hn as [Hne Hn]. cbn [run map for_each]. apply runs_bind.
  cbn [exec]. apply runs_bind. eapply runs_ok; [reflexivity|].
  rewrite (st_gpr _ _ _ _ S) by done.
  eapply runs_mono; [eapply push_ok; [done|apply C|]|].
  { destruct Hw as (H0 & H1 & H2). cbn [length] in *. split_and!; lia. }
  cbn beta. intros _ s1 S1. eapply runs_mono; [apply (IH s1 (vs ++ [gpr (core s0) r])); try done|].
  { destruct Hw as (H0 & H1 & H2). rewrite length_app. cbn [length] in *. split_and!; lia. }
  cbn beta. intros _ s2 S2. by rewrite <- app_assoc in S2.
Qed.

(** ** Entering *)

(** There is room for a frame and a return address below the stack. *)
Record may_interrupt (s : mach W) : Prop := {
  mi_core : cpu_ok (core s);
  mi_room : window (hhdm_offset (ram_of (kern s))) (new_stack tss_rsp0 s - 184) (new_stack tss_rsp0 s);
  mi_return : word return_address;
}.

(** The frame an interrupt of [s] builds. *)
Definition frame_of (s : mach W) : Z := new_stack tss_rsp0 s - 176.

Lemma window_part h lo hi lo' : window h lo hi → lo ≤ lo' ≤ hi → window h lo' hi.
Proof. unfold window. lia. Qed.

Ltac push_next := apply runs_bind; eapply runs_mono;
  [eapply push_ok; [eassumption|first [apply (mi_core _ ltac:(eassumption))|assumption|done]
    |eapply window_part; [eassumption|cbn; lia]]|cbn beta; cbn [app]; intros _ ? ?].

(** What the processor pushes. *)
Definition hardware (c : cpu) : list Z :=
  [stack_segment c; gpr c RSP; flags c; code_segment c; ip c].

Lemma deliver_interrupt_ok s e : may_interrupt s → match e with Some v => word v | None => True end →
  runs (take_interrupt tss_rsp0 e) s (λ _ s', stacked s s' (new_stack tss_rsp0 s)
    (hardware (core s) ++ match e with Some v => [v] | None => [] end)).
Proof.
  intros I He. pose proof (mi_room _ I) as Hw. unfold take_interrupt. apply runs_bind.
  eapply runs_ok; [reflexivity|]. apply runs_bind. eapply runs_ok; [reflexivity|].
  set (a := new_stack tss_rsp0 s) in *.
  match goal with |- runs _ ?s1 _ => assert (stacked s s1 a []) as S end.
  { split; cbn -[load]; try done.
    - rewrite decide_True by done. lia.
    - intros r Hr. by rewrite decide_False.
    - by rewrite with_ram_of.
    - apply only_stack_refl. }
  push_next. push_next. push_next. push_next. push_next. apply runs_bind.
  destruct e as [v|].
  - eapply runs_mono; [eapply push_ok; [eassumption|done|eapply window_part; [eassumption|cbn; lia]]|].
    cbn beta. intros _ sv Sv. eapply runs_ok; [reflexivity|]. by apply stacked_core.
  - apply runs_ret. eapply runs_ok; [reflexivity|]. by apply stacked_core.
Qed.

(** The world the handler of interrupt [n] is entered with: the frame holds the
    interrupted context, and nothing but the stack has changed. *)
Record entered (s : mach W) (n e : Z) (w : W) : Prop := {
  en_kern : w = with_ram (ram_of w) (kern s);
  en_frame : context_at (ram_of w) (frame_of s) = context_of (core s) n e;
  en_ram : only_stack (frame_of s - 8) (frame_of s + 176) (ram_of (kern s)) (ram_of w);
}.

Definition stub_values (c : cpu) (n e : Z) : list Z :=
  hardware c ++ [e; n] ++ map (gpr c) saved_registers.

Lemma stacked_context s s' n e : stacked s s' (new_stack tss_rsp0 s) (stub_values (core s) n e) →
  context_at (ram_of (kern s')) (frame_of s) = context_of (core s) n e.
Proof.
  intros S. unfold context_at, frame_of. set (a := new_stack tss_rsp0 s) in *.
  assert (∀ k (i : nat) v, stub_values (core s) n e !! i = Some v → k = 21 - Z.of_nat i →
    load 8 (ram_of (kern s')) (a - 176 + 8 * k) = v) as H.
  { intros k i v Hi ->. rewrite <- (st_words _ _ _ _ S i v Hi). f_equal. lia. }
  unfold context_of. f_equal.
  all: match goal with |- load 8 _ (_ + 8 * ?k) = _ =>
    let i := eval vm_compute in (Z.to_nat (21 - k)) in apply (H k i); [reflexivity|lia] end.
Qed.

(** A write below a frame leaves it alone. *)
Lemma load_keep lo hi b n m m' : only_stack lo hi m m' → window (hhdm_offset m) lo b → hi ≤ n →
  n + 8 ≤ b → load 8 m' n = load 8 m n.
Proof.
  intros [Hm Ho] Hw H1 H2. unfold load. assert (hhdm_offset m' = hhdm_offset m) as -> by (by rewrite Hm).
  destruct (window_cell _ _ _ Hw) as [d Hd]. destruct (decide (lo < hi)).
  - rewrite Hd by lia. eapply rd_same_outside; [exact Ho|]. intros x Hx (y & Hy & ->).
    rewrite Hd in Hx by lia. lia.
  - eapply rd_same_outside; [exact Ho|]. intros x Hx (y & Hy & ->). lia.
Qed.

Lemma context_keep lo b m m' : only_stack lo b m m' → window (hhdm_offset m) lo (b + 176) →
  context_at m' b = context_at m b.
Proof.
  intros Ho Hw. unfold context_at. f_equal; eapply load_keep; try eassumption; lia.
Qed.

Lemma only_stack_trans lo mid hi m1 m2 m3 : lo ≤ mid ≤ hi →
  only_stack mid hi m1 m2 → only_stack lo mid m2 m3 → only_stack lo hi m1 m3.
Proof.
  intros Hl [E1 O1] [E2 O2]. split; [rewrite E2; by apply set_ram_same with (r := ram m2)|].
  intros x Hx. rewrite O2, O1; [done| |].
  - intros (y & Hy & ->). apply Hx. exists y. split; [lia|done].
  - intros (y & Hy & ->). apply Hx. exists y. split; [lia|]. by rewrite E1.
Qed.

Lemma call_function_ok (f : function) s s1 n e :
  may_interrupt s → stacked s s1 (new_stack tss_rsp0 s) (stub_values (core s) n e) →
  ∃ w1, entered s n e w1 ∧ ∀ c w2, f (frame_of s) w1 = Ok (c, w2) →
    runs (run junk return_address [Mov RDI RSP; Call f; Mov RSP RAX]) s1 (λ _ s2,
      kern s2 = w2 ∧ gpr (core s2) RSP = c).
Proof.
  intros I S. pose proof (mi_room _ I) as Hw. pose proof S as [Hr Hg Hk Hm Hws].
  set (a := new_stack tss_rsp0 s) in *. change (length (stub_values _ _ _)) with 22%nat in *.
  set (s2 := set_core (set_gpr RDI (gpr (core s1) RSP) (core s1)) s1).
  assert (stacked s2 s2 (a - 176) []) as S2.
  { split; cbn -[load]; try done; [|by rewrite with_ram_of|apply only_stack_refl].
    rewrite decide_False by done. rewrite Hr. lia. }
  assert (window (hhdm_offset (ram_of (kern s1))) (a - 184) (a - 176 + 176)) as Hw1.
  { rewrite (proj1 Hm). replace (a - 176 + 176) with a by lia. exact Hw. }
  destruct (runs_inv _ _ _ (push_ok s2 s2 (a - 176) [] return_address S2 (mi_return _ I)
    ltac:(change (kern s2) with (kern s1); cbn [length]; unfold window in *; lia))) as (u & s3 & E3 & S3).
  pose proof S3 as [Hr3 Hg3 Hk3 Hm3 _]. cbn [length app] in Hm3.
  replace (a - 176 - 8 * Z.of_nat 1) with (a - 184) in Hm3 by lia.
  replace (a - 8 * Z.of_nat 22) with (a - 176) in Hm by lia.
  exists (kern s3). split.
  - split.
    + rewrite Hk3 at 1. cbn [kern s2 set_core]. rewrite Hk at 1. apply with_ram_with.
    + rewrite <- (stacked_context s s1 n e S). unfold frame_of.
      eapply context_keep; [exact Hm3|exact Hw1].
    + unfold frame_of. fold a. replace (a - 176 - 8) with (a - 184) by lia.
      eapply (only_stack_trans _ (a - 176)); [lia| |].
      * replace (a - 176 + 176) with a by lia. exact Hm.
      * exact Hm3.
  - assert (gpr (core s2) RDI = frame_of s) as Ea.
    { cbn -[decide]. rewrite decide_True, Hr by done. unfold frame_of. fold a. lia. }
    intros c w2 Hf. unfold run. cbn [for_each exec]. apply runs_bind, runs_bind.
    eapply runs_ok; [reflexivity|]. eapply runs_ok; [reflexivity|]. fold s2.
    apply runs_bind. unfold call. apply runs_bind. eapply runs_ok; [reflexivity|].
    apply runs_bind. eapply runs_ok; [exact E3|]. apply runs_bind, runs_zoom.
    eapply runs_ok; [rewrite <- Ea in Hf; exact Hf|].
    apply runs_bind. eapply runs_ok; [reflexivity|]. eapply runs_ok; [reflexivity|].
    apply runs_bind, runs_bind. eapply runs_ok; [reflexivity|]. eapply runs_ok; [reflexivity|].
    apply runs_ret. split; [reflexivity|]. cbn -[decide]. by rewrite !decide_True.
Qed.

(** ** Leaving *)

Lemma run_app l1 l2 s Q :
  runs (run junk return_address l1) s (λ _ s', runs (run junk return_address l2) s' Q) →
  runs (run junk return_address (l1 ++ l2)) s Q.
Proof.
  revert s. induction l1 as [|i l1 IH]; intros s H; [exact H|]. unfold run in *.
  cbn [app for_each] in *. apply runs_bind. unfold runs, mbind, M_bind in H |- *.
  destruct (exec junk return_address i s) as [[[] s1]| | |]; cbn [bind_result fst snd] in H; try done.
  by apply IH.
Qed.

Lemma pop_ok s b : gpr (core s) RSP = b →
  runs pop s (λ v s', v = load 8 (ram_of (kern s)) b ∧
    s' = set_core (set_gpr RSP (u64 (b + 8)) (core s)) s).
Proof.
  intros Hb. unfold pop. apply runs_bind. eapply runs_ok; [reflexivity|].
  rewrite Hb. apply runs_bind. eapply runs_ok; [reflexivity|].
  by eapply runs_ok; [reflexivity|].
Qed.

Lemma pops_ok rs s b : gpr (core s) RSP = b → 0 ≤ b → b + 8 * Z.of_nat (length rs) < 2 ^ 64 →
  NoDup rs → RSP ∉ rs →
  runs (run junk return_address (map Pop rs)) s (λ _ s', kern s' = kern s ∧
    gpr (core s') RSP = b + 8 * Z.of_nat (length rs) ∧
    (∀ (i : nat) r, rs !! i = Some r →
      gpr (core s') r = load 8 (ram_of (kern s)) (b + 8 * Z.of_nat i)) ∧
    ∀ r, r ∉ rs → r ≠ RSP → gpr (core s') r = gpr (core s) r).
Proof.
  revert s b. induction rs as [|r rs IH]; intros s b Hb H0 H1 ND Hn.
  { apply runs_ret. cbn. split_and!; [done|lia|done|done]. }
  apply list.NoDup_cons in ND as [Hr ND]. apply not_elem_of_cons in Hn as [Hne Hn].
  cbn [length] in H1. unfold run. cbn [map for_each exec]. apply runs_bind, runs_bind.
  eapply runs_mono; [by apply (pop_ok s b)|]. cbn beta. intros v s1 [-> ->].
  rewrite u64_small by lia. eapply runs_ok; [reflexivity|]. eapply runs_mono; [apply (IH _ (b + 8)); [|lia|lia|done|done]|].
  { cbn -[decide]. by rewrite decide_False, decide_True by done. }
  cbn beta. intros _ s2 (Hk & Hsp & Hl & Ho). cbn -[load decide] in *. split_and!.
  - done.
  - rewrite Hsp. lia.
  - intros [|i] r' Hi; cbn in Hi.
    + injection Hi as <-. rewrite Ho by done. rewrite decide_True by done. f_equal. lia.
    + rewrite (Hl i r' Hi). f_equal. lia.
  - intros r' Hr' Hsp'. apply not_elem_of_cons in Hr' as [Hr1 Hr2]. rewrite Ho by done.
    by rewrite !decide_False by done.
Qed.

Lemma iretq_ok s b : gpr (core s) RSP = b → 0 ≤ b → b + 40 ≤ 2 ^ 64 →
  runs iretq s (λ _ s', kern s' = kern s ∧ ip (core s') = load 8 (ram_of (kern s)) b ∧
    code_segment (core s') = load 8 (ram_of (kern s)) (b + 8) ∧
    flags (core s') = load 8 (ram_of (kern s)) (b + 16) ∧
    gpr (core s') RSP = load 8 (ram_of (kern s)) (b + 24) ∧
    stack_segment (core s') = load 8 (ram_of (kern s)) (b + 32) ∧
    ∀ r, r ≠ RSP → gpr (core s') r = gpr (core s) r).
Proof.
  intros Hb H0 H1. unfold iretq.
  do 4 (apply runs_bind; eapply runs_mono;
    [eapply pop_ok; eassumption || (cbn -[decide]; by rewrite decide_True)|];
    cbn beta; intros ? ? [-> ->]; rewrite u64_small by lia).
  apply runs_bind. eapply runs_mono; [eapply pop_ok; cbn -[decide]; by rewrite decide_True|].
  cbn beta. intros ? ? [-> ->].
  eapply runs_ok; [reflexivity|]. cbn -[load decide].
  rewrite decide_True by done. split_and!; [done|done|..|intros r Hr; by rewrite !decide_False].
  all: f_equal; lia.
Qed.

(** Whatever frame the handler returns is resumed. *)
Lemma leave_ok s c : gpr (core s) RSP = c → 0 ≤ c → c + 176 ≤ 2 ^ 64 →
  runs (run junk return_address (map Pop (reverse saved_registers) ++ [AddRsp 16; Sti; Iretq])) s
    (λ _ s', kern s' = kern s ∧ core s' ≡ resume (context_at (ram_of (kern s)) c)).
Proof.
  intros Hc H0 H1. apply run_app. eapply runs_mono.
  { apply (pops_ok _ s c Hc H0); [cbn; lia|apply (bool_decide_unpack _); by vm_compute..]. }
  cbn beta. intros _ s1 (Hk & Hsp & Hl & _). unfold run. cbn [for_each exec].
  apply runs_bind, runs_bind. eapply runs_ok; [reflexivity|]. eapply runs_ok; [reflexivity|].
  apply runs_bind. eapply runs_ok; [reflexivity|]. apply runs_bind.
  eapply runs_mono; [apply (iretq_ok _ (c + 136)); [|lia|lia]|].
  { cbn -[decide u64 saved_registers]. rewrite decide_True by done. rewrite Hsp, u64_small; cbn; lia. }
  cbn beta. intros _ s2 (Hk2 & Hip & Hcs & Hfl & Hrsp & Hss & Hg). apply runs_ret.
  cbn -[load decide] in Hk2, Hip, Hcs, Hfl, Hrsp, Hss. rewrite Hk in *. split; [congruence|].
  split; [|cbn -[load]; rewrite Hip, Hcs, Hfl, Hss; split_and!; f_equal; lia].
  intros r. destruct (decide (r = RSP)) as [->|Hr].
  { rewrite Hrsp. cbn -[load]. f_equal. lia. }
  rewrite Hg by done. cbn -[load decide]. rewrite decide_False by done.
  destruct r; try done.
  all: match goal with |- gpr _ ?r = load 8 _ (_ + 8 * ?k) =>
    let i := eval vm_compute in (Z.to_nat k) in exact (Hl i r eq_refl) end.
Qed.

(** ** From the interrupt to the code that is resumed *)

(** The code of an entry point in front of the call, with the values it pushes
    between those of the processor and the registers. *)
Definition prologue (e : option Z) (n : Z) : list (instr W) :=
  [Cli] ++ match e with Some _ => [] | None => [PushI 0] end ++ [PushI n] ++ map Push saved_registers.
Definition error_of (e : option Z) : Z := default 0 e.

Lemma enter_code_ok s e n : may_interrupt s → word (error_of e) → word n →
  runs (take_interrupt tss_rsp0 e;; run junk return_address (prologue e n)) s
    (λ _ s', stacked s s' (new_stack tss_rsp0 s) (stub_values (core s) n (error_of e))).
Proof.
  intros I He Hn. pose proof (mi_room _ I) as Hw. apply runs_bind.
  eapply runs_mono; [apply deliver_interrupt_ok; [done|by destruct e]|]. cbn beta. intros _ s1 S1.
  unfold prologue. apply run_app. unfold run at 1. cbn [for_each exec]. apply runs_bind.
  eapply runs_ok; [reflexivity|]. apply runs_ret. apply run_app.
  match goal with |- runs _ ?s2 _ => assert (stacked s s2 (new_stack tss_rsp0 s) (hardware (core s) ++
    match e with Some v => [v] | None => [] end)) as S2 by (by apply stacked_core) end.
  eapply (runs_mono _ _ (λ _ s', stacked s s' (new_stack tss_rsp0 s) (hardware (core s) ++ [error_of e]))).
  { destruct e as [v|]; [by apply runs_ret|]. unfold run. cbn [for_each exec]. push_next. by apply runs_ret. }
  intros _ s3 S3. apply run_app. unfold run at 1. cbn [for_each exec]. push_next. apply runs_ret.
  eapply runs_mono; [eapply push_regs_ok; [eassumption|apply I| |]|].
  - apply (bool_decide_unpack _). by vm_compute.
  - eapply window_part; [eassumption|]. cbn. lia.
  - cbn beta. intros _ s5 S5. exact S5.
Qed.

Lemma bind_split {S A B} (c : M S A) (k : A → M S B) s b s2 : (c ≫= k) s = Ok (b, s2) →
  ∃ a s1, c s = Ok (a, s1) ∧ k a s1 = Ok (b, s2).
Proof. unfold mbind, M_bind. destruct (c s) as [[a s1]| | |]; try discriminate. intros H. by exists a, s1. Qed.

Lemma interrupt_split s e l1 l2 s1 u Q :
  (take_interrupt tss_rsp0 e;; run junk return_address l1) s = Ok (u, s1) →
  runs (run junk return_address l2) s1 Q → runs (interrupt junk return_address tss_rsp0 e (l1 ++ l2)) s Q.
Proof.
  intros (u' & s' & E0 & E1)%bind_split HQ. unfold interrupt. apply runs_bind.
  eapply runs_ok; [exact E0|]. apply run_app. eapply runs_ok; [exact E1|exact HQ].
Qed.

(** The entry points, cut in front of the call. *)
Definition stub (e : option Z) (n : Z) (f : function) : list (instr W) :=
  prologue e n ++ [Mov RDI RSP; Call f; Mov RSP RAX] ++
  map Pop (reverse saved_registers) ++ [AddRsp 16; Sti; Iretq].

Lemma stub_ok (f : function) s e n : may_interrupt s → word (error_of e) → word n →
  ∃ w1, entered s n (error_of e) w1 ∧ ∀ c w2, f (frame_of s) w1 = Ok (c, w2) → 0 ≤ c → c + 176 ≤ 2 ^ 64 →
    runs (interrupt junk return_address tss_rsp0 e (stub e n f)) s
      (λ _ s', kern s' = w2 ∧ core s' ≡ resume (context_at (ram_of w2) c)).
Proof.
  intros I He Hn. destruct (runs_inv _ _ _ (enter_code_ok s e n I He Hn)) as (u & s1 & E1 & S1).
  destruct (call_function_ok f s s1 n _ I S1) as (w1 & H1 & Hf). exists w1. split; [done|].
  intros c w2 Hc H0 H2. unfold stub. apply (interrupt_split s e _ _ s1 u _ E1).
  apply run_app. eapply runs_mono; [exact (Hf c w2 Hc)|]. cbn beta. intros _ s2 [<- Hr].
  exact (leave_ok s2 c Hr H0 H2).
Qed.

Lemma code_of_irq isr_h irq_h sys_h eoi n : code_of isr_h irq_h sys_h eoi (irq n) = stub None (32 + n) irq_h.
Proof. reflexivity. Qed.

Lemma code_of_isr128 isr_h irq_h sys_h eoi : code_of isr_h irq_h sys_h eoi isr128 = stub None 0x80 sys_h.
Proof. reflexivity. Qed.

(** [C8] The entry points of hardware interrupts save and restore everything.  An
    interrupt on line [n] calls [irq_handler] with a frame, below the stack of the
    kernel or of the task state segment, that holds every register of the
    interrupted code, vector [32 + n] and error code 0, and with nothing else
    changed in memory but the frame and the return address.  Whatever frame the
    handler returns, the processor continues with exactly the registers,
    instruction, flags and stack that frame holds; so the interrupted code
    continues as if nothing had happened when its own frame comes back, now or in
    a later interrupt. *)
Theorem irq_entry_exit (isr_h irq_h sys_h eoi : function) (s : mach W) (n : Z) :
  may_interrupt s → 0 ≤ n < 16 →
  ∃ w1, entered s (32 + n) 0 w1 ∧
    ∀ c w2, irq_h (frame_of s) w1 = Ok (c, w2) → 0 ≤ c → c + 176 ≤ 2 ^ 64 →
      runs (interrupt junk return_address tss_rsp0 None (code_of isr_h irq_h sys_h eoi (irq n))) s
        (λ _ s', kern s' = w2 ∧ core s' ≡ resume (context_at (ram_of w2) c) ∧
          ∀ c0 k e, context_at (ram_of w2) c = context_of c0 k e → core s' ≡ c0).
Proof.
  intros I Hn. rewrite code_of_irq. destruct (stub_ok irq_h s None (32 + n) I) as (w1 & E & H);
    [done|unfold word; lia|]. exists w1. split; [exact E|]. intros c w2 Hc H0 H1.
  eapply runs_mono; [by apply (H c w2)|]. cbn beta. intros _ s' [Hk Hr]. split_and!; [done|done|].
  intros c0 k e Hc0. rewrite Hr, Hc0. apply resume_context_of.
Qed.

End correct.

(** ** Instances *)

(** A kernel thread that is interrupted: the stack is below 1 MiB. *)
Definition demo_cpu : cpu :=
  Cpu (λ r, match r with RSP => 0x80000 | RBP => 0x80020 | RAX => 42 | R15 => 7 | _ => 0 end) 0x1234 0x28 0x202 0x30.
Definition demo_ram : kstate := KState (2 ^ 63) 0 0 0 0 0 0 ∅.
Definition demo_mach : mach pstate := Mach demo_cpu (PState demo_ram ∅ 0 0 1 0 0 true).

Lemma demo_may_interrupt : may_interrupt 0x9999 rsp0 demo_mach.
Proof.
  split; [|unfold window; vm_compute; intuition congruence|unfold word; lia].
  split; cbn; unfold word; try lia. intros []; lia.
Qed.

(** A handler that returns the frame it was given. *)
Definition same_frame : function (W := pstate) := λ frame, mret frame.

Lemma irq_entry_exit_witness : ∃ w1,
  entered rsp0 demo_mach (32 + 1) 0 w1 ∧
  ∀ c w2, same_frame (frame_of rsp0 demo_mach) w1 = Ok (c, w2) → 0 ≤ c → c + 176 ≤ 2 ^ 64 →
    runs (interrupt (λ _, 0) 0x9999 rsp0 None (code_of same_frame same_frame same_frame same_frame (irq 1))) demo_mach
      (λ _ s', kern s' = w2 ∧ core s' ≡ resume (context_at (ram_of w2) c) ∧
        ∀ c0 k e, context_at (ram_of w2) c = context_of c0 k e → core s' ≡ c0).
Proof.
  apply (irq_entry_exit (λ _, 0) 0x9999 rsp0 same_frame same_frame same_frame same_frame demo_mach 1).
  - exact demo_may_interrupt.
  - lia.
Defined.
