(* ===== verification/User.v ===== *)
(** * [src/kernel/userland/user.asm] and the processor helpers of [cpu/cpu.h]

    [jmp_user], which builds a frame for user mode on the stack, instruction by
    instruction; and the inline functions of [cpu.h] that switch interrupts, stop
    the processor and read a port. *)

From S2P Require Import Prelude Machine Process Gdt Entry EntryCorrect.

Section user.
Context {W : Type} `{HR : !HasRam W}.
Context (junk : reg → Z) (return_address : Z).

(** The processor with its data segment register. *)
Record user_mach := UserMach { um_mach : mach W; um_ds : Z }.
Definition set_um_mach (x : mach W) (s : user_mach) : user_mach := UserMach x (um_ds s).
Definition on_mach {A} (c : M (mach W) A) : M user_mach A := zoom um_mach set_um_mach c.

(** [mov ax, n] writes the low 16 bits of [rax]. *)
Definition mov_ax (n : Z) : M user_mach unit :=
  on_mach (v ← get_reg RAX; put_reg RAX (v - v mod 2 ^ 16 + n)).
(** [mov ds, ax] *)
Definition mov_ds_ax : M user_mach unit :=
  v ← on_mach (get_reg RAX);
  modify (λ s, UserMach (um_mach s) (u16 v)).

(** The five pushes; the last line of the text, [ireqt], is no instruction: the
    assembler takes a word alone on a line for a label, so that nothing follows. *)
Definition user_frame_code : list (instr W) :=
  [PushI 0x43; Push RSI; PushI 0x202; PushI 0x3b; Push RDI].
Definition jmp_user : M user_mach unit :=
  mov_ax 0x43;;
  mov_ds_ax;;
  on_mach (run junk return_address user_frame_code).

(** ** The inline functions of [cpu.h] *)

Definition enable_interrupts : M (mach W) unit := exec junk return_address Sti.
Definition disable_interrupts : M (mach W) unit := exec junk return_address Cli.

(** [cli], then [for (;;) hlt]. *)
Definition hcf : M (mach W) unit :=
  exec junk return_address Cli;;
  loop (λ _ : unit, mret (inl tt)) tt.

(** [inb]: [device] is what reading a port gives; [dx] holds 16 bits and [al] 8. *)
Definition inb (device : Z → M W Z) (portnum : Z) : M W Z :=
  v ← device (u16 portnum);
  mret (u8 v).

(** ** Properties *)

(** The words [jmp_user] pushes, from the top of the stack. *)
Definition user_frame (c : cpu) : list Z := [0x43; gpr c RSI; 0x202; 0x3b; gpr c RDI].

Lemma user_frame_ok (s0 s : mach W) a : stacked s0 s a [] → cpu_ok (core s0) →
  window (hhdm_offset (ram_of (kern s0))) (a - 40) a →
  runs (run junk return_address user_frame_code) s (λ _ s', stacked s0 s' a (user_frame (core s0))).
Proof.
  intros S C Hw. unfold run, user_frame_code. cbn [for_each exec].
  assert (∀ v, 0 ≤ v < 2 ^ 64 → word v) as Hword by done.
  assert (∀ n, (n < 5)%nat → window (hhdm_offset (ram_of (kern s0))) (a - 8 * (Z.of_nat n + 1)) a) as Hroom.
  { intros n Hn. eapply window_part; [exact Hw|lia]. }
  apply runs_bind. eapply runs_mono; [apply (push_ok s0 s a []); [done|by apply Hword|by apply (Hroom 0%nat); lia]|].
  cbn beta. intros _ s1 S1. apply runs_bind, runs_bind, runs_gets. rewrite (st_gpr _ _ _ _ S1) by done.
  eapply runs_mono; [eapply push_ok; [exact S1|apply C|by apply (Hroom 1%nat); lia]|].
  cbn beta. intros _ s2 S2. apply runs_bind.
  eapply runs_mono; [eapply push_ok; [exact S2|by apply Hword|by apply (Hroom 2%nat); lia]|].
  cbn beta. intros _ s3 S3. apply runs_bind.
  eapply runs_mono; [eapply push_ok; [exact S3|by apply Hword|by apply (Hroom 3%nat); lia]|].
  cbn beta. intros _ s4 S4. apply runs_bind, runs_bind, runs_gets. rewrite (st_gpr _ _ _ _ S4) by done.
  eapply runs_mono; [eapply push_ok; [exact S4|apply C|by apply (Hroom 4%nat); lia]|].
  cbn beta. intros _ s5 S5. by apply runs_ret.
Qed.

(** Pushing leaves the program where it is, in the mode it is in. *)
Definition same_place (c c' : cpu) : Prop :=
  ip c' = ip c ∧ code_segment c' = code_segment c ∧ flags c' = flags c ∧ stack_segment c' = stack_segment c.

Lemma push_place v (s : mach W) : runs (push v) s (λ _ s', same_place (core s) (core s')).
Proof. eapply runs_ok; [reflexivity|]. by split_and!. Qed.

Lemma pushes_place (code : list (instr W)) (s : mach W) :
  Forall (λ i, match i with PushI _ | Push _ => True | _ => False end) code →
  runs (run junk return_address code) s (λ _ s', same_place (core s) (core s')).
Proof.
  intros H. revert s. induction H as [|i code Hi _ IH]; intros s; [apply runs_ret; by split_and!|].
  apply runs_bind. assert (runs (exec junk return_address i) s (λ _ s', same_place (core s) (core s'))) as He.
  { by destruct i. }
  eapply runs_mono; [exact He|]. intros [] s1 (E1 & E2 & E3 & E4). eapply runs_mono; [apply IH|].
  cbn beta. intros _ s2 (F1 & F2 & F3 & F4). unfold same_place. by rewrite F1, F2, F3, F4.
Qed.

Lemma runs_and {S A} (c : M S A) s (P Q : A → S → Prop) :
  runs c s P → runs c s Q → runs c s (λ a s', P a s' ∧ Q a s').
Proof. unfold runs. by destruct (c s) as [[]| | |]. Qed.

Lemma mov_ax_word v n : word v → 0 ≤ n < 2 ^ 16 →
  word (v - v mod 2 ^ 16 + n) ∧ u16 (v - v mod 2 ^ 16 + n) = n.
Proof. unfold word, u16, wrap. intros. split; zify_div. Qed.

(** Interrupts off and on are the bit of the flags, and nothing else. *)
Lemma interrupts_flag s : ∃ s' s'',
  disable_interrupts s = Ok (tt, s') ∧ enable_interrupts s = Ok (tt, s'') ∧
  Z.testbit (flags (core s')) 9 = false ∧ Z.testbit (flags (core s'')) 9 = true ∧
  (∀ i, i ≠ 9 → Z.testbit (flags (core s')) i = Z.testbit (flags (core s)) i ∧
                Z.testbit (flags (core s'')) i = Z.testbit (flags (core s)) i).
Proof.
  do 2 eexists. split; [reflexivity|]. split; [reflexivity|]. cbn [core set_core flags set_flags].
  assert (∀ i, Z.testbit IF i = bool_decide (i = 9)) as HIF.
  { intros i. change IF with (Z.shiftl 1 9). by apply testbit_one_bit. }
  split; [rewrite Z.land_spec, Z.lnot_spec, HIF by lia; apply andb_false_r|].
  split; [rewrite Z.lor_spec, HIF; apply orb_true_r|]. intros i Hi.
  rewrite Z.lor_spec, HIF, bool_decide_false, orb_false_r by done. split; [|done].
  destruct (decide (0 ≤ i)) as [Hi0|Hi0]; [|by rewrite !Z.testbit_neg_r by lia].
  by rewrite Z.land_spec, Z.lnot_spec, HIF, bool_decide_false, andb_true_r by (done || lia).
Qed.

(** [hcf] never returns. *)
Lemma hcf_hangs s : hcf s = Hang.
Proof.
  unfold hcf, mbind, M_bind. cbn [exec modify bind_result fst snd].
  apply (loop_hangs (λ _ : unit, mret (inl tt)) (λ _ _, True)); [|done].
  intros a s' _. by exists tt, s'.
Qed.

(** [jmp_user] prepares the change to user mode and does not make it: with
    room for five words on the stack it loads the user data segment and pushes the
    entry point, the user code segment, flags with interrupts on, the stack and the
    user stack segment in the order of an interrupt frame, and then control runs
    on in the kernel: program, mode, flags and stack segment are unchanged, since
    its last line assembles to nothing.  The frame is right: [iretq] there would
    continue at the entry point in ring 3 on the given stack. *)
Theorem jmp_user_correct (s : user_mach) :
  let c := core (um_mach s) in
  cpu_ok c → window (hhdm_offset (ram_of (kern (um_mach s)))) (gpr c RSP - 40) (gpr c RSP) →
  runs jmp_user s (λ _ s',
    let c' := core (um_mach s') in
    um_ds s' = USER_SS ∧ gpr c' RSP = gpr c RSP - 40 ∧
    (∀ r, r ≠ RSP → r ≠ RAX → gpr c' r = gpr c r) ∧ same_place c c' ∧
    runs iretq (um_mach s') (λ _ m, ip (core m) = gpr c RDI ∧ code_segment (core m) = USER_CS ∧
      flags (core m) = 0x202 ∧ gpr (core m) RSP = gpr c RSI ∧ stack_segment (core m) = USER_SS ∧
      kern m = kern (um_mach s'))).
Proof.
  intros c C Hw. destruct (mov_ax_word (gpr c RAX) 0x43 (ok_gpr _ C RAX)) as [Hword Hlow]; [lia|].
  set (v := gpr c RAX - gpr c RAX mod 2 ^ 16 + 0x43) in *.
  set (s1 := set_core (set_gpr RAX v c) (um_mach s)).
  assert (cpu_ok (core s1)) as C1.
  { destruct C. split; try done. intros r. cbn [core s1 set_core set_gpr gpr]. by case_decide. }
  assert (gpr (core s1) RSP = gpr c RSP) as Esp by done.
  assert (stacked s1 s1 (gpr c RSP) []) as S0.
  { split; cbn [length]; [rewrite Esp; lia|done|by rewrite with_ram_of|apply only_stack_refl|done]. }
  assert (runs (on_mach (run junk return_address user_frame_code)) (UserMach s1 (u16 v)) (λ _ s',
    um_ds s' = u16 v ∧ stacked s1 (um_mach s') (gpr c RSP) (user_frame (core s1)) ∧
    same_place (core s1) (core (um_mach s')))) as H.
  { apply runs_zoom. eapply runs_mono; [apply runs_and; [by apply (user_frame_ok s1 s1)|]|].
    - apply pushes_place. by repeat constructor.
    - cbn beta. intros _ s2 [S2 P2]. by split_and!. }
  unfold jmp_user. apply runs_bind, (runs_ok _ _ tt (UserMach s1 (um_ds s))); [reflexivity|].
  apply runs_bind, (runs_ok _ _ tt (UserMach s1 (u16 v))); [reflexivity|].
  eapply runs_mono; [exact H|]. clear H. cbn beta zeta. intros _ s' (Hds & S & P). cbn [length user_frame] in *. destruct Hw as (H0 & H1 & _).
  pose proof (st_rsp _ _ _ _ S) as Hsp. cbn [length user_frame] in Hsp.
  split; [by rewrite Hds, Hlow|]. split; [rewrite Hsp; lia|]. split.
  { intros r Hr Hr'. rewrite (st_gpr _ _ _ _ S) by done. cbn [core s1 set_core set_gpr gpr].
    by rewrite decide_False. }
  split; [exact P|].
  eapply runs_mono; [apply (iretq_ok (um_mach s') (gpr c RSP - 40)); [rewrite Hsp; lia|lia|lia]|].
  cbn beta. intros _ m (Ek & Eip & Ecs & Efl & Erp & Ess & _).
  assert (∀ (i : nat) w, user_frame (core s1) !! i = Some w →
    load 8 (ram_of (kern (um_mach s'))) (gpr c RSP - 8 * (Z.of_nat i + 1)) = w) as Hwords by apply S.
  rewrite Eip, Ecs, Efl, Erp, Ess. change USER_CS with 0x3b. change USER_SS with 0x43.
  split_and!; [| | | | |done].
  - rewrite <- (Hwords 4%nat (gpr c RDI) eq_refl). f_equal.
  - rewrite <- (Hwords 3%nat 0x3b eq_refl). f_equal. lia.
  - rewrite <- (Hwords 2%nat 0x202 eq_refl). f_equal. lia.
  - rewrite <- (Hwords 1%nat (gpr c RSI) eq_refl). f_equal. lia.
  - rewrite <- (Hwords 0%nat 0x43 eq_refl). f_equal. lia.
Qed.

End user.
Arguments user_mach : clear implicits.

(** ** Instances *)

Definition demo_user : user_mach pstate := UserMach demo_mach 0x30.

Lemma jmp_user_correct_witness :
  let c := core (um_mach demo_user) in
  runs (jmp_user (λ _, 0) 0x9999) demo_user (λ _ s',
    let c' := core (um_mach s') in
    um_ds s' = USER_SS ∧ gpr c' RSP = gpr c RSP - 40 ∧
    (∀ r, r ≠ RSP → r ≠ RAX → gpr c' r = gpr c r) ∧ same_place c c' ∧
    runs iretq (um_mach s') (λ _ m, ip (core m) = gpr c RDI ∧ code_segment (core m) = USER_CS ∧
      flags (core m) = 0x202 ∧ gpr (core m) RSP = gpr c RSI ∧ stack_segment (core m) = USER_SS ∧
      kern m = kern (um_mach s'))).
Proof.
  apply (jmp_user_correct (λ _, 0) 0x9999 demo_user).
  - exact (mi_core _ _ _ demo_may_interrupt).
  - unfold window. vm_compute. intuition congruence.
Defined.
