(* ===== verification/Threads.v ===== *)
(** * Threads: the timer interrupt, from the interrupted instruction to the next one

    The entry point of [interrupt_vector.asm], the dispatch of [idt.c], the timer
    handler, the scheduler and the way out, composed on one machine.  The abstract
    specification is a table of threads: the processor states of the processes
    that do not run.  A timer interrupt stores the interrupted state in the table
    and continues with the one of the process the scheduler selects. *)

From S2P Require Import Prelude Machine Util Spinlock Heap Process Scheduler.
From S2P Require Import Interrupts InterruptsCorrect Entry EntryCorrect.
From S2P Require Import KheapCorrect VmmCorrect SchedulerCorrect.

(** ** The composition *)

(** What the interrupt handlers work on has RAM. *)
#[global] Instance istate_ram : HasRam (istate pstate).
Proof.
  refine (Build_HasRam (istate pstate) (λ s, mem (world s)) (λ m s, set_world (set_mem m (world s)) s) _ _ _).
  - done.
  - done.
  - by intros [? ? ? ? ? ? []].
Defined.

(** [frame->int_number] *)
Definition frame_vector (w : pstate) (frame : Z) : Z := int_number (context_at (mem w) frame).

(** The stack of the task state segment. *)
Definition tss_stack (s : istate pstate) : Z := rsp0 (world s).

(** ** Specification *)

(** Process [x] is to continue as [k]: its context lies in a block of its own. *)
Definition saved `{HeapView} (w : pstate) (home : Z → gset Z) (x : Z) (k : cpu) : Prop :=
  ∃ px b, procs w !! x = Some px ∧ b ∈ home x ∧ owns (mem w) b (context px) 176 ∧
    0 ≤ context px ∧ context px + 176 ≤ 2 ^ 64 ∧ resume (context_at (mem w) (context px)) ≡ k.

Definition homes (home : Z → gset Z) (l : list Z) : gset Z := ⋃ (home <$> l).

(** The process list [l] holds the threads [ts]; [home x] are the blocks of
    process [x] beside its control block: the first context and the stack. *)
Record threads_inv `{HeapView} (w : pstate) (l : list Z) (home : Z → gset Z) (ts : gmap Z cpu) : Prop := {
  th_procs : proc_inv w l;
  th_heap : ∃ B, heap_ok (mem w) B ∧ homes home l ∪ list_to_set l ⊆ B;
  th_home : ∀ x b, x ∈ l → b ∈ home x → ¬ (b ∈ l);
  th_apart : ∀ x y b, x ∈ l → y ∈ l → x ≠ y → b ∈ home x → ¬ (b ∈ home y);
  th_saved : ∀ x k, x ∈ l → ts !! x = Some k → saved w home x k;
}.

(** The interrupted state is kept for a process that runs, and lost for one that
    has exited. *)
Definition suspend (g : Z) (pg : process_t) (c : cpu) (ts : gmap Z cpu) : gmap Z cpu :=
  if decide (status pg = RUNNING) then <[g := c]> ts else ts.

(** Beside the process that is resumed, none runs; the others have kept their
    status, the interrupted one is ready. *)
Definition settled (w w' : pstate) (T x : Z) : Prop :=
  ∃ px px', procs w !! x = Some px ∧ procs w' !! x = Some px' ∧ pid px' = pid px ∧
    (x = T ∨ status px' ≠ RUNNING ∧
      (status px' = status px ∨ status px = RUNNING ∧ status px' = READY)).

(** ** Lemmas *)

Section threads.
Context `{HO : HeapOps, HV : HeapView, HL : !HeapLaws}.

Lemma elem_of_homes home l b : b ∈ homes home l ↔ ∃ x, x ∈ l ∧ b ∈ home x.
Proof.
  unfold homes. rewrite elem_of_union_list. split.
  - intros (X & (x & -> & Hx)%list_elem_of_fmap & Hb). by exists x.
  - intros (x & Hx & Hb). exists (home x). split; [|done]. apply list_elem_of_fmap. by exists x.
Qed.

Lemma saved_kept w w' home x k X px px' : saved w home x k → blocks_kept (mem w) (mem w') X →
  home x ⊆ X → procs w !! x = Some px → procs w' !! x = Some px' → context px' = context px →
  saved w' home x k.
Proof.
  intros (p & b & Hp & Hb & Ho & H0 & H1 & Hk) K HX Hpx Hpx' E. assert (p = px) as -> by congruence.
  exists px', b. rewrite E. split_and!; try done.
  - eapply owns_kept; [exact K|by apply HX|done].
  - rewrite <- Hk. erewrite (context_kept (mem w)); [reflexivity|exact K|by apply HX|done].
Qed.

(** The running process may write its own blocks. *)
Lemma threads_write w l home ts g b m : threads_inv w l home ts → g ∈ l → ts !! g = None → b ∈ home g →
  same_outside (heap_data (mem w) b) (ram (mem w)) m →
  threads_inv (set_mem (set_ram m (mem w)) w) l home ts ∧
  ∀ lo n, owns (mem w) b lo n → owns (set_ram m (mem w)) b lo n.
Proof.
  intros [P (B & HB & HX) Hh Ha Hs] Hg Hts Hb Hm.
  assert (b ∈ B) as HbB. { apply HX, elem_of_union. left. apply elem_of_homes. by exists g. }
  destruct (heap_write_ok (mem w) B b m HB HbB Hm) as (HB' & K & Hd). split.
  - split; [|by exists B|done|done|].
    + destruct P as [L N _ Hl]. split; [done|done| |done]. exists B. split; [done|].
      intros p Hp. apply HX, elem_of_union. right. by apply elem_of_list_to_set.
    + intros x k Hx Hk. destruct (Hs x k Hx Hk) as (px & b' & Hpx & Hrest).
      eapply (saved_kept w _ home x k (B ∖ {[b]}) px px); [by exists px, b'|exact K| |done|done|done].
      intros b2 Hb2. apply elem_of_difference. split.
      * apply HX, elem_of_union. left. apply elem_of_homes. by exists x.
      * intros ->%elem_of_singleton. by apply (Ha g x b); [..|intros ->; congruence| |].
  - intros lo n [Hlo Ho]. split; [done|]. intros i Hi. by apply Hd, Ho.
Qed.

Section one_call.
Context (w : pstate) (l : list Z) (home : Z → gset Z) (ts : gmap Z cpu).
Context (I : threads_inv w l home ts).
Context (g ctx T : Z) (rest u v : list Z) (pg : process_t) (b : Z) (c k : cpu).
Context (Hrot : rot l (g :: rest)) (Hpg : procs w !! g = Some pg).
Context (Hg : current_process w = g ∨ current_process w = 0 ∧ g = head_of l).
Context (Hone : ∀ x, x ∈ rest → ¬ has_status (procs w) RUNNING x).
Context (Hcand : candidates pg g rest = u ++ T :: v).
Context (Hu : Forall (λ x, runnable (procs w) (uptime w) x = false) u).
Context (HT : runnable (procs w) (uptime w) T = true).
(** A process that runs has been interrupted on its own stack. *)
Context (Hctx : status pg = RUNNING → b ∈ home g ∧ owns (mem w) b ctx 176 ∧ 0 ≤ ctx ∧ ctx + 176 ≤ 2 ^ 64 ∧
  resume (context_at (mem w) ctx) ≡ c).
Context (Hk : suspend g pg c ts !! T = Some k).

Definition switched (r : Z) (w' : pstate) : Prop :=
  ∃ l', threads_inv w' l' home (suspend g pg c ts) ∧ current_process w' = T ∧ T ∈ l' ∧
    has_status (procs w') RUNNING T ∧ (∀ x, x ∈ l' → settled w w' T x) ∧
    l' `sublist_of` l ∧ (∀ x, x ∈ l → x ∈ l' ∨ has_status (procs w) DEAD x) ∧
    0 ≤ r ∧ r + 176 ≤ 2 ^ 64 ∧ resume (context_at (mem w') r) ≡ k.

(** A process that is suspended after the preemption of [g]. *)
Lemma suspended_in x k' : x ∈ l → suspend g pg c ts !! x = Some k' → saved (s1 w g ctx pg) home x k'.
Proof.
  intros Hx Hk'. unfold suspend in Hk'. unfold s1. case_decide as Hr; [|by apply (th_saved _ _ _ _ I x k')].
  apply lookup_insert_Some in Hk' as [[<- <-]|[Hne Hk']].
  - destruct (Hctx Hr) as (Hb & Ho & H0 & H1 & Hc).
    exists (preempt ctx pg), b. cbn. rewrite lookup_insert_eq. unfold preempt. cbv zeta.
    by case_if; split_and!.
  - destruct (th_saved _ _ _ _ I x k' Hx Hk') as (px & b' & Hpx & Hrest). exists px, b'.
    cbn. rewrite lookup_insert_ne by done. by split.
Qed.

(** What the tick leaves of the interrupted process. *)
Lemma preempted x px : x ∈ l → procs w !! x = Some px → ∃ px1, procs (s1 w g ctx pg) !! x = Some px1 ∧
  pid px1 = pid px ∧ (x = T ∨ status px1 ≠ RUNNING ∧
    (status px1 = status px ∨ status px = RUNNING ∧ status px1 = READY)).
Proof.
  intros Hx Hpx. destruct (decide (x = g)) as [->|Hne].
  - assert (px = pg) as -> by congruence. exists (if decide (status pg = RUNNING) then preempt ctx pg else pg).
    split; [by apply s1_g|]. case_decide as Hr; [|split; [done|by right; split; [|left]]].
    unfold candidates in Hcand. rewrite Hr in Hcand. unfold preempt. cbv zeta. revert Hcand.
    destruct (_ >? 0); intros Hcand; (split; [done|]); [left|right; split; [done|by right]].
    by destruct u as [|? []]; simplify_eq/=.
  - exists px. rewrite s1_other by done. split_and!; [done|done|]. right. split; [|by left]. intros Hr.
    apply (Hone x); [|by exists px]. apply (rot_elem _ _ x Hrot), elem_of_cons in Hx as [?|?]; done.
Qed.

Lemma schedule_switches : runs (schedule ctx) w switched.
Proof.
  eapply runs_mono; [by apply (schedule_ok w l g ctx T rest pg (th_procs _ _ _ _ I) Hrot Hpg Hg
    Hone u v Hcand Hu HT)|].
  intros r w' (l' & p0 & pT & I' & HTl & Sub & G0 & Hkp & Hcur & Hp0 & HpT & Hst & Hct & Hpid & -> & K & _).
  assert (∀ x, x ∈ l' → x ∈ l) as Hl' by (intros x Hx; by eapply elem_of_sublist).
  assert (∀ x, x ∈ l → x ∈ l' ∨ has_status (procs w) DEAD x) as G.
  { intros x Hx. destruct (decide (has_status (procs w) DEAD x)) as [?|Hn]; [by right|left].
    apply (G0 x Hx). tauto. }
  destruct (th_heap _ _ _ _ I) as (B & HB & HX).
  assert (∀ x, x ∈ homes home l → ¬ (x ∈ l)) as Hho.
  { intros x (y & Hy & Hx)%elem_of_homes. by eapply (th_home _ _ _ _ I y). }
  destruct (K (homes home l) Hho B HB HX) as (B' & HB' & HX' & KX).
  assert (∀ x, x ∈ l' → home x ⊆ homes home l ∪ list_to_set l') as Hsub.
  { intros x Hx b' Hb'. apply elem_of_union. left. apply elem_of_homes. exists x. auto. }
  assert (mem (s1 w g ctx pg) = mem w) as Em by (unfold s1; by case_decide).
  assert (threads_inv w' l' home (suspend g pg c ts)) as Inv.
  { split; [done| | | |].
    - exists B'. split; [done|]. etrans; [|exact HX']. intros x [(y & Hy & Hx)%elem_of_homes|Hx]%elem_of_union;
        apply elem_of_union; [left; apply elem_of_homes; exists y; auto|by right].
    - intros x b' Hx Hb' Hbl. by apply (th_home _ _ _ _ I x b'); auto.
    - intros x y b' Hx Hy. apply (th_apart _ _ _ _ I); auto.
    - intros x k' Hx Hk'. pose proof (suspended_in x k' (Hl' x Hx) Hk') as Sx.
      destruct (decide (x = T)) as [->|Hne].
      + eapply (saved_kept _ w' home T k' _ p0 pT Sx); [rewrite Em; exact KX|by apply Hsub|done..].
      + pose proof Sx as (px & bx & Hpx & _). destruct (Hkp x px Hx Hne Hpx) as (px' & Hpx' & E).
        destruct (set_next_fields _ _ E) as (_ & _ & Ec & _).
        eapply (saved_kept _ w' home x k' _ px px' Sx); [rewrite Em; exact KX|by apply Hsub|done..]. }
  destruct (th_saved _ _ _ _ Inv T k HTl Hk) as (p & bT & Hp & _ & _ & Hlo & Hhi & Hres).
  assert (p = pT) as -> by congruence. exists l'. split_and!; try done; [by exists pT|]. intros x Hx.
  destruct (pi_in _ _ x (th_procs _ _ _ _ I) (Hl' x Hx)) as (_ & px & Hpx).
  destruct (preempted x px (Hl' x Hx) Hpx) as (px1 & Hpx1 & Hid & Hs). exists px.
  destruct (decide (x = T)) as [->|Hne].
  - exists pT. split_and!; [done..| |by left]. congruence.
  - destruct (Hkp x px1 Hx Hne Hpx1) as (px' & Hpx' & E). exists px'.
    destruct (set_next_fields _ _ E) as (Es & _ & _ & _ & Ei & _). rewrite Es, Ei. done.
Qed.

End one_call.

(** ** The interrupt *)

Context (junk : reg → Z) (return_address : Z).
Context (isr_h sys_h eoi : function (W := istate pstate)).

(** [isr32], with the dispatch of [idt.c] behind it. *)
Definition timer_code : list (instr (istate pstate)) := code_of isr_h (irq_handler frame_vector) sys_h eoi (irq 0).

(** Entering: the frame is in the stack of the interrupted process. *)
Lemma entered_threads (s : mach (istate pstate)) l home ts g b w1 :
  threads_inv (world (kern s)) l home ts → g ∈ l → ts !! g = None → b ∈ home g →
  owns (mem (world (kern s))) b (frame_of tss_stack s - 8) 184 → entered tss_stack s 32 0 w1 →
  w1 = set_world (world w1) (kern s) ∧ world w1 = set_mem (mem (world w1)) (world (kern s)) ∧
  threads_inv (world w1) l home ts ∧ owns (mem (world w1)) b (frame_of tss_stack s) 176.
Proof.
  intros I Hg Hts Hb Ho [Ek _ [Em Hout]]. cbn in Ek, Em, Hout.
  assert (world w1 = set_mem (mem (world w1)) (world (kern s))) as Ew by by rewrite Ek at 1.
  split; [by rewrite <- Ew in Ek|]. split; [done|]. pose proof Ho as [Hlo Hd].
  destruct (threads_write _ l home ts g b (ram (mem (world w1))) I Hg Hts Hb) as [I1 Ho1].
  - eapply same_outside_mono; [|exact Hout]. intros x (a & Ha & ->).
    replace a with (frame_of tss_stack s - 8 + (a - (frame_of tss_stack s - 8))) by lia. apply Hd. lia.
  - rewrite <- Em in I1, Ho1. rewrite <- Ew in I1. split; [done|].
    destruct (Ho1 _ _ Ho) as [Hlo1 Hd1]. split; [lia|]. intros i Hi.
    replace (frame_of tss_stack s + i) with (frame_of tss_stack s - 8 + (i + 8)) by lia. apply Hd1. lia.
Qed.


Lemma set_uptime_inv w l home ts t : threads_inv w l home ts → threads_inv (set_uptime t w) l home ts.
Proof. by intros [[] ? ? ? ?]. Qed.

Lemma threads_forget w l home ts x : threads_inv w l home ts → threads_inv w l home (delete x ts).
Proof.
  intros [P B H A S]. split; try done. intros y k Hy [_ Hk]%lookup_delete_Some. by apply S.
Qed.

(** One interrupt, with what the theorem below leaves out. *)
Lemma timer_switches_ok (s : mach (istate pstate)) (l : list Z) (home : Z → gset Z) (ts : gmap Z cpu)
    (g T b : Z) (rest u v : list Z) (pg : process_t) (k : cpu) :
  let w := world (kern s) in
  may_interrupt return_address tss_stack s →
  irq_handlers (kern s) !! 0%nat = Some (Some timer_handler) →
  threads_inv w l home ts → ts !! g = None →
  b ∈ home g → owns (mem w) b (frame_of tss_stack s - 8) 184 →
  rot l (g :: rest) → procs w !! g = Some pg → current_process w = g →
  (∀ x, x ∈ rest → ¬ has_status (procs w) RUNNING x) →
  candidates pg g rest = u ++ T :: v →
  Forall (λ x, runnable (procs w) (u64 (uptime w + timer_quantum)) x = false) u →
  runnable (procs w) (u64 (uptime w + timer_quantum)) T = true →
  suspend g pg (core s) ts !! T = Some k →
  runs (interrupt junk return_address tss_stack None timer_code) s (λ _ s', ∃ l' ws,
    let w' := world (kern s') in
    core s' ≡ k ∧ current_process w' = T ∧ has_status (procs w') RUNNING T ∧
    (∀ x, x ∈ l' → settled w w' T x) ∧ T ∈ l' ∧ irq_handlers (kern s') = irq_handlers (kern s) ∧
    threads_inv w' l' home (delete T (suspend g pg (core s) ts)) ∧
    l' `sublist_of` l ∧ (∀ x, x ∈ l → x ∈ l' ∨ has_status (procs w) DEAD x) ∧
    ports (kern s') = ports (kern s) ++ ws ∧
    ∀ ps, irq_taken 0 ps → in_service (pics_after ws ps).1 = 0 ∧ in_service (pics_after ws ps).2 = 0).
Proof.
  intros w MI Hirq I Hts Hb Ho Hrot Hpg Hg Hone Hc Hu HT Hk. unfold timer_code. rewrite code_of_irq.
  assert (g ∈ l) as Hgl by (apply (rot_elem _ _ g Hrot); by left).
  destruct (stub_ok junk return_address tss_stack (irq_handler frame_vector) s None 32 MI) as (w1 & E & Hrun);
    [done|unfold word; lia|].
  destruct (entered_threads s l home ts g b w1 I Hgl Hts Hb Ho E) as (Ek & Ew & I1 & Ho1).
  set (w2 := set_uptime (u64 (uptime w + timer_quantum)) (world w1)).
  pose proof (en_frame _ _ _ _ _ E) as Hf. cbn [ram_of istate_ram] in Hf.
  assert (0 ≤ frame_of tss_stack s ∧ frame_of tss_stack s + 176 ≤ 2 ^ 64) as [Hf0 Hf1].
  { destruct (mi_room _ _ _ MI) as (Hl0 & Hl1 & _). unfold frame_of. lia. }
  assert (procs w2 = procs w) as Ep by (change (procs w2) with (procs (world w1)); rewrite Ew; reflexivity).
  assert (current_process w2 = current_process w) as Ec
    by (change (current_process w2) with (current_process (world w1)); rewrite Ew; reflexivity).
  assert (runs (schedule (frame_of tss_stack s)) w2 (switched w2 l home ts g T pg (core s) k)) as Hsw.
  { apply (schedule_switches w2 l home ts (set_uptime_inv _ _ _ _ _ I1) g _ T rest u v pg b _ _ Hrot);
      rewrite ?Ep, ?Ec; [exact Hpg|by left|exact Hone|exact Hc|exact Hu|exact HT| |exact Hk].
    intros _. change (mem w2) with (mem (world w1)). split_and!; [exact Hb|exact Ho1|exact Hf0|exact Hf1|].
    rewrite Hf. apply resume_context_of. }
  apply runs_inv in Hsw as (r & w3 & E3 & l' & I3 & Hcur & HTl & Hrun3 & Hset & Sub & G & Hr0 & Hr1 & Hres).
  rewrite Ep in G.
  assert (timer_handler (frame_of tss_stack s) (world w1) = Ok (r, w3)) as Eh.
  { unfold timer_handler, mbind, M_bind, modify. cbn [bind_result fst snd].
    replace (uptime (world w1)) with (uptime w) by (rewrite Ew; reflexivity). exact E3. }
  pose proof (irq_handler_run frame_vector (frame_of tss_stack s) w1 0 (Some timer_handler) r w3) as Ei.
  cbv zeta in Ei. cbn [Z.eqb] in Ei. specialize (Ei ltac:(unfold frame_vector; by rewrite Hf) ltac:(lia)).
  specialize (Ei ltac:(by rewrite Ek) Eh).
  eapply runs_mono; [by apply (Hrun _ _ Ei)|]. cbn beta. intros _ s' [Hks Hcs].
  set (n := u8 (frame_vector w3 r)) in Hks. exists l', (eoi_bytes n). cbv zeta. rewrite Hks.
  cbn [world ports set_world set_ports]. split; [etrans; [exact Hcs|exact Hres]|].
  split; [exact Hcur|]. split; [exact Hrun3|].
  split; [intros x Hx; unfold settled; rewrite <- Ep; exact (Hset x Hx)|]. split; [exact HTl|].
  split; [rewrite Ek; reflexivity|]. split; [exact (threads_forget _ _ _ _ T I3)|].
  split; [exact Sub|]. split; [exact G|]. split; [rewrite Ek; reflexivity|].
  intros ps Hps. apply (eoi_rests 0); [lia|exact Hps|lia].
Qed.

(** [C7] A timer interrupt switches threads.  Let the process list hold the
    threads [ts], let [g] be current and interrupted on its own stack, and let [T]
    be the process the scheduler selects (see [candidates]).  The interrupt
    returns: the processor continues with exactly the state saved for [T] (the
    interrupted one, when [T] is [g] itself); the state of [g] is saved, unless it
    has exited; the states saved for all other processes are as they were; [T] is
    current, and only dead processes have left the list; and the controllers have
    been told the interrupt is over. *)
Theorem timer_switches (s : mach (istate pstate)) (l : list Z) (home : Z → gset Z) (ts : gmap Z cpu)
    (g T b : Z) (rest u v : list Z) (pg : process_t) (k : cpu) :
  let w := world (kern s) in
  may_interrupt return_address tss_stack s →
  irq_handlers (kern s) !! 0%nat = Some (Some timer_handler) →
  threads_inv w l home ts → ts !! g = None →
  b ∈ home g → owns (mem w) b (frame_of tss_stack s - 8) 184 →
  rot l (g :: rest) → procs w !! g = Some pg → current_process w = g →
  (∀ x, x ∈ rest → ¬ has_status (procs w) RUNNING x) →
  candidates pg g rest = u ++ T :: v →
  Forall (λ x, runnable (procs w) (u64 (uptime w + timer_quantum)) x = false) u →
  runnable (procs w) (u64 (uptime w + timer_quantum)) T = true →
  suspend g pg (core s) ts !! T = Some k →
  runs (interrupt junk return_address tss_stack None timer_code) s (λ _ s', ∃ l' ws,
    let w' := world (kern s') in
    core s' ≡ k ∧ current_process w' = T ∧ has_status (procs w') RUNNING T ∧
    threads_inv w' l' home (delete T (suspend g pg (core s) ts)) ∧
    l' `sublist_of` l ∧ (∀ x, x ∈ l → x ∈ l' ∨ has_status (procs w) DEAD x) ∧
    ports (kern s') = ports (kern s) ++ ws ∧
    ∀ ps, irq_taken 0 ps → in_service (pics_after ws ps).1 = 0 ∧ in_service (pics_after ws ps).2 = 0).
Proof.
  intros w MI Hirq I Hts Hb Ho Hrot Hpg Hg Hone Hc Hu HT Hk.
  eapply runs_mono; [by eapply (timer_switches_ok s l home ts g T b rest u v pg k)|]. cbv zeta.
  intros _ s' (l' & ws & H1 & H2 & H3 & _ & _ & _ & H4 & H5 & H6 & H7 & H8). exists l', ws.
  exact (conj H1 (conj H2 (conj H3 (conj H4 (conj H5 (conj H6 (conj H7 H8))))))).
Qed.

(** ** New threads *)

(** The blocks of a new process [p] beside the others. *)
Definition add_home (home : Z → gset Z) (p : Z) (X : gset Z) (x : Z) : gset Z :=
  if decide (x = p) then X else home x.

Section create.
Context (w w' : pstate) (l : list Z) (home : Z → gset Z) (ts : gmap Z cpu) (B : gset Z).
Context (I : threads_inv w l home ts) (HX : homes home l ∪ list_to_set l ⊆ B).
Context (wrapper function arg p base : Z) (pr : process_t).
Context (C : created w w' l wrapper function arg p) (Hpr : procs w' !! p = Some pr).
Context (N : new_blocks w w' B p base pr).

#[local] Abbreviation home' := (add_home home p {[context pr; base]}).

Lemma home_old x : x ∈ l → home' x = home x ∧ home x ⊆ B.
Proof.
  intros Hx. unfold add_home. rewrite decide_False by (intros ->; by apply (cr_new _ _ _ _ _ _ _ C)).
  split; [done|]. intros b Hb. apply HX, elem_of_union. left. apply elem_of_homes. by exists x.
Qed.

Lemma home_new b : b ∈ home' p → ¬ (b ∈ {[p]} ∪ B).
Proof.
  unfold add_home. rewrite decide_True by done. destruct (nb_fresh _ _ _ _ _ _ N) as (_ & Hc & Hb).
  intros [->%elem_of_singleton| ->%elem_of_singleton]%elem_of_union; [done|].
  intros Hin. apply Hb, elem_of_union. by right.
Qed.

Lemma list_old x : x ∈ l → x ∈ B.
Proof. intros Hx. apply HX, elem_of_union. right. by apply elem_of_list_to_set. Qed.

Lemma create_saved x k : x ∈ l ++ [p] →
  (<[p := resume (start_context wrapper function arg (kstack pr))]> ts) !! x = Some k → saved w' home' x k.
Proof.
  intros Hx [[<- <-]|[Hne Hk]]%lookup_insert_Some.
  - destruct (cr_proc _ _ _ _ _ _ _ C) as (pr' & Hpr' & _ & _ & Hc).
    assert (pr' = pr) as -> by congruence. destruct (nb_context _ _ _ _ _ _ N) as [[Hlo Ho] H64].
    exists pr, (context pr). split_and!; [done| |by split| |done|by rewrite Hc].
    + unfold add_home. rewrite decide_True by done. apply elem_of_union_l, elem_of_singleton. done.
    + pose proof (nb_range _ _ _ _ _ _ N). lia.
  - apply elem_of_app in Hx as [Hx|Hx%list_elem_of_singleton]; [|congruence].
    destruct (home_old x Hx) as [Eh Hh]. pose proof (th_saved _ _ _ _ I x k Hx Hk) as Sx.
    pose proof Sx as (px & b & Hpx & _). destruct (cr_keep _ _ _ _ _ _ _ C x px Hpx) as (px' & Hpx' & E).
    destruct (set_next_fields _ _ E) as (_ & _ & Ec & _).
    destruct (saved_kept w w' home x k B px px' Sx (nb_kept _ _ _ _ _ _ N) Hh Hpx Hpx' Ec) as (p' & b' & H1 & H2 & H3).
    exists p', b'. rewrite Eh. done.
Qed.

Lemma create_threads : threads_inv w' (l ++ [p]) home'
  (<[p := resume (start_context wrapper function arg (kstack pr))]> ts).
Proof.
  assert (∀ x, x ∈ l ++ [p] → x ∈ l ∨ x = p) as Hin.
  { intros x [Hx|Hx%list_elem_of_singleton]%elem_of_app; auto. }
  split; [apply C| | | |exact create_saved].
  - eexists. split; [exact (nb_heap _ _ _ _ _ _ N)|]. intros b [(x & Hx & Hb)%elem_of_homes|Hx]%elem_of_union.
    + destruct (Hin x Hx) as [Hxl| ->].
      * destruct (home_old x Hxl) as [Eh Hh]. rewrite Eh in Hb. apply Hh in Hb.
        rewrite !elem_of_union. auto.
      * unfold add_home in Hb. rewrite decide_True in Hb by done.
        apply elem_of_union in Hb as [Hb|Hb]; rewrite !elem_of_union; auto.
    + apply elem_of_list_to_set, Hin in Hx as [Hx%list_old| ->]; rewrite !elem_of_union, ?elem_of_singleton; auto.
  - intros x b Hx Hb Hbl. destruct (Hin x Hx) as [Hxl| ->].
    + destruct (home_old x Hxl) as [Eh Hh]. rewrite Eh in Hb. destruct (Hin b Hbl) as [Hbl'| ->].
      * by apply (th_home _ _ _ _ I x b).
      * apply (proj1 (nb_fresh _ _ _ _ _ _ N)). by apply Hh.
    + apply (home_new b Hb). apply elem_of_union. destruct (Hin b Hbl) as [Hbl'%list_old| ->]; [by right|].
      left. by apply elem_of_singleton.
  - intros x y b Hx Hy Hne Hbx Hby. destruct (Hin x Hx) as [Hxl| ->], (Hin y Hy) as [Hyl| ->]; [..|done].
    + destruct (home_old x Hxl) as [Ex _], (home_old y Hyl) as [Ey _]. rewrite Ex in Hbx. rewrite Ey in Hby.
      by apply (th_apart _ _ _ _ I x y b).
    + destruct (home_old x Hxl) as [Ex Hh]. rewrite Ex in Hbx. apply (home_new b Hby), elem_of_union. right. auto.
    + destruct (home_old y Hyl) as [Ey Hh]. rewrite Ey in Hby. apply (home_new b Hbx), elem_of_union. right. auto.
Qed.

End create.

(** [C25] [process_create] adds a thread.  If the process list holds the threads
    [ts], the new list holds those and the new process, which will start in the
    wrapper with the function and its argument, in kernel mode with interrupts on,
    at the top of a stack of its own; the saved states of all other processes are
    unchanged. *)
Theorem process_create_thread (w : pstate) (l : list Z) (home : Z → gset Z) (ts : gmap Z cpu)
    (wrapper : Z) (str : list Z) (function arg : Z) :
  threads_inv w l home ts → Z.of_nat (length l) + 1 < 2 ^ 32 →
  (∀ x px, procs w !! x = Some px → x ∈ l) →
  safe (process_create wrapper str function arg) w (λ p w', ∃ home' base,
    ¬ (p ∈ l) ∧ (∀ x, x ∈ l → home' x = home x) ∧
    threads_inv w' (l ++ [p]) home'
      (<[p := resume (start_context wrapper function arg (u64 (base + STACK_SIZE)))]> ts) ∧
    base ∈ home' p ∧ owns (mem w') base base STACK_SIZE ∧ base + STACK_SIZE ≤ 2 ^ 64).
Proof.
  intros I Hlen Hall. destruct (th_heap _ _ _ _ I) as (B & HB & HX).
  eapply safe_mono; [apply (process_create_at w l B); [apply I|done| |done|done]|].
  { intros x Hx. apply HX, elem_of_union. right. by apply elem_of_list_to_set. }
  intros p w' (C & base & pr & Hpr & N). destruct (nb_stack _ _ _ _ _ _ N) as (Ho & H64 & Hks).
  exists (add_home home p {[context pr; base]}), base. rewrite <- Hks.
  split; [apply C|]. split; [|split; [by eapply (create_threads w w' l home ts B)|]].
  - intros x Hx. by apply (home_old w w' l home B HX wrapper function arg p base pr C x Hx).
  - split_and!; [|done|done]. unfold add_home. rewrite decide_True by done.
    apply elem_of_union_r, elem_of_singleton. done.
Qed.

End threads.

(** ** An instance on the kernel's heap *)

Definition four_blocks : M kstate (Z * Z * (Z * Z)) :=
  p ← heap_alloc sizeof_process_t; q ← heap_alloc sizeof_process_t;
  b ← heap_alloc 512; c ← heap_alloc 512; mret (p, q, (b, c)).

Definition demo_four : kstate := run_state four_blocks demo_space.

Lemma demo_four_returns : returns (four_blocks demo_space) = true.
Proof. vm_compute. reflexivity. Qed.

(** Two blocks for processes, two for stacks. *)
Record four (m : kstate) (p q b c : Z) : Prop := {
  fo_heap : heap_ok m ({[c]} ∪ ({[b]} ∪ ({[q]} ∪ ({[p]} ∪ ∅))));
  fo_apart : p ≠ q ∧ p ≠ b ∧ p ≠ c ∧ q ≠ b ∧ q ≠ c ∧ b ≠ c ∧ p ≠ 0 ∧ q ≠ 0;
  fo_b : owns m b b 512 ∧ b + 512 ≤ 2 ^ 64;
  fo_c : owns m c c 512 ∧ c + 512 ≤ 2 ^ 64;
  fo_hhdm : 0 ≤ hhdm_offset m;
}.

Lemma demo_hhdm : 0 ≤ hhdm_offset demo_space.
Proof. vm_compute. discriminate. Qed.

Lemma four_blocks_ok : safe four_blocks demo_space (λ r m, four m r.1.1 r.1.2 r.2.1 r.2.2).
Proof.
  unfold four_blocks, sizeof_process_t.
  sstep. eapply safe_mono; [apply (heap_alloc_ok demo_space ∅ _ demo_heap_ok); lia|].
  intros p m1 (Hp & _ & H1 & _ & [E1 _] & _).
  sstep. eapply safe_mono; [apply (heap_alloc_ok m1 _ _ H1); lia|].
  intros q m2 (Hq & Hqp & H2 & _ & [E2 _] & _).
  sstep. eapply safe_mono; [apply (heap_alloc_ok m2 _ _ H2); lia|].
  intros b m3 (Hb & Hbq & H3 & _ & [E3 _] & Hhb & Hb64 & Hdb).
  sstep. eapply safe_mono; [apply (heap_alloc_ok m3 _ _ H3); lia|].
  intros c m4 (Hc & Hcb & H4 & _ & K4 & Hhc & Hc64 & Hdc). pose proof K4 as [E4 _]. sstep.
  cbn [fst snd]. split; [exact H4| | | |rewrite E4, E3, E2, E1; exact demo_hhdm].
  - clear -Hp Hq Hqp Hbq Hcb. assert (∀ x (X : gset Z), x ∈ {[x]} ∪ X) as H by set_solver.
    assert (∀ x y (X : gset Z), x ∈ X → x ∈ {[y]} ∪ X) as H' by set_solver.
    split_and!; try lia; intros ->; [apply Hqp|apply Hbq|apply Hcb|apply Hbq|apply Hcb|apply Hcb]; auto.
  - split; [|exact Hb64]. eapply owns_kept; [exact K4|by apply elem_of_union_l, elem_of_singleton|]. split; [lia|exact Hdb].
  - split; [|exact Hc64]. split; [lia|exact Hdc].
Qed.

Lemma demo_four_ok : ∃ p q b c, four demo_four p q b c.
Proof.
  destruct (safe_run_state _ _ _ four_blocks_ok demo_four_returns) as ([[p q] [b c]] & H).
  exists p, q, b, c. exact H.
Qed.

(** The process at [p] runs on the stack in block [b], its quantum used up; the
    one at [q] is ready, with its context in block [c]. *)
Definition demo_core (b : Z) : cpu :=
  Cpu (λ r, match r with RSP => b + 256 | RAX => 42 | _ => 0 end) 0x1234 0x28 0x202 0x30.
Definition demo_world (m : kstate) (p q c : Z) : pstate :=
  PState m (<[p := demo_proc 1 RUNNING 1 0 q 0]> {[q := demo_proc 2 READY 3 0 0 c]}) p p 3 20 0 true.
Definition demo_machine (m : kstate) (p q b c : Z) : mach (istate pstate) :=
  Mach (demo_core b) (IState [] [Some timer_handler] [] None true [] (demo_world m p q c)).
Definition demo_home (p b c x : Z) : gset Z := if decide (x = p) then {[b]} else {[c]}.

Lemma demo_threads m p q b c : four m p q b c →
  threads_inv (demo_world m p q c) [p; q] (demo_home p b c) {[q := resume (context_at m c)]}.
Proof.
  intros [HB (Hpq & Hpb & Hpc & Hqb & Hqc & Hbc & Hp0 & Hq0) _ [Hoc Hc64] Eh].
  assert (∀ x, x ∈ [p; q] → x = p ∨ x = q) as Hin.
  { intros x [->|[->|?%elem_of_nil]%elem_of_cons]%elem_of_cons; auto. done. }
  assert (demo_home p b c p = {[b]}) as Hhp by (unfold demo_home; by rewrite decide_True).
  assert (demo_home p b c q = {[c]}) as Hhq by (unfold demo_home; by rewrite decide_False).
  split.
  - split.
    + cbn. split_and!; [done..|]. eexists. rewrite lookup_insert_eq. split; [done|].
      cbn. split_and!; [done..|]. eexists. rewrite lookup_insert_ne, lookup_singleton_eq by done. done.
    + apply NoDup_cons_2; [by rewrite list_elem_of_singleton|apply NoDup_singleton].
    + eexists. split; [exact HB|]. intros x [->| ->]%Hin; [|]; rewrite !elem_of_union, !elem_of_singleton; auto.
    + done.
  - eexists. split; [exact HB|]. intros x [(y & [->| ->]%Hin & Hx)%elem_of_homes|Hx]%elem_of_union.
    + rewrite Hhp in Hx. set_solver.
    + rewrite Hhq in Hx. set_solver.
    + apply elem_of_list_to_set, Hin in Hx as [->| ->]; set_solver.
  - intros x y [->| ->]%Hin Hy [->| ->]%Hin; rewrite ?Hhp, ?Hhq in Hy; apply elem_of_singleton in Hy; congruence.
  - intros x y d [->| ->]%Hin [->| ->]%Hin Hne Hd Hd'; try done; rewrite Hhp in *; rewrite Hhq in *;
      apply elem_of_singleton in Hd, Hd'; congruence.
  - intros x k _ [<- <-]%lookup_singleton_Some. exists (demo_proc 2 READY 3 0 0 c), c. cbn -[context_at].
    rewrite lookup_insert_ne, lookup_singleton_eq by done. rewrite Hhq.
    destruct Hoc as [Hlo Hd]. split_and!; [done|by apply elem_of_singleton|split; [done|]|lia|lia|done].
    intros i Hi. apply Hd. lia.
Qed.

Lemma demo_interrupted m p q b c : four m p q b c →
  may_interrupt 0x9999 tss_stack (demo_machine m p q b c) ∧
  owns m b (frame_of tss_stack (demo_machine m p q b c) - 8) 184.
Proof.
  intros [_ _ [[Hlo Hd] Hb64] _ Hh]. pose proof (Z.mod_pos_bound (b + 256) 16 ltac:(lia)) as Hm.
  assert (new_stack tss_stack (demo_machine m p q b c) = b + 256 - (b + 256) mod 16) as En by reflexivity.
  split.
  - split; [|rewrite En; cbn [ram_of istate_ram world kern demo_machine mem demo_world]; unfold window; lia|
      unfold word; lia].
    split; cbn; unfold word; try lia. intros []; lia.
  - unfold frame_of. rewrite En. split; [lia|]. intros i Hi.
    replace (b + 256 - (b + 256) mod 16 - 176 - 8 + i) with (b + (72 - (b + 256) mod 16 + i)) by lia.
    apply Hd. lia.
Qed.

(** What an interrupt of this machine needs. *)
Lemma demo_premises m p q b c : four m p q b c →
  let ts := {[q := resume (context_at m c)]} : gmap Z cpu in
  let pg := demo_proc 1 RUNNING 1 0 q 0 in
  ts !! p = None ∧ b ∈ demo_home p b c p ∧ procs (demo_world m p q c) !! p = Some pg ∧
  (∀ x, x ∈ [q] → ¬ has_status (procs (demo_world m p q c)) RUNNING x) ∧
  runnable (procs (demo_world m p q c)) (u64 (uptime (demo_world m p q c) + timer_quantum)) q = true ∧
  suspend p pg (demo_core b) ts !! q = Some (resume (context_at m c)).
Proof.
  intros H ts pg. pose proof (fo_apart _ _ _ _ _ H) as (Hne & _). split_and!.
  - apply lookup_singleton_ne. congruence.
  - unfold demo_home. rewrite decide_True by reflexivity. apply elem_of_singleton. reflexivity.
  - apply lookup_insert_eq.
  - intros x [->|?%elem_of_nil]%elem_of_cons (pr & Hpr & Hst); [|contradiction].
    cbn [procs demo_world] in Hpr.
    rewrite lookup_insert_ne, lookup_singleton_eq in Hpr by exact Hne. injection Hpr as <-. discriminate.
  - unfold runnable. cbn [procs demo_world].
    rewrite lookup_insert_ne, lookup_singleton_eq by exact Hne. reflexivity.
  - unfold suspend. rewrite decide_True by reflexivity. rewrite lookup_insert_ne by exact Hne.
    apply lookup_singleton_eq.
Qed.

Lemma timer_switches_witness : ∃ p q b c,
  runs (interrupt (λ _, 0) 0x9999 tss_stack None (timer_code (λ f, mret f) (λ f, mret f) (λ f, mret f)))
    (demo_machine demo_four p q b c) (λ _ s', ∃ l' ws,
      let w' := world (kern s') in
      core s' ≡ resume (context_at demo_four c) ∧ current_process w' = q ∧ has_status (procs w') RUNNING q ∧
      threads_inv w' l' (demo_home p b c) (delete q (suspend p (demo_proc 1 RUNNING 1 0 q 0) (demo_core b)
        {[q := resume (context_at demo_four c)]})) ∧
      l' `sublist_of` [p; q] ∧
      (∀ x, x ∈ [p; q] → x ∈ l' ∨ has_status (procs (demo_world demo_four p q c)) DEAD x) ∧
      ports (kern s') = [] ++ ws ∧
      ∀ ps, irq_taken 0 ps → in_service (pics_after ws ps).1 = 0 ∧ in_service (pics_after ws ps).2 = 0).
Proof.
  destruct demo_four_ok as (p & q & b & c & H). exists p, q, b, c.
  destruct (demo_interrupted _ _ _ _ _ H) as [MI Ho]. destruct (demo_premises _ _ _ _ _ H) as (P1 & P2 & P3 & P4 & P5 & P6).
  exact (timer_switches (λ _, 0) 0x9999 (λ f, mret f) (λ f, mret f) (λ f, mret f)
    (demo_machine demo_four p q b c) [p; q] (demo_home p b c) {[q := resume (context_at demo_four c)]}
    p q b [q] [] [p] (demo_proc 1 RUNNING 1 0 q 0) (resume (context_at demo_four c)) MI eq_refl
    (demo_threads _ _ _ _ _ H) P1 P2 Ho (rot_refl _) P3 eq_refl P4 eq_refl (Forall_nil _) P5 P6).
Defined.

Lemma no_threads : threads_inv no_procs [] (λ _, ∅) ∅.
Proof.
  assert (∀ x : Z, ¬ (x ∈ [])) as Hno by (intros x Hx; by apply elem_of_nil in Hx). split.
  - split; [reflexivity|apply NoDup_nil_2| |reflexivity]. exists ∅. split; [exact demo_heap_ok|].
    intros p Hp. destruct (Hno p Hp).
  - exists ∅. split; [exact demo_heap_ok|]. apply union_subseteq. split; apply empty_subseteq.
  - intros x b Hx. destruct (Hno x Hx).
  - intros x y b Hx. destruct (Hno x Hx).
  - intros x k Hx. destruct (Hno x Hx).
Qed.

Lemma process_create_thread_witness :
  safe (process_create 4096 [105] 8192 7) no_procs (λ p w', ∃ home' base,
    ¬ (p ∈ []) ∧ (∀ x, x ∈ [] → home' x = ∅) ∧
    threads_inv w' ([] ++ [p]) home' (<[p := resume (start_context 4096 8192 7 (u64 (base + STACK_SIZE)))]> ∅) ∧
    base ∈ home' p ∧ owns (mem w') base base STACK_SIZE ∧ base + STACK_SIZE ≤ 2 ^ 64).
Proof.
  apply (process_create_thread no_procs [] (λ _, ∅) ∅ 4096 [105] 8192 7 no_threads).
  - reflexivity.
  - intros x px Hx. cbn [procs no_procs] in Hx. rewrite lookup_empty in Hx. discriminate.
Defined.
