(* ===== verification/Multitask.v ===== *)
(** * Multitasking

    The machine, interrupted by the timer again and again, refines one in which
    every process has a processor of its own: a step relation of the kernel, an
    abstract step relation on the states of the processes, and the simulation.

    A process may do anything with its registers and with the memory of its own
    blocks; it may exit; and it may be interrupted whenever its stack pointer is in
    a block of its own. *)

From S2P Require Import Prelude Machine Util Spinlock Heap Process Scheduler.
From S2P Require Import Interrupts InterruptsCorrect Entry EntryCorrect Threads.
From S2P Require Import KheapCorrect VmmCorrect SchedulerCorrect.

(** ** The abstract machine *)

(** The running process, whether it has exited, its processor state, and those of
    the processes that wait. *)
Record threads := ThreadsState { running : Z; exited : bool; state : cpu; suspended : gmap Z cpu }.

(** The states when the running process is put away. *)
Definition put_away (a : threads) : gmap Z cpu :=
  if exited a then suspended a else <[running a := state a]> (suspended a).

Inductive thread_step : threads → threads → Prop :=
| thread_run a c : thread_step a (ThreadsState (running a) (exited a) c (suspended a))
| thread_exit a : thread_step a (ThreadsState (running a) true (state a) (suspended a))
| thread_switch a T k : put_away a !! T = Some k →
    thread_step a (ThreadsState T false k (delete T (put_away a))).

Section multitask.
Context `{HO : HeapOps, HV : HeapView, HL : !HeapLaws}.
Context (junk : reg → Z) (return_address : Z).
Context (isr_h sys_h eoi : function (W := istate pstate)).
(** The blocks of each process. *)
Context (home : Z → gset Z).

Abbreviation world_of s := (world (kern s)).
Abbreviation tick := (interrupt junk return_address tss_stack None (timer_code isr_h sys_h eoi)).

(** ** The steps of the machine *)

(** An interrupt finds its room in a block of the running process. *)
Definition on_stack (s : mach (istate pstate)) : Prop :=
  may_interrupt return_address tss_stack s ∧
  ∃ b, b ∈ home (current_process (world_of s)) ∧ owns (mem (world_of s)) b (frame_of tss_stack s - 8) 184.

Inductive kernel_step : mach (istate pstate) → mach (istate pstate) → Prop :=
| step_run s c b m : b ∈ home (current_process (world_of s)) →
    same_outside (heap_data (mem (world_of s)) b) (ram (mem (world_of s))) m →
    kernel_step s (Mach c (set_world (set_mem (set_ram m (mem (world_of s))) (world_of s)) (kern s)))
| step_exit s pg w : procs (world_of s) !! current_process (world_of s) = Some pg → pid pg ≠ 1 →
    process_exit (world_of s) = Ok (tt, w) →
    kernel_step s (Mach (core s) (set_world w (kern s)))
| step_timer s s' : on_stack s → tick s = Ok (tt, s') → kernel_step s s'.

(** ** The simulation relation *)

Record implements (s : mach (istate pstate)) (a : threads) (l : list Z) : Prop := {
  im_inv : threads_inv (world_of s) l home (suspended a);
  im_current : current_process (world_of s) = running a;
  im_in : running a ∈ l;
  im_status : ∃ pg, procs (world_of s) !! running a = Some pg ∧
    status pg = if exited a then DEAD else RUNNING;
  im_core : core s ≡ state a;
  im_absent : suspended a !! running a = None;
  im_others : ∀ x px, x ∈ l → x ≠ running a → procs (world_of s) !! x = Some px →
    status px ≠ RUNNING ∧ (status px ≠ DEAD → is_Some (suspended a !! x));
  im_idle : ∃ x px, x ∈ l ∧ procs (world_of s) !! x = Some px ∧ pid px = 1 ∧
    (status px = READY ∨ status px = RUNNING);
  im_handler : irq_handlers (kern s) !! 0%nat = Some (Some timer_handler);
}.

Lemma run_implements s a l c b m : implements s a l → b ∈ home (running a) →
  same_outside (heap_data (mem (world_of s)) b) (ram (mem (world_of s))) m →
  implements (Mach c (set_world (set_mem (set_ram m (mem (world_of s))) (world_of s)) (kern s)))
    (ThreadsState (running a) (exited a) c (suspended a)) l.
Proof.
  intros [I Hc Hin Hst Hco Hab Hot Hid Hh] Hb Hm. split; try done.
  by apply (threads_write _ l home _ (running a) b).
Qed.

Lemma exit_implements s a l pg w : implements s a l →
  procs (world_of s) !! current_process (world_of s) = Some pg → pid pg ≠ 1 →
  process_exit (world_of s) = Ok (tt, w) →
  implements (Mach (core s) (set_world w (kern s))) (ThreadsState (running a) true (state a) (suspended a)) l.
Proof.
  intros [I Hc Hin Hst Hco Hab Hot Hid Hh] Hpg H1 He. rewrite Hc in Hpg.
  unfold process_exit, process_get_current, mbind, M_bind, gets in He. cbn [bind_result fst snd] in He.
  rewrite Hc, (update_ok _ _ _ pg Hpg) in He. injection He as <-.
  assert (∀ x px, x ≠ running a → procs (world_of s) !! x = Some px →
    <[running a := set_status DEAD pg]> (procs (world_of s)) !! x = Some px) as Hne
    by (intros; by rewrite lookup_insert_ne).
  split; try done; cbn [kern world set_world running exited suspended procs set_procs].
  - destruct I as [PI HB H2 H3 Hs]. split; [by apply (pi_update _ _ _ pg (set_status DEAD))|done|done|done|].
    intros x k Hx Hk. destruct (Hs x k Hx Hk) as (px & b & Hpx & Hrest). exists px, b. split; [|exact Hrest].
    apply Hne; [|done]. intros ->. congruence.
  - exists (set_status DEAD pg). by rewrite lookup_insert_eq.
  - intros x px Hx Hxr. rewrite lookup_insert_ne by done. by apply Hot.
  - destruct Hid as (x & px & Hx & Hpx & Hp & Hs). exists x, px. split_and!; [done| |done|done].
    apply Hne; [|done]. intros ->. congruence.
Qed.

(** ** The timer *)

Lemma first_such (f : Z → bool) (l : list Z) x : x ∈ l → f x = true →
  ∃ u T v, l = u ++ T :: v ∧ Forall (λ y, f y = false) u ∧ f T = true.
Proof.
  intros Hx Hf. induction l as [|y l IH]; [by apply elem_of_nil in Hx|].
  destruct (f y) eqn:E; [by exists [], y, l|]. apply elem_of_cons in Hx as [->|Hx]; [congruence|].
  destruct (IH Hx) as (u & T & v & -> & Hu & HT). exists (y :: u), T, v. split_and!; [done|by constructor|done].
Qed.

Lemma threads_equiv w l ts ts' : threads_inv w l home ts →
  (∀ x k', ts' !! x = Some k' → ∃ k, ts !! x = Some k ∧ k ≡ k') → threads_inv w l home ts'.
Proof.
  intros [PI HB H2 H3 Hs] E. split; try done. intros x k' Hx Hk'. destruct (E x k' Hk') as (k & Hk & Ek).
  destruct (Hs x k Hx Hk) as (px & b & H4 & H5 & H6 & H7 & H8 & H9). exists px, b. split_and!; try done.
  by rewrite H9.
Qed.

(** The states the scheduler saves are the abstract ones. *)
Lemma suspend_put_away s a l pg x : implements s a l → procs (world_of s) !! running a = Some pg →
  match put_away a !! x with
  | Some k' => ∃ k, suspend (running a) pg (core s) (suspended a) !! x = Some k ∧ k ≡ k'
  | None => suspend (running a) pg (core s) (suspended a) !! x = None
  end.
Proof.
  intros M Hpg. destruct (im_status _ _ _ M) as (pg' & Hpg' & Hst). assert (pg' = pg) as -> by congruence.
  unfold put_away, suspend. rewrite Hst. destruct (exited a).
  - rewrite decide_False by done. destruct (suspended a !! x) as [k|] eqn:E; [|done]. by exists k.
  - rewrite decide_True by done. destruct (decide (x = running a)) as [->|Hne].
    + rewrite !lookup_insert_eq. exists (core s). split; [done|apply M].
    + rewrite !lookup_insert_ne by done. destruct (suspended a !! x) as [k|] eqn:E; [|done]. by exists k.
Qed.

(** Some process can run: the idle process, if no other. *)
Lemma choose s a l pg rest now : implements s a l → rot l (running a :: rest) →
  procs (world_of s) !! running a = Some pg →
  ∃ u T v, candidates pg (running a) rest = u ++ T :: v ∧
    Forall (λ x, runnable (procs (world_of s)) now x = false) u ∧
    runnable (procs (world_of s)) now T = true ∧ T ∈ l ∧ is_Some (put_away a !! T).
Proof.
  intros M Hrot Hpg. pose proof M as [I Hc Hin Hst Hco Hab Hot Hid Hh].
  assert (∃ x, x ∈ candidates pg (running a) rest ∧ runnable (procs (world_of s)) now x = true) as (x & Hx & Hr).
  { destruct Hid as (x & px & Hx & Hpx & _ & Hsx). apply (rot_elem _ _ x Hrot) in Hx.
    unfold candidates. destruct (status pg) eqn:Es; try (exists x; split; [done|unfold runnable, can_run; rewrite Hpx;
      by destruct Hsx as [-> | ->]]). destruct (_ >? 0).
    - exists (running a). split; [by apply list_elem_of_singleton|]. unfold runnable, can_run. by rewrite Hpg, Es.
    - exists x. split; [|unfold runnable, can_run; rewrite Hpx; by destruct Hsx as [-> | ->]].
      apply elem_of_app. apply elem_of_cons in Hx as [->|Hx]; [right; by apply list_elem_of_singleton|by left]. }
  destruct (first_such _ _ x Hx Hr) as (u & T & v & E & Hu & HT). exists u, T, v.
  assert (T ∈ l) as HTl.
  { apply (rot_elem _ _ T Hrot). assert (T ∈ candidates pg (running a) rest) as HTc.
    { rewrite E. apply elem_of_app. right. by left. }
    unfold candidates in HTc. destruct (status pg); try done. destruct (_ >? 0).
    - apply list_elem_of_singleton in HTc as ->. by left.
    - apply elem_of_app in HTc as [?| ->%list_elem_of_singleton]; [by right|by left]. }
  split_and!; try done. unfold runnable in HT. destruct (procs (world_of s) !! T) as [pT|] eqn:EpT; [|done].
  destruct Hst as (pg' & Hpg' & Hst). assert (pg' = pg) as -> by congruence. unfold put_away.
  destruct (decide (T = running a)) as [->|Hne].
  - assert (pT = pg) as -> by congruence. destruct (exited a).
    + unfold can_run in HT. by rewrite Hst in HT.
    + by rewrite lookup_insert_eq.
  - destruct (Hot T pT HTl Hne EpT) as [_ Hs]. destruct Hs as [k Hk].
    { intros Hd. unfold can_run in HT. by rewrite Hd in HT. }
    destruct (exited a); [by exists k|]. rewrite lookup_insert_ne by done. by exists k.
Qed.

Lemma tick_ok s a l : implements s a l → on_stack s →
  runs tick s (λ _ s', ∃ T k l', put_away a !! T = Some k ∧
    implements s' (ThreadsState T false k (delete T (put_away a))) l').
Proof.
  intros M [MI (b & Hb & Ho)]. pose proof M as [I Hc Hin Hst Hco Hab Hot Hid Hh].
  destruct Hst as (pg & Hpg & Hst). rewrite Hc in Hb.
  assert (∃ rest, rot l (running a :: rest)) as [rest Hrot].
  { apply list_elem_of_split in Hin as (l1 & l2 & ->). exists (l2 ++ l1). by exists l1, (running a :: l2). }
  destruct (choose s a l pg rest (u64 (uptime (world_of s) + timer_quantum)) M Hrot Hpg)
    as (u & T & v & Hcand & Hu & HT & HTl & k & Hk).
  pose proof (suspend_put_away s a l pg T M Hpg) as Hsus. rewrite Hk in Hsus. destruct Hsus as (k1 & Hk1 & Ek).
  assert (∀ x, x ∈ rest → ¬ has_status (procs (world_of s)) RUNNING x) as Hone.
  { intros x Hx (px & Hpx & Hs). assert (x ≠ running a) as Hne.
    { apply (rest_not_g _ l (running a) rest (th_procs _ _ _ _ I) Hrot x Hx). }
    apply (Hot x px); [|done|done|done]. apply (rot_elem _ _ x Hrot). by right. }
  eapply runs_mono; [exact (timer_switches_ok junk return_address isr_h sys_h eoi s l home (suspended a) (running a) T b
    rest u v pg k1 MI Hh I Hab Hb Ho Hrot Hpg Hc Hone Hcand Hu HT Hk1)|].
  cbv zeta. intros _ s' (l' & ws & Hcs & Hcur & (pT & HpT & HsT) & Hset & HTl' & Hirq & I' & Sub & G & _).
  exists T, k, l'. split; [done|]. split; cbn [running exited state suspended].
  - eapply threads_equiv; [exact I'|]. intros x k' [Hne Hx]%lookup_delete_Some.
    pose proof (suspend_put_away s a l pg x M Hpg) as Hsx. rewrite Hx in Hsx. destruct Hsx as (k2 & Hk2 & E2).
    exists k2. by rewrite lookup_delete_ne.
  - done.
  - done.
  - by exists pT.
  - by rewrite Hcs.
  - apply lookup_delete_eq.
  - intros x px' Hx Hne Hpx'. destruct (Hset x Hx) as (px & px2 & Hpx & Hpx2 & _ & [?|[Hnr Hs]]); [done|].
    assert (px2 = px') as -> by congruence. split; [done|]. intros Hnd. rewrite lookup_delete_ne by done.
    assert (x ∈ l) as Hxl by by eapply elem_of_sublist. unfold put_away.
    destruct (decide (x = running a)) as [->|Hxr].
    + assert (px = pg) as -> by congruence. destruct (exited a); [|by rewrite lookup_insert_eq].
      rewrite Hst in Hs. destruct Hs as [?|[? _]]; congruence.
    + destruct (Hot x px Hxl Hxr Hpx) as [Hnr' Hs']. destruct Hs' as [k' Hk'].
      { intros Hd. destruct Hs as [?|[? _]]; congruence. }
      exists k'. destruct (exited a); [done|]. by rewrite lookup_insert_ne.
  - destruct Hid as (x & px & Hx & Hpx & H1 & Hs). destruct (G x Hx) as [Hx'|(pd & Hpd & Hd)].
    2:{ assert (pd = px) as -> by congruence. rewrite Hd in Hs. by destruct Hs. }
    destruct (Hset x Hx') as (px0 & px' & Hpx0 & Hpx' & Hp & Hs'). assert (px0 = px) as -> by congruence.
    exists x, px'. split_and!; [done|done|congruence|]. destruct Hs' as [->|[Hnr Hs']].
    + right. congruence.
    + left. destruct Hs' as [E|[_ E]]; [|done]. destruct Hs; congruence.
  - by rewrite Hirq.
Qed.

(** ** Simulation *)

Lemma step_simulated s a l s' : implements s a l → kernel_step s s' →
  ∃ a' l', thread_step a a' ∧ implements s' a' l'.
Proof.
  intros M S. pose proof (im_current _ _ _ M) as Hc. destruct S as [s c b m Hb Hm|s pg w Hpg H1 He|s s' Ho Ht].
  - rewrite Hc in Hb. eexists _, l. split; [apply thread_run|]. by apply run_implements with b.
  - eexists _, l. split; [apply thread_exit|]. by apply exit_implements with pg.
  - pose proof (tick_ok s a l M Ho) as R. apply runs_inv in R as ([] & s2 & E & T & k & l' & Hk & M').
    assert (s2 = s') as -> by congruence. eexists _, l'. split; [by apply thread_switch|exact M'].
Qed.

(** A step of another process leaves the state of a waiting one. *)
Lemma step_keeps s a l s' x k : implements s a l → kernel_step s s' → suspended a !! x = Some k →
  ∃ a' l', implements s' a' l' ∧
    if decide (current_process (world_of s') = x) then state a' = k else suspended a' !! x = Some k.
Proof.
  intros M S Hx. assert (running a ≠ x) as Hr by (intros E; pose proof (im_absent _ _ _ M); congruence).
  destruct (step_simulated s a l s' M S) as (a' & l' & T & M'). exists a', l'. split; [done|].
  rewrite (im_current _ _ _ M'). destruct T as [a c|a|a T k' HT]; cbn [running state suspended].
  - by rewrite decide_False.
  - by rewrite decide_False.
  - assert (put_away a !! x = Some k) as Hpx.
    { unfold put_away. destruct (exited a); [done|]. by rewrite lookup_insert_ne. }
    case_decide as E; [subst x; congruence|]. by rewrite lookup_delete_ne.
Qed.

(** ** Theorems *)

(** [C3] The kernel implements processes with processors of their own.  Every run
    of the machine, in which processes compute with their registers and blocks,
    exit, and are interrupted by the timer, corresponds to a run of the abstract
    machine: the running process changes its own state only, and a switch continues
    with exactly the state that was put away for the process.  Wherever the run
    gets, a timer interrupt returns. *)
Theorem kernel_refines (s : mach (istate pstate)) (a : threads) (l : list Z) (s' : mach (istate pstate)) :
  implements s a l → rtc kernel_step s s' →
  ∃ a' l', rtc thread_step a a' ∧ implements s' a' l' ∧
    (on_stack s' → ∃ s'', tick s' = Ok (tt, s'')).
Proof.
  intros M R. revert a l M. induction R as [s|s s1 s' S _ IH]; intros a l M.
  - exists a, l. split_and!; [apply rtc_refl|done|]. intros Ho.
    pose proof (tick_ok s a l M Ho) as Rt. apply runs_inv in Rt as ([] & s2 & E & _). by exists s2.
  - destruct (step_simulated s a l s1 M S) as (a1 & l1 & S1 & M1).
    destruct (IH a1 l1 M1) as (a' & l' & R' & M' & Ho). exists a', l'. split_and!; [|done|done].
    by eapply rtc_l.
Qed.

(** [C6] Isolation of processes.  A process that waits with the processor state
    [k] continues with exactly that state when it becomes current again, however
    many steps other processes and interrupts have made in between. *)
Theorem thread_isolation (s s1 s2 : mach (istate pstate)) (a : threads) (l : list Z) (x : Z) (k : cpu) :
  implements s a l → suspended a !! x = Some k →
  rtc (λ t t', kernel_step t t' ∧ current_process (world_of t') ≠ x) s s1 →
  kernel_step s1 s2 → current_process (world_of s2) = x → core s2 ≡ k.
Proof.
  intros M Hx R S2 Hc. revert a l M Hx. induction R as [s|s t s1 [S Ht] _ IH]; intros a l M Hx.
  - destruct (step_keeps s a l s2 x k M S2 Hx) as (a' & l' & M' & Hs). rewrite decide_True in Hs by done.
    rewrite <- Hs. apply M'.
  - destruct (step_keeps s a l t x k M S Hx) as (a' & l' & M' & Hs). rewrite decide_False in Hs by done.
    by apply (IH S2 a' l').
Qed.

End multitask.

(** ** An instance: the two processes of [Threads] *)

Lemma demo_implements m p q b c : four m p q b c →
  implements (demo_home p b c) (demo_machine m p q b c)
    (ThreadsState p false (demo_core b) {[q := resume (context_at m c)]}) [p; q].
Proof.
  intros H. pose proof (fo_apart _ _ _ _ _ H) as (Hne & _).
  assert (procs (demo_world m p q c) !! p = Some (demo_proc 1 RUNNING 1 0 q 0)) as Hp by apply lookup_insert_eq.
  assert (procs (demo_world m p q c) !! q = Some (demo_proc 2 READY 3 0 0 c)) as Hq.
  { cbn [procs demo_world]. rewrite lookup_insert_ne by exact Hne. apply lookup_singleton_eq. }
  split; cbn [running exited state suspended kern core demo_machine world].
  - exact (demo_threads _ _ _ _ _ H).
  - reflexivity.
  - by left.
  - by eexists.
  - reflexivity.
  - apply lookup_singleton_ne. congruence.
  - intros x px [->|[->|?%elem_of_nil]%elem_of_cons]%elem_of_cons Hx Hpx; [done| |done].
    assert (px = demo_proc 2 READY 3 0 0 c) as -> by congruence. split; [done|]. rewrite lookup_singleton_eq. by eexists.
  - exists p. eexists. split_and!; [by left|exact Hp|reflexivity|by right].
  - reflexivity.
Qed.

Abbreviation demo_tick := (interrupt (λ _, 0) 0x9999 tss_stack None
  (timer_code (λ f, mret f) (λ f, mret f) (λ f, mret f))).
Abbreviation demo_step p b c :=
  (kernel_step (λ _, 0) 0x9999 (λ f, mret f) (λ f, mret f) (λ f, mret f) (demo_home p b c)).

(** The timer takes the processor from [p] and gives it to [q]. *)
Lemma demo_ticks m p q b c : four m p q b c →
  ∃ s', demo_step p b c (demo_machine m p q b c) s' ∧ current_process (world (kern s')) = q.
Proof.
  intros H. destruct (demo_interrupted _ _ _ _ _ H) as [MI Ho].
  destruct (demo_premises _ _ _ _ _ H) as (P1 & P2 & P3 & P4 & P5 & P6).
  pose proof (timer_switches_ok (λ _, 0) 0x9999 (λ f, mret f) (λ f, mret f) (λ f, mret f)
    (demo_machine m p q b c) [p; q] (demo_home p b c) {[q := resume (context_at m c)]}
    p q b [q] [] [p] (demo_proc 1 RUNNING 1 0 q 0) (resume (context_at m c)) MI eq_refl
    (demo_threads _ _ _ _ _ H) P1 P2 Ho (rot_refl _) P3 eq_refl P4 eq_refl (Forall_nil _) P5 P6) as R.
  apply runs_inv in R as ([] & s' & E & l' & ws & _ & Hcur & _). exists s'. split; [|exact Hcur].
  apply step_timer; [|exact E]. split; [exact MI|]. exists b. split; [exact P2|exact Ho].
Qed.

Lemma kernel_refines_witness : ∃ p q b c s',
  current_process (world (kern s')) = q ∧ p ≠ q ∧
  ∃ a' l', rtc thread_step (ThreadsState p false (demo_core b) {[q := resume (context_at demo_four c)]}) a' ∧
    implements (demo_home p b c) s' a' l' ∧
    (on_stack 0x9999 (demo_home p b c) s' → ∃ s'', demo_tick s' = Ok (tt, s'')).
Proof.
  destruct demo_four_ok as (p & q & b & c & H). destruct (demo_ticks _ _ _ _ _ H) as (s' & S & Hcur).
  exists p, q, b, c, s'. split; [exact Hcur|]. split; [apply (fo_apart _ _ _ _ _ H)|].
  exact (kernel_refines (λ _, 0) 0x9999 (λ f, mret f) (λ f, mret f) (λ f, mret f) (demo_home p b c)
    (demo_machine demo_four p q b c) _ _ s' (demo_implements _ _ _ _ _ H) (rtc_once _ _ S)).
Defined.

Lemma thread_isolation_witness : ∃ p q b c s',
  demo_step p b c (demo_machine demo_four p q b c) s' ∧ core s' ≡ resume (context_at demo_four c).
Proof.
  destruct demo_four_ok as (p & q & b & c & H). destruct (demo_ticks _ _ _ _ _ H) as (s' & S & Hcur).
  exists p, q, b, c, s'. split; [exact S|].
  exact (thread_isolation (λ _, 0) 0x9999 (λ f, mret f) (λ f, mret f) (λ f, mret f) (demo_home p b c)
    (demo_machine demo_four p q b c) (demo_machine demo_four p q b c) s' _ _ q _
    (demo_implements _ _ _ _ _ H) (lookup_singleton_eq _ _) (rtc_refl _ _) S Hcur).
Defined.
