(* ===== verification/SyscallEntry.v ===== *)
(** * System calls through the entry point

    [do_syscall] of [syscall.asm], the entry point [isr128] and the handler of
    [sys.c], on the machine of [Entry]: the call of [Syscall] with its arguments
    in registers. *)

From S2P Require Import Prelude Machine Util Heap Process Fs Vfs Keyboard Prompt Syscall.
From S2P Require Import Entry EntryCorrect.
From S2P Require Import Ustar UstarCorrect VfsCorrect FormatterCorrect PromptCorrect SyscallCorrect.

Section syscall_entry.
Context {F : Type} `{FO : !FsOps F}.

Definition sys_mem (s : sys (F := F)) : kstate := mem (ps (w_prompt (world_of s))).
Definition set_sys_mem (m : kstate) (s : sys (F := F)) : sys (F := F) :=
  Syscall.set_world (set_prompt (set_ps (set_mem m (ps (w_prompt (world_of s)))) (w_prompt (world_of s)))
    (world_of s)) s.

#[export] Instance sys_ram : HasRam (sys (F := F)).
Proof.
  refine (Build_HasRam (sys (F := F)) sys_mem set_sys_mem _ _ _).
  - done.
  - done.
  - by intros [? [? [? ? ? ? ? ? ? [] ?]] ?].
Defined.

(** [syscall_handler] on the frame in memory: [rax] is its word 14. *)
Definition syscall_function : function (W := sys (F := F)) := λ frame,
  c ← gets (λ s, context_at (sys_mem s) frame);
  c' ← syscall_handler frame c;
  modify (λ s, set_sys_mem (store 8 (frame + 8 * 14) (rax c') (sys_mem s)) s);;
  mret frame.

Context (junk : reg → Z) (return_address : Z) (tss_rsp0 : sys (F := F) → Z).
Context (isr_h irq_h eoi : function (W := sys (F := F))).

(** The result of a call goes to [rax] of the frame. *)
Lemma context_rax m c v : window (hhdm_offset m) c (c + 176) →
  context_at (store 8 (c + 8 * 14) v m) c =
  let x := context_at m c in
  Context (rbp x) (r15 x) (r14 x) (r13 x) (r12 x) (r11 x) (r10 x) (r9 x) (r8 x) (rsi x) (rdi x) (rdx x)
    (rcx x) (rbx x) (u64 v) (int_number x) (error_code x) (iret_rip x) (iret_cs x) (iret_flags x)
    (iret_rsp x) (iret_ss x).
Proof.
  intros Hw. destruct (window_cell _ _ _ Hw) as [d Hd].
  assert (∀ k, 0 ≤ k < 22 → k ≠ 14 → load 8 (store 8 (c + 8 * 14) v m) (c + 8 * k) = load 8 m (c + 8 * k)) as Hk.
  { intros k Hk Hne. unfold load, store. cbn [ram set_ram hhdm_offset]. rewrite !Hd by lia.
    apply (rd_wr_other 8 8). lia. }
  unfold context_at. cbn [rbp r15 r14 r13 r12 r11 r10 r9 r8 rsi rdi rdx rcx rbx int_number error_code
    iret_rip iret_cs iret_flags iret_rsp iret_ss].
  f_equal; first [apply load_store_same|apply Hk; lia].
Qed.

(** The moves in front of [int 0x80] change nothing. *)
Lemma moves_ok rs (s : mach (sys (F := F))) :
  runs (for_each rs (λ r, exec junk return_address (Mov r r))) s
    (λ _ s', kern s' = kern s ∧ core s' ≡ core s).
Proof.
  revert s. induction rs as [|r rs IH]; intros s; [by apply runs_ret|].
  cbn [for_each exec]. apply runs_bind, runs_bind. eapply runs_ok; [reflexivity|].
  eapply runs_ok; [reflexivity|]. eapply runs_mono; [apply IH|]. cbn beta. intros _ s' [Hk Hc].
  split; [done|]. rewrite Hc. split_and!; try done. intros r'. cbn. by case_decide; subst.
Qed.

Lemma context_of_equiv c c' n e : c ≡ c' → context_of c n e = context_of c' n e.
Proof. intros (Hg & H1 & H2 & H3 & H4). unfold context_of. by rewrite !Hg, H1, H2, H3, H4. Qed.

Lemma resume_equiv_rax c n e v :
  resume (let x := context_of c n e in
    Context (rbp x) (r15 x) (r14 x) (r13 x) (r12 x) (r11 x) (r10 x) (r9 x) (r8 x) (rsi x) (rdi x) (rdx x)
    (rcx x) (rbx x) v (int_number x) (error_code x) (iret_rip x) (iret_cs x) (iret_flags x)
    (iret_rsp x) (iret_ss x)) ≡ set_gpr RAX v c.
Proof. split_and!; try done. intros r. cbn -[decide]. by destruct r. Qed.

#[local] Abbreviation frame_of := (frame_of tss_rsp0).
#[local] Abbreviation code := (code_of isr_h irq_h syscall_function eoi isr128).

Lemma new_stack_equiv (s s0 : mach (sys (F := F))) : kern s0 = kern s → core s0 ≡ core s →
  new_stack tss_rsp0 s0 = new_stack tss_rsp0 s.
Proof. intros Hk (Hg & _ & Hcs & _). unfold new_stack. by rewrite Hg, Hcs, Hk. Qed.

Lemma may_interrupt_equiv (s s0 : mach (sys (F := F))) : kern s0 = kern s → core s0 ≡ core s →
  may_interrupt return_address tss_rsp0 s → may_interrupt return_address tss_rsp0 s0.
Proof.
  intros Hk Hc [[C1 C2 C3 C4 C5] Hw Hr]. split; [|by rewrite (new_stack_equiv s), Hk|done].
  destruct Hc as (Hg & H1 & H2 & H3 & H4). split; rewrite ?H1, ?H2, ?H3, ?H4; try done.
  intros r. rewrite Hg. apply C1.
Qed.

(** The handler on the frame is the call on the registers. *)
Lemma syscall_function_ok frame (c : cpu) (w1 w2 : sys (F := F)) r :
  context_at (sys_mem w1) frame = context_of c 128 0 →
  Syscall.do_syscall frame (context_of c 128 0) (gpr c RDI) (gpr c RSI) (gpr c RDX) (gpr c RCX) (gpr c R8) w1
    = Ok (r, w2) →
  syscall_function frame w1 = Ok (frame, set_sys_mem (store 8 (frame + 8 * 14) r (sys_mem w2)) w2).
Proof.
  intros Hf E. unfold syscall_function. unfold Syscall.do_syscall in E.
  apply bind_split in E as (c' & s1 & E & Er). injection Er as <- <-.
  unfold mbind at 1, M_bind at 1, gets. cbn [bind_result fst snd]. rewrite Hf.
  unfold mbind at 1, M_bind at 1.
  match type of E with syscall_handler _ ?x _ = _ => change x with (context_of c 128 0) in E end.
  rewrite E. reflexivity.
Qed.

(** [C13] A system call through [do_syscall] is a function call.  With the number
    and the arguments in [rdi], [rsi], [rdx], [rcx] and [r8], the processor, the
    entry point and the handler perform the call of [sys.c] in a world in which
    only the stack has been written; behind it all registers, the stack pointer,
    the flags and the instruction are as before, and [rax] is the result; provided
    that the handler leaves the caller's frame alone. *)
Theorem syscall_entry_exit (s : mach (sys (F := F))) :
  may_interrupt return_address tss_rsp0 s →
  ∃ w1, entered tss_rsp0 s 128 0 w1 ∧ ∀ r w2,
    Syscall.do_syscall (frame_of s) (context_of (core s) 128 0) (gpr (core s) RDI) (gpr (core s) RSI)
      (gpr (core s) RDX) (gpr (core s) RCX) (gpr (core s) R8) w1 = Ok (r, w2) →
    context_at (sys_mem w2) (frame_of s) = context_of (core s) 128 0 →
    hhdm_offset (sys_mem w2) = hhdm_offset (sys_mem (kern s)) →
    runs (Entry.do_syscall junk return_address tss_rsp0 code) s (λ v s',
      v = u64 r ∧ core s' ≡ set_gpr RAX (u64 r) (core s) ∧
      kern s' = set_sys_mem (store 8 (frame_of s + 112) r (sys_mem w2)) w2).
Proof.
  intros MI. destruct (runs_inv _ _ _ (moves_ok [RDI; RSI; RDX; RCX; R8] s)) as (u & s0 & E0 & Hk0 & Hc0).
  pose proof (may_interrupt_equiv s s0 Hk0 Hc0 MI) as MI0.
  pose proof (new_stack_equiv s s0 Hk0 Hc0) as En. assert (EntryCorrect.frame_of tss_rsp0 s0 = frame_of s) as Ef
    by (unfold EntryCorrect.frame_of; by rewrite En).
  destruct (stub_ok junk return_address tss_rsp0 syscall_function s0 None 128 MI0) as (w1 & E & Hrun);
    [done|unfold word; lia|]. exists w1. pose proof E as [Ek Efr Er].
  rewrite Ef in Efr, Er, Hrun. rewrite Hk0 in Ek, Er. rewrite (context_of_equiv _ _ _ _ Hc0) in Efr.
  split; [by split|]. intros r w2 Hcall Hkeep Hh.
  pose proof (syscall_function_ok (frame_of s) (core s) w1 w2 r Efr Hcall) as Hfun.
  destruct (mi_room _ _ _ MI) as (Hw0 & Hw1 & Hw2).
  assert (0 ≤ frame_of s ∧ frame_of s + 176 ≤ 2 ^ 64 ∧
    window (hhdm_offset (sys_mem w2)) (frame_of s) (frame_of s + 176)) as (Hf0 & Hf1 & Hwin).
  { rewrite Hh. unfold window, EntryCorrect.frame_of. change (ram_of (kern s)) with (sys_mem (kern s)) in Hw2. lia. }
  specialize (Hrun _ _ Hfun Hf0 Hf1). unfold Entry.do_syscall. apply runs_bind. eapply runs_ok; [exact E0|].
  apply runs_bind. rewrite code_of_isr128. eapply runs_mono; [exact Hrun|]. cbn beta. intros _ s1 [Hk1 Hc1].
  change (ram_of (set_sys_mem (store 8 (frame_of s + 8 * 14) r (sys_mem w2)) w2))
    with (store 8 (frame_of s + 8 * 14) r (sys_mem w2)) in Hc1.
  rewrite context_rax, Hkeep in Hc1 by exact Hwin.
  assert (core s1 ≡ set_gpr RAX (u64 r) (core s)) as Hc2 by (rewrite Hc1; apply resume_equiv_rax).
  apply runs_bind, runs_bind. eapply runs_ok; [reflexivity|]. eapply runs_ok; [reflexivity|].
  eapply runs_ok; [reflexivity|]. cbn -[decide store u64]. rewrite decide_True by done.
  split; [rewrite (proj1 Hc2); cbn -[decide u64]; by rewrite decide_True|]. split; [|exact Hk1].
  etrans; [|exact Hc2]. split; [|split_and!; reflexivity]. intros r'. cbn -[decide].
  case_decide as Hr; [rewrite Hr|]; reflexivity.
Qed.

End syscall_entry.

(** ** An instance with the tar file system: reading a character *)

#[local] Existing Instance demo_ops.

Definition demo_caller : cpu :=
  Cpu (λ r, match r with RSP => 0x80000 | RDI => 5 | RBX => 17 | _ => 0 end) 0x1234 0x28 0x202 0x30.
Definition demo_call : mach sys :=
  Mach demo_caller (Sys (installed 900 demo_local 0) (World demo_vfs (Prompt 0 (buffer_of []) 0 1 true 1 demo_console
    (PState demo_ram ∅ 0 0 1 0 0 true) keyboard_initial)) []).

Lemma demo_call_ok : may_interrupt 0x9999 (λ _, 0) demo_call.
Proof.
  split; [|unfold window; vm_compute; intuition congruence|unfold word; lia].
  split; cbn; unfold word; try lia. intros []; lia.
Qed.

Lemma syscall_entry_exit_witness :
  runs (Entry.do_syscall (λ _, 0) 0x9999 (λ _, 0) (code_of (λ f, mret f) (λ f, mret f) syscall_function (λ f, mret f) isr128)) demo_call
    (λ v s', v = 2 ^ 64 - 1 ∧ core s' ≡ set_gpr RAX (2 ^ 64 - 1) demo_caller).
Proof.
  destruct (syscall_entry_exit (λ _, 0) 0x9999 (λ _, 0) (λ f, mret f) (λ f, mret f) (λ f, mret f) demo_call demo_call_ok) as (w1 & E & H).
  destruct E as [Ek Ef [Em _]]. change (ram_of w1) with (sys_mem w1) in *.
  change (ram_of (kern demo_call)) with demo_ram in Em.
  remember (sys_mem w1) as m eqn:E. clear E. subst w1.
  eapply runs_mono; [eapply H|].
  - cbn -[context_of]. reflexivity.
  - exact Ef.
  - rewrite Em. reflexivity.
  - intros v s' H'. exact (conj (proj1 H') (proj1 (proj2 H'))).
Defined.
