(* ===== verification/Devices.v ===== *)
(** * The small device helpers

    The digit writers of [cpu/cpu.c] and [terminal/limine_term.c], the register
    helpers of [cpu.h] and [cpu.c], and the diagonal of [terminal/fb.c]. *)

From S2P Require Import Prelude Machine Formatter.

(** ** Digits

    [log_to_serial_digit] and [limine_write_digit] have the same text. *)

(** [while (dig > 0) { dig /= 10; len++; }] *)
Definition digit_count_round (v : Z * Z) : M unit ((Z * Z) + Z) :=
  let '(dig, len) := v in
  if dig >? 0 then mret (inl (dig / 10, u8 (len + 1))) else mret (inr len).

(** [for (i = 0; i < len; i++) { remainder = dig % 10; dig /= 10; str[i] = remainder + '0'; }] *)
Definition digit_fill_round (len : Z) (v : Z * Z) : M (list Z) ((Z * Z) + unit) :=
  let '(i, dig) := v in
  if i <? len then
    put_char i (u8 (dig mod 10) + 48);;
    mret (inl (u8 (i + 1), dig / 10))
  else mret (inr tt).

(** [for (i = 0; i < len / 2; i++)], the swap with [str[len - i - 1]] *)
Definition digit_swap_round (len i : Z) : M (list Z) (Z + unit) :=
  if i <? len / 2 then
    tmp ← get_char i;
    c ← get_char (len - i - 1);
    put_char i c;;
    put_char (len - i - 1) tmp;;
    mret (inl (u8 (i + 1)))
  else mret (inr tt).

(** The array [str[len + 1]]. *)
Definition digit_string (digit : Z) : result (list Z) :=
  bind_result (loop digit_count_round (u8 digit, 0) tt) (λ r,
    let len := r.1 in
    bind_result ((loop (digit_fill_round len) (0, u8 digit);;
                  put_char len 0;;
                  loop (digit_swap_round len) 0) (replicate (Z.to_nat (len + 1)) 0))
      (λ q, Ok q.2)).

Definition log_to_serial_digit (digit : Z) : M console unit := λ s,
  bind_result (digit_string digit) (λ str, log_to_serial str s).
Definition limine_write_digit (digit : Z) : M console unit := λ s,
  bind_result (digit_string digit) (λ str, limine_write str s).

(** ["0"], whatever the argument *)
Definition decimal_to_str (digit : Z) : list Z := [48; 0].

(** ** Registers *)

(** [rdmsr] puts the two halves of register [msr] into [eax] and [edx]. *)
Definition rdmsr (registers : Z → Z) (msr : Z) : Z :=
  let low := u32 (registers (u32 msr)) in
  let high := u32 (Z.shiftr (registers (u32 msr)) 32) in
  Z.lor (u64 (Z.shiftl high 32)) low.

Definition read_cr3 : M kstate Z := gets cr3.
Definition write_cr3 (x : Z) : M kstate unit := modify (set_cr3 x).
Definition flush_cr3 : M kstate unit := x ← read_cr3; write_cr3 x.

(** ** The frame buffer *)

(** What the boot loader reports of a frame buffer. *)
Record limine_framebuffer := Framebuffer {
  fb_address : Z; fb_width : Z; fb_height : Z; fb_pitch : Z }.

(** [response] is [None] for a null pointer. *)
Definition draw_line (response : option (list limine_framebuffer)) : M (gmap Z Z) unit :=
  match response with
  | Some (framebuffer :: _) =>
      for_each (seqZ 0 100) (λ i,
        let fb_ptr := fb_address framebuffer in
        modify (λ m, wr 4 m (fb_ptr + 4 * u64 (i * (fb_pitch framebuffer / 4) + i)) 0xfff000))
  | _ => panic "No Frame Buffer found"
  end.

(** ** Properties *)

(** The text of a number below 256; nothing for zero. *)
Definition byte_numeral (n : Z) : list Z := if n =? 0 then [] else decimal n.

Definition is_numeral (r : result (list Z)) (n : Z) : bool :=
  match r with Ok s => bool_decide (s = byte_numeral n ++ [0]) | _ => false end.

Lemma is_numeral_ok r n : is_numeral r n = true → r = Ok (byte_numeral n ++ [0]).
Proof. destruct r; try discriminate. intros H%bool_decide_eq_true. by subst. Qed.

Lemma digit_string_checked : forallb (λ n, is_numeral (digit_string n) n) (seqZ 0 256) = true.
Proof. vm_compute. reflexivity. Qed.

Lemma digit_string_u8 digit : digit_string digit = digit_string (u8 digit).
Proof. unfold digit_string, u8. by rewrite wrap_wrap. Qed.

Lemma digit_string_ok digit : digit_string digit = Ok (byte_numeral (u8 digit) ++ [0]).
Proof.
  rewrite digit_string_u8. apply is_numeral_ok.
  refine (proj1 (forallb_forall _ _) digit_string_checked (u8 digit) _).
  apply list_elem_of_In, elem_of_seqZ. pose proof (u8_range digit). lia.
Qed.

Lemma c_string_text t : Forall (λ c, c ≠ 0) t → c_string (t ++ [0]) = Ok t.
Proof.
  induction 1 as [|c t Hc _ IH]; [done|]. cbn. apply Z.eqb_neq in Hc. by rewrite Hc, IH.
Qed.

Lemma byte_numeral_text n : 0 ≤ n < 256 → Forall (λ c, c ≠ 0) (byte_numeral n).
Proof.
  intros Hn. assert (forallb (λ n, forallb (λ c, negb (c =? 0)) (byte_numeral n)) (seqZ 0 256) = true) as H
    by (vm_compute; reflexivity).
  rewrite forallb_forall in H. specialize (H n ltac:(apply list_elem_of_In, elem_of_seqZ; lia)).
  rewrite forallb_forall in H. apply list.Forall_forall. intros c Hc%list_elem_of_In%H. by bool_to_prop.
Qed.

(** The digit writers print the low byte of their argument, in decimal, and
    nothing for a multiple of 256. *)
Theorem digit_writers (digit : Z) (s : console) : terminal s = true →
  limine_write_digit digit s = Ok (tt, Console (terminal s) (prod_mode s)
    (screen s ++ [byte_numeral (u8 digit)]) (serial s) (prefix s)) ∧
  log_to_serial_digit digit s = Ok (tt, Console (terminal s) (prod_mode s) (screen s)
    (serial s ++ byte_numeral (u8 digit) ++ [10]) (prefix s)).
Proof.
  intros Ht. unfold limine_write_digit, log_to_serial_digit. rewrite digit_string_ok. cbn [bind_result].
  unfold limine_write, log_to_serial. rewrite Ht. cbn [negb].
  rewrite c_string_text by (apply byte_numeral_text, u8_range). done.
Qed.

Lemma digit_writers_witness :
  limine_write_digit 300 (Console true false [] [] []) = Ok (tt, Console true false [[52; 52]] [] []).
Proof. apply (digit_writers 300 (Console true false [] [] []) eq_refl). Defined.

(** The two halves of a model-specific register make the register. *)
Theorem rdmsr_correct (registers : Z → Z) (msr : Z) : 0 ≤ registers (u32 msr) < 2 ^ 64 →
  rdmsr registers msr = registers (u32 msr).
Proof.
  intros H. unfold rdmsr. set (x := registers (u32 msr)) in *.
  rewrite Z.shiftr_div_pow2, Z.shiftl_mul_pow2 by lia. unfold u32, wrap.
  rewrite (Z.mod_small (x / 2 ^ 32)) by (split; [apply Z.div_pos; lia|apply Z.div_lt_upper_bound; lia]).
  assert (0 ≤ x / 2 ^ 32 * 2 ^ 32 < 2 ^ 64) as Hh by zify_div. rewrite u64_small by done.
  rewrite lor_disjoint; [zify_div|]. apply land_mul_low; [lia|]. apply Z.mod_pos_bound. lia.
Qed.

Lemma rdmsr_correct_witness : rdmsr (λ _, 0xfee00900) 27 = 0xfee00900.
Proof. apply (rdmsr_correct (λ _, 0xfee00900) 27). lia. Defined.

(** ** The diagonal *)

Definition pixel (fb : limine_framebuffer) (x y : Z) : Z := fb_address fb + y * fb_pitch fb + 4 * x.

(** A frame buffer of at least 100 by 100 pixels of 32 bits. *)
Record large (fb : limine_framebuffer) : Prop := {
  la_width : 100 ≤ fb_width fb;
  la_height : 100 ≤ fb_height fb < 2 ^ 16;
  la_pitch : 4 * fb_width fb ≤ fb_pitch fb < 2 ^ 32;
  la_words : fb_pitch fb mod 4 = 0;
}.

Lemma pixels_apart fb x y i : large fb → 0 ≤ x < fb_width fb → (x, y) ≠ (i, i) → 0 ≤ i < 100 →
  pixel fb x y + 4 ≤ pixel fb i i ∨ pixel fb i i + 4 ≤ pixel fb x y.
Proof.
  intros [Hw Hh Hp _] Hx Hne Hi. unfold pixel.
  destruct (Z.lt_trichotomy y i) as [Hy|[->|Hy]]; [left; nia| |right; nia].
  assert (x ≠ i) by congruence. lia.
Qed.

(** [draw_line] draws the diagonal of the top left square of 100 by 100 pixels,
    and changes no other pixel. *)
Theorem draw_line_correct (fb : limine_framebuffer) (fbs : list limine_framebuffer) (m : gmap Z Z) : large fb →
  runs (draw_line (Some (fb :: fbs))) m (λ _ m', ∀ x y, 0 ≤ x < fb_width fb → 0 ≤ y < fb_height fb →
    rd 4 m' (pixel fb x y) = if decide (x = y ∧ x < 100) then 0xfff000 else rd 4 m (pixel fb x y)).
Proof.
  intros L. pose proof L as [Hw Hh Hp Hm]. unfold draw_line.
  eapply runs_mono; [apply (runs_for_range 100 _ (λ i m', ∀ x y, 0 ≤ x < fb_width fb → 0 ≤ y < fb_height fb →
    rd 4 m' (pixel fb x y) = if decide (x = y ∧ x < i) then 0xfff000 else rd 4 m (pixel fb x y)))|].
  - lia.
  - intros i m1 Hi I. eapply runs_ok; [reflexivity|]. cbv beta. intros x y Hx Hy.
    assert (fb_address fb + 4 * u64 (i * (fb_pitch fb / 4) + i) = pixel fb i i) as ->.
    { unfold pixel. assert (4 * (fb_pitch fb / 4) = fb_pitch fb ∧ 0 ≤ fb_pitch fb / 4 < 2 ^ 32) as [E4 Hb] by zify_div.
      rewrite u64_small by nia. rewrite <- E4 at 2. ring. }
    destruct (decide ((x, y) = (i, i))) as [[= -> ->]|Hne].
    + rewrite rd_wr_same, decide_True by lia. reflexivity.
    + rewrite (rd_wr_other 4 4), I by (done || apply pixels_apart; done).
      destruct (decide (x = y ∧ x < i)), (decide (x = y ∧ x < i + 1)); try done; exfalso; [lia|].
      assert (x = i ∧ y = i) as [-> ->] by lia. done.
  - intros x y Hx _. rewrite decide_False by lia. done.
  - done.
Qed.

Lemma draw_line_correct_witness :
  runs (draw_line (Some [Framebuffer 0x1000 640 480 2560])) ∅ (λ _ m', ∀ x y, 0 ≤ x < 640 → 0 ≤ y < 480 →
    rd 4 m' (pixel (Framebuffer 0x1000 640 480 2560) x y) =
      if decide (x = y ∧ x < 100) then 0xfff000 else rd 4 ∅ (pixel (Framebuffer 0x1000 640 480 2560) x y)).
Proof.
  apply (draw_line_correct (Framebuffer 0x1000 640 480 2560) [] ∅). split; cbn; lia || reflexivity.
Defined.
