(* ===== verification/Demo.v ===== *)
(** * The programs of [demo/demo.h] and [demo/user_program.c], the life of a process ([process.c]) and
      [vfs_execute] of [fs/vfs.c]

    They run as processes on the system of [Syscall].  Addresses of literals and
    of arrays on the stack are parameters; a heap block is memory of the programs. *)

From S2P Require Import Prelude Machine Util Heap Process Formatter FormatterCorrect.
From S2P Require Import Keyboard Fs Vfs Prompt Syscall.

Section demo.
Context {F : Type} `{FO : !FsOps F} `{HO : HeapOps}.
Context (empty : Z) (junk : Z → list Z).
Context (frame : Z) (regs : execution_context).

Abbreviation call := (do_syscall frame regs).
Definition on_console {A} (c : M console A) : M (sys (F := F)) A := in_world (in_prompt (on_con c)).
Definition on_processes {A} (c : M pstate A) : M (sys (F := F)) A := in_world (in_prompt (on_ps c)).
Definition log (p fmt : string) (a : list arg) : M (sys (F := F)) unit :=
  on_console (klog (Some (literal p)) (literal fmt) a).
Definition show (fmt : list Z) (a : list arg) : M (sys (F := F)) unit := on_console (kprintf fmt a).

(** ** The counters *)

(** [while (x < n) x++;] *)
Definition count_up (n : Z) : M (sys (F := F)) unit :=
  loop (λ x, if x <? n then mret (inl (s32 (x + 1))) else mret (inr tt)) 0.

(** [str] is the address of the literal "Hello world". *)
Definition add_one_to_x (str : Z) : M (sys (F := F)) unit :=
  ptr0 ← on_processes (on_mem (heap_alloc 64));
  res0 ← syscall_memcpy frame regs ptr0 str 12;
  m ← gets (λ s, w_bytes (world_of s));
  log "process x ::" "prt0: %s" [ArgString (string_at m ptr0)];;
  log "process x ::" "prt0 result: %d" [ArgWord res0];;
  count_up 5000000;;
  log "DEMO::" "x  will now exit" [].

Definition add_one_to_y : M (sys (F := F)) unit :=
  count_up 6000000;;
  log "DEMO::" "y  will now exit" [].

Definition add_one_to_z : M (sys (F := F)) unit :=
  count_up 7000000;;
  log "DEMO::" "z  will now exit" [].

(** ** Reading a file

    [read_file_x] and [read_file_y] have the same text, path included. *)

Definition read_file_round (id buffer : Z) (_ : unit) : M (sys (F := F)) (unit + unit) :=
  r ← call 3 (u64 id) buffer 50 0;
  let read := s32 r in
  if read >? 0 then
    for_each (seqZ 0 read) (λ k,
      m ← gets (λ s, w_bytes (world_of s));
      show [37; 99; 0] [ArgWord (byte m (buffer + k))]);;
    mret (inl tt)
  else mret (inr tt).

(** From the first line feed on. *)
Definition read_file_from (id buffer : Z) : M (sys (F := F)) unit :=
  show [10; 0] [];;
  loop (read_file_round id buffer) tt;;
  show [10; 0] [];;
  call 2 (u64 id) 0 0 0;;
  mret tt.

Definition read_file_x (path buffer : Z) : M (sys (F := F)) unit :=
  r ← call 1 path 0 0 0;
  read_file_from (s32 r) buffer.
Definition read_file_y (path buffer : Z) : M (sys (F := F)) unit := read_file_x path buffer.

(** ** The user program

    [main] of [user_program.c]; the three literals are at [a], [b] and [c]. *)
Definition user_main (a b c : Z) : M (sys (F := F)) unit :=
  call 4 a 0 0 0;;
  call 4 b 0 0 0;;
  call 4 c 0 0 0;;
  mret tt.

(** ** The life of a process *)

(** The function runs, then the process is marked dead; [scheduler_yield] is the
    interrupt of [Entry]. *)
Definition process_execution_wrapper (function : Z → M (sys (F := F)) unit) (arg : Z) : M (sys (F := F)) unit :=
  function arg;;
  on_processes process_exit.

Definition process_idle : M (sys (F := F)) unit :=
  log "SCHEDULER::" "from idle process" [];;
  loop (λ _, mret (inl tt)) tt.

(** ** [vfs_execute] *)

(** [for (j = 0; j < read; j++) { *iter = buffer[j]; iter++; }], with elements of
    eight bytes: [buffer] is in the memory of the programs, [iter] in the heap. *)
Definition copy_words (buffer read iter : Z) : M (sys (F := F)) Z :=
  for_each (seqZ 0 read) (λ j,
    m ← gets (λ s, w_bytes (world_of s));
    on_processes (on_mem (modify (store 8 (iter + 8 * j) (rd 8 m (buffer + 8 * j))))));;
  mret (iter + 8 * read).

Definition execute_round (id buffer iter : Z) : M (sys (F := F)) (Z + unit) :=
  r ← in_world (in_vfs (vfs_read id buffer 512));
  let read := u64 r in
  show (removelast (literal "read: %u") ++ [10; 0]) [ArgWord read];;
  iter' ← copy_words buffer read iter;
  if negb (read =? 0) then mret (inl iter') else mret (inr tt).

(** Falling off its end, it returns no value when the file was opened. *)
Definition vfs_execute (wrapper path buffer : Z) : M (sys (F := F)) (option Z) :=
  id ← in_world (in_vfs (vfs_open empty junk path 0));
  show (literal "id: %d") [ArgWord id];;
  if id <? 0 then mret (Some id)
  else
    d ← in_world (in_vfs (opened_file id));
    dest ← on_processes (on_mem (heap_alloc (fd_file_size d)));
    loop (execute_round id buffer) dest;;
    p ← on_processes (process_create wrapper (removelast (literal "printer")) dest 0);
    pr ← on_processes (proc p);
    show (name pr) [];;
    mret None.

End demo.
