(* ===== verification/DemoCorrect.v ===== *)
(** * Properties of the demonstration programs

    The reader prints its file, the counter logs what the copy call copied, and
    both return; the idle process does not. *)

From S2P Require Import Prelude Machine Util Heap Process VmmCorrect KheapCorrect SchedulerCorrect.
From S2P Require Import Formatter FormatterCorrect Keyboard Fs Ustar UstarCorrect Vfs VfsCorrect.
From S2P Require Import Prompt PromptCorrect Syscall SyscallCorrect Demo.

Section correct.
Context {F : Type} `{FL : FsLaws F} `{HO : HeapOps, HV : HeapView, HL : !HeapLaws} (g : fs_volume).
Context (empty : Z) (junk : Z → list Z).
Context (no_result frame : Z) (regs : execution_context).

Implicit Types s : sys (F := F).
Abbreviation ready := (ready g empty junk no_result).
Abbreviation files s := (w_vfs (world_of s)).
Abbreviation shell s := (w_prompt (world_of s)).
Abbreviation shown s := (screen (con (w_prompt (world_of s)))).

(** ** Output *)

Lemma shown_ok id s fmt a u : ready id s → render fmt a = Some u → (length u < 1024)%nat →
  runs (show fmt a) s (λ _ s', ready id s' ∧ files s' = files s ∧ shown s' = shown s ++ [u]).
Proof.
  intros R Hr Hl. unfold show, on_console, in_world, in_prompt, on_con.
  apply runs_zoom, runs_zoom, runs_zoom. unfold kprintf, runs.
  rewrite (vkprintf_ok fmt a u) by (done || apply R). split_and!; try done.
  destruct R as [Ht Hv Hc Hp]. by split.
Qed.

Lemma render_printable_char c : printable c → render [37; 99; 0] [ArgWord c] = Some [c].
Proof.
  intros [Hb Hc]. unfold is_byte in Hb. assert (u8 (s32 c) = c) as Ec.
  { unfold s32, swrap, wrap. change (2 ^ (32 - 1)) with 2147483648. change (2 ^ 32) with 4294967296.
    rewrite Z.mod_small by lia. rewrite u8_small; lia. }
  rewrite (render_char c) by (by rewrite Ec). by rewrite Ec.
Qed.

(** ** The reader *)

Definition piece (C : list Z) (pos : Z) : list Z := take 50 (drop (Z.to_nat pos) C).
Definition one_by_one (t : list Z) : list (list Z) := map (λ c, [c]) t.

(** The characters of the array, one call each. *)
Lemma show_chars_ok id s buffer t : ready id s → Forall printable t →
  (∀ (i : nat) c, t !! i = Some c → byte (w_bytes (world_of s)) (buffer + Z.of_nat i) = c) →
  runs (for_each (seqZ 0 (Z.of_nat (length t))) (λ k,
      m ← gets (λ s, w_bytes (world_of s));
      show [37; 99; 0] [ArgWord (byte m (buffer + k))])) s
    (λ _ s', ready id s' ∧ files s' = files s ∧ shown s' = shown s ++ one_by_one t).
Proof.
  intros R Ht Hb. eapply runs_mono.
  { apply (runs_for_range _ _ (λ k s', ready id s' ∧ files s' = files s ∧
      shown s' = shown s ++ one_by_one (take (Z.to_nat k) t))); [lia| |by rewrite app_nil_r].
    intros k s1 Hk (R1 & Hf & Hs). apply runs_bind. eapply runs_ok; [reflexivity|].
    destruct (lookup_lt_is_Some_2 t (Z.to_nat k)) as [c Hc]; [lia|].
    assert (byte (w_bytes (world_of s1)) (buffer + k) = c) as ->.
    { unfold w_bytes. rewrite Hf. rewrite <- (Hb _ _ Hc). unfold w_bytes. by rewrite Z2Nat.id by lia. }
    assert (printable c) as Hpc by (rewrite list.Forall_forall in Ht; apply Ht; by eapply list_elem_of_lookup_2).
    eapply runs_mono; [apply (shown_ok id s1 _ _ [c] R1); [|cbn; lia]|].
    { by apply render_printable_char. }
    cbn beta. intros _ s2 (R2 & Hf2 & Hs2). split; [done|]. split; [by rewrite Hf2|].
    rewrite Hs2, Hs, <- app_assoc. f_equal. replace (Z.to_nat (k + 1)) with (S (Z.to_nat k)) by lia.
    rewrite (take_S_r t _ c) by done. unfold one_by_one. by rewrite map_app. }
  cbn beta. intros _ s' (R' & Hf & Hs). split_and!; try done. by rewrite Nat2Z.id, take_ge in Hs by lia.
Qed.

Lemma piece_length C pos : length (piece C pos) = (50 `min` (length C - Z.to_nat pos))%nat.
Proof. unfold piece. by rewrite length_take, length_drop. Qed.

Lemma read_file_round_ok id s fd C pos buffer : ready id s → view (files s) fd = Some (C, pos) →
  Forall printable C → (∀ x, in_range buffer 50 x → ¬ fs_private g x) →
  runs (read_file_round frame regs fd buffer tt) s (λ r s', ready id s' ∧
    r = (if decide (piece C pos = []) then inr tt else inl tt) ∧
    view (files s') fd = Some (C, pos + Z.of_nat (length (piece C pos))) ∧
    (∀ j, j ≠ fd → view (files s') j = view (files s) j) ∧
    shown s' = shown s ++ one_by_one (piece C pos)).
Proof.
  intros R Hv HC Hbuf. unfold read_file_round.
  assert (0 ≤ fd < 512) as Hfd by (destruct (view_slot g _ _ _ _ (rd_vfs _ _ _ _ _ _ R) Hv) as (d & V & _); apply V).
  apply runs_bind. apply (call_runs frame regs s 3 _ _ _ _ (λ f a b c d, in_vfs (vfs_read_syscall f a b c d)));
    [by rewrite (rd_table _ _ _ _ _ _ R)|done|].
  apply runs_zoom. unfold vfs_read_syscall. rewrite s32_u64 by lia.
  eapply runs_mono; [apply (vfs_read_ok g _ fd C pos); [apply R|done|lia|done]|].
  cbn beta zeta. change (Z.to_nat 50) with 50%nat. fold (piece C pos).
  intros r v (Iv & Hr & Hb & _ & Hvfd & Hvo). match goal with |- runs _ ?st _ => set (s1 := st) end.
  assert (ready id s1) as R1 by (destruct R; by split).
  pose proof (piece_length C pos) as Hpl. set (t := piece C pos) in *.
  assert (s32 r = Z.of_nat (length t)) as ->.
  { rewrite Hr. unfold s32, swrap, wrap. change (2 ^ (32 - 1)) with 2147483648.
    change (2 ^ 32) with 4294967296. rewrite Z.mod_small by lia. lia. }
  destruct (decide (t = [])) as [Et|Et].
  - rewrite Et in *. cbn [length Z.of_nat Z.gtb Z.compare]. apply runs_ret. split_and!; try done.
    + by rewrite Hr in Hvfd.
    + by rewrite app_nil_r.
  - assert (length t ≠ 0)%nat by (by intros ?%nil_length_inv).
    rewrite (proj2 (Z.gtb_lt _ _)) by lia. apply runs_bind.
    eapply runs_mono; [apply (show_chars_ok id s1 buffer t R1); [by apply Forall_take, Forall_drop|]|].
    { intros i c Hi. by apply Hb. }
    cbn beta. intros _ s2 (R2 & Hf2 & Hs2). apply runs_ret. rewrite Hf2. split_and!; try done.
    by rewrite Hr in Hvfd.
Qed.

Lemma piece_snoc C pos : 0 ≤ pos →
  take (Z.to_nat pos) C ++ piece C pos = take (Z.to_nat (pos + Z.of_nat (length (piece C pos)))) C.
Proof.
  intros Hp. rewrite Z2Nat.inj_add, Nat2Z.id by lia. rewrite <- take_take_drop. f_equal.
  rewrite piece_length. unfold piece. destruct (decide (50 ≤ length C - Z.to_nat pos)%nat).
  - by rewrite Nat.min_l by lia.
  - rewrite Nat.min_r by lia. rewrite !take_ge; [done|rewrite length_drop; lia..].
Qed.

Lemma read_file_loop_ok id s fd C buffer : ready id s → view (files s) fd = Some (C, 0) →
  Forall printable C → Z.of_nat (length C) < 2 ^ 62 → (∀ x, in_range buffer 50 x → ¬ fs_private g x) →
  runs (loop (read_file_round frame regs fd buffer) tt) s (λ _ s', ready id s' ∧
    is_Some (view (files s') fd) ∧ (∀ j, j ≠ fd → view (files s') j = view (files s) j) ∧
    shown s' = shown s ++ one_by_one C).
Proof.
  intros R Hv HC HCl Hbuf.
  apply (runs_loop_ghost _ (λ n _ s', ready id s' ∧ (∀ j, j ≠ fd → view (files s') j = view (files s) j) ∧
    ∃ pos, view (files s') fd = Some (C, pos) ∧ 0 ≤ pos ≤ Z.of_nat (length C) ∧
      n = Z.of_nat (length C) - pos ∧ shown s' = shown s ++ one_by_one (take (Z.to_nat pos) C)))
    with (n := Z.of_nat (length C)).
  - intros n [] s1 (R1 & Ho1 & pos & Hv1 & Hpos & -> & Hs1).
    eapply runs_mono; [by apply (read_file_round_ok id s1 fd C pos buffer)|]. cbn beta.
    intros r s2 (R2 & -> & Hv2 & Ho2 & Hs2). pose proof (piece_length C pos) as Hpl.
    assert (∀ j, j ≠ fd → view (files s2) j = view (files s) j) as Ho by (intros j Hj; by rewrite Ho2, Ho1).
    assert (shown s2 = shown s ++ one_by_one (take (Z.to_nat (pos + Z.of_nat (length (piece C pos)))) C)) as Hs.
    { rewrite Hs2, Hs1, <- app_assoc, <- piece_snoc by lia. unfold one_by_one. by rewrite map_app. }
    destruct (decide (piece C pos = [])) as [E|E].
    + split; [exact R2|]. split; [by rewrite Hv2|]. split; [exact Ho|]. rewrite Hs, take_ge; [done|]. rewrite E in *. cbn [length] in *. lia.
    + assert (length (piece C pos) ≠ 0)%nat by (by intros ?%nil_length_inv).
      exists (Z.of_nat (length C) - (pos + Z.of_nat (length (piece C pos)))).
      split; [lia|]. split; [exact R2|]. split; [exact Ho|].
      exists (pos + Z.of_nat (length (piece C pos))). split; [exact Hv2|]. split; [lia|]. split; [reflexivity|exact Hs].
  - split; [done|]. split; [done|]. exists 0. change (Z.to_nat 0) with 0%nat. rewrite app_nil_r.
    split_and!; try done; lia.
  - lia.
Qed.

(** On an open file, the reader prints a line feed, the contents one character at
    a time and a line feed, and closes the file. *)
Theorem read_file_correct (id : Z) s (fd : Z) (C : list Z) (buffer : Z) : ready id s →
  view (files s) fd = Some (C, 0) → Forall printable C → Z.of_nat (length C) < 2 ^ 62 →
  (∀ x, in_range buffer 50 x → ¬ fs_private g x) →
  runs (read_file_from frame regs fd buffer) s (λ _ s', ready id s' ∧
    shown s' = shown s ++ [[10]] ++ one_by_one C ++ [[10]] ∧
    view (files s') fd = None ∧ ∀ j, j ≠ fd → view (files s') j = view (files s) j).
Proof.
  intros R Hv HC HCl Hbuf. unfold read_file_from.
  assert (0 ≤ fd < 512) as Hfd by (destruct (view_slot g _ _ _ _ (rd_vfs _ _ _ _ _ _ R) Hv) as (d & V & _); apply V).
  apply runs_bind. eapply runs_mono; [by apply (shown_ok id s _ _ [10] R); [|cbn; lia]|].
  cbn beta. intros _ s1 (R1 & Hf1 & Hs1). rewrite <- Hf1 in Hv. apply runs_bind.
  eapply runs_mono; [by apply (read_file_loop_ok id s1 fd C buffer)|]. cbn beta.
  intros _ s2 (R2 & [[C2 pos2] Hv2] & Ho2 & Hs2). apply runs_bind.
  eapply runs_mono; [by apply (shown_ok id s2 _ _ [10] R2); [|cbn; lia]|].
  cbn beta. intros _ s3 (R3 & Hf3 & Hs3). apply runs_bind.
  apply (call_runs frame regs s3 2 _ _ _ _ (λ f a b c d, in_vfs (vfs_close_syscall f a b c d)));
    [by rewrite (rd_table _ _ _ _ _ _ R3)|done|].
  apply runs_zoom. unfold vfs_close_syscall. rewrite s32_u64 by lia. apply runs_bind.
  eapply runs_mono; [apply (vfs_close_ok g _ fd C2 pos2); [apply R3|by rewrite Hf3]|]. cbn beta.
  intros r v4 (I4 & -> & _ & Hn4 & Ho4 & _). do 2 apply runs_ret. split_and!; try done.
  - destruct R3. by split.
  - cbn. rewrite Hs3, Hs2, Hs1, <- !app_assoc. done.
  - intros j Hj. cbn. rewrite Ho4, Hf3, Ho2 by done. by rewrite Hf1.
Qed.

(** ** The counters *)

Lemma count_up_ok n s : 0 ≤ n < 2 ^ 31 → count_up n s = Ok (tt, s).
Proof.
  intros Hn. unfold count_up.
  assert (runs (loop (λ x, if x <? n then mret (inl (s32 (x + 1))) else mret (inr tt)) 0) s (λ _ s', s' = s)) as H.
  { apply (runs_loop _ (λ x s', s' = s ∧ 0 ≤ x ≤ n) (λ x _, n - x)); [|split; [done|lia]|lia].
    intros x s1 [-> Hx]. unfold runs. case_if; cbn; [|done].
    assert (s32 (x + 1) = x + 1) as ->; [|repeat split; lia]. unfold s32, swrap, wrap.
    change (2 ^ (32 - 1)) with 2147483648 in *. change (2 ^ 32) with 4294967296. rewrite Z.mod_small; lia. }
  apply runs_inv in H as ([] & s' & H & ->). exact H.
Qed.

(** A system whose log goes to the serial line. *)
Definition logging s : Prop :=
  prod_mode (con (shell s)) = false ∧ length (prefix (con (shell s))) = 32%nat.

Abbreviation logged s := (serial (con (w_prompt (world_of s)))).

Lemma log_ok id s p fmt a t u : ready id s → logging s → text (literal p) = Some t →
  render (literal fmt) a = Some u → (length (log_prefix t) + length u ≤ 1023)%nat →
  runs (log p fmt a) s (λ _ s', ready id s' ∧ logging s' ∧ files s' = files s ∧ ps (shell s') = ps (shell s) ∧
    logged s' = logged s ++ (log_prefix t ++ u) ++ [10]).
Proof.
  intros R [Hm Hl] Ht Hu Hlen. unfold log, on_console, in_world, in_prompt, on_con.
  apply runs_zoom, runs_zoom, runs_zoom.
  destruct (klog_correct (Some (literal p)) (literal fmt) a u (log_prefix t) (con (shell s)) Hm Hl Hu)
    as (pfx & E & Hpl & _); [exists t; split; [exact Ht|reflexivity]|exact Hlen|].
  eapply runs_ok; [exact E|]. split; [destruct R as [Htb Hv Hc Hp]; by split|].
  split; [by split|]. split_and!; reflexivity.
Qed.

Definition hello : list Z := removelast (literal "Hello world").

(** The first demonstration process returns, or panics when memory runs out: it
    logs the greeting the copy call has put into its heap block, the number of
    bytes copied, and its end. *)
Theorem add_one_to_x_correct (id : Z) s (B : gset Z) (str : Z) : ready id s → logging s →
  heap_ok (mem (ps (shell s))) B → cstr_at (w_bytes (world_of s)) str hello →
  str + 12 ≤ hhdm_offset (mem (ps (shell s))) →
  (∀ x, hhdm_offset (mem (ps (shell s))) < x → ¬ fs_private g x) →
  safe (add_one_to_x frame regs str) s (λ _ s', ready id s' ∧ logging s' ∧
    (∃ p, ¬ (p ∈ B) ∧ heap_ok (mem (ps (shell s'))) ({[p]} ∪ B)) ∧
    logged s' = logged s ++ removelast (literal "process x :: prt0: Hello world") ++ [10] ++
      removelast (literal "process x :: prt0 result: 12") ++ [10] ++
      removelast (literal "DEMO:: x  will now exit") ++ [10]).
Proof.
  intros R Lg HB Hstr Hh Hpriv. unfold add_one_to_x, on_processes, in_world, in_prompt, on_ps, on_mem.
  apply safe_bind. do 4 apply safe_zoom.
  eapply safe_mono; [apply (heap_alloc_ok _ B); [exact HB|lia]|]. intros p m (Hp & HpB & HB' & _ & _ & Hhp & _).
  match goal with |- safe _ ?st _ => set (s1 := st) end.
  assert (ready id s1) as R1 by (destruct R; by split). apply safe_bind, runs_safe.
  eapply runs_mono; [apply (syscall_memcpy_correct g empty junk no_result frame regs id s1 p str 12 R1); [lia|right; lia|]|].
  { intros x Hx. apply Hpriv. unfold in_range in Hx. lia. }
  cbn beta. intros r s2 (-> & R2 & Hsh2 & _ & Hb2). apply safe_bind, safe_gets.
  assert (logging s2) as Lg2 by (unfold logging; by rewrite Hsh2).
  assert (cstr_at (w_bytes (world_of s2)) p hello) as Hcs.
  { destruct Hstr as [Hst Hz]. split; [|done]. intros i c Hi. rewrite Hb2, decide_True.
    - rewrite <- (Hst i c Hi). f_equal. lia.
    - apply lookup_lt_Some in Hi. cbn in Hi. unfold in_range. lia. }
  rewrite (string_at_ok _ _ _ Hcs).
  apply safe_bind, runs_safe. eapply runs_mono.
  { eapply (log_ok id s2 _ _ _ (removelast (literal "process x ::")) (removelast (literal "prt0: Hello world")) R2 Lg2); [reflexivity|reflexivity|cbn; lia]. }
  cbn beta. intros _ s3 (R3 & Lg3 & _ & Hps3 & Hl3). apply safe_bind, runs_safe. eapply runs_mono.
  { eapply (log_ok id s3 _ _ _ (removelast (literal "process x ::")) (removelast (literal "prt0 result: 12")) R3 Lg3); [reflexivity|reflexivity|cbn; lia]. }
  cbn beta. intros _ s4 (R4 & Lg4 & _ & Hps4 & Hl4). apply safe_bind. unfold safe at 1.
  rewrite count_up_ok by lia. apply runs_safe. eapply runs_mono.
  { eapply (log_ok id s4 _ _ _ (removelast (literal "DEMO::")) (removelast (literal "x  will now exit")) R4 Lg4); [reflexivity|reflexivity|cbn; lia]. }
  cbn beta. intros _ s5 (R5 & Lg5 & _ & Hps5 & Hl5). split; [done|]. split; [done|]. split.
  - exists p. rewrite Hps5, Hps4, Hps3, Hsh2. by split.
  - rewrite Hl5, Hl4, Hl3, Hsh2, <- !app_assoc. reflexivity.
Qed.

(** The user program shows its three lines, and leaves files and processes alone. *)
Definition user_lines : list (list Z) :=
  [10 :: removelast (literal "from user program") ++ [10];
   removelast (literal "it actually worked") ++ [10];
   removelast (literal "that like magic!!") ++ [10]].

Theorem user_main_correct (id : Z) s (a b c : Z) (l0 l1 l2 : list Z) : ready id s →
  user_lines = [l0; l1; l2] → cstr_at (w_bytes (world_of s)) a l0 →
  cstr_at (w_bytes (world_of s)) b l1 → cstr_at (w_bytes (world_of s)) c l2 →
  runs (user_main frame regs a b c) s (λ _ s', ready id s' ∧ files s' = files s ∧
    shown s' = shown s ++ user_lines ∧ ps (shell s') = ps (shell s)).
Proof.
  intros R E Ha Hb Hc. assert (Forall (λ l, plain l ∧ (length l < 1024)%nat) [l0; l1; l2]) as Hp.
  { rewrite <- E. repeat constructor; try (apply plain_check; reflexivity); cbn; lia. }
  apply list.Forall_cons in Hp as [[P0 L0] Hp]. apply list.Forall_cons in Hp as [[P1 L1] Hp].
  apply list.Forall_cons in Hp as [[P2 L2] _]. rewrite E. unfold user_main.
  apply runs_bind. eapply runs_mono; [by apply (print_call_ok g empty junk no_result frame regs id s a l0)|].
  cbn beta. intros _ s1 (R1 & F1 & S1 & c1 & C1).
  apply runs_bind. eapply runs_mono; [apply (print_call_ok g empty junk no_result frame regs id s1 b l1); try done|].
  { unfold w_bytes in *. by rewrite F1. }
  cbn beta. intros _ s2 (R2 & F2 & S2 & c2 & C2).
  apply runs_bind. eapply runs_mono; [apply (print_call_ok g empty junk no_result frame regs id s2 c l2); try done|].
  { unfold w_bytes in *. by rewrite F2, F1. }
  cbn beta. intros _ s3 (R3 & F3 & S3 & c3 & C3). apply runs_ret.
  split_and!; [done|by rewrite F3, F2, F1|by rewrite S3, S2, S1, <- !app_assoc|by rewrite C3, C2, C1].
Qed.

(** The idle process never returns. *)
Theorem process_idle_hangs s : runs (log "SCHEDULER::" "from idle process" []) s (λ _ _, True) →
  process_idle s = Hang.
Proof.
  intros H. apply runs_inv in H as ([] & s1 & H & _). unfold process_idle, mbind, M_bind. rewrite H.
  cbn [bind_result fst snd]. apply (loop_hangs _ (λ _ _, True)); [|done]. intros [] s2 _. by exists tt, s2.
Qed.

End correct.
