(* ===== verification/Startup.v ===== *)
(** * [src/kernel/startup.c]

    [_start]: the order in which the components are set up, on one machine.

    The machine is the descriptor tables and the interrupt state, whose world is
    the system of [Syscall] with the tar file system.  The heap of the file system
    and the memory of the processes are one memory: [in_files] runs an operation
    of the switch on the memory of the processes. *)

From S2P Require Import Prelude Machine Util Pmm PmmFrames Vmm Heap KheapCorrect Process Scheduler.
From S2P Require Import Formatter FormatterCorrect Keyboard Gdt Interrupts Ustar UstarCorrect Fs Vfs Prompt Syscall.

(** ** The machine *)

Record boot := Boot { b_tables : tables; b_int : istate (sys (F := ustate)) }.

Definition in_tables (f : tables → tables) : M boot unit := modify (λ b, Boot (f (b_tables b)) (b_int b)).
Definition in_int {A} (c : M (istate sys) A) : M boot A := zoom b_int (λ x b, Boot (b_tables b) x) c.
Definition in_sys {A} (c : M (sys (F := ustate)) A) : M boot A := in_int (zoom Interrupts.world Interrupts.set_world c).
Definition on_prompt {A} (c : M prompt A) : M boot A := in_sys (in_world (in_prompt c)).
Definition on_procs {A} (c : M pstate A) : M boot A := on_prompt (on_ps c).
Definition on_memory {A} (c : M kstate A) : M boot A := on_procs (on_mem c).

(** The file system on the memory of the processes. *)
Definition files_of (w : Syscall.world (F := ustate)) : vstate ustate :=
  Vfs.set_fs (set_heap (mem (ps (w_prompt w))) (Vfs.fs (w_vfs w))) (w_vfs w).
Definition put_files (v : vstate ustate) (w : Syscall.world (F := ustate)) : Syscall.world :=
  World v (set_ps (set_mem (heap (Vfs.fs v)) (ps (w_prompt w))) (w_prompt w)).
Definition in_files {A} (c : M (vstate ustate) A) : M boot A := in_sys (in_world (zoom files_of put_files c)).

(** What the linker and the boot loader provide: addresses of objects, of
    literals and of functions, the memory map, the kernel's image, the module with
    the archive; and what the serial port and the keyboard's port give. *)
Record platform := Platform {
  gdt_addr : Z; tss_addr : Z; idt_addr : Z;
  isr : Z → Z; irq : Z → Z; isr128 : Z;
  serial_answer : Z;
  keyboard_bytes : sys (F := ustate) → Z * Z;
  hhdm : Z; memmap : list limine_memmap_entry; image : kernel_image;
  module_address : Z;
  lit_ustar : Z; lit_main_memory : Z; lit_root : Z; lit_empty : Z;
  tar_filename : Z; dir_pathes : list Z; vfs_locals : Z → list Z;
  no_result : Z;
  wrapper : Z; f_idle : Z; f_prompt : Z; f_add_one_to_x : Z; f_add_one_to_y : Z;
}.

Section startup.
Context (P : platform).

#[local] Instance tar_ops : FsOps ustate := ustar_ops (tar_filename P) (lit_empty P) (dir_pathes P).

(** The handlers [timer_init] and [keyboard_init] install, on the whole system;
    a keyboard interrupt finds two bytes in the keyboard's port. *)
Definition timer_irq : Interrupts.handler (sys (F := ustate)) := λ frame,
  in_world (in_prompt (on_ps (timer_handler frame))).
Definition keyboard_irq : Interrupts.handler (sys (F := ustate)) := λ frame,
  in12 ← gets (keyboard_bytes P);
  in_world (in_prompt (on_kbd (keyboard_handler in12.1 in12.2)));;
  mret frame.

Definition name_idle : list Z := removelast (literal "idle process").
Definition name_adder1 : list Z := removelast (literal "adder1").
Definition name_adder2 : list Z := removelast (literal "adder2").
Definition ptr2_format : list Z := removelast (literal "ptr2 addr: %p value: %d") ++ [10; 0].

(** [_start] up to its final loop. *)
Definition start_up : M boot unit :=
  in_tables (gdt_init (gdt_addr P) (tss_addr P));;
  in_int (serial_init (serial_answer P));;
  in_int (idt_init (isr P) (irq P) (isr128 P) (idt_addr P));;
  on_memory (pmm_init (hhdm P) (memmap P));;
  on_memory (vmm_init (image P));;
  in_files (vfs_init (module_address P) (lit_ustar P) (lit_main_memory P) (lit_root P));;
  in_sys (syscall_init (lit_empty P) (vfs_locals P) (no_result P));;
  on_procs (scheduler_init (wrapper P) (f_idle P) name_idle);;
  on_prompt (prompt_init (wrapper P) (f_prompt P));;
  in_int (keyboard_init keyboard_irq);;
  ptr1 ← on_memory (heap_alloc 9000);
  on_memory (modify (store 8 ptr1 8765));;
  on_memory (heap_free ptr1);;
  on_procs (process_create (wrapper P) name_adder1 (f_add_one_to_x P) 0);;
  on_procs (process_create (wrapper P) name_adder2 (f_add_one_to_y P) 0);;
  ptr2 ← on_memory (heap_alloc 9000);
  on_memory (modify (store 8 ptr2 8765));;
  v ← on_memory (gets (λ m, load 8 m ptr2));
  on_prompt (print ptr2_format [ArgWord ptr2; ArgWord v]);;
  on_memory (heap_free ptr2);;
  in_int (timer_init timer_irq).

Definition _start : M boot unit :=
  start_up;;
  loop (λ _, mret (inl tt)) tt.

End startup.
