(* ===== verification/StartupCorrect.v ===== *)
(** * Correctness of [_start]

    The components' theorems, composed: from what the boot loader leaves,
    [_start] establishes the invariant of every component, or panics for lack of
    memory; the first timer interrupt then starts the idle process. *)

From S2P Require Import Prelude Machine Util Pmm Frames PmmFrames Vmm Kheap Heap KheapCorrect Process Scheduler.
From S2P Require Import Formatter FormatterCorrect Keyboard Gdt Interrupts InterruptsCorrect Entry EntryCorrect Threads Multitask.
From S2P Require Import VmmCorrect PromptCorrect.
From S2P Require Import Ustar UstarCorrect Fs Vfs VfsCorrect Prompt Syscall SyscallCorrect Startup.

(** ** Memory *)

Record memory_map_ok (hhdm : Z) (es : list limine_memmap_entry) : Prop := {
  mo_map : memmap_ok es;
  mo_hhdm : 0 ≤ hhdm ∧ highest es + hhdm < 2 ^ 64;
  mo_cover : map_top es ≤ 8 * map_bitmap_size es;
  mo_hole : is_Some (list_find (holds_bitmap (map_bitmap_size es)) es);
  mo_top : map_top es * PAGE_SIZE ≤ 2 ^ 52;
}.

Lemma empty_heap_ok s v root : vm_inv s (vmm_kernel s) v root → unlocked s v →
  rd 8 (ram s) (v + 16) = 0 → heap_ok s ∅.
Proof.
  intros I Hl Ha. exists v, root, ∅. split.
  - split; try done; intros *; by rewrite lookup_empty.
  - intros p. split; [by intros ?%elem_of_empty|]. intros (q & n & Hq & _). by rewrite lookup_empty in Hq.
Qed.

Lemma pmm_init_frames hhdm es s : memory_map_ok hhdm es → spin_lock s = 0 → bitmap_prev_index s = 0 →
  runs (pmm_init hhdm es) s (λ _ s', fr_inv s').
Proof.
  intros [HM [Hh Hend] Hcov [[i e] Hf] Htop] HL Hp.
  eapply runs_mono; [by apply (pmm_init_runs hhdm es s HM Hh Hend Hcov i e)|]. cbn beta.
  intros es' s' [-> Hb]. split.
  - by eapply (pmm_init_inv hhdm es s i e).
  - by destruct Hb as [-> _ _].
Qed.

Lemma vmm_init_heap img s : fr_inv s → image_ok img → safe (vmm_init img) s (λ _ s', heap_ok s' ∅).
Proof.
  intros HI Him. eapply safe_mono; [by apply vmm_init_ok|]. cbn beta.
  intros _ s' (v & root & [I Hl _ _ Ha] & _). by eapply empty_heap_ok.
Qed.

(** ** Processes *)

(** The processes created so far: all ready, numbered in order, each about to
    start its function in [fs] through the wrapper; the heap holds [B]. *)
Record processes_ok (wrapper : Z) (fs : list Z) (w : pstate) (l : list Z) (home : Z → gset Z)
    (ts : gmap Z cpu) (B : gset Z) : Prop := {
  po_threads : threads_inv w l home ts;
  po_heap : heap_ok (mem w) B;
  po_blocks : homes home l ∪ list_to_set l ⊆ B;
  po_only : ∀ x px, procs w !! x = Some px → x ∈ l;
  po_ids : ∀ (i : nat) x, l !! i = Some x →
    ∃ px, procs w !! x = Some px ∧ status px = READY ∧ pid px = Z.of_nat i + 1;
  po_next : next_pid w = Z.of_nat (length l) + 1;
  po_current : current_process w = 0;
  po_starts : Forall2 (λ x f, ∃ stack, ts !! x = Some (resume (start_context wrapper f 0 stack))) l fs;
}.
#[local] Arguments po_threads {_ _ _ _ _ _ _} _.
#[local] Arguments po_heap {_ _ _ _ _ _ _} _.

Definition no_processes (w : pstate) : Prop :=
  processes_list w = 0 ∧ procs w = ∅ ∧ current_process w = 0 ∧ next_pid w = 1.

Lemma start_processes wrapper w B : no_processes w → heap_ok (mem w) B →
  processes_ok wrapper [] w [] (λ _, ∅) ∅ B.
Proof.
  intros (Hl & Hp & Hc & Hn) HB.
  assert (homes (λ _, ∅) [] ∪ list_to_set [] ⊆ B) as Hsub by (intros x; unfold homes; cbn; set_solver).
  split; [|done|done| |done|done|done|constructor].
  - split; [split| | | |].
    + rewrite Hl. constructor.
    + constructor.
    + exists B. split; [done|]. by intros p ?%elem_of_nil.
    + done.
    + by exists B.
    + by intros x b ?%elem_of_nil.
    + by intros x y b ?%elem_of_nil.
    + by intros x k ?%elem_of_nil.
  - intros x px. by rewrite Hp.
Qed.

(** Work on the heap that keeps the blocks of the processes. *)
Lemma processes_mem wrapper fs w l home ts B B' m : processes_ok wrapper fs w l home ts B →
  heap_ok m B' → B ⊆ B' → blocks_kept (mem w) m B → processes_ok wrapper fs (set_mem m w) l home ts B'.
Proof.
  intros [[P HX Hh Ha Hs] HB Hsub Ho Hi Hn Hc Hf] Hm HB' K. split; try done; [|set_solver].
  assert (homes home l ∪ list_to_set l ⊆ B') as Hsub' by set_solver. split; try done.
  - destruct P as [L N _ Hl]. split; [done|done| |done]. exists B'. split; [done|].
    intros p Hp. apply Hsub', elem_of_union_r. by apply elem_of_list_to_set.
  - by exists B'.
  - intros x k Hx Hk. pose proof (Hs x k Hx Hk) as Sx. pose proof Sx as (px & b & Hpx & _).
    eapply (saved_kept w (set_mem m w) home x k B px px Sx K); [|done..]. intros b' Hb'.
    apply Hsub, elem_of_union_l, elem_of_homes. by exists x.
Qed.

Lemma create_process wrapper fs w l home ts B str function : processes_ok wrapper fs w l home ts B →
  Z.of_nat (length l) + 2 < 2 ^ 32 →
  safe (process_create wrapper str function 0) w (λ p w', ∃ home' ts' B',
    processes_ok wrapper (fs ++ [function]) w' (l ++ [p]) home' ts' B' ∧ B ⊆ B').
Proof.
  intros [I HB HX Hall Hid Hn Hc Hf] Hlen. pose proof (th_procs _ _ _ _ I) as PI.
  eapply safe_mono; [apply (process_create_at w l B); [done|done| |lia|done]|].
  { intros x Hx. apply HX, elem_of_union_r. by apply elem_of_list_to_set. }
  cbn beta. intros p w' (C & base & pr & Hpr & N).
  exists (add_home home p {[context pr; base]}),
    (<[p := resume (start_context wrapper function 0 (kstack pr))]> ts),
    ({[base]} ∪ ({[context pr]} ∪ ({[p]} ∪ B))).
  pose proof (create_threads w w' l home ts B I HX wrapper function 0 p base pr C Hpr N) as I'.
  split; [|set_solver]. split; [exact I'|apply N| | | | | |].
  - intros b [(x & Hx & Hb)%elem_of_homes|Hx%elem_of_list_to_set]%elem_of_union.
    + apply elem_of_app in Hx as [Hx| ->%list_elem_of_singleton].
      * destruct (home_old w w' l home B HX wrapper function 0 p base pr C x Hx) as [Eh Hh].
        rewrite Eh in Hb. apply Hh in Hb. set_solver.
      * unfold add_home in Hb. rewrite decide_True in Hb by done. set_solver.
    + apply elem_of_app in Hx as [Hx| ->%list_elem_of_singleton]; [|set_solver].
      assert (b ∈ B); [|set_solver]. apply HX, elem_of_union_r. by apply elem_of_list_to_set.
  - apply C.
  - intros i x Hi. apply lookup_app_Some in Hi as [Hi|[Hle Hi]].
    + destruct (Hid i x Hi) as (px & Hpx & Hst & Hpid).
      destruct (cr_keep _ _ _ _ _ _ _ C x px Hpx) as (px' & Hpx' & E).
      destruct (set_next_fields _ _ E) as (Es & _ & _ & _ & Ep & _). exists px'. split; [done|]. split; congruence.
    + apply list_lookup_singleton_Some in Hi as [Hi <-].
      destruct (cr_proc _ _ _ _ _ _ _ C) as (pr' & Hpr' & Hpid & Hst & _).
      exists pr'. split_and!; [done..|]. rewrite Hpid, Hn. lia.
  - rewrite (cr_pid _ _ _ _ _ _ _ C), Hn, length_app. cbn [length]. rewrite u64_small by lia. lia.
  - rewrite (cr_current _ _ _ _ _ _ _ C). done.
  - apply Forall2_app; [|repeat constructor; exists (kstack pr); by rewrite lookup_insert_eq].
    apply Forall2_same_length_lookup in Hf as [Hlf Hf]. apply Forall2_same_length_lookup. split; [done|].
    intros i x f Hx Hfi. destruct (Hf i x f Hx Hfi) as [st Hst]. exists st.
    rewrite lookup_insert_ne; [done|]. intros ->. apply (proj1 (cr_new _ _ _ _ _ _ _ C)).
    by eapply list_elem_of_lookup_2.
Qed.

(** ** The block that is allocated, written, read and freed *)

Lemma store_outside (P : Z → Prop) p v m : hhdm_offset m ≤ p →
  (∀ i, 0 ≤ i < 8 → P (cell (hhdm_offset m) (p + i))) → same_outside P (ram m) (ram (store 8 p v m)).
Proof.
  intros Hp HP. unfold store. cbn [ram set_ram]. eapply same_outside_mono; [|apply (same_outside_wr 8)].
  intros x Hx. specialize (HP (x - (p - hhdm_offset m))). unfold in_range, cell in *.
  rewrite (proj2 (Z.leb_le _ _)) in Hx by lia. rewrite (proj2 (Z.leb_le _ _)) in HP by lia.
  replace (p + (x - (p - hhdm_offset m)) - hhdm_offset m) with x in HP by lia. apply HP. lia.
Qed.

(** After [kalloc] and the assignment: a block [p] beside [B] that holds [v]. *)
Record scratch (m : kstate) (B : gset Z) (p : Z) (m' : kstate) : Prop := {
  sc_heap : heap_ok m' ({[p]} ∪ B);
  sc_new : 0 < p < 2 ^ 64 ∧ ¬ (p ∈ B);
  sc_kept : blocks_kept m m' B;
}.

Lemma scratch_alloc m B size : heap_ok m B → 8 ≤ size ≤ 2 ^ 32 →
  safe (heap_alloc size) m (λ p m1, scratch m B p m1 ∧
    ∀ v, scratch m B p (store 8 p v m1)).
Proof.
  intros HB Hsz. eapply safe_mono; [apply (heap_alloc_ok m B size HB); lia|]. cbn beta.
  intros p m1 (Hp & HpB & H1 & _ & K1 & Hh & H64 & Hd). pose proof K1 as [E1 _].
  split; [by split|]. intros v.
  assert (p ∈ {[p]} ∪ B) as Hin by set_solver.
  assert (same_outside (heap_data m1 p) (ram m1) (ram (store 8 p v m1))) as Ho.
  { apply store_outside; [lia|]. intros i Hi. apply Hd. lia. }
  destruct (heap_write_ok m1 _ p _ H1 Hin Ho) as (H2 & K2 & _).
  change (set_ram (ram (store 8 p v m1)) m1) with (store 8 p v m1) in H2, K2. split; [done|done|].
  eapply blocks_kept_trans; [exact K1|]. eapply blocks_kept_mono, K2. set_solver.
Qed.

Lemma scratch_free m B p m1 : scratch m B p m1 →
  runs (heap_free p) m1 (λ _ m2, heap_ok m2 B ∧ blocks_kept m m2 B).
Proof.
  intros [H1 [_ HpB] K]. eapply runs_mono; [apply (heap_free_ok m1 _ p H1); set_solver|]. cbn beta.
  intros _ m2 [H2 K2]. assert (({[p]} ∪ B) ∖ {[p]} = B) as E by set_solver. rewrite E in H2, K2.
  split; [done|]. by eapply blocks_kept_trans.
Qed.

(** ** What is printed *)

Definition ptr2_text (p : Z) : list Z :=
  removelast (literal "ptr2 addr: 0x") ++ hexadecimal p ++ removelast (literal " value: 8765") ++ [10].

Lemma ptr2_render p : 0 ≤ p < 2 ^ 64 → render ptr2_format [ArgWord p; ArgWord 8765] = Some (ptr2_text p) ∧
  (length (ptr2_text p) < 1024)%nat.
Proof.
  intros Hp. split.
  - rewrite <- (u64_small p Hp) at 2. reflexivity.
  - unfold ptr2_text. rewrite !length_app. assert (length (hexadecimal p) ≤ 16)%nat.
    { apply numeral_length; cbn; lia. }
    cbn. lia.
Qed.

Lemma kprintf_ok fmt a u s : render fmt a = Some u → (length u < 1024)%nat →
  terminal s = true → kprintf fmt a s = Ok (tt, on_screen u s).
Proof.
  intros Hr Hl Ht. unfold kprintf. rewrite (vkprintf_ok fmt a u) by done. unfold on_screen. by rewrite Ht.
Qed.

(** ** The composition *)

Abbreviation sys_of b := (Interrupts.world (b_int b)).
Abbreviation shell_of b := (w_prompt (world_of (sys_of b))).

(** What the boot loader leaves: a usable memory map, the kernel's image, the
    archive of [g] in memory, the static variables as they are initialised. *)
Record bootable (P : platform) (g : volume) (b : boot) : Prop := {
  bt_map : memory_map_ok (hhdm P) (memmap P);
  bt_image : image_ok (image P);
  bt_pmm : spin_lock (mem (ps (shell_of b))) = 0 ∧ bitmap_prev_index (mem (ps (shell_of b))) = 0;
  bt_archive : archive (w_bytes (FO := tar_ops P) (world_of (sys_of b))) (v_start g) (v_files g);
  bt_module : module_address P = v_start g;
  bt_bounds : 0 < v_start g ∧ v_start g + archive_length (v_files g) < 2 ^ 62;
  bt_apart : Ustar.apart (tar_filename P) 256 (v_start g) (archive_length (v_files g));
  bt_vfs : w_vfs (world_of (sys_of b)) = vfs_start (Vfs.fs (w_vfs (world_of (sys_of b))));
  bt_files : open_files (Vfs.fs (w_vfs (world_of (sys_of b)))) = replicate 512 0;
  bt_ustar : cstr_at (w_bytes (FO := tar_ops P) (world_of (sys_of b))) (lit_ustar P) ustar_name;
  bt_root : cstr_at (w_bytes (FO := tar_ops P) (world_of (sys_of b))) (lit_root P) [47];
  bt_idt : List.length (idt (b_int b)) = 256%nat;
  bt_entries : (∀ n, 0 ≤ isr P n < 2 ^ 64) ∧ (∀ n, 0 ≤ irq P n < 2 ^ 64) ∧ 0 ≤ isr128 P < 2 ^ 64;
  bt_irqs : irq_handlers (b_int b) = replicate 16 None;
  bt_syscalls : syscall_handlers (sys_of b) = no_handlers;
  bt_procs : no_processes (ps (shell_of b));
  bt_terminal : terminal (con (shell_of b)) = true;
}.

(** It loops, or it stops in a panic for lack of memory. *)
Definition never_returns {A} (r : result A) : Prop :=
  match r with Hang => True | Panic msg => msg = out_of_memory | _ => False end.

Section start.
Context (P : platform) (g : volume) (b0 : boot) (H : bootable P g b0).

#[local] Instance the_ops : FsOps ustate := tar_ops P.
#[local] Instance tar_view : FsView ustate := ustar_view (tar_filename P).
#[local] Instance tar_laws : FsLaws (FO := the_ops) (FV := tar_view) ustate :=
  ustar_laws (tar_filename P) (lit_empty P) (dir_pathes P).
#[local] Abbreviation vol := (g : @fs_volume ustate tar_view).

(** The bytes written to the ports. *)
Definition serial_bytes : list (Z * Z) :=
  [(0x3f9, 0); (0x3fb, 0x80); (0x3f8, 3); (0x3f9, 0); (0x3fb, 3); (0x3fa, 0xC7); (0x3fc, 0x0B);
   (0x3fc, 0x1E); (0x3f8, 0xAE)] ++ (if serial_answer P =? 0xAE then [(0x3fc, 0x0F)] else []).
Definition pit_bytes : list (Z * Z) := [(0x43, 0x36); (0x40, 0x9b); (0x40, 0x2e)].

Lemma serial_init_run (s : istate (sys (F := ustate))) :
  runs (serial_init (serial_answer P)) s (λ _ s', s' = set_ports (ports s ++ serial_bytes) s).
Proof.
  unfold runs, serial_init, outb, mbind, M_bind, modify, serial_bytes. cbn -[Z.eqb].
  destruct (serial_answer P =? 174); cbn; by rewrite <- !app_assoc.
Qed.

Lemma ports_programmed ps n p : 0 ≤ n < 16 →
  irq_vector (pics_after (serial_bytes ++ pic_bytes ++ pit_bytes) ps) n = Some (32 + n) ∧
  pit_after (serial_bytes ++ pic_bytes ++ pit_bytes) p = Pit 3 true (1193180 / 100).
Proof.
  intros Hn. unfold pics_after, pit_after. rewrite !fold_left_app.
  split; [|unfold serial_bytes; by destruct (_ =? _)].
  rewrite <- (irq_vector_initialised (fold_left pics_write serial_bytes ps) n Hn).
  unfold pics_after. by destruct (fold_left pics_write pic_bytes _).
Qed.

(** No file is open in the tar file system. *)
Definition closed (v : vstate ustate) : Prop := ∀ (i : nat) p, open_files (Vfs.fs v) !! i = Some p → p = 0.

Lemma closed_files v : ustar_inv (tar_filename P) g (Vfs.fs v) → (∀ j, ustar_opened (Vfs.fs v) j = None) → closed v.
Proof.
  intros I Ho i p Hp. destruct (decide (p = 0)) as [|Hp0]; [done|]. exfalso.
  destruct (ui_desc _ _ _ I i p Hp Hp0) as (r & e & _ & Hd). specialize (Ho (Z.of_nat i)).
  unfold ustar_opened in Ho. rewrite (proj2 (Z.ltb_ge _ _)), Nat2Z.id, Hp in Ho by lia. cbn in Ho.
  by rewrite (proj2 (Z.eqb_neq _ _) Hp0), Hd in Ho.
Qed.

(** ... on any memory: the invariant of the files holds. *)
Lemma files_on v m B : vfs_inv vol v → closed v → heap_ok m B → vfs_inv vol (Vfs.set_fs (set_heap m (Vfs.fs v)) v).
Proof.
  intros [Ifs Hm Hn Hlen Hslot Hfree Hinj] Hc HB. split; try done.
  apply (ustar_inv_heap _ g (Vfs.fs v) _ B Ifs HB). intros i x Hx Hx0. by destruct (Hx0 (Hc i x Hx)).
Qed.

(** The state between two calls of [_start]. *)
Record stage (b : boot) (irqs : list (option (Interrupts.handler (sys (F := ustate)))))
    (hs : list (option (handler (F := ustate)))) (c : console) (v : vstate ustate)
    (fs l : list Z) (home : Z → gset Z) (ts : gmap Z cpu) (B : gset Z) : Prop := {
  sg_tables : b_tables b = gdt_init (gdt_addr P) (tss_addr P) (b_tables b0);
  sg_idt : idt (b_int b) = write_gates (idt_entries (isr P) (irq P) (isr128 P)) (idt (b_int b0));
  sg_lidt : lidt (b_int b) = Some (Idtr 4095 (idt_addr P)) ∧ interrupts_on (b_int b) = true;
  sg_ports : ports (b_int b) = ports (b_int b0) ++ serial_bytes ++ pic_bytes;
  sg_irqs : irq_handlers (b_int b) = irqs;
  sg_syscalls : syscall_handlers (sys_of b) = hs;
  sg_con : con (shell_of b) = c;
  sg_vfs : w_vfs (world_of (sys_of b)) = v;
  sg_procs : processes_ok (wrapper P) fs (ps (shell_of b)) l home ts B;
}.

Ltac zooms := unfold on_memory, on_procs, on_prompt, in_files, in_sys, in_int, in_world, in_prompt, on_ps, on_mem;
  repeat apply safe_zoom.

Lemma first_stage (Q : unit → boot → Prop) (k : M boot unit) :
  (∀ b v B, stage b (replicate 16 None) no_handlers (con (shell_of b0)) v [] [] (λ _, ∅) ∅ B →
    vfs_inv vol v → (∀ fd, view v fd = None) → closed v →
    safe k b Q) →
  safe (in_tables (gdt_init (gdt_addr P) (tss_addr P));;
    in_int (serial_init (serial_answer P));;
    in_int (idt_init (isr P) (irq P) (isr128 P) (idt_addr P));;
    on_memory (pmm_init (hhdm P) (memmap P));;
    on_memory (vmm_init (image P));;
    in_files (vfs_init (module_address P) (lit_ustar P) (lit_main_memory P) (lit_root P));;
    k) b0 Q.
Proof.
  intros Hk. destruct H as [Hmap Himg [Hs0 Hp0] Har Hmod Hbd Hap Hv Hof Hu Hr _ _ Hirq Hsc Hpr _].
  sstep. unfold in_tables. sstep. sstep. zooms. apply runs_safe.
  eapply runs_mono; [apply serial_init_run|]. cbn beta. intros _ i1 ->. sstep. zooms.
  eapply (runs_safe), runs_ok; [apply idt_init_run|]. cbn [b_int b_tables idt irq_handlers isr_handlers ports Interrupts.world set_ports].
  sstep. zooms. apply runs_safe. eapply runs_mono; [by apply (pmm_init_frames (hhdm P) (memmap P))|].
  cbn beta. intros _ m1 HF. sstep. zooms. cbn -[vmm_init].
  eapply safe_mono; [by apply vmm_init_heap|]. cbn beta. intros _ m2 HB. sstep. zooms. unfold files_of. cbn -[vfs_init].
  rewrite Hv. cbn -[vfs_init].
  eapply safe_mono; [apply (vfs_init_closed vol (set_heap m2 (Vfs.fs (w_vfs (world_of (sys_of b0)))))); [|done|done]|].
  { rewrite Hmod. split; cbn; try done. by exists ∅. }
  cbn beta. intros _ v (Iv & _ & Hview & Ho). destruct (ui_heap _ _ _ (vi_fs _ _ Iv)) as (B & HB' & _).
  apply (Hk _ v B); [|done|done|by apply closed_files; [apply (vi_fs _ _ Iv)|]]. split; try done.
  - cbn [b_int ports]. by rewrite <- !app_assoc.
  - by apply start_processes.
Qed.

Section step.
Context (b : boot) (irqs : list (option (Interrupts.handler (sys (F := ustate))))).
Context (hs : list (option (handler (F := ustate)))) (c : console) (v : vstate ustate).
Context (fs l : list Z) (home : Z → gset Z) (ts : gmap Z cpu) (B : gset Z).
Context (S : stage b irqs hs c v fs l home ts B).

Definition put_shell (q : prompt) : boot :=
  Boot (b_tables b) (Interrupts.set_world (Syscall.set_world (set_prompt q (world_of (sys_of b))) (sys_of b)) (b_int b)).

Lemma stage_shell q c' fs' l' home' ts' B' : con q = c' → processes_ok (wrapper P) fs' (ps q) l' home' ts' B' →
  stage (put_shell q) irqs hs c' v fs' l' home' ts' B'.
Proof. destruct S. by split. Qed.

Lemma stage_create str f : (length fs < 100)%nat →
  safe (on_procs (process_create (wrapper P) str f 0)) b (λ _ b', ∃ l' home' ts' B',
    stage b' irqs hs c v (fs ++ [f]) l' home' ts' B' ∧ B ⊆ B').
Proof.
  intros Hl. pose proof (Forall2_length (po_starts _ _ _ _ _ _ _ (sg_procs _ _ _ _ _ _ _ _ _ _ S))) as El.
  zooms. eapply safe_mono; [apply (create_process _ _ _ _ _ _ _ str f (sg_procs _ _ _ _ _ _ _ _ _ _ S)); lia|].
  cbn beta. intros p w (home' & ts' & B' & HP & HB). exists (l ++ [p]), home', ts', B'. split; [|done].
  apply (stage_shell (set_ps w (shell_of b))); [|done]. exact (sg_con _ _ _ _ _ _ _ _ _ _ S).
Qed.

(** [kalloc], the assignment, what comes in between, and [kfree]. *)
Definition put_memory (m : kstate) : boot := put_shell (set_ps (set_mem m (ps (shell_of b))) (shell_of b)).

Lemma stage_scratch (k : Z → M boot unit) (Q : unit → boot → Prop) :
  (∀ p m1, 0 < p < 2 ^ 64 → (∀ x, scratch (mem (ps (shell_of b))) B p (store 8 p x m1)) →
    safe (k p) (put_memory (store 8 p 8765 m1)) Q) →
  safe (ptr ← on_memory (heap_alloc 9000); on_memory (modify (store 8 ptr 8765));; k ptr) b Q.
Proof.
  intros Hk. sstep. zooms.
  eapply safe_mono; [apply (scratch_alloc _ B 9000); [apply (po_heap (sg_procs _ _ _ _ _ _ _ _ _ _ S))|lia]|].
  cbn beta. intros p m1 [S1 S2]. sstep. zooms. sstep. apply (Hk p m1); [apply S1|exact S2].
Qed.

Lemma stage_memory m' c' : heap_ok m' B → blocks_kept (mem (ps (shell_of b))) m' B →
  stage (put_shell (set_con c' (set_ps (set_mem m' (ps (shell_of b))) (shell_of b)))) irqs hs c' v fs l home ts B.
Proof.
  intros HB K. apply stage_shell; [done|].
  by apply (processes_mem _ _ _ _ _ _ B); [apply (sg_procs _ _ _ _ _ _ _ _ _ _ S)|..].
Qed.

Lemma stage_use (k : M boot unit) (Q : unit → boot → Prop) :
  (∀ b', stage b' irqs hs c v fs l home ts B → safe k b' Q) →
  safe (ptr ← on_memory (heap_alloc 9000); on_memory (modify (store 8 ptr 8765));;
    on_memory (heap_free ptr);; k) b Q.
Proof.
  intros Hk. apply (stage_scratch (λ ptr, on_memory (heap_free ptr);; k)). intros p m1 Hp Sc. sstep. zooms.
  apply runs_safe. eapply runs_mono; [exact (scratch_free _ B p _ (Sc 8765))|]. cbn beta. intros _ m2 [HB K].
  apply Hk. pose proof (stage_memory m2 c HB K) as St. rewrite <- (sg_con _ _ _ _ _ _ _ _ _ _ S) in St at 1.
  exact St.
Qed.

Lemma stage_show (k : M boot unit) (Q : unit → boot → Prop) : terminal c = true →
  (∀ b' p, 0 < p < 2 ^ 64 → stage b' irqs hs (on_screen (ptr2_text p) c) v fs l home ts B → safe k b' Q) →
  safe (ptr ← on_memory (heap_alloc 9000); on_memory (modify (store 8 ptr 8765));;
    x ← on_memory (gets (λ m, load 8 m ptr));
    on_prompt (print ptr2_format [ArgWord ptr; ArgWord x]);;
    on_memory (heap_free ptr);; k) b Q.
Proof.
  intros Ht Hk. apply (stage_scratch (λ ptr, x ← on_memory (gets (λ m, load 8 m ptr));
    on_prompt (print ptr2_format [ArgWord ptr; ArgWord x]);; on_memory (heap_free ptr);; k)).
  intros p m1 Hp Sc. sstep. zooms. sstep. change (mem (ps _)) with (store 8 p 8765 m1) at 1.
  rewrite load_store_same. change (u64 8765) with 8765. destruct (ptr2_render p) as [Hr Hl]; [lia|].
  sstep. zooms. eapply runs_safe, runs_ok.
  { apply (kprintf_ok _ _ _ _ Hr Hl). change (terminal (con (shell_of b)) = true).
    by rewrite (sg_con _ _ _ _ _ _ _ _ _ _ S). }
  sstep. zooms. apply runs_safe. eapply runs_mono; [exact (scratch_free _ B p _ (Sc 8765))|].
  cbn beta. intros _ m2 [HB K]. apply (Hk _ p Hp). rewrite <- (sg_con _ _ _ _ _ _ _ _ _ _ S).
  exact (stage_memory m2 (on_screen (ptr2_text p) (con (shell_of b))) HB K).
Qed.

End step.

Lemma syscall_init_run (s : sys (F := ustate)) : syscall_handlers s = no_handlers →
  syscall_init (lit_empty P) (vfs_locals P) (no_result P) s
  = Ok (tt, Sys (installed (lit_empty P) (vfs_locals P) (no_result P)) (world_of s) (eoi_ports s)).
Proof. destruct s as [hs w e]. cbn [syscall_handlers]. intros ->. reflexivity. Qed.

Lemma irq_install_run n h (s : istate (sys (F := ustate))) : 0 ≤ n < 16 →
  List.length (irq_handlers s) = 16%nat →
  irq_install_handler n h s = Ok (tt, set_irq_handlers (<[Z.to_nat n := Some h]> (irq_handlers s)) s).
Proof.
  intros Hn Hl. unfold irq_install_handler, store_handler, mbind, M_bind, gets. cbn [bind_result fst snd].
  rewrite Hl. replace ((0 <=? n) && (n <? Z.of_nat 16)) with true; [done|].
  symmetry. apply andb_true_iff. rewrite Z.leb_le, Z.ltb_lt. lia.
Qed.

Lemma timer_init_run h (s : istate (sys (F := ustate))) : List.length (irq_handlers s) = 16%nat →
  timer_init h s
  = Ok (tt, set_ports (ports s ++ pit_bytes) (set_irq_handlers (<[0%nat := Some h]> (irq_handlers s)) s)).
Proof.
  intros Hl. unfold timer_init, mbind at 1, M_bind at 1. rewrite irq_install_run by (done || lia).
  unfold outb, mbind, M_bind, modify. cbn [bind_result fst snd ports set_ports set_irq_handlers].
  by rewrite <- !app_assoc.
Qed.

(** The state [_start] reaches. *)
Record started (b : boot) (l : list Z) (home : Z → gset Z) (ts : gmap Z cpu) : Prop := {
  st_tables : b_tables b = gdt_init (gdt_addr P) (tss_addr P) (b_tables b0);
  st_gates : ∀ v, 0 ≤ v < 256 → match expected (isr P) (irq P) (isr128 P) v with
    | Some (a, level) => view_gate <$> idt (b_int b) !! Z.to_nat v = Some (interrupt_gate a level)
    | None => idt (b_int b) !! Z.to_nat v = idt (b_int b0) !! Z.to_nat v
    end;
  st_lidt : lidt (b_int b) = Some (Idtr 4095 (idt_addr P)) ∧ interrupts_on (b_int b) = true;
  st_ports : ∃ ws, ports (b_int b) = ports (b_int b0) ++ ws ∧ ∀ ps p,
    (∀ n, 0 ≤ n < 16 → irq_vector (pics_after ws ps) n = Some (32 + n)) ∧
    pit_after ws p = Pit 3 true (1193180 / 100);
  st_irqs : irq_handlers (b_int b) = Some timer_irq :: Some (keyboard_irq P) :: replicate 14 None;
  st_syscalls : syscall_handlers (sys_of b) = installed (lit_empty P) (vfs_locals P) (no_result P);
  st_files : vfs_inv vol (w_vfs (world_of (sys_of b))) ∧ closed (w_vfs (world_of (sys_of b))) ∧
    ∀ fd, view (w_vfs (world_of (sys_of b))) fd = None;
  st_procs : ∃ B, processes_ok (wrapper P) [f_idle P; f_prompt P; f_add_one_to_x P; f_add_one_to_y P]
    (ps (shell_of b)) l home ts B;
  st_terminal : terminal (con (shell_of b)) = true;
  st_screen : ∃ p, screen (con (shell_of b)) = screen (con (shell_of b0)) ++ [[36; 58; 32]; ptr2_text p];
}.

Lemma stage_irqs b irqs hs c v fs l home ts B irqs' : stage b irqs hs c v fs l home ts B →
  stage (Boot (b_tables b) (set_irq_handlers irqs' (b_int b))) irqs' hs c v fs l home ts B.
Proof. intros []. by split. Qed.

Lemma stage_prompt b irqs hs c v fs l home ts B : stage b irqs hs c v fs l home ts B →
  (length fs < 100)%nat → terminal c = true →
  safe (on_prompt (prompt_init (wrapper P) (f_prompt P))) b (λ _ b', ∃ l' home' ts' B',
    stage b' irqs hs (on_screen [36; 58; 32] c) v (fs ++ [f_prompt P]) l' home' ts' B' ∧ B ⊆ B').
Proof.
  intros S Hl Ht. pose proof (sg_procs _ _ _ _ _ _ _ _ _ _ S) as HP. pose proof (Forall2_length (po_starts _ _ _ _ _ _ _ HP)) as El.
  unfold on_prompt, in_sys, in_int, in_world, in_prompt. do 4 apply safe_zoom. unfold prompt_init. sstep.
  apply safe_zoom. eapply safe_mono; [apply (create_process _ _ _ _ _ _ _ _ _ HP); lia|]. cbn beta.
  intros p w (home' & ts' & B' & HP' & HB). unfold print, on_con. apply safe_zoom.
  eapply runs_safe, runs_ok.
  { apply (kprintf_ok _ _ [36; 58; 32]); [done|cbn; lia|]. change (terminal (con (shell_of b)) = true).
    by rewrite (sg_con _ _ _ _ _ _ _ _ _ _ S). }
  exists (l ++ [p]), home', ts', B'. split; [|done].
  apply (stage_shell b irqs hs c v fs l home ts B S (set_con (on_screen [36; 58; 32] (con (shell_of b))) (set_ps w (shell_of b))));
    [|done]. cbn. by rewrite (sg_con _ _ _ _ _ _ _ _ _ _ S).
Qed.

Lemma safe_on_procs_ret {A} (x : M pstate A) b (Q : boot → Prop) :
  safe (on_procs x) b (λ _ b', Q b') → safe (on_procs (x;; mret tt)) b (λ _ b', Q b').
Proof.
  unfold safe, on_procs, on_prompt, in_sys, in_int, in_world, in_prompt, on_ps, zoom, mbind, M_bind.
  by destruct (x _) as [[]| | |].
Qed.

(** The end of [_start]. *)
Lemma stage_end b hs p v l home ts B :
  let c := on_screen (ptr2_text p) (on_screen [36; 58; 32] (con (shell_of b0))) in
  stage b (None :: Some (keyboard_irq P) :: replicate 14 None) hs c v
    [f_idle P; f_prompt P; f_add_one_to_x P; f_add_one_to_y P] l home ts B →
  hs = installed (lit_empty P) (vfs_locals P) (no_result P) →
  vfs_inv vol v → (∀ fd, view v fd = None) → closed v →
  safe (in_int (timer_init timer_irq)) b (λ _ b', started b' l home ts).
Proof.
  intros c S -> Iv Hview Hcl. pose proof S as [Et Ei El Ep Eq Es Ec Ev HP]. unfold in_int. apply safe_zoom.
  eapply runs_safe, runs_ok; [apply timer_init_run; by rewrite Eq|].
  destruct (bt_entries _ _ _ H) as (H1 & H2 & H3). split; cbn [b_tables b_int set_ports set_irq_handlers idt lidt
    interrupts_on ports irq_handlers Interrupts.world].
  - exact Et.
  - rewrite Ei. by apply idt_gates; [apply (bt_idt _ _ _ H)|..].
  - exact El.
  - exists (serial_bytes ++ pic_bytes ++ pit_bytes). rewrite Ep, <- !app_assoc. split; [done|].
    intros ps p'. split; [intros n Hn|]; [by apply (ports_programmed ps n p')|by apply (ports_programmed ps 0 p')].
  - by rewrite Eq.
  - exact Es.
  - rewrite Ev. done.
  - by exists B.
  - rewrite Ec. apply (bt_terminal _ _ _ H).
  - exists p. rewrite Ec. cbn. by rewrite <- app_assoc.
Qed.

Lemma start_up_reaches : safe (start_up P) b0 (λ _ b, ∃ l home ts, started b l home ts).
Proof.
  pose proof (bt_terminal _ _ _ H) as Ht. set (c0 := con (shell_of b0)) in *.
  unfold start_up. apply first_stage. intros b1 v B1 S1 Iv Hview Hin. fold c0 in S1.
  sstep. unfold in_sys at 1, in_int at 1. do 2 apply safe_zoom.
  eapply runs_safe, runs_ok; [apply syscall_init_run, (sg_syscalls _ _ _ _ _ _ _ _ _ _ S1)|].
  set (hs := installed _ _ _). set (b2 := Boot _ _).
  assert (stage b2 (replicate 16 None) hs c0 v [] [] (λ _, ∅) ∅ B1) as S2 by (destruct S1; by split).
  clearbody b2. sstep. unfold scheduler_init. apply (safe_on_procs_ret _ _ (λ b3, safe _ b3 _)).
  eapply safe_mono; [apply (stage_create _ _ _ _ _ _ _ _ _ _ S2); cbn; lia|]. cbn beta.
  intros _ b3 (l3 & home3 & ts3 & B3 & S3 & HB3). sstep.
  eapply safe_mono; [apply (stage_prompt _ _ _ _ _ _ _ _ _ _ S3); [cbn; lia|done]|]. cbn beta.
  intros _ b4 (l4 & home4 & ts4 & B4 & S4 & HB4). sstep. unfold keyboard_init, in_int at 1. apply safe_zoom.
  eapply runs_safe, runs_ok; [apply irq_install_run; [lia|by rewrite (sg_irqs _ _ _ _ _ _ _ _ _ _ S4)]|].
  rewrite (sg_irqs _ _ _ _ _ _ _ _ _ _ S4). apply (stage_irqs _ _ _ _ _ _ _ _ _ _ (<[Z.to_nat 1 := Some (keyboard_irq P)]> (replicate 16 None))) in S4.
  eapply (stage_use _ _ _ _ _ _ _ _ _ _ S4). clear S4. intros b5 S5. sstep.
  eapply safe_mono; [apply (stage_create _ _ _ _ _ _ _ _ _ _ S5); cbn; lia|]. cbn beta. clear S5.
  intros _ b6 (l6 & home6 & ts6 & B6 & S6 & HB6). sstep.
  eapply safe_mono; [apply (stage_create _ _ _ _ _ _ _ _ _ _ S6); cbn; lia|]. cbn beta. clear S6.
  intros _ b7 (l7 & home7 & ts7 & B7 & S7 & HB7).
  eapply (stage_show _ _ _ _ _ _ _ _ _ _ S7); [done|]. clear S7. intros b8 p Hp S8.
  eapply safe_mono; [by eapply (stage_end _ _ _ _ _ _ _ _ S8)|].
  cbn beta. intros _ b9 St. by exists l7, home7, ts7.
Qed.

(** A machine that continues the process [idle] with these processes. *)
Definition multitasking (w : pstate) (l : list Z) (home : Z → gset Z) (ts : gmap Z cpu) (idle : Z) (k : cpu) : Prop :=
  ∀ (i : istate pstate) c, Interrupts.world i = w → irq_handlers i !! 0%nat = Some (Some timer_handler) → c ≡ k →
    implements home (Mach c i) (ThreadsState idle false k (delete idle ts)) l.

Lemma first_multitasking w l home ts idle k : threads_inv w l home ts → current_process w = idle → idle ∈ l →
  (∃ pr, procs w !! idle = Some pr ∧ pid pr = 1 ∧ status pr = RUNNING) →
  (∀ x, x ∈ l → x ≠ idle → has_status (procs w) READY x ∧ is_Some (ts !! x)) →
  multitasking w l home ts idle k.
Proof.
  intros I Hc Hin (pr & Hpr & Hpid & Hst) Hot i c Hw Hh Hck.
  split; cbn [kern core running exited state suspended]; rewrite ?Hw; try done.
  - by apply threads_forget.
  - by exists pr.
  - apply lookup_delete_eq.
  - intros x px Hx Hne Hpx. destruct (Hot x Hx Hne) as [(px' & Hpx' & Hs) Hk]. assert (px' = px) as -> by congruence.
    split; [congruence|]. intros _. by rewrite lookup_delete_ne.
  - exists idle, pr. split_and!; [done..|by right].
Qed.

(** The first timer interrupt finds no current process and takes the first. *)
Lemma first_schedule fs w idle rest home ts B frame k : processes_ok (wrapper P) fs w (idle :: rest) home ts B →
  ts !! idle = Some k →
  runs (timer_handler frame) w (λ r w',
    multitasking w' (idle :: rest) home ts idle k ∧ (∃ B', heap_ok (mem w') B') ∧ current_process w' = idle ∧
    threads_inv w' (idle :: rest) home ts ∧
    (∃ pr, procs w' !! idle = Some pr ∧ pid pr = 1 ∧ status pr = RUNNING) ∧
    resume (context_at (mem w') r) ≡ k).
Proof.
  intros [I HB HX Hall Hid Hn Hc Hf] Hk. destruct (Hid 0%nat idle eq_refl) as (pg & Hpg & Hst & Hpid).
  unfold timer_handler. apply runs_bind. eapply runs_ok; [reflexivity|]. set (w2 := set_uptime _ w).
  assert (threads_inv w2 (idle :: rest) home ts) as I2 by by apply set_uptime_inv.
  assert (∀ x, x ∈ idle :: rest → has_status (procs w2) READY x) as Hready.
  { intros x [i Hi]%list_elem_of_lookup_1. destruct (Hid i x Hi) as (px & Hpx & Hs & _). by exists px. }
  assert (∀ st x, x ∈ idle :: rest → has_status (procs w2) st x → st = READY) as Honly.
  { intros st x Hx (px & Hpx & <-). destruct (Hready x Hx) as (px' & Hpx' & Hs). by simplify_eq. }
  assert (candidates pg idle rest = [] ++ idle :: rest) as Hcand by (unfold candidates; by rewrite Hst).
  assert (runnable (procs w2) (uptime w2) idle = true) as Hrun.
  { unfold runnable, can_run. change (procs w2) with (procs w). by rewrite Hpg, Hst. }
  assert (∀ x, x ∈ rest → ¬ has_status (procs w2) RUNNING x) as Hone.
  { intros x Hx Hs. by specialize (Honly RUNNING x ltac:(by right) Hs). }
  assert (suspend idle pg (resume (context_at (mem w) frame)) ts = ts) as Esus.
  { unfold suspend. rewrite decide_False; [done|]. by rewrite Hst. }
  pose proof (schedule_ok w2 (idle :: rest) idle frame idle rest pg (th_procs _ _ _ _ I2) (rot_refl _) Hpg
    (or_intror (conj Hc eq_refl)) Hone [] rest Hcand (Forall_nil _) Hrun) as R1.
  pose proof (schedule_switches w2 (idle :: rest) home ts I2 idle frame idle rest [] rest pg 0
    (resume (context_at (mem w) frame)) k (rot_refl _) Hpg (or_intror (conj Hc eq_refl)) Hone Hcand (Forall_nil _) Hrun) as R2.
  apply runs_inv in R1 as (r & w3 & E1 & l1 & p0 & pT & _ & _ & _ & _ & _ & _ & Hp0 & HpT & HsT & _ & HpidT & _).
  apply runs_inv in R2 as (r2 & w4 & E2 & l' & I4 & Hcur & _ & _ & Hset & Sub & G & _ & _ & Hres);
    [|intros E; congruence|by rewrite Esus].
  rewrite E1 in E2. injection E2 as <- <-. rewrite Esus in I4.
  assert (l' = idle :: rest) as ->.
  { apply sublist_full; [apply (pi_nodup _ _ (th_procs _ _ _ _ I2))|done|]. intros x Hx.
    destruct (G x Hx) as [|Hd]; [done|]. by specialize (Honly DEAD x Hx Hd). }
  assert (pid pT = 1) as Hpid1.
  { rewrite HpidT. unfold s1 in Hp0. rewrite decide_False in Hp0 by (by rewrite Hst).
    change (procs (s0 w2 idle)) with (procs w) in Hp0. simplify_eq. exact Hpid. }
  eapply runs_ok; [exact E1|]. split_and!; [|by destruct (th_heap _ _ _ _ I4) as (B' & HB' & _); exists B'|done|done| |done].
  - apply first_multitasking; [done|done|by left|by exists pT|]. intros x Hx Hne.
    destruct (Hset x Hx) as (px & px' & Hpx & Hpx' & _ & [?|[_ Hs]]); [done|].
    apply list_elem_of_lookup_1 in Hx as [i Hi]. destruct (Hid i x Hi) as (px2 & Hpx2 & Hs2 & _).
    change (procs w2) with (procs w) in Hpx. assert (px2 = px) as -> by congruence. split.
    + exists px'. split; [done|]. destruct Hs as [?|[? _]]; congruence.
    + destruct (Forall2_lookup_l _ _ _ i x Hf Hi) as (f & _ & stack & Hts). by rewrite Hts.
  - by exists pT.
Qed.

(** What runs after the first timer interrupt, when the processes [l], their blocks
    [home] and their saved states [ts] were there before it. *)
Record idle_runs (l : list Z) (home : Z → gset Z) (ts : gmap Z cpu) (r : Z) (s : sys (F := ustate)) : Prop := {
  ir_ready : ready vol (lit_empty P) (vfs_locals P) (no_result P) 1 (Syscall.set_world
    (set_vfs (files_of (world_of s)) (world_of s)) s);
  ir_saved : ∀ x k, x ∈ l → ts !! x = Some k → saved (ps (w_prompt (world_of s))) home x k;
  ir_threads : ∃ idle stack,
    let k := resume (start_context (wrapper P) (f_idle P) 0 stack) in
    head l = Some idle ∧ ts !! idle = Some k ∧
    resume (context_at (mem (ps (w_prompt (world_of s)))) r) ≡ k ∧
    multitasking (ps (w_prompt (world_of s))) l home ts idle k;
}.

Lemma first_tick_runs b l home ts frame : started b l home ts →
  runs (timer_irq frame) (sys_of b) (λ r s, idle_runs l home ts r s).
Proof.
  intros [_ _ _ _ _ Hsys (Iv & Hcl & _) [B HP] Ht _].
  pose proof (Forall2_length (po_starts _ _ _ _ _ _ _ HP)) as Hlen. destruct l as [|idle rest]; [done|].
  pose proof (po_starts _ _ _ _ _ _ _ HP) as Hst. inversion Hst as [|? ? ? ? [stack Hk] _]; subst.
  unfold timer_irq, in_world, in_prompt, on_ps. do 3 apply runs_zoom.
  eapply runs_mono; [by eapply (first_schedule _ _ idle rest home ts B frame)|]. cbn beta.
  intros r w (HM & [B' HB'] & Hcur & Inv & (pr & Hpr & Hpid & _) & Hres). split.
  - split.
    + exact Hsys.
    + exact (files_on _ _ B' Iv Hcl HB').
    + exact Ht.
    + exists pr. split; [|done]. cbn. by rewrite Hcur.
  - exact (th_saved _ _ _ _ Inv).
  - exists idle, stack. cbn zeta. split_and!; [done|exact Hk|exact Hres|exact HM].
Qed.

(** [C4] [_start] boots.  From what the boot loader leaves ([bootable]) it runs
    without a fault, or panics for lack of memory, and never returns.  When its
    calls have returned, the descriptor tables are loaded; each of the vectors
    0-47 and 128 is a present gate to its own entry point; the interrupt
    controllers deliver line [n] as vector [32 + n] and the timer is programmed;
    the timer and the keyboard handler are installed, and all system calls; the
    archive is mounted, no file is open; the process list holds the idle process,
    the prompt and the two adders with the numbers 1 to 4, all ready, each about to
    start its function through the wrapper on a stack of its own; no process is
    current; and the console shows the prompt and what was read back from the heap. *)
Theorem start_up_correct :
  safe (start_up P) b0 (λ _ b, ∃ l home ts, started b l home ts) ∧
  never_returns (_start P b0).
Proof.
  split; [exact start_up_reaches|]. pose proof start_up_reaches as S. unfold safe in S.
  unfold never_returns, _start, mbind, M_bind. destruct (start_up P b0) as [[[] b]| | |];
    [|exact S|destruct S|destruct S]. cbn [bind_result fst snd].
  rewrite (loop_hangs _ (λ _ _, True)); [exact Logic.I|intros [] s2 _; by exists tt, s2|exact Logic.I].
Qed.

(** [C26] The first timer interrupt after [_start] starts the idle process.  Let
    [l] be the processes when the calls of [_start] have returned, [home] their
    blocks and [ts] the processor states saved for them.  After the interrupt the
    first of [l] is current and runs, with the number 1; the interrupt returns to
    the state [ts] has for it, the wrapper with the idle function as its argument;
    every state of [ts] is still saved for its process; a machine that goes on from
    here implements the processes [l] with processors of their own, which hold the
    states of [ts] ([Multitask]); and the system is ready for the system calls of
    a process. *)
Theorem first_tick_correct (frame : Z) :
  safe (start_up P;; in_sys (timer_irq frame)) b0 (λ r b, ∃ b1 l home ts,
    start_up P b0 = Ok (tt, b1) ∧ started b1 l home ts ∧ idle_runs l home ts r (sys_of b)).
Proof.
  pose proof start_up_reaches as S. unfold safe in S.
  unfold mbind at 1, M_bind at 1, safe at 1. destruct (start_up P b0) as [[[] b1]| | |] eqn:E; [|exact S|done..].
  destruct S as (l & home & ts & St). cbn [bind_result fst snd].
  change (safe (in_sys (timer_irq frame)) b1 (λ r b, ∃ b2 l home ts,
    Ok (tt, b1) = Ok (tt, b2) ∧ started b2 l home ts ∧ idle_runs l home ts r (sys_of b))).
  unfold in_sys, in_int. do 2 apply safe_zoom. apply runs_safe.
  eapply runs_mono; [exact (first_tick_runs b1 l home ts frame St)|]. intros r s Hr.
  by exists b1, l, home, ts.
Qed.

End start.

(** ** An instance *)

(** A machine with 64 MiB, the archive and the literals of [VfsCorrect]. *)
Definition demo_memmap : list limine_memmap_entry := [Entry 0 4096 1; Entry 4096 67108864 0].
Definition demo_platform : platform :=
  Platform 0xffffffff80010000 0xffffffff80020040 0xffffffff80030000
    (λ n, 0x1000 + n mod 256) (λ n, 0x2000 + n mod 256) 0x3000 0xAE (λ _, (0, 0))
    Pmm.demo_hhdm demo_memmap demo_image 4096 100 110 120 900 demo_names (replicate 50 0) demo_local
    0 0x4000 0x4100 0x4200 0x4300 0x4400.
Definition demo_boot : boot :=
  Boot demo_tables (IState (replicate 256 (Gate 0 0 0 0 0 0 0)) (replicate 16 None) (replicate 32 None) None false []
    (Sys no_handlers (World (vfs_start (UState boot_state demo_fs_bytes 0 ∅ (replicate 512 0)))
      (demo_prompt [] (PState boot_state ∅ 0 0 1 0 0 false))) [])).

Lemma demo_memmap_ok : memory_map_ok Pmm.demo_hhdm demo_memmap.
Proof.
  split; [split; [simpl; lia|..]|by vm_compute|by vm_compute| |by vm_compute].
  - intros [|[|[|i]]] e; simpl; intros [= <-]; try done.
  - intros [|[|[|i]]] [|[|[|j]]] e f Hne; simpl; intros [= <-] [= <-]; done.
  - vm_compute. by eexists.
Qed.

Lemma demo_bootable : bootable demo_platform demo_volume demo_boot.
Proof.
  pose proof demo_fs_loaded as [_ Ha Hb Hap _ _]. destruct demo_literals as [Hu Hr].
  split; [exact demo_memmap_ok|exact (layout_image _ _ demo_layout)|done|exact Ha|done|exact Hb|exact Hap|
    done|done|exact Hu|exact Hr|done| |done|done|done|done].
  split_and!; [intros n; cbn; pose proof (Z.mod_pos_bound n 256 ltac:(lia)); lia..|done|done].
Qed.

Lemma start_up_correct_witness :
  safe (start_up demo_platform) demo_boot
    (λ _ b, ∃ l home ts, started demo_platform demo_volume demo_boot b l home ts) ∧
  never_returns (_start demo_platform demo_boot).
Proof. exact (start_up_correct demo_platform demo_volume demo_boot demo_bootable). Defined.

Lemma first_tick_correct_witness :
  safe (start_up demo_platform;; in_sys (timer_irq 8192)) demo_boot
    (λ r b, ∃ b1 l home ts, start_up demo_platform demo_boot = Ok (tt, b1) ∧
      started demo_platform demo_volume demo_boot b1 l home ts ∧
      idle_runs demo_platform demo_volume l home ts r (sys_of b)).
Proof. exact (first_tick_correct demo_platform demo_volume demo_boot demo_bootable 8192). Defined.
