(* ===== verification/Boot.v ===== *)
(** * [src/kernel/limine.h]: what the boot loader is asked for

    The requests the kernel places in its image, the responses the boot loader
    leaves for them, and the way [_start] depends on them: the code reads most
    responses without a test. *)

From S2P Require Import Prelude Machine Pmm Vmm Process Gdt Interrupts Ustar UstarCorrect Vfs Syscall Startup.

(** ** Requests *)

Definition LIMINE_COMMON_MAGIC : list Z := [0xc7b1dd30df4c8b88; 0x0a82e883a194f07b].
Definition LIMINE_HHDM_REQUEST : list Z :=
  LIMINE_COMMON_MAGIC ++ [0x48dcf1cb8ad2b852; 0x63984e959a98244b].
Definition LIMINE_FRAMEBUFFER_REQUEST : list Z :=
  LIMINE_COMMON_MAGIC ++ [0x9d5827dcd881dd75; 0xa3148604f6fab11b].
Definition LIMINE_TERMINAL_REQUEST : list Z :=
  LIMINE_COMMON_MAGIC ++ [0xc8ac59310c2b0844; 0xa68d0c7265d38878].
Definition LIMINE_MEMMAP_REQUEST : list Z :=
  LIMINE_COMMON_MAGIC ++ [0x67cf3d9d378a806f; 0xe304acdfc50c3c62].
Definition LIMINE_MODULE_REQUEST : list Z :=
  LIMINE_COMMON_MAGIC ++ [0x3e7e279702be32af; 0xca1c4f3bd1280cee].
Definition LIMINE_KERNEL_ADDRESS_REQUEST : list Z :=
  LIMINE_COMMON_MAGIC ++ [0x71ba76863cc55f63; 0xb2644a48c516a487].

(** A request as it lies in the kernel's image; the boot loader fills in the
    pointer to the response. *)
Record limine_request (R : Type) := Request { id : list Z; revision : Z; response : option R }.
Arguments Request {R}. Arguments id {R}. Arguments revision {R}. Arguments response {R}.

(** ** Responses

    An array with its count is a list. *)

Record limine_hhdm_response := HhdmResponse { hhdm_revision : Z; offset : Z }.
Record limine_framebuffer_response := FramebufferResponse {
  fb_revision : Z; framebuffers : list Z }.
Record limine_terminal_response := TerminalResponse {
  term_revision : Z; terminals : list Z; term_write : Z }.
Record limine_memmap_response := MemmapResponse {
  memmap_revision : Z; entries : list limine_memmap_entry }.
Record limine_file := LimineFile {
  file_revision : Z; file_address : Z; file_length : Z; file_path : Z; file_cmdline : Z }.
Record limine_module_response := ModuleResponse { module_revision : Z; modules : list limine_file }.
Record limine_kernel_address_response := KernelAddressResponse {
  kaddr_revision : Z; kaddr_physical_base : Z; kaddr_virtual_base : Z }.

(** The six requests of the kernel: [pmm.c], [vmm.c], [vfs.c], [fb.c] and
    [limine_term.c]. *)
Record requests := Requests {
  memmap_req : limine_request limine_memmap_response;
  hhdm_req : limine_request limine_hhdm_response;
  kaddr_req : limine_request limine_kernel_address_response;
  module_req : limine_request limine_module_response;
  frame_buf_req : limine_request limine_framebuffer_response;
  term_req : limine_request limine_terminal_response;
}.

(** As the compiler lays them out, before the boot loader runs. *)
Definition kernel_requests : requests :=
  Requests (Request LIMINE_MEMMAP_REQUEST 0 None) (Request LIMINE_HHDM_REQUEST 0 None)
    (Request LIMINE_KERNEL_ADDRESS_REQUEST 0 None) (Request LIMINE_MODULE_REQUEST 0 None)
    (Request LIMINE_FRAMEBUFFER_REQUEST 0 None) (Request LIMINE_TERMINAL_REQUEST 0 None).

Definition request_ids (q : requests) : list (list Z) :=
  [id (memmap_req q); id (hhdm_req q); id (kaddr_req q); id (module_req q);
   id (frame_buf_req q); id (term_req q)].

(** ** What [_start] takes from the responses

    The four it reads without a test, and the first module; [None] where it would
    follow a null pointer. *)
Definition answered (P : platform) (q : requests) : option platform :=
  memmap ← response (memmap_req q);
  hhdm ← response (hhdm_req q);
  kaddr ← response (kaddr_req q);
  loaded ← response (module_req q);
  file ← head (modules loaded);
  let i := image P in
  Some (Platform (gdt_addr P) (tss_addr P) (idt_addr P) (Startup.isr P) (Startup.irq P) (Startup.isr128 P)
    (serial_answer P) (keyboard_bytes P) (offset hhdm) (entries memmap)
    (KernelImage (text_start_addr i) (text_end_addr i) (rodata_start_addr i) (rodata_end_addr i)
      (data_start_addr i) (data_end_addr i) (kaddr_virtual_base kaddr) (kaddr_physical_base kaddr))
    (file_address file) (lit_ustar P) (lit_main_memory P) (lit_root P) (lit_empty P)
    (tar_filename P) (dir_pathes P) (vfs_locals P) (no_result P)
    (wrapper P) (f_idle P) (f_prompt P) (f_add_one_to_x P) (f_add_one_to_y P)).

(** ** Properties *)

(** The boot loader can tell the requests apart: their ids differ, in words of 64
    bits behind the common ones. *)
Lemma request_ids_distinct : NoDup (request_ids kernel_requests) ∧
  Forall (λ i, take 2 i = LIMINE_COMMON_MAGIC ∧ length i = 4%nat ∧ Forall (λ w, 0 ≤ w < 2 ^ 64) i)
    (request_ids kernel_requests).
Proof.
  split.
  - apply (bool_decide_unpack _). vm_compute. exact I.
  - repeat (constructor; [split_and!; [reflexivity|reflexivity|repeat (constructor; [lia|]); constructor]|]).
    constructor.
Qed.

(** A start needs the four responses and a module; what the boot loader says of the
    frame buffer and the terminal does not matter to it. *)
Lemma answered_iff P q : is_Some (answered P q) ↔
  is_Some (response (memmap_req q)) ∧ is_Some (response (hhdm_req q)) ∧
  is_Some (response (kaddr_req q)) ∧ ∃ r f fs, response (module_req q) = Some r ∧ modules r = f :: fs.
Proof.
  unfold answered. destruct (response (memmap_req q)) as [m|], (response (hhdm_req q)) as [h|],
    (response (kaddr_req q)) as [k|], (response (module_req q)) as [[? [|f fs]]|]; cbn; naive_solver.
Qed.
